(* ===== verification/_CoqProject ===== *)
-Q . S2P
Prelude.v
Records.v
LockSet.v
SignalSafety.v
Buffer.v
BufferConc.v
Text.v
Runtime.v
Preload.v
Pmu.v
Lifecycle.v
DetectCore.v
Detect.v
DetectSpec.v
DetectTypes.v
EndToEnd.v
Benchmark.v
Convert.v
ConvertSpec.v
SampleReader.v
AddrSim.v
AddrSimSpec.v
SimPipeline.v
SimGo.v
SimDetect.v
ExprSim.v
Framework.v
Layout.v
LayoutSpec.v
ByteBuffer.v
RawReader.v
Reader.v
