(* ===== verification/Prelude.v ===== *)
(** * Racez: a verified model of a sampling race detector

    Racez finds data races in running C and C++ programs.  A shared library, preloaded
    into the program, keeps for every thread the set of mutexes it holds and lets the
    hardware performance counters pick memory accesses; each picked access is logged with
    the locks held at that moment.  After the run the offline tools read the log: the
    symbolizer turns addresses into functions and offsets, a compiler pass computes from
    the sampled registers the addresses that were accessed and adds the accesses of the
    neighbouring instructions, the detector runs a lockset algorithm per memory address and
    writes warnings, the printer shows the log.

    ** The parts and how they interact

    - The wrappers of racez_preload.c stand in front of pthread_mutex_lock,
      pthread_mutex_unlock, pthread_cond_wait, pthread_cond_signal, pthread_create, malloc
      and free.  Around the real functions they call [add_one_mutex] and
      [remove_one_mutex] (racez_mutex.cc), which keep the thread-local [LOCKSET] of
      racez_lockset.cc, and [WriteRecord] for allocations and condition variables.  A
      lockset is itself allocated with the preloaded [malloc].
    - [racez_start] and [racez_stop] call [pmu_profiler_start] and [pmu_profiler_stop]
      (racez_pmuprofiler.cc), which open and close the event buffer; every thread attaches
      a counter of its own ([pmuprofiler_context_attach]).
    - The counter's signal runs [signal_handler] in the sampled thread: it reads the
      thread's lockset and its sampling buffer and calls [WriteRecord].
    - The event buffer (racez_bufferdata.cc) is shared by all threads; [StopBuffer] writes
      it to the log file.
    - tools/detect.cc, tools/convert.cc and tools/read.cc read the log file.
    - The pass of mao-patch/patch ([InstructSimPass]) reads the file tools/convert.cc
      leaves, fills addresses into the log and writes a second file of added records; the
      detector reads the log and the second file.
    - benchmarks/test/test-1.c is a program with a race; util/util.cc has the stubs a
      program is linked with when the library is not preloaded.

    ** The files

    - Prelude.v: faults, the state-and-fault monad [M], its triples, machine integers, C
      arrays, the tactic [run_m] and the hint database [racez].
    - Records.v: [struct Record] of racez_bufferdata.h with its union as one storage.
    - LockSet.v: racez_lockset.{h,cc}, racez_mutex.{h,cc}.  The code is written against the
      class [HasTls] (a state with thread-local storage), so the same definitions run on
      the storage alone and on the whole runtime state.
    - SignalSafety.v: the two lockset operations statement by statement, with handlers
      that lock and unlock between the statements.
    - Buffer.v: racez_bufferdata.{h,cc}, with the memory blocks and the files;
      BufferConc.v: [WriteRecord] calls that interleave, one atomic add or store at a time.
    - Text.v: [printf], [strtoll], [atoi] and line reading, as far as they are used.
    - Runtime.v: the globals of the preloaded library as one record [rt], an instance of
      [HasTls]; Preload.v: the wrappers and the configuration from the environment; Pmu.v:
      the signal path; Lifecycle.v: attach, start, stop, thread creation.
    - DetectCore.v: the state machine of tools/detect.cc on one address; Detect.v: its maps,
      warnings, memory reuse, file merging and options; DetectSpec.v: the specification of
      the whole tool and the refinement; DetectTypes.v: the consistency of its maps on any
      input.
    - EndToEnd.v: properties from the running program to the detector's input.
    - Benchmark.v: test-1.c as threads of actions that run through the wrappers, the
      attaching and the signal path, with [main] around them; the stubs of util.cc.
    - Convert.v, ConvertSpec.v: tools/convert.cc and what it computes.
    - SampleReader.v: [RacezProfileReader] of the patch.
    - AddrSim.v: [InstructSimPass] of the patch; AddrSimSpec.v: the reference walk it
      computes and the class [Machine] against which the added addresses are shown to be
      real; SimPipeline.v: what the pass may change in the files, whatever the program is,
      and that its loops end; SimGo.v: the reference for the walk of [Go] over entries and
      samples; SimDetect.v: the functions the pass can analyse, and the detector behind it.
    - ExprSim.v: the older simulation of the patch with symbolic expressions
      ([ExecuteSim]), which nothing calls; Framework.v: the walks and the
      instruction-to-block map the patch adds to the compiler.
    - Layout.v: C types with the layout of the x86-64 ABI, the five declarations of
      [struct Record] (the library's, the tools', the pass's), and the assignments of
      [WriteRecord] on bytes; LayoutSpec.v: [view], the record of Records.v that bytes stand
      for, and that the declarations agree; ByteBuffer.v: the buffer operations on memory
      and their simulation by those of Buffer.v, on a kernel that takes each record whole or
      not at all, and what happens to the log when it takes a part.
    - RawReader.v: [RacezRawReader] of tools/convert.cc as an object, with its streams and
      its heap block.
    - Reader.v: tools/read.cc on the bytes of a log, and the printing functions of
      tools/detect.cc.

    A function of the source that can stop (a failed [assert], [exit], an access out of
    bounds, a null pointer, undefined behaviour) is in [M S A]: it yields [Ret a s] or
    [Stop f s].  A theorem that says that code returns therefore says that no assertion
    fails and no memory is accessed outside its object.  A loop that would need more rounds
    than its fuel stops with [OutOfFuel], which no other outcome is, so that a theorem that
    says how a loop ends says that it ends.

    ** What the theorems show

    - The lockset operations: behaviour on every branch; in any interleaving of lock and
      unlock calls the recorded lockset is contained in the multiset of mutexes held, and
      equals it while no thread fills the ten slots; the same for the preloaded wrappers
      with the preloaded [malloc].  With handlers between the statements, adding is safe
      below the last slot; at the last slot and for removal the handler breaks it.
    - The buffer: a session writes exactly the events logged, in order; interleaved
      writers have the effect of the calls in the order of their atomic adds, and under
      every scheduling all calls under way return; what happens at and past the end of the
      buffer.
    - Bytes: the operations on memory and those on records end alike, with the same results
      and faults; the five programs that declare the record agree on its size and on every
      member; from the bytes of a log file, with an incomplete record at its end or not,
      every tool reads the events the library was given.
    - Sampling: one overflow logs one record with the locks and the stack of the thread,
      for the Intel and the AMD path, on the Core 2 a second one from the interrupted
      context, and the sampling period stays within its bounds; every lock the detector
      later reads from a record is held, as long as sampling is enabled.
    - Start and stop: a session round trip, for either value [racez_start] may find where
      [pmu_profiler_start] has no return statement; on all three processors the descriptor
      and the sampling buffer are registered before the counter runs; the runs in which stop
      or a second start fail their assertions.
    - The detector: the machine refines the lockset algorithm ([spec_status],
      [candidate]), and the tool refines the specification of DetectSpec.v; warnings are
      sound, an address protected by one mutex is not reported, an address is reported at
      most once, a free forgets the addresses of its block and no others, the two input
      files are merged by record number; on any input, well-formed or not, its maps stay
      consistent and no pointer from them is null.
    - The test program, on an AMD processor with the writing of records switched on: in
      every interleaving in which both threads are sampled at the shared variable, the log
      of the session makes the detector report it.
    - The address simulation: the pass reads back what the symbolizer writes; its walk over
      a basic block adds the records of the reference walk, and on a machine that keeps
      the registers an instruction does not write, with no register written in part, the
      added addresses are those accessed, [lea] apart; the pass keeps the numbers, threads
      and locks of the log, so that the detector's run on its output refines the
      specification; the instructions for which the walk is wrong.  The walk over the
      samples of a function simulates each of them once, at the instruction at its offset,
      and its loops end.
    - The expression simulation: when it reports an address and which; what it takes for
      an address or keeps although it is not one.  The framework additions: the walks visit
      every instruction once, and the map finds the block of every instruction.
    - The symbolizer: the symbol-table grammar, the nearest function at or below an
      address, one output line per symbolized record, and the inputs on which it stops.
      The reader object computes the same from streams; what it closes and frees, and what
      it leaves open or dangling.
    - The printer: it ends with the read that fails, and two logs are printed alike exactly
      when they show the same.

    ** Bounds and fuel

    - [remove_loop] runs [lock_count - i] times and [skid_loop] the skid count: the fuel is
      the number of iterations.
    - [write_loop] walks from [start_] to [global_] inclusive; [loop_fuel] is one more than
      the number of entries between them, and [write_loop_spec] proves that this reaches
      the end for every buffer the operations produce.
    - [chunks] reads a file with [fgets]; every call consumes a character, so the length
      of the text plus one is enough ([chunks_read_all]).  [hex_digits] produces at most
      the sixteen digits of a 64-bit value.
    - [advance] and [skip_to_instruction] go to the next entry in every round and
      [for_samples] uses up a sample, so [entry_fuel] and the number of samples are enough
      rounds; SimPipeline.v proves that none of them runs out of rounds.
    - [fread_all], [sym_lines], [raw_records] and [Read.read_loop] consume at least a byte or a character in
      every round, and [byte_write_loop] has the bound of [write_loop]; that the fuel is
      enough is part of the theorems, which say that the code returns.  [follow] calls
      [NextInstruction] or [PrevInstruction], which move by an entry at least, once per
      entry.
    - The loops of test-1.c run as often as the source says; nothing is unrolled.
    - Integers are [Z] with [wrap32] and [wrap64] where the source converts or overflows:
      record numbers, allocation sizes and addresses.

    ** Parameters

    What is not in the repository is an argument: [sizeof_Record] (class [Platform]) or,
    where the bytes matter, the size, alignment and contents of the hardware entry (class
    [PebsEntry], from the perfmon headers; [record_platform] is the platform it gives), the
    results of the real pthread and allocation functions,
    [getenv] and [dlsym], the answers of libpfm, libunwind and the kernel ([sample],
    [attach_env]), the value a caller finds where a function falls off its end without a
    return statement ([junk]; C++ leaves the run undefined, the compiled code goes on with
    whatever the result register holds), the bit fields of the IBS registers ([ibsldop], [ibsstop], [ibsopctl]),
    the texts readelf and addr2line print, the sign of [strcmp] (class [Strcmp]) and the
    sorted permutation of [std::sort] (class [StdSort]).  For the pass: what the compiler
    framework's accessors answer (the fields of [InstructionEntry] and [Function_];
    [GetRegisterOperand], which yields nothing where the framework's own assertion stops
    the pass), what a read through the end of the list of samples yields or whether it stops
    the program ([end_offset]), the working directory, which writes succeed ([write_ok]), and
    the machine ([Machine], whose only law is that an instruction keeps what it does not
    write); for the expression simulation also the numbers of the registers ([reg_num]),
    the size of the register table, [IsPredicated], and what fresh memory holds
    ([garbage]).

    ** Not modelled

    The messages printed by the runtime library; the empty [preload_start]; the unused
    [print_vect] and the declared but undefined [ReadRawLine] of tools/convert.cc; the text
    of [usage]; the registration of the pass and the build file of the compiler; the
    scripts of the benchmarks.

    ** Plan

    In order: the records of the condition variables from the wrappers to the log; samples
    of a function whose code comes from several source files, for which [Go] stops early;
    the expression simulation's walks against the machine of AddrSimSpec.v.

    ** This file

    The vocabulary the other files share. *)

From stdpp Require Import base gmap list sets strings fin_maps sorting.

Open Scope Z_scope.

(** ** Faults

    The ways a run of the program can stop before its function returns. *)

Inductive fault :=
  | AssertFailed                (** an [assert] of the source is false *)
  | Exited (status : Z)         (** [exit], [err], [errx], [fatal_error] *)
  | OutOfBounds                 (** an access outside an array or a block *)
  | NullDeref                   (** a null pointer is dereferenced *)
  | Undefined                   (** any other undefined behaviour *)
  | OutOfFuel.                  (** not of the program: a loop needs more rounds than the model has *)

#[export] Instance fault_eq_dec : EqDecision fault.
Proof. solve_decision. Defined.

(** ** The state-and-fault monad

    A C function that works on a state [S] and yields an [A] is a [M S A].  The
    state reached is kept when the run faults. *)

Inductive out (S A : Type) :=
  | Ret (a : A) (s : S)
  | Stop (f : fault) (s : S).
Arguments Ret {S A} a s.
Arguments Stop {S A} f s.

Definition M (S A : Type) : Type := S → out S A.

#[export] Instance M_ret S : MRet (M S) := λ A a s, Ret a s.

#[export] Instance M_bind S : MBind (M S) := λ A B k m s,
  match m s with
  | Ret a s' => k a s'
  | Stop f s' => Stop f s'
  end.

Definition fail {S A} (f : fault) : M S A := λ s, Stop f s.
Definition get {S} : M S S := λ s, Ret s s.
Definition gets {S A} (p : S → A) : M S A := λ s, Ret (p s) s.
Definition modify {S} (g : S → S) : M S unit := λ s, Ret tt (g s).

(** [assert(b)] of the source. *)
Definition c_assert {S} (b : bool) : M S unit :=
  if b then mret tt else fail AssertFailed.

(** Reading through a pointer that may be [NULL]. *)
Definition deref {S A} (p : option A) : M S A :=
  match p with Some a => mret a | None => fail NullDeref end.

(** [when b m]: the body of an [if] without [else]. *)
Definition when {S} (b : bool) (m : M S unit) : M S unit :=
  if b then m else mret tt.

Fixpoint for_each {S A} (l : list A) (body : A → M S unit) : M S unit :=
  match l with
  | [] => mret tt
  | a :: l' => body a ;; for_each l' body
  end.

(** Running a component's code inside a larger state. *)
Definition zoom {S T A} (getter : S → T) (setter : T → S → S) (m : M T A) : M S A :=
  λ s, match m (getter s) with
       | Ret a t => Ret a (setter t s)
       | Stop f t => Stop f (setter t s)
       end.

Section monad_laws.
Context {S A B : Type}.
Implicit Types (m : M S A) (k : A → M S B) (s : S).

Lemma bind_assoc {C} m k (h : B → M S C) s :
  ((m ≫= k) ≫= h) s = (m ≫= λ a, k a ≫= h) s.
Proof. unfold mbind, M_bind. by destruct (m s). Qed.

Lemma bind_Ret m k s a s' : m s = Ret a s' → (m ≫= k) s = k a s'.
Proof. intros E. unfold mbind, M_bind. by rewrite E. Qed.

Lemma bind_Stop m k s f s' : m s = Stop f s' → (m ≫= k) s = Stop f s'.
Proof. intros E. unfold mbind, M_bind. by rewrite E. Qed.

Lemma bind_Ret_inv m k s b s'' :
  (m ≫= k) s = Ret b s'' → ∃ a s', m s = Ret a s' ∧ k a s' = Ret b s''.
Proof. unfold mbind, M_bind. destruct (m s); naive_solver. Qed.
End monad_laws.

(** ** Total-correctness triples

    [⦃ P ⦄ m ⦃ Q ⦄] says that from every state of [P] the code returns (no fault)
    and its result and final state are in [Q]. *)

Definition triple {S A} (P : S → Prop) (m : M S A) (Q : A → S → Prop) : Prop :=
  ∀ s, P s → ∃ a s', m s = Ret a s' ∧ Q a s'.

Declare Scope racez_scope.
Delimit Scope racez_scope with racez.
#[warnings="-closed-notation-not-level-0"]
Notation "⦃ P ⦄ m ⦃ Q ⦄" := (triple P m Q) (at level 20, P, m, Q at level 200) : racez_scope.
Open Scope racez_scope.

(** The lemmas the components register for [eauto with racez]. *)
Create HintDb racez.

Section triples.
Context {S : Type}.

Lemma triple_bind {A B} (P : S → Prop) (R : A → S → Prop) (Q : B → S → Prop)
    (m : M S A) (k : A → M S B) :
  ⦃ P ⦄ m ⦃ R ⦄ → (∀ a, ⦃ R a ⦄ k a ⦃ Q ⦄) → ⦃ P ⦄ m ≫= k ⦃ Q ⦄.
Proof.
  intros Hm Hk s (a & s' & E & HR)%Hm.
  rewrite (bind_Ret _ _ _ _ _ E). by apply Hk.
Qed.

Lemma triple_conseq {A} (P P' : S → Prop) (Q Q' : A → S → Prop) (m : M S A) :
  (∀ s, P' s → P s) → (∀ a s, Q a s → Q' a s) → ⦃ P ⦄ m ⦃ Q ⦄ → ⦃ P' ⦄ m ⦃ Q' ⦄.
Proof.
  intros HP HQ Hm s Hs. destruct (Hm s (HP s Hs)) as (a & s' & E & HQa).
  exists a, s'. auto.
Qed.

Lemma triple_for_each {A} (I : S → Prop) (l : list A) (body : A → M S unit) :
  (∀ a, a ∈ l → ⦃ I ⦄ body a ⦃ λ _, I ⦄) → ⦃ I ⦄ for_each l body ⦃ λ _, I ⦄.
Proof.
  induction l as [|a l IH]; intros Hb; simpl.
  - intros s Hs. by exists tt, s.
  - apply triple_bind with (R := λ _, I); [apply Hb; set_solver|].
    intros _. apply IH. intros b Hin. apply Hb. set_solver.
Qed.
End triples.

(** ** Machine integers

    An [int] is a [Z] in [[-2^31, 2^31)]; a pointer or an [unsigned long long] a
    [Z] in [[0, 2^64)].  [wrap32] is the conversion to [int], [wrap64] the one to an
    unsigned 64-bit value. *)

Definition INT_MAX : Z := 2147483647.
Definition INT_MIN : Z := -2147483648.

Definition wrap32 (z : Z) : Z := (z + 2 ^ 31) mod 2 ^ 32 - 2 ^ 31.
Definition wrap64 (z : Z) : Z := z mod 2 ^ 64.
Arguments wrap32 : simpl never.
Arguments wrap64 : simpl never.

Definition is_int (z : Z) : Prop := INT_MIN ≤ z ≤ INT_MAX.
Definition is_word (z : Z) : Prop := 0 ≤ z < 2 ^ 64.

#[export] Instance is_int_dec z : Decision (is_int z).
Proof. unfold is_int. apply _. Defined.
#[export] Instance is_word_dec z : Decision (is_word z).
Proof. unfold is_word. apply _. Defined.

Lemma wrap32_id z : is_int z → wrap32 z = z.
Proof. unfold is_int, wrap32, INT_MIN, INT_MAX. intros H. rewrite Z.mod_small; lia. Qed.

Lemma wrap32_range z : is_int (wrap32 z).
Proof.
  unfold is_int, wrap32, INT_MIN, INT_MAX.
  pose proof (Z.mod_pos_bound (z + 2 ^ 31) (2 ^ 32)). lia.
Qed.

Lemma wrap64_id z : is_word z → wrap64 z = z.
Proof. unfold is_word, wrap64. intros H. by apply Z.mod_small. Qed.

Lemma wrap64_range z : is_word (wrap64 z).
Proof. unfold is_word, wrap64. apply Z.mod_pos_bound. lia. Qed.

(** ** C arrays

    An array of a fixed length is a list; an access outside it faults. *)

Definition in_range {A} (l : list A) (i : Z) : bool :=
  bool_decide (0 ≤ i < Z.of_nat (length l)).

Definition arr_get {S A} (l : list A) (i : Z) : M S A :=
  if in_range l i then
    match l !! Z.to_nat i with Some a => mret a | None => fail OutOfBounds end
  else fail OutOfBounds.

Definition arr_set {S A} (l : list A) (i : Z) (a : A) : M S (list A) :=
  if in_range l i then mret (<[Z.to_nat i := a]> l) else fail OutOfBounds.

(** The loop [for (i = 0; i < cnt; i++) dst[i] = src[i]]. *)
Definition copy_prefix {A} (cnt : Z) (src dst : list A) : list A :=
  take (Z.to_nat cnt) src ++ drop (Z.to_nat cnt) dst.

Definition arr_copy {S A} (cnt : Z) (src dst : list A) : M S (list A) :=
  if bool_decide (cnt ≤ Z.of_nat (length src) ∧ cnt ≤ Z.of_nat (length dst))
  then mret (copy_prefix cnt src dst)
  else fail OutOfBounds.

(** ** Running monadic code in proofs *)

Ltac run_m :=
  unfold mbind, M_bind, mret, M_ret, gets, get, modify, when, fail, c_assert, deref; simpl.

Tactic Notation "run_m" "in" hyp(H) :=
  unfold mbind, M_bind, mret, M_ret, gets, get, modify, when, fail, c_assert, deref in H; simpl in H.

Section arrays.
Context {S A : Type}.
Implicit Types (l : list A) (s : S).

Lemma arr_get_Some l i a s :
  0 ≤ i → l !! Z.to_nat i = Some a → arr_get l i s = Ret a s.
Proof.
  intros Hi Hl. unfold arr_get, in_range.
  pose proof (lookup_lt_Some _ _ _ Hl).
  rewrite bool_decide_eq_true_2 by lia. by rewrite Hl.
Qed.

Lemma arr_set_ok l i a s :
  0 ≤ i < Z.of_nat (length l) → arr_set l i a s = Ret (<[Z.to_nat i := a]> l) s.
Proof. intros Hi. unfold arr_set, in_range. by rewrite bool_decide_eq_true_2. Qed.

Lemma arr_set_oob l i a s :
  ¬ 0 ≤ i < Z.of_nat (length l) → arr_set l i a s = Stop OutOfBounds s.
Proof. intros Hi. unfold arr_set, in_range. by rewrite bool_decide_eq_false_2. Qed.

Lemma arr_copy_ok cnt l (dst : list A) s :
  cnt ≤ Z.of_nat (length l) → cnt ≤ Z.of_nat (length dst) →
  arr_copy cnt l dst s = Ret (copy_prefix cnt l dst) s.
Proof. intros H1 H2. unfold arr_copy. by rewrite bool_decide_eq_true_2. Qed.

Lemma take_copy_prefix cnt l (dst : list A) :
  cnt ≤ Z.of_nat (length l) →
  take (Z.to_nat cnt) (copy_prefix cnt l dst) = take (Z.to_nat cnt) l.
Proof. intros H. unfold copy_prefix. rewrite take_app_le; [|rewrite length_take; lia].
  rewrite take_take. f_equal. lia. Qed.

Lemma length_copy_prefix cnt l (dst : list A) :
  cnt ≤ Z.of_nat (length l) → cnt ≤ Z.of_nat (length dst) →
  length (copy_prefix cnt l dst) = length dst.
Proof. intros. unfold copy_prefix. rewrite length_app, length_take, length_drop. lia. Qed.
End arrays.

Lemma for_each_app {S A} (l1 l2 : list A) (body : A → M S unit) s :
  for_each (l1 ++ l2) body s = (for_each l1 body ;; for_each l2 body) s.
Proof.
  revert s. induction l1 as [|a l1 IH]; intros s; [done|]. simpl. run_m.
  destruct (body a s) as [[] s1|]; [|done]. rewrite IH. run_m. done.
Qed.

(** Loops and sequences that agree step by step. *)
Lemma for_each_ext {S A} (l : list A) (g h : A → M S unit) s :
  (∀ a s, a ∈ l → g a s = h a s) → for_each l g s = for_each l h s.
Proof.
  revert s. induction l as [|a l IH]; intros s Hgh; [done|]. simpl. run_m. rewrite Hgh by set_solver.
  destruct (h a s) as [[] s1|]; [|done]. apply IH. intros. apply Hgh. set_solver.
Qed.

Lemma bind_eq {S A B} (m m' : M S A) (k : A → M S B) s : m s = m' s → (m ≫= k) s = (m' ≫= k) s.
Proof. intros E. unfold mbind, M_bind. by rewrite E. Qed.

Lemma bind_ext {S A B} (m : M S A) (k k' : A → M S B) s : (∀ a t, k a t = k' a t) → (m ≫= k) s = (m ≫= k') s.
Proof. intros E. unfold mbind, M_bind. by destruct (m s). Qed.
