(* ===== verification/Records.v ===== *)
(** * The log record

    [struct Record] of racez_bufferdata.h, which the runtime writes and the offline
    tools (tools/detect.cc, tools/convert.cc, tools/read.cc) read back with the same
    declaration.  The union [op_] is kept as one storage: it has the fields of its
    largest member [memory_access_], and the smaller members are views of the first
    two machine words, as on the little-endian x86-64 the program is built for. *)

From S2P Require Import Prelude.
From stdpp Require Import base numbers list.

Open Scope Z_scope.

(** ** The record type tag *)

Inductive RecordType :=
  | MEMORY_OP
  | SYNC_LOCK
  | SYNC_UNLOCK
  | SYNC_SIGNAL
  | SYNC_WAIT
  | MEMORY_ALLOC.

#[export] Instance RecordType_eq_dec : EqDecision RecordType.
Proof. solve_decision. Defined.

(** The enumerator's value: what the [type_] field holds. *)
Definition RecordType_val (t : RecordType) : Z :=
  match t with
  | MEMORY_OP => 1
  | SYNC_LOCK => 2
  | SYNC_UNLOCK => 3
  | SYNC_SIGNAL => 4
  | SYNC_WAIT => 5
  | MEMORY_ALLOC => 6
  end.

(** ** The register file of a sample

    The fields of [pfm_pebs_core_smpl_entry_t] that the code reads and writes. *)

Record pebs_entry := mkPebs {
  eflags : Z; ip : Z;
  eax : Z; ebx : Z; ecx : Z; edx : Z; esi : Z; edi : Z; ebp : Z; esp : Z;
  r8 : Z; r9 : Z; r10 : Z; r11 : Z; r12 : Z; r13 : Z; r14 : Z; r15 : Z
}.

#[export] Instance pebs_entry_eq_dec : EqDecision pebs_entry.
Proof. solve_decision. Defined.

(** ** The union [op_] *)

Record op_union := mkOp {
  memory_address_ : Z;
  pip_ : Z;
  sip_ : Z;
  is_write_ : Z;
  mem_op_ : pebs_entry;
  lock_count_ : Z;
  lockset_ : list Z
}.

#[export] Instance op_union_eq_dec : EqDecision op_union.
Proof. solve_decision. Defined.

(** [lock_op_], [signal_op_] and [wait_op_] overlay the first two words. *)
Definition lock_address_ (o : op_union) : Z := memory_address_ o.
Definition signal_address_ (o : op_union) : Z := memory_address_ o.
Definition wait_address1_ (o : op_union) : Z := memory_address_ o.
Definition wait_address2_ (o : op_union) : Z := pip_ o.

(** [mem_alloc_op_]: a pointer, then two [int]s that share the word of [pip_]. *)
Definition start_address_ (o : op_union) : Z := memory_address_ o.
Definition size_ (o : op_union) : Z := wrap32 (pip_ o).
Definition is_alloc_ (o : op_union) : Z := wrap32 (pip_ o / 2 ^ 32).

Definition set_memory_address (v : Z) (o : op_union) : op_union :=
  mkOp v (pip_ o) (sip_ o) (is_write_ o) (mem_op_ o) (lock_count_ o) (lockset_ o).
Definition set_pip (v : Z) (o : op_union) : op_union :=
  mkOp (memory_address_ o) v (sip_ o) (is_write_ o) (mem_op_ o) (lock_count_ o) (lockset_ o).
Definition set_sip (v : Z) (o : op_union) : op_union :=
  mkOp (memory_address_ o) (pip_ o) v (is_write_ o) (mem_op_ o) (lock_count_ o) (lockset_ o).
Definition set_is_write (v : Z) (o : op_union) : op_union :=
  mkOp (memory_address_ o) (pip_ o) (sip_ o) v (mem_op_ o) (lock_count_ o) (lockset_ o).
Definition set_mem_op (v : pebs_entry) (o : op_union) : op_union :=
  mkOp (memory_address_ o) (pip_ o) (sip_ o) (is_write_ o) v (lock_count_ o) (lockset_ o).
Definition set_lock_count (v : Z) (o : op_union) : op_union :=
  mkOp (memory_address_ o) (pip_ o) (sip_ o) (is_write_ o) (mem_op_ o) v (lockset_ o).
Definition set_lockset (v : list Z) (o : op_union) : op_union :=
  mkOp (memory_address_ o) (pip_ o) (sip_ o) (is_write_ o) (mem_op_ o) (lock_count_ o) v.

Definition set_alloc_size (v : Z) (o : op_union) : op_union :=
  set_pip (pip_ o / 2 ^ 32 * 2 ^ 32 + v mod 2 ^ 32) o.
Definition set_alloc_flag (v : Z) (o : op_union) : op_union :=
  set_pip (v mod 2 ^ 32 * 2 ^ 32 + pip_ o mod 2 ^ 32) o.

(** ** The record *)

Record RacezRecord := mkRecord {
  record_no_ : Z;
  thread_id_ : Z;
  type_ : Z;
  op_ : op_union;
  stack_trace_ : list Z;
  trace_depth_ : Z
}.

#[export] Instance RacezRecord_eq_dec : EqDecision RacezRecord.
Proof. solve_decision. Defined.

Definition set_record_no (v : Z) (r : RacezRecord) : RacezRecord :=
  mkRecord v (thread_id_ r) (type_ r) (op_ r) (stack_trace_ r) (trace_depth_ r).
Definition set_thread_id (v : Z) (r : RacezRecord) : RacezRecord :=
  mkRecord (record_no_ r) v (type_ r) (op_ r) (stack_trace_ r) (trace_depth_ r).
Definition set_type (t : RecordType) (r : RacezRecord) : RacezRecord :=
  mkRecord (record_no_ r) (thread_id_ r) (RecordType_val t) (op_ r) (stack_trace_ r) (trace_depth_ r).
Definition set_op (o : op_union) (r : RacezRecord) : RacezRecord :=
  mkRecord (record_no_ r) (thread_id_ r) (type_ r) o (stack_trace_ r) (trace_depth_ r).
Definition upd_op (f : op_union → op_union) (r : RacezRecord) : RacezRecord :=
  set_op (f (op_ r)) r.
Definition set_trace (st : list Z) (d : Z) (r : RacezRecord) : RacezRecord :=
  mkRecord (record_no_ r) (thread_id_ r) (type_ r) (op_ r) st d.

(** [record.type_ == t] *)
Definition type_is (t : RecordType) (r : RacezRecord) : bool :=
  bool_decide (type_ r = RecordType_val t).

(** [memset(&record, 0, sizeof(record))] *)
Definition zero_pebs : pebs_entry := mkPebs 0 0 0 0 0 0 0 0 0 0 0 0 0 0 0 0 0 0.
Definition zero_op : op_union := mkOp 0 0 0 0 zero_pebs 0 (replicate 10 0).
Definition zero_record : RacezRecord := mkRecord 0 0 0 zero_op (replicate 10 0) 0.

(** [Record::operator<]: by record number, then by the word at [pip_], whatever the
    type tag says. *)
Definition record_lt (a b : RacezRecord) : bool :=
  if record_no_ a <? record_no_ b then true
  else if (record_no_ a =? record_no_ b) && (pip_ (op_ a) <? pip_ (op_ b)) then true
  else false.

(** ** Well-formed storage

    The sizes of the two arrays and the ranges of the fields, as the C types give
    them. *)

Record op_wf (o : op_union) : Prop := {
  wf_memory_address : is_word (memory_address_ o);
  wf_pip : is_word (pip_ o);
  wf_lockset_len : length (lockset_ o) = 10%nat
}.

Record record_wf (r : RacezRecord) : Prop := {
  wf_op : op_wf (op_ r);
  wf_trace_len : length (stack_trace_ r) = 10%nat
}.

#[export] Hint Resolve wf_memory_address wf_pip wf_lockset_len wf_op wf_trace_len : racez.

(** ** Facts on the union's views *)

Lemma wrap32_mod z : wrap32 (z mod 2 ^ 32) = wrap32 z.
Proof. unfold wrap32. rewrite Z.add_mod_idemp_l by lia. done. Qed.

Lemma wrap32_congr a b : a mod 2 ^ 32 = b mod 2 ^ 32 → wrap32 a = wrap32 b.
Proof. intros E. rewrite <- (wrap32_mod a), <- (wrap32_mod b). by rewrite E. Qed.

Lemma size_set_alloc_size v o : size_ (set_alloc_size v o) = wrap32 v.
Proof.
  unfold size_, set_alloc_size; simpl. apply wrap32_congr.
  rewrite Z.add_comm, Z_mod_plus_full. by rewrite Z.mod_mod by lia.
Qed.

Lemma is_alloc_set_alloc_flag v o : is_alloc_ (set_alloc_flag v o) = wrap32 v.
Proof.
  unfold is_alloc_, set_alloc_flag; simpl.
  rewrite Z.div_add_l by lia.
  rewrite (Z.div_small (pip_ o mod 2 ^ 32)) by (apply Z.mod_pos_bound; lia).
  rewrite Z.add_0_r. apply wrap32_mod.
Qed.

Lemma size_set_alloc_flag v o : size_ (set_alloc_flag v o) = size_ o.
Proof.
  unfold size_, set_alloc_flag; simpl. apply wrap32_congr.
  rewrite Z.add_comm, Z_mod_plus_full. by rewrite Z.mod_mod by lia.
Qed.

Lemma is_alloc_set_alloc_size v o : is_alloc_ (set_alloc_size v o) = is_alloc_ o.
Proof.
  unfold is_alloc_, set_alloc_size; simpl.
  rewrite Z.div_add_l by lia.
  rewrite (Z.div_small (v mod 2 ^ 32)) by (apply Z.mod_pos_bound; lia).
  by rewrite Z.add_0_r.
Qed.

Lemma record_lt_irrefl a : record_lt a a = false.
Proof. unfold record_lt. by rewrite Z.ltb_irrefl, Z.eqb_refl, Z.ltb_irrefl. Qed.

Lemma record_lt_spec a b :
  record_lt a b = true ↔
  record_no_ a < record_no_ b ∨
  (record_no_ a = record_no_ b ∧ pip_ (op_ a) < pip_ (op_ b)).
Proof.
  unfold record_lt.
  destruct (Z.ltb_spec (record_no_ a) (record_no_ b)); [naive_solver|].
  destruct (Z.eqb_spec (record_no_ a) (record_no_ b)); simpl; [|naive_solver lia].
  destruct (Z.ltb_spec (pip_ (op_ a)) (pip_ (op_ b))); naive_solver lia.
Qed.

Lemma record_lt_trans a b c : record_lt a b = true → record_lt b c = true → record_lt a c = true.
Proof. rewrite !record_lt_spec. lia. Qed.

(** Two records are equivalent for [operator<] when number and [pip_] agree. *)
Definition record_equiv (a b : RacezRecord) : bool :=
  negb (record_lt a b) && negb (record_lt b a).

Lemma record_equiv_spec a b :
  record_equiv a b = true ↔ record_no_ a = record_no_ b ∧ pip_ (op_ a) = pip_ (op_ b).
Proof.
  unfold record_equiv.
  destruct (record_lt a b) eqn:E1; destruct (record_lt b a) eqn:E2; simpl;
    rewrite ?record_lt_spec in *;
    repeat match goal with H : record_lt _ _ = false |- _ =>
      apply not_true_iff_false in H; rewrite record_lt_spec in H end;
    naive_solver lia.
Qed.
