(* ===== verification/LockSet.v ===== *)
(** * The per-thread lockset

    racez_lockset.h, racez_lockset.cc, racez_mutex.h and racez_mutex.cc: the
    thread-local [LOCKSET] that records the mutexes a thread holds, and the two
    operations [add_one_mutex] and [remove_one_mutex] the preloaded pthread
    functions call around the real ones. *)

From S2P Require Import Prelude.
From stdpp Require Import base gmap list gmultiset.

Open Scope Z_scope.

(** ** The structure *)

Record LOCKSET := mkLOCKSET {
  ls_n : Z;
  ls_overflow : Z;
  ls_lockset : list Z
}.

#[export] Instance LOCKSET_eq_dec : EqDecision LOCKSET.
Proof. solve_decision. Defined.

Definition set_ls_n (v : Z) (l : LOCKSET) : LOCKSET := mkLOCKSET v (ls_overflow l) (ls_lockset l).
Definition set_ls_overflow (v : Z) (l : LOCKSET) : LOCKSET := mkLOCKSET (ls_n l) v (ls_lockset l).
Definition set_ls_slots (v : list Z) (l : LOCKSET) : LOCKSET := mkLOCKSET (ls_n l) (ls_overflow l) v.

(** ** One statement at a time

    The bodies below are split at the statements of the source, so that a signal
    can be placed between any two of them (SignalSafety.v). *)

(** [lockset->n++] and [lockset->n--] on an [int]. *)
Definition bump_n (d : Z) : M LOCKSET unit :=
  v ← gets ls_n;
  if bool_decide (is_int (v + d)) then modify (set_ls_n (v + d)) else fail Undefined.

(** [lockset->lockset_[i] = v] *)
Definition store_slot (i v : Z) : M LOCKSET unit :=
  a ← gets ls_lockset;
  a' ← arr_set a i v;
  modify (set_ls_slots a').

(** [lockset->lockset_[i]] *)
Definition load_slot (i : Z) : M LOCKSET Z :=
  a ← gets ls_lockset; arr_get a i.

(** [lockset->lockset_[lockset->n-1] = mutex] *)
Definition add_store (mutex : Z) : M LOCKSET unit :=
  v ← gets ls_n; store_slot (v - 1) mutex.

(** [if (lockset->n == 10) lockset->overflow = true] *)
Definition add_check : M LOCKSET unit :=
  v ← gets ls_n; when (v =? 10) (modify (set_ls_overflow 1)).

(** The body of [add_one_mutex] once the lockset exists. *)
Definition lockset_add (mutex : Z) : M LOCKSET unit :=
  o ← gets ls_overflow;
  when (o =? 0) (bump_n 1 ;; add_store mutex ;; add_check).

(** [lockset->lockset_[i] = lockset->lockset_[lock_count - 1]] *)
Definition remove_copy (i lock_count : Z) : M LOCKSET unit :=
  v ← load_slot (lock_count - 1); store_slot i v.

(** [if (lockset->overflow == true) lockset->overflow = false] *)
Definition remove_check : M LOCKSET unit :=
  o ← gets ls_overflow; when (o =? 1) (modify (set_ls_overflow 0)).

(** The loop of [remove_one_mutex]; [fuel] is [lock_count - i]. *)
Fixpoint remove_loop (fuel : nat) (mutex lock_count i : Z) : M LOCKSET unit :=
  match fuel with
  | O => mret tt
  | S fuel' =>
      v ← load_slot i;
      if v =? mutex then
        bump_n (-1) ;; remove_copy i lock_count ;; remove_check
      else remove_loop fuel' mutex lock_count (i + 1)
  end.

(** The body of [remove_one_mutex] once the lockset exists. *)
Definition lockset_remove (mutex : Z) : M LOCKSET unit :=
  lock_count ← gets ls_n;
  remove_loop (Z.to_nat lock_count) mutex lock_count 0.

(** The delay loop [for (i = 0; i < k; i++) sum += i] both operations run first when
    [racez_sample_skid] is set. *)
Fixpoint skid_loop (fuel : nat) (i sum : Z) : Z :=
  match fuel with
  | O => sum
  | S fuel' => skid_loop fuel' (i + 1) (sum + i)
  end.

(** ** Thread-local storage

    The key and the block each thread has set under it.  A thread's block is
    reachable only through its own slot of the key, so the block is kept in the slot. *)

Record tls_state := mkTls {
  key_once : bool;
  tls : gmap Z LOCKSET
}.

(** What the lockset code needs of the state it runs in: a place for the
    thread-local storage, and [malloc], which in this library is the preloaded one
    and may do more than allocate. *)
Class HasTls (S : Type) := {
  tls_get : S → tls_state;
  tls_set : tls_state → S → S;
  tls_get_set : ∀ t s, tls_get (tls_set t s) = t;
  tls_set_get : ∀ s, tls_set (tls_get s) s = s
}.

#[export] Instance HasTls_self : HasTls tls_state.
Proof. by exists id (λ t _, t). Defined.

Section tls_ops.
Context {S : Type} {HS : HasTls S}.
(** [malloc(sizeof(LOCKSET))]: [None] is [NULL], [Some] the ten words found in the
    array of the new block. *)
Context (malloc : M S (option (list Z))).
Context (racez_sample_skid : Z).
(** The calling thread. *)
Context (tid : Z).

(** [pthread_once(&key_once, make_key)] *)
Definition Create_Tls_Key : M S unit :=
  modify (λ s, tls_set (mkTls true (tls (tls_get s))) s).

(** [pthread_getspecific]: [NULL] when nothing was set.  The first call of a process comes
    before any key was created, with the key that the zeroed static variable names; POSIX
    leaves that undefined.  The GNU C library, on which this library is built, returns
    [NULL] for a key that is not in use, and the model follows it.  (If another library has
    created key 0 by then, what it stored there is returned; that run is not modelled.) *)
Definition GetPerThreadLockset : M S (option LOCKSET) :=
  gets (λ s, if key_once (tls_get s) then tls (tls_get s) !! tid else None).

Definition put_lockset (l : LOCKSET) : M S unit :=
  modify (λ s, tls_set (mkTls (key_once (tls_get s)) (<[tid := l]> (tls (tls_get s)))) s).

Definition SetPerThreadLockset : M S unit :=
  block ← malloc;
  words ← deref block;
  s ← get;
  if key_once (tls_get s) then put_lockset (mkLOCKSET 0 0 words) else fail Undefined.

(** Running a lockset body on the block of the calling thread. *)
Definition on_lockset (m : M LOCKSET unit) : M S unit := λ s,
  match tls (tls_get s) !! tid with
  | Some l =>
      match m l with
      | Ret _ l' => put_lockset l' s
      | Stop f l' => match put_lockset l' s with Ret _ s' => Stop f s' | Stop g s' => Stop g s' end
      end
  | None => Stop NullDeref s
  end.

(** The lines both operations share: make the lockset on the first use. *)
Definition need_lockset : M S unit :=
  lockset ← GetPerThreadLockset;
  match lockset with
  | Some _ => mret tt
  | None => Create_Tls_Key ;; SetPerThreadLockset
  end.

Definition add_one_mutex (mutex : Z) : M S unit :=
  let sum := if racez_sample_skid =? 0 then 0 else skid_loop 2500 0 0 in
  need_lockset ;; on_lockset (lockset_add mutex).

Definition remove_one_mutex (mutex : Z) : M S unit :=
  let sum := if racez_sample_skid =? 0 then 0 else skid_loop 5000 0 0 in
  need_lockset ;; on_lockset (lockset_remove mutex).
End tls_ops.

(** ** Elementary facts *)

Lemma bump_n_ok d l :
  is_int (ls_n l + d) → bump_n d l = Ret tt (set_ls_n (ls_n l + d) l).
Proof. intros H. unfold bump_n. run_m. by rewrite bool_decide_eq_true_2. Qed.

Lemma store_slot_ok i v l :
  0 ≤ i < Z.of_nat (length (ls_lockset l)) →
  store_slot i v l = Ret tt (set_ls_slots (<[Z.to_nat i := v]> (ls_lockset l)) l).
Proof. intros H. unfold store_slot. run_m. by rewrite arr_set_ok. Qed.

Lemma load_slot_ok i v l :
  0 ≤ i → ls_lockset l !! Z.to_nat i = Some v → load_slot i l = Ret v l.
Proof. intros H1 H2. unfold load_slot. run_m. by apply arr_get_Some. Qed.

(** ** The invariant

    Ten slots, a count within them, and the overflow flag raised exactly when all ten
    are in use. *)

Record lockset_wf (l : LOCKSET) : Prop := {
  wf_slots : length (ls_lockset l) = 10%nat;
  wf_n : 0 ≤ ls_n l ≤ 10;
  wf_overflow : ls_overflow l = if ls_n l =? 10 then 1 else 0
}.

(** The mutexes the lockset records. *)
Definition contents (l : LOCKSET) : list Z := take (Z.to_nat (ls_n l)) (ls_lockset l).

Lemma length_contents l : lockset_wf l → length (contents l) = Z.to_nat (ls_n l).
Proof. intros []. unfold contents. rewrite length_take. lia. Qed.

Lemma contents_lookup l i :
  (i < Z.to_nat (ls_n l))%nat → contents l !! i = ls_lockset l !! i.
Proof. intros. unfold contents. by rewrite lookup_take_lt. Qed.

(** The statements of [add] below the flag test: the slot written is the one after
    the last used. *)
Lemma add_store_spec m l :
  length (ls_lockset l) = 10%nat → 1 ≤ ls_n l ≤ 10 →
  add_store m l = Ret tt (set_ls_slots (<[Z.to_nat (ls_n l - 1) := m]> (ls_lockset l)) l).
Proof. intros. unfold add_store. run_m. apply store_slot_ok. lia. Qed.

Lemma add_check_spec l :
  add_check l = Ret tt (if ls_n l =? 10 then set_ls_overflow 1 l else l).
Proof. unfold add_check. run_m. by destruct (ls_n l =? 10). Qed.

Lemma take_S_insert (a : list Z) k m :
  (k < length a)%nat → take (S k) (<[k := m]> a) = take k a ++ [m].
Proof.
  intros Hk. rewrite (take_S_r _ _ m) by (by apply list_lookup_insert_eq).
  by rewrite take_insert_ge by lia.
Qed.

Lemma lockset_add_room m l :
  lockset_wf l → ls_n l < 10 →
  ∃ l', lockset_add m l = Ret tt l' ∧ lockset_wf l' ∧ contents l' = contents l ++ [m].
Proof.
  intros [Hlen Hn Hov] Hlt.
  destruct (Z.eqb_spec (ls_n l) 10) as [|_]; [lia|].
  unfold lockset_add. run_m. rewrite Hov; simpl.
  rewrite bump_n_ok by (unfold is_int, INT_MIN, INT_MAX; lia).
  rewrite add_store_spec by (simpl; lia). rewrite add_check_spec; simpl.
  eexists; split; [done|].
  replace (Z.to_nat (ls_n l + 1 - 1)) with (Z.to_nat (ls_n l)) by lia.
  assert (Hc : take (Z.to_nat (ls_n l + 1)) (<[Z.to_nat (ls_n l):=m]> (ls_lockset l))
               = contents l ++ [m]).
  { replace (Z.to_nat (ls_n l + 1)) with (S (Z.to_nat (ls_n l))) by lia.
    rewrite take_S_insert by lia. done. }
  destruct (Z.eqb_spec (ls_n l + 1) 10) as [E|E]; (split; [split|]); simpl;
    rewrite ?length_insert; try done; try lia.
  - by rewrite E.
  - destruct (Z.eqb_spec (ls_n l + 1) 10); lia.
Qed.

Lemma lockset_add_full m l :
  lockset_wf l → ls_n l = 10 → lockset_add m l = Ret tt l.
Proof.
  intros [Hlen Hn Hov] E. unfold lockset_add. run_m. rewrite Hov, E. done.
Qed.

(** ** Removing *)

(** What the swap-with-the-last removal does to the recorded list. *)
Definition swap_remove (i : nat) (c : list Z) : list Z :=
  match list.last c with
  | Some z => take (length c - 1) (<[i := z]> c)
  | None => c
  end.

Lemma insert_cons_perm (c : list Z) i m z :
  c !! i = Some m → m :: <[i := z]> c ≡ₚ z :: c.
Proof.
  intros Hi. pose proof (lookup_lt_Some _ _ _ Hi).
  rewrite insert_take_drop by done.
  rewrite <- (take_drop_middle c i m Hi) at 3.
  rewrite <- !Permutation_middle. apply Permutation_swap.
Qed.

Lemma swap_remove_perm i c m :
  c !! i = Some m → m :: swap_remove i c ≡ₚ c.
Proof.
  intros Hi. unfold swap_remove.
  destruct (list.last c) as [z|] eqn:Hz; [|apply list.last_None in Hz; by subst].
  apply list.last_Some in Hz as [c' ->].
  rewrite length_app; simpl. replace (length c' + 1 - 1)%nat with (length c') by lia.
  apply lookup_app_Some in Hi as [Hi|[Hge Hi]].
  - pose proof (lookup_lt_Some _ _ _ Hi).
    rewrite insert_app_l by done. rewrite take_app_le by (rewrite length_insert; lia).
    rewrite take_ge by (rewrite length_insert; lia).
    rewrite (Permutation_app_comm c' [z]); simpl.
    by apply insert_cons_perm.
  - pose proof (lookup_lt_Some _ _ _ Hi) as Hlt; simpl in Hlt.
    assert (i = length c') as -> by lia. rewrite Nat.sub_diag in Hi; simplify_eq/=.
    rewrite insert_app_r_alt by lia. rewrite take_app_le, take_ge by lia.
    by rewrite (Permutation_app_comm c' [m]).
Qed.

(** Once found at [i], the three statements of the loop body swap-remove slot [i]. *)
Lemma remove_body_spec l i m :
  lockset_wf l → contents l !! Z.to_nat i = Some m → 0 ≤ i →
  ∃ l', (bump_n (-1) ;; remove_copy i (ls_n l) ;; remove_check) l = Ret tt l' ∧
        lockset_wf l' ∧ contents l' = swap_remove (Z.to_nat i) (contents l) ∧
        ls_lockset l' = <[Z.to_nat i := default 0 (list.last (contents l))]> (ls_lockset l).
Proof.
  intros Hwf Hi Hi0. pose proof (lookup_lt_Some _ _ _ Hi) as Hlt.
  rewrite length_contents in Hlt by done. destruct Hwf as [Hlen Hn Hov].
  destruct (list.last (contents l)) as [z|] eqn:Hz;
    [|apply list.last_None in Hz; by rewrite Hz in Hi].
  assert (Hz' : ls_lockset l !! Z.to_nat (ls_n l - 1) = Some z).
  { rewrite last_lookup in Hz. rewrite length_contents in Hz by done.
    rewrite contents_lookup in Hz by lia. rewrite <- Hz. f_equal. lia. }
  run_m. rewrite bump_n_ok by (unfold is_int, INT_MIN, INT_MAX; lia).
  unfold remove_copy. run_m. rewrite (load_slot_ok _ z) by (simpl; auto with lia).
  rewrite store_slot_ok by (simpl; lia).
  unfold remove_check. run_m. rewrite Hov.
  assert (Hc : take (Z.to_nat (ls_n l + -1)) (<[Z.to_nat i:=z]> (ls_lockset l))
               = swap_remove (Z.to_nat i) (contents l)).
  { unfold swap_remove. rewrite Hz, length_contents by done.
    unfold contents. rewrite <- take_insert_lt, take_take by lia. f_equal. lia. }
  destruct (Z.eqb_spec (ls_n l) 10) as [E|E]; simpl;
    (eexists; split; [done|split; [split|by split]]); simpl;
    rewrite ?length_insert; try lia; destruct (Z.eqb_spec (ls_n l + -1) 10); lia.
Qed.

(** The loop finds the first recorded slot that holds the mutex, or none. *)
Lemma remove_loop_spec l m fuel i :
  lockset_wf l → 0 ≤ i → fuel = Z.to_nat (ls_n l - i) → i ≤ ls_n l →
  (∀ j, (j < Z.to_nat i)%nat → contents l !! j ≠ Some m) →
  ∃ l', remove_loop fuel m (ls_n l) i l = Ret tt l' ∧ lockset_wf l' ∧
    ((m ∉ contents l) ∧ l' = l ∨
     (∃ k, contents l !! k = Some m ∧ contents l' = swap_remove k (contents l) ∧
           ls_lockset l' = <[k := default 0 (list.last (contents l))]> (ls_lockset l))).
Proof.
  intros Hwf. pose proof (length_contents _ Hwf) as Hlc.
  revert i. induction fuel as [|fuel IH]; intros i Hi Hf Hle Hno; simpl.
  - exists l. split; [done|]. split; [done|]. left; split; [|done].
    intros [j Hj]%list_elem_of_lookup. apply (Hno j); [|done].
    apply lookup_lt_Some in Hj. lia.
  - destruct (lookup_lt_is_Some_2 (contents l) (Z.to_nat i)) as [v Hv]; [lia|].
    rewrite (bind_Ret _ _ _ v l) by
      (apply load_slot_ok; [lia|]; by rewrite <- contents_lookup by lia).
    destruct (Z.eqb_spec v m) as [->|Hne].
    + destruct (remove_body_spec l i m) as (l' & E & Hwf' & Hc & Hs); [done..|].
      exists l'. split; [exact E|]. split; [done|]. right. by exists (Z.to_nat i).
    + apply IH; [lia..|]. intros j Hj.
      destruct (decide (j = Z.to_nat i)) as [->|]; [congruence|]. apply Hno. lia.
Qed.

Lemma lockset_remove_spec m l :
  lockset_wf l →
  ∃ l', lockset_remove m l = Ret tt l' ∧ lockset_wf l' ∧
    ((m ∉ contents l) ∧ l' = l ∨
     (∃ k, contents l !! k = Some m ∧ contents l' = swap_remove k (contents l) ∧
           ls_lockset l' = <[k := default 0 (list.last (contents l))]> (ls_lockset l))).
Proof.
  intros Hwf. unfold lockset_remove. run_m. apply remove_loop_spec; try done.
  - f_equal; lia.
  - apply Hwf.
  - intros j Hj. lia.
Qed.

#[export] Hint Resolve wf_slots wf_n wf_overflow : racez.

(** Appending a mutex and swap-removing any slot that holds it gives the list back. *)
Lemma swap_remove_snoc c m k : (c ++ [m]) !! k = Some m → swap_remove k (c ++ [m]) = c.
Proof.
  intros Hk. unfold swap_remove. rewrite list.last_snoc, length_app; simpl.
  replace (length c + 1 - 1)%nat with (length c) by lia.
  rewrite list_insert_id by done. by rewrite take_app_length.
Qed.

(** A lock and an unlock of the same mutex leave the recorded part alone; the slot just
    above it is left holding that mutex. *)
Lemma lock_unlock_transparent m l :
  lockset_wf l → ls_n l < 10 →
  ∃ l', (lockset_add m ;; lockset_remove m) l = Ret tt l' ∧ lockset_wf l' ∧
        contents l' = contents l ∧ ls_n l' = ls_n l ∧
        ls_lockset l' !! Z.to_nat (ls_n l) = Some m.
Proof.
  intros Hwf Hlt. destruct (lockset_add_room m l Hwf Hlt) as (l1 & E1 & Hwf1 & Hc1).
  rewrite (bind_Ret _ _ _ _ _ E1).
  destruct (lockset_remove_spec m l1 Hwf1) as (l2 & E2 & Hwf2 & [[Hno _]|(k & Hk & Hc2 & Hs2)]).
  { exfalso. apply Hno. rewrite Hc1. set_solver. }
  pose proof (wf_n _ Hwf); pose proof (wf_n _ Hwf2).
  assert (Hn1 : Z.to_nat (ls_n l1) = S (Z.to_nat (ls_n l))).
  { apply (f_equal length) in Hc1. rewrite length_app, !length_contents in Hc1 by done.
    simpl in Hc1. lia. }
  assert (Hslot : ls_lockset l1 !! Z.to_nat (ls_n l) = Some m).
  { rewrite <- contents_lookup by lia. rewrite Hc1, lookup_app_r by (rewrite length_contents; done || lia).
    rewrite length_contents by done. by rewrite Nat.sub_diag. }
  assert (Hc : contents l2 = contents l) by (rewrite Hc2, Hc1 in *; by apply swap_remove_snoc).
  exists l2. split; [done|]. split; [done|]. split; [done|]. split.
  - apply (f_equal length) in Hc. rewrite !length_contents in Hc by done. lia.
  - rewrite Hs2, Hc1, list.last_snoc; simpl.
    rewrite list_lookup_insert. destruct (decide _) as [Heq|]; [|done].
    by destruct Heq as [-> _].
Qed.

(** ** What the lockset is meant to be

    The mutexes a thread holds, as a multiset: a recursive mutex counts once per
    acquisition. *)

Inductive lock_event := Lock (m : Z) | Unlock (m : Z).

Definition held_step (h : gmultiset Z) (e : lock_event) : gmultiset Z :=
  match e with
  | Lock m => {[+ m +]} ⊎ h
  | Unlock m => h ∖ {[+ m +]}
  end.

Definition lockset_step (e : lock_event) : M LOCKSET unit :=
  match e with
  | Lock m => lockset_add m
  | Unlock m => lockset_remove m
  end.

Definition recorded (l : LOCKSET) : gmultiset Z := list_to_set_disj (contents l).

Definition empty_lockset (words : list Z) : LOCKSET := mkLOCKSET 0 0 words.

Lemma empty_lockset_wf words : length words = 10%nat → lockset_wf (empty_lockset words).
Proof. intros. split; simpl; [done|lia|done]. Qed.

Lemma recorded_swap_remove c k m :
  c !! k = Some m →
  (list_to_set_disj (swap_remove k c) : gmultiset Z) = list_to_set_disj c ∖ {[+ m +]}.
Proof.
  intros Hk%swap_remove_perm%list_to_set_disj_perm. rewrite <- Hk. simpl.
  multiset_solver.
Qed.

Lemma size_list_to_set_disj (c : list Z) : size (list_to_set_disj c : gmultiset Z) = length c.
Proof.
  induction c as [|x c IH]; [done|].
  rewrite list_to_set_disj_cons, gmultiset_size_disj_union, gmultiset_size_singleton, IH. done.
Qed.

Lemma size_recorded l : lockset_wf l → Z.of_nat (size (recorded l)) = ls_n l.
Proof.
  intros Hwf. unfold recorded. rewrite size_list_to_set_disj, length_contents by done.
  destruct Hwf; lia.
Qed.

(** One step of the code against one step of the multiset: exact, except that an
    acquisition finding all ten slots in use is not recorded. *)
Lemma lockset_step_spec e l :
  lockset_wf l →
  ∃ l', lockset_step e l = Ret tt l' ∧ lockset_wf l' ∧
    (recorded l' = held_step (recorded l) e ∨
     (ls_n l = 10 ∧ recorded l' = recorded l ∧ ∃ m, e = Lock m)).
Proof.
  intros Hwf. destruct e as [m|m]; simpl.
  - destruct (decide (ls_n l < 10)) as [Hlt|Hge].
    + destruct (lockset_add_room m l Hwf Hlt) as (l' & E & Hwf' & Hc).
      exists l'. split; [done|]. split; [done|]. left.
      unfold recorded. rewrite Hc, list_to_set_disj_app. simpl. multiset_solver.
    + exists l. pose proof (wf_n _ Hwf). rewrite lockset_add_full by (done || lia).
      split; [done|]. split; [done|]. right. split; [lia|]. eauto.
  - destruct (lockset_remove_spec m l Hwf) as (l' & E & Hwf' & [[Hno ->]|(k & Hk & Hc & _)]).
    + exists l. split; [done|]. split; [done|]. left. unfold recorded.
      rewrite <- elem_of_list_to_set_disj in Hno. multiset_solver.
    + exists l'. split; [done|]. split; [done|]. left. unfold recorded.
      rewrite Hc. by apply recorded_swap_remove.
Qed.

Lemma held_step_mono h h' e : h ⊆ h' → held_step h e ⊆ held_step h' e.
Proof. destruct e; simpl; multiset_solver. Qed.

(** ** Thread level *)

Record tls_wf (t : tls_state) : Prop := {
  wf_key : key_once t = false → tls t = ∅;
  wf_locksets : map_Forall (λ _, lockset_wf) (tls t)
}.

(** What the storage records for a thread: nothing before its first lock. *)
Definition thread_recorded (t : tls_state) (tid : Z) : gmultiset Z :=
  match tls t !! tid with Some l => recorded l | None => ∅ end.

Section thread_level.
Context {S : Type} {HS : HasTls S} (malloc : M S (option (list Z))) (skid tid : Z).
(** What else must hold of the state; the thread-local storage has no part in it. *)
Context (I : S → Prop).

(** Under the invariant [malloc] gives a block of ten words, leaves the thread-local
    storage alone and keeps the invariant. *)
Record malloc_gives : Prop := {
  mg_frame : ∀ t s, I s → I (tls_set t s);
  mg_gives : ∀ s, I s →
    ∃ words s', malloc s = Ret (Some words) s' ∧ length words = 10%nat ∧
                tls_get s' = tls_get s ∧ I s'
}.

Definition thread_op (e : lock_event) : M S unit :=
  match e with
  | Lock m => add_one_mutex malloc skid tid m
  | Unlock m => remove_one_mutex malloc skid tid m
  end.

Lemma thread_op_unfold e :
  thread_op e = (need_lockset malloc tid ;; on_lockset tid (lockset_step e)).
Proof. by destruct e. Qed.

Lemma need_lockset_spec s :
  malloc_gives → I s → tls_wf (tls_get s) →
  ∃ s' l, need_lockset malloc tid s = Ret tt s' ∧ I s' ∧ tls_wf (tls_get s') ∧
    key_once (tls_get s') = true ∧ tls (tls_get s') !! tid = Some l ∧
    recorded l = thread_recorded (tls_get s) tid ∧
    (∀ tid', tid' ≠ tid → tls (tls_get s') !! tid' = tls (tls_get s) !! tid').
Proof.
  intros [Hframe Hm] HI [Hkey Hls]. unfold need_lockset, GetPerThreadLockset. run_m.
  assert (Hnone : (if key_once (tls_get s) then tls (tls_get s) !! tid else None)
                  = tls (tls_get s) !! tid).
  { destruct (key_once (tls_get s)) eqn:Ek; [done|]. by rewrite Hkey, lookup_empty. }
  rewrite Hnone. unfold thread_recorded. destruct (tls (tls_get s) !! tid) as [l|] eqn:E.
  - exists s, l. split; [done|]. split; [done|]. split; [by split|]. split; [|done].
    destruct (key_once (tls_get s)) eqn:Ek; [done|]. by rewrite Hkey, lookup_empty in E.
  - unfold Create_Tls_Key. run_m. unfold SetPerThreadLockset. run_m.
    set (s1 := tls_set _ s).
    destruct (Hm s1) as (words & s2 & -> & Hlen & Hs2 & HI2); [by apply Hframe|]. simpl.
    rewrite Hs2. unfold s1. rewrite tls_get_set; simpl.
    unfold put_lockset. run_m. unfold s1 in Hs2. rewrite Hs2, !tls_get_set; simpl.
    eexists _, (empty_lockset words). split; [done|]. split; [by apply Hframe|].
    rewrite tls_get_set; simpl.
    rewrite lookup_insert_eq. split; [split; [done|]|split; [done|split; [done|split; [done|]]]].
    + apply map_Forall_insert_2; [by apply empty_lockset_wf|done].
    + intros tid' Hne. by rewrite lookup_insert_ne.
Qed.

Lemma thread_op_spec e s :
  malloc_gives → I s → tls_wf (tls_get s) →
  ∃ s', thread_op e s = Ret tt s' ∧ I s' ∧ tls_wf (tls_get s') ∧
    (thread_recorded (tls_get s') tid = held_step (thread_recorded (tls_get s) tid) e ∨
     size (thread_recorded (tls_get s) tid) = 10%nat ∧
     thread_recorded (tls_get s') tid = thread_recorded (tls_get s) tid ∧ ∃ m, e = Lock m) ∧
    (∀ tid', tid' ≠ tid → tls (tls_get s') !! tid' = tls (tls_get s) !! tid').
Proof.
  intros Hm HI Hwf. rewrite thread_op_unfold.
  destruct (need_lockset_spec s Hm HI Hwf) as (s1 & l & E & HI1 & [Hkey1 Hls1] & Hk1 & Hl & Hrec & Hoth).
  rewrite (bind_Ret _ _ _ _ _ E). unfold on_lockset. rewrite Hl.
  pose proof (Hls1 _ _ Hl) as Hwfl; simpl in Hwfl.
  destruct (lockset_step_spec e l Hwfl) as (l' & E' & Hwf' & Hcase).
  rewrite E'. unfold put_lockset. run_m. eexists; split; [done|].
  split; [by apply (mg_frame Hm)|]. rewrite tls_get_set. unfold thread_recorded in Hrec. unfold thread_recorded; simpl.
  rewrite lookup_insert_eq, <- Hrec. split; [|split].
  - split; simpl; [by rewrite Hk1|]. by apply map_Forall_insert_2.
  - destruct Hcase as [->|(Hfull & -> & Hex)]; [by left|right].
    split; [|by split]. pose proof (size_recorded l Hwfl). lia.
  - intros tid' Hne. rewrite lookup_insert_ne by done. by apply Hoth.
Qed.
End thread_level.

(** ** Any number of threads, in any order *)

(** The operations of one thread, in its program order. *)
Definition events_of (tid : Z) (sched : list (Z * lock_event)) : list lock_event :=
  snd <$> filter (λ te, te.1 = tid) sched.

Lemma events_of_cons tid t e sched :
  events_of tid ((t, e) :: sched) =
  if decide (t = tid) then e :: events_of tid sched else events_of tid sched.
Proof. unfold events_of. rewrite filter_cons. simpl. by destruct (decide (t = tid)). Qed.

Lemma thread_recorded_other t t' (tid : Z) :
  tls t' !! tid = tls t !! tid → thread_recorded t' tid = thread_recorded t tid.
Proof. intros E. unfold thread_recorded. by rewrite E. Qed.

Section schedules.
Context {S : Type} {HS : HasTls S}.
(** A hook that runs on every lock and unlock, and the events it takes note of. *)
Context (hook : Z → lock_event → M S unit) (seen : lock_event → bool) (I : S → Prop).

Definition seen_step (h : gmultiset Z) (e : lock_event) : gmultiset Z :=
  if seen e then held_step h e else h.

(** What a hook promises: it returns, keeps the invariants, updates what is recorded for
    the calling thread (unless the event is a lock and all slots are in use), and touches
    no other thread. *)
Record hook_ok : Prop := {
  hk_spec : ∀ tid e s, I s → tls_wf (tls_get s) →
    ∃ s', hook tid e s = Ret tt s' ∧ I s' ∧ tls_wf (tls_get s') ∧
      (thread_recorded (tls_get s') tid = seen_step (thread_recorded (tls_get s) tid) e ∨
       size (thread_recorded (tls_get s) tid) = 10%nat ∧
       thread_recorded (tls_get s') tid = thread_recorded (tls_get s) tid ∧ seen e = true ∧ ∃ m, e = Lock m) ∧
      (∀ tid', tid' ≠ tid → tls (tls_get s') !! tid' = tls (tls_get s) !! tid')
}.

(** A schedule: which thread runs which operation next. *)
Definition run_hooks (sched : list (Z * lock_event)) : M S unit :=
  for_each sched (λ te, hook te.1 te.2).

Lemma seen_step_mono h1 h2 e : h1 ⊆ h2 → seen_step h1 e ⊆ seen_step h2 e.
Proof. unfold seen_step. destruct (seen e); [apply held_step_mono|done]. Qed.

Lemma run_hooks_sound sched s (h : Z → gmultiset Z) :
  hook_ok → I s → tls_wf (tls_get s) →
  (∀ tid, thread_recorded (tls_get s) tid ⊆ h tid) →
  ∃ s', run_hooks sched s = Ret tt s' ∧ I s' ∧ tls_wf (tls_get s') ∧
    ∀ tid, thread_recorded (tls_get s') tid ⊆ foldl seen_step (h tid) (events_of tid sched).
Proof.
  intros [Hm]. revert s h. induction sched as [|[t e] sched IH]; intros s h HI Hwf Hsub.
  - by exists s.
  - destruct (Hm t e s HI Hwf) as (s1 & E & HI1 & Hwf1 & Hcase & Hoth).
    unfold run_hooks; simpl. rewrite (bind_Ret _ _ _ _ _ E).
    destruct (IH s1 (λ tid, if decide (t = tid) then seen_step (h tid) e else h tid) HI1 Hwf1)
      as (s' & E' & HI' & Hwf' & Hsub').
    { intros tid. destruct (decide (t = tid)) as [<-|Hne].
      - destruct Hcase as [->|(_ & -> & Hs & m & ->)]; [by apply seen_step_mono|].
        pose proof (Hsub t). unfold seen_step. rewrite Hs. simpl. multiset_solver.
      - rewrite (thread_recorded_other (tls_get s)) by (by apply Hoth). done. }
    exists s'. split; [done|]. split; [done|]. split; [done|]. intros tid. rewrite events_of_cons.
    specialize (Hsub' tid). by destruct (decide (t = tid)).
Qed.

(** No more than ten noted mutexes at a time. *)
Fixpoint fits (h : gmultiset Z) (es : list lock_event) : Prop :=
  match es with
  | [] => True
  | e :: es' => (size (seen_step h e) ≤ 10)%nat ∧ fits (seen_step h e) es'
  end.

Lemma run_hooks_exact sched s :
  hook_ok → I s → tls_wf (tls_get s) →
  (∀ tid, fits (thread_recorded (tls_get s) tid) (events_of tid sched)) →
  ∃ s', run_hooks sched s = Ret tt s' ∧ I s' ∧ tls_wf (tls_get s') ∧
    ∀ tid, thread_recorded (tls_get s') tid =
           foldl seen_step (thread_recorded (tls_get s) tid) (events_of tid sched).
Proof.
  intros [Hm]. revert s. induction sched as [|[t e] sched IH]; intros s HI Hwf Hcap.
  - by exists s.
  - destruct (Hm t e s HI Hwf) as (s1 & E & HI1 & Hwf1 & Hcase & Hoth).
    unfold run_hooks; simpl. rewrite (bind_Ret _ _ _ _ _ E).
    assert (Hrec : thread_recorded (tls_get s1) t = seen_step (thread_recorded (tls_get s) t) e).
    { destruct Hcase as [->|(Hsz & _ & Hs & m & ->)]; [done|]. specialize (Hcap t).
      rewrite events_of_cons, decide_True in Hcap by done. destruct Hcap as [Hcap _].
      unfold seen_step in Hcap. rewrite Hs in Hcap.
      simpl in Hcap. rewrite gmultiset_size_disj_union, gmultiset_size_singleton in Hcap. lia. }
    assert (Hall : ∀ tid, thread_recorded (tls_get s1) tid =
              if decide (t = tid) then seen_step (thread_recorded (tls_get s) tid) e
              else thread_recorded (tls_get s) tid).
    { intros tid. destruct (decide (t = tid)) as [<-|Hne]; [done|].
      by apply thread_recorded_other, Hoth. }
    destruct (IH s1 HI1 Hwf1) as (s' & E' & HI' & Hwf' & Hsub').
    { intros tid. specialize (Hcap tid). rewrite events_of_cons in Hcap. rewrite Hall.
      destruct (decide (t = tid)); [by destruct Hcap|done]. }
    exists s'. split; [done|]. split; [done|]. split; [done|]. intros tid.
    rewrite Hsub', Hall, events_of_cons. by destruct (decide (t = tid)).
Qed.
End schedules.

(** The schedules of the bare operations: every event is noted. *)
Definition all_seen (_ : lock_event) : bool := true.

Section bare.
Context {S : Type} {HS : HasTls S} (malloc : M S (option (list Z))) (skid : Z) (I : S → Prop).

Definition run_schedule : list (Z * lock_event) → M S unit :=
  run_hooks (λ tid e, thread_op malloc skid tid e).

Lemma thread_op_hook_ok :
  malloc_gives malloc I → hook_ok (λ tid e, thread_op malloc skid tid e) all_seen I.
Proof.
  intros Hm. split. intros tid e s HI Hwf.
  destruct (thread_op_spec malloc skid tid I e s Hm HI Hwf) as (s' & E & HI' & Hwf' & Hcase & Hoth).
  exists s'. unfold seen_step, all_seen. naive_solver.
Qed.
End bare.

Lemma tls_wf_empty : tls_wf (mkTls false ∅).
Proof. split; [done|apply map_Forall_empty]. Qed.

(** ** The properties *)

(** C9: for any number of threads locking and unlocking in any interleaving, the
    operations always return, every lockset keeps its invariant (ten slots, count in
    range, overflow flag raised exactly when full), and what is recorded for a thread
    is always a sub-multiset of the mutexes it holds: the lockset never invents a lock. *)
Theorem locksets_sound (S : Type) (HS : HasTls S) (malloc : M S (option (list Z)))
    (skid : Z) (I : S → Prop) (sched : list (Z * lock_event)) (s : S) :
  malloc_gives malloc I → I s → tls_get s = mkTls false ∅ →
  ∃ s', run_schedule malloc skid sched s = Ret tt s' ∧ I s' ∧ tls_wf (tls_get s') ∧
    ∀ tid, thread_recorded (tls_get s') tid ⊆ foldl held_step ∅ (events_of tid sched).
Proof.
  intros Hm HI Hs. apply (run_hooks_sound _ all_seen I sched s (λ _, ∅)); [|done|rewrite Hs; apply tls_wf_empty|by rewrite Hs].
  by apply thread_op_hook_ok.
Qed.

Definition demo_malloc : M tls_state (option (list Z)) := mret (Some (replicate 10 77)).

Lemma demo_malloc_gives : malloc_gives demo_malloc (λ _, True).
Proof. split; [done|]. intros s _. by exists (replicate 10 77), s. Qed.

Lemma locksets_sound_witness :
  ∃ s', run_schedule demo_malloc 0 [(1, Lock 5); (2, Lock 6); (1, Unlock 5)] (mkTls false ∅) = Ret tt s'
        ∧ True ∧ tls_wf (tls_get s') ∧
    ∀ tid, thread_recorded (tls_get s') tid ⊆
           foldl held_step ∅ (events_of tid [(1, Lock 5); (2, Lock 6); (1, Unlock 5)]).
Proof. apply (locksets_sound tls_state _ demo_malloc 0 (λ _, True) _ (mkTls false ∅) demo_malloc_gives); [exact I|reflexivity]. Defined.

(** While no thread holds more than ten mutexes at a time, the recorded multiset
    of every thread is exactly the multiset it holds, whatever the interleaving. *)
Theorem locksets_exact (S : Type) (HS : HasTls S) (malloc : M S (option (list Z)))
    (skid : Z) (I : S → Prop) (sched : list (Z * lock_event)) (s : S) :
  malloc_gives malloc I → I s → tls_get s = mkTls false ∅ →
  (∀ tid, fits all_seen ∅ (events_of tid sched)) →
  ∃ s', run_schedule malloc skid sched s = Ret tt s' ∧ I s' ∧ tls_wf (tls_get s') ∧
    ∀ tid, thread_recorded (tls_get s') tid = foldl held_step ∅ (events_of tid sched).
Proof.
  intros Hm HI Hs Hcap.
  pose proof (run_hooks_exact _ all_seen I sched s (thread_op_hook_ok malloc skid I Hm) HI) as H.
  rewrite Hs in H. apply H; [apply tls_wf_empty|exact Hcap].
Qed.

Lemma locksets_exact_witness :
  ∃ s', run_schedule demo_malloc 1 [(1, Lock 5); (1, Lock 6); (1, Unlock 5)] (mkTls false ∅) = Ret tt s'
        ∧ True ∧ tls_wf (tls_get s') ∧
    ∀ tid, thread_recorded (tls_get s') tid =
           foldl held_step ∅ (events_of tid [(1, Lock 5); (1, Lock 6); (1, Unlock 5)]).
Proof.
  apply (locksets_exact tls_state _ demo_malloc 1 (λ _, True) _ (mkTls false ∅) demo_malloc_gives);
    [exact I|reflexivity|].
  intros tid. rewrite !events_of_cons. unfold events_of. simpl.
  destruct (decide (1 = tid)); vm_compute; repeat split; lia.
Defined.

(** The two branches of [add_one_mutex]: with a free slot the mutex goes behind the
    recorded ones; with all ten in use the call changes nothing. *)
Theorem lockset_add_behaviour m l :
  lockset_wf l →
  ∃ l', lockset_add m l = Ret tt l' ∧ lockset_wf l' ∧
    contents l' = (if ls_n l <? 10 then contents l ++ [m] else contents l).
Proof.
  intros Hwf. destruct (Z.ltb_spec (ls_n l) 10) as [Hlt|Hge].
  - by apply lockset_add_room.
  - pose proof (wf_n _ Hwf). exists l. rewrite lockset_add_full by (done || lia). done.
Qed.

Lemma lockset_add_behaviour_witness :
  ∃ l', lockset_add 7 (empty_lockset (replicate 10 0)) = Ret tt l' ∧ lockset_wf l' ∧
    contents l' = [7].
Proof. apply (lockset_add_behaviour 7 (empty_lockset (replicate 10 0))), empty_lockset_wf. reflexivity. Defined.

(** The two branches of [remove_one_mutex]: a mutex that is not recorded leaves the
    lockset as it is; a recorded one goes, the others stay, the count drops by one and
    the overflow flag is down. *)
Theorem lockset_remove_behaviour m l :
  lockset_wf l →
  ∃ l', lockset_remove m l = Ret tt l' ∧ lockset_wf l' ∧
    if bool_decide (m ∈ contents l)
    then m :: contents l' ≡ₚ contents l ∧ ls_n l' = ls_n l - 1 ∧ ls_overflow l' = 0
    else l' = l.
Proof.
  intros Hwf. destruct (lockset_remove_spec m l Hwf) as (l' & E & Hwf' & Hcase).
  exists l'. split; [done|]. split; [done|].
  destruct Hcase as [[Hno ->]|(k & Hk & Hc & _)].
  - by rewrite bool_decide_eq_false_2.
  - rewrite bool_decide_eq_true_2 by (eapply list_elem_of_lookup_2; eauto).
    assert (Hp : m :: contents l' ≡ₚ contents l) by (rewrite Hc; by apply swap_remove_perm).
    split; [done|]. pose proof (Permutation_length Hp) as Hl; simpl in Hl.
    rewrite !length_contents in Hl by done.
    pose proof (wf_n _ Hwf); pose proof (wf_n _ Hwf').
    split; [lia|]. rewrite (wf_overflow _ Hwf').
    destruct (Z.eqb_spec (ls_n l') 10); lia.
Qed.

Lemma lockset_remove_behaviour_witness :
  ∃ l', lockset_remove 5 (mkLOCKSET 2 0 [5; 6; 0; 0; 0; 0; 0; 0; 0; 0]) = Ret tt l' ∧ lockset_wf l' ∧
    5 :: contents l' ≡ₚ [5; 6] ∧ ls_n l' = 2 - 1 ∧ ls_overflow l' = 0.
Proof.
  apply (lockset_remove_behaviour 5 (mkLOCKSET 2 0 [5; 6; 0; 0; 0; 0; 0; 0; 0; 0])).
  split; simpl; [reflexivity|lia|reflexivity].
Defined.

(** With a slot free, locking a mutex and unlocking it again restores the recorded
    list, order included, even when the thread already held that mutex. *)
Theorem add_remove_roundtrip m l :
  lockset_wf l → ls_n l < 10 →
  ∃ l', (lockset_add m ;; lockset_remove m) l = Ret tt l' ∧ lockset_wf l' ∧
        contents l' = contents l ∧ ls_n l' = ls_n l.
Proof.
  intros Hwf Hlt. destruct (lock_unlock_transparent m l Hwf Hlt) as (l' & E & Hwf' & Hc & Hn & _).
  by exists l'.
Qed.

Lemma add_remove_roundtrip_witness :
  ∃ l', (lockset_add 9 ;; lockset_remove 9) (mkLOCKSET 2 0 [5; 6; 9; 0; 0; 0; 0; 0; 0; 0]) = Ret tt l' ∧
        lockset_wf l' ∧ contents l' = [5; 6] ∧ ls_n l' = 2.
Proof.
  apply (add_remove_roundtrip 9 (mkLOCKSET 2 0 [5; 6; 9; 0; 0; 0; 0; 0; 0; 0]));
    [split; simpl; [reflexivity|lia|reflexivity]|simpl; lia].
Defined.

(** the delay loops of [racez_sample_skid] stay within an [int]: each partial sum of
    the longer one, 5000 rounds, is in range. *)
Theorem skid_loop_in_range k :
  (k ≤ 5000)%nat → is_int (skid_loop k 0 0).
Proof.
  assert (H : ∀ k i sum, 2 * skid_loop k i sum = 2 * sum + Z.of_nat k * (2 * i + Z.of_nat k - 1)).
  { clear k. induction k as [|k IH]; intros i sum; [simpl; lia|]. cbn [skid_loop]. rewrite IH. lia. }
  intros Hk. specialize (H k 0 0). unfold is_int, INT_MIN, INT_MAX. nia.
Qed.

Lemma skid_loop_in_range_witness : is_int (skid_loop 2500 0 0).
Proof. apply (skid_loop_in_range 2500). lia. Defined.
