(* ===== verification/SignalSafety.v ===== *)
(** * Signals inside the lockset operations

    The profiling signal interrupts a thread between any two statements of
    [add_one_mutex] and [remove_one_mutex] (racez_mutex.cc), and the handler may take
    and release mutexes itself (libunwind does), on the same lockset.  The comments of
    racez_mutex.cc argue that updating the count first makes this harmless.  This file
    runs the operations statement by statement with a handler in every gap: the
    argument holds for [add_one_mutex] below the last slot, and fails at the last slot
    and for [remove_one_mutex]. *)

From S2P Require Import Prelude.
From S2P Require Import LockSet.
From stdpp Require Import base gmap list gmultiset.

Open Scope Z_scope.

(** A handler run: a sequence of critical sections, each a lock and an unlock. *)
Definition handler (ss : list Z) : M LOCKSET unit :=
  for_each ss (λ s, lockset_add s ;; lockset_remove s).

(** Statements with a handler before each and after the last; [hs] gives the mutexes
    the handler takes in each gap. *)
Fixpoint interrupted (stmts : list (M LOCKSET unit)) (hs : list (list Z)) : M LOCKSET unit :=
  match stmts with
  | [] => handler (default [] (head hs))
  | st :: stmts' => handler (default [] (head hs)) ;; st ;; interrupted stmts' (tail hs)
  end.

Definition add_stmts (mutex : Z) : list (M LOCKSET unit) :=
  [bump_n 1; add_store mutex; add_check].

Definition remove_stmts (i lock_count : Z) : list (M LOCKSET unit) :=
  [bump_n (-1); remove_copy i lock_count; remove_check].

(** [add_one_mutex] with the handler [h0] before the flag test and [hs] in the gaps of
    the guarded block. *)
Definition add_interrupted (mutex : Z) (h0 : list Z) (hs : list (list Z)) : M LOCKSET unit :=
  handler h0 ;;
  o ← gets ls_overflow;
  if o =? 0 then interrupted (add_stmts mutex) hs else handler (default [] (head hs)).

(** Without signals these are the operations of LockSet.v. *)
Lemma add_interrupted_none m l : add_interrupted m [] [] l = lockset_add m l.
Proof.
  unfold add_interrupted, lockset_add. run_m. destruct (ls_overflow l =? 0); [|done]. simpl.
  unfold handler. run_m. destruct (bump_n 1 l); [|done]. destruct (add_store m s); [|done].
  by destruct (add_check s0) as [[]|].
Qed.

Lemma handler_transparent ss l :
  lockset_wf l → ls_n l < 10 →
  ∃ l', handler ss l = Ret tt l' ∧ lockset_wf l' ∧ contents l' = contents l ∧ ls_n l' = ls_n l.
Proof.
  revert l. induction ss as [|s ss IH]; intros l Hwf Hlt; [by exists l|].
  destruct (lock_unlock_transparent s l Hwf Hlt) as (l1 & E & Hwf1 & Hc1 & Hn1 & _).
  unfold handler; simpl. rewrite (bind_Ret _ _ _ _ _ E).
  destruct (IH l1 Hwf1) as (l' & E' & Hwf' & Hc' & Hn'); [lia|].
  exists l'. rewrite Hc', Hn'. done.
Qed.

Lemma wf_below l : length (ls_lockset l) = 10%nat → 0 ≤ ls_n l < 10 → ls_overflow l = 0 → lockset_wf l.
Proof. intros. split; [done|lia|]. destruct (Z.eqb_spec (ls_n l) 10); lia. Qed.

Lemma wf_below_overflow l : lockset_wf l → ls_n l < 10 → ls_overflow l = 0.
Proof. intros [_ _ ->] Hlt. destruct (Z.eqb_spec (ls_n l) 10); lia. Qed.

(** The block of [add_one_mutex], interrupted anywhere, from a state with two slots
    free: the half-done state has a count one ahead of the recorded mutexes, and every
    handler keeps the slots below that count. *)
Lemma add_block_interrupted m hs l :
  lockset_wf l → ls_n l < 9 →
  ∃ l', interrupted (add_stmts m) hs l = Ret tt l' ∧ lockset_wf l' ∧
        contents l' = contents l ++ [m].
Proof.
  intros Hwf Hlt. unfold interrupted, add_stmts.
  destruct (handler_transparent (default [] (head hs)) l) as (l1 & E1 & Hwf1 & Hc1 & Hn1); [done|lia|].
  rewrite (bind_Ret _ _ _ _ _ E1), (bind_Ret _ _ _ _ _ (bump_n_ok 1 l1 ltac:(unfold is_int, INT_MIN, INT_MAX; pose proof (wf_n _ Hwf); lia))).
  pose proof (wf_n _ Hwf); pose proof (wf_slots _ Hwf1).
  set (l2 := set_ls_n (ls_n l1 + 1) l1).
  assert (Hwf2 : lockset_wf l2).
  { apply wf_below; simpl; [done|lia|apply wf_below_overflow; [done|lia]]. }
  destruct (handler_transparent (default [] (head (tail hs))) l2) as (l3 & E3 & Hwf3 & Hc3 & Hn3); [done|simpl; lia|].
  rewrite (bind_Ret _ _ _ _ _ E3). simpl in Hn3.
  rewrite (bind_Ret _ _ _ _ _ (add_store_spec m l3 (wf_slots _ Hwf3) ltac:(lia))).
  set (l4 := set_ls_slots _ l3).
  assert (Hwf4 : lockset_wf l4).
  { apply wf_below; simpl; [rewrite length_insert; by apply Hwf3|lia|].
    apply wf_below_overflow; [done|lia]. }
  assert (Hc4 : contents l4 = contents l ++ [m]).
  { unfold contents at 1; simpl. rewrite Hn3.
    replace (Z.to_nat (ls_n l1 + 1)) with (S (Z.to_nat (ls_n l1))) by lia.
    replace (Z.to_nat (ls_n l1 + 1 - 1)) with (Z.to_nat (ls_n l1)) by lia.
    pose proof (wf_slots _ Hwf3). rewrite take_S_insert by lia. f_equal.
    rewrite <- Hc1. unfold contents in *. simpl in Hc3. rewrite Hn3 in Hc3.
    apply (f_equal (take (Z.to_nat (ls_n l1)))) in Hc3. rewrite !take_take in Hc3.
    by rewrite !Nat.min_l in Hc3 by lia. }
  destruct (handler_transparent (default [] (head (tail (tail hs)))) l4) as (l5 & E5 & Hwf5 & Hc5 & Hn5); [done|simpl; lia|].
  rewrite (bind_Ret _ _ _ _ _ E5), (bind_Ret _ _ _ _ _ (add_check_spec l5)).
  simpl in Hn5. destruct (Z.eqb_spec (ls_n l5) 10); [lia|].
  destruct (handler_transparent (default [] (head (tail (tail (tail hs))))) l5) as (l6 & E6 & Hwf6 & Hc6 & Hn6); [done|lia|].
  exists l6. rewrite Hc6, Hc5, Hc4. done.
Qed.

(** C30: [add_one_mutex] is signal-safe while two slots of the ten are free.  A handler in
    any of the gaps between its statements may run any number of critical sections, one
    after the other and not nested, each of them a lock and an unlock of a mutex: the call
    returns with its mutex appended to the recorded ones and nothing else changed.  With
    nine mutexes recorded a handler makes it store behind the array. *)
Theorem add_signal_safe m h0 hs l :
  lockset_wf l → ls_n l < 9 →
  ∃ l', add_interrupted m h0 hs l = Ret tt l' ∧ lockset_wf l' ∧ contents l' = contents l ++ [m].
Proof.
  intros Hwf Hlt. unfold add_interrupted.
  destruct (handler_transparent h0 l) as (l1 & E1 & Hwf1 & Hc1 & Hn1); [done|lia|].
  rewrite (bind_Ret _ _ _ _ _ E1). run_m. rewrite wf_below_overflow by (done || lia). simpl.
  rewrite <- Hc1. apply add_block_interrupted; [done|lia].
Qed.

Lemma add_signal_safe_witness :
  ∃ l', add_interrupted 5 [8] [[]; [8; 9]; [5]] (empty_lockset (replicate 10 8)) = Ret tt l' ∧
        lockset_wf l' ∧ contents l' = [5].
Proof. apply (add_signal_safe 5 [8] [[]; [8; 9]; [5]] (empty_lockset (replicate 10 8))); [by apply empty_lockset_wf|simpl; lia]. Defined.

(** The last slot is not signal-safe: with nine mutexes recorded, a handler that
    locks any mutex right after [lockset->n++] finds the overflow flag still down and
    stores through [lockset_[10]], past the end of the array. *)
Theorem add_last_slot_overrun m s l :
  lockset_wf l → ls_n l = 9 →
  ∃ l', interrupted (add_stmts m) [[]; [s]] l = Stop OutOfBounds l'.
Proof.
  intros Hwf Hn. pose proof (wf_below_overflow l Hwf ltac:(lia)) as Ho.
  pose proof (wf_slots _ Hwf) as Hlen.
  unfold interrupted, add_stmts, handler; simpl. run_m.
  rewrite bump_n_ok by (unfold is_int, INT_MIN, INT_MAX; lia).
  unfold lockset_add. run_m. rewrite Ho; simpl.
  rewrite bump_n_ok by (simpl; unfold is_int, INT_MIN, INT_MAX; lia).
  unfold add_store, store_slot. run_m.
  rewrite arr_set_oob by (rewrite Hlen; simpl; lia). by eexists.
Qed.

Lemma add_last_slot_overrun_witness :
  ∃ l', interrupted (add_stmts 50) [[]; [60]] (mkLOCKSET 9 0 [1; 2; 3; 4; 5; 6; 7; 8; 9; 0]) =
        Stop OutOfBounds l'.
Proof.
  apply (add_last_slot_overrun 50 60 (mkLOCKSET 9 0 [1; 2; 3; 4; 5; 6; 7; 8; 9; 0]));
    [split; simpl; [reflexivity|lia|reflexivity]|reflexivity].
Defined.

Lemma remove_interrupted_contents i m s l :
  lockset_wf l → ls_n l < 10 → 0 ≤ i < ls_n l - 1 → contents l !! Z.to_nat i = Some m →
  ∃ l', interrupted (remove_stmts i (ls_n l)) [[]; [s]] l = Ret tt l' ∧
        contents l' = <[Z.to_nat i := s]> (take (Z.to_nat (ls_n l) - 1) (contents l)).
Proof.
  intros Hwf Hlt Hi Hm. pose proof (wf_n _ Hwf).
  unfold interrupted, remove_stmts. unfold handler at 1; simpl. run_m.
  rewrite bump_n_ok by (unfold is_int, INT_MIN, INT_MAX; lia).
  set (l1 := set_ls_n _ l).
  assert (Hwf1 : lockset_wf l1).
  { apply wf_below; simpl; [apply Hwf|lia|by apply wf_below_overflow]. }
  destruct (lock_unlock_transparent s l1 Hwf1) as (l2 & E2 & Hwf2 & Hc2 & Hn2 & Hs2); [simpl; lia|].
  unfold handler at 1. simpl for_each. rewrite (bind_Ret _ _ _ _ _ E2). run_m.
  simpl in Hn2, Hs2. pose proof (wf_slots _ Hwf2).
  unfold remove_copy. run_m.
  rewrite (load_slot_ok _ s) by (lia || (rewrite <- Hs2; f_equal; lia)).
  rewrite store_slot_ok by lia. unfold remove_check. run_m.
  rewrite wf_below_overflow by (done || lia). simpl.
  eexists. split; [done|]. unfold contents at 1; simpl.
  rewrite take_insert_lt by lia. f_equal. rewrite Hn2.
  unfold contents in Hc2 at 1. rewrite Hn2 in Hc2. rewrite Hc2. unfold contents; simpl.
  rewrite take_take. f_equal. lia.
Qed.

(** C38: [remove_one_mutex] is not signal-safe: when the handler takes and releases a
    mutex [s] between [lockset->n--] and the copy of the last slot, it overwrites that
    slot, and the removed mutex is replaced by [s] instead of by the last mutex [z].  The
    call ends with [z] lost from the lockset although the thread still holds it. *)
Theorem remove_signal_unsafe i m s z l :
  lockset_wf l → ls_n l < 10 → 0 ≤ i < ls_n l - 1 → contents l !! Z.to_nat i = Some m →
  list.last (contents l) = Some z → z ∉ take (Z.to_nat (ls_n l) - 1) (contents l) → z ≠ s →
  ∃ l', interrupted (remove_stmts i (ls_n l)) [[]; [s]] l = Ret tt l' ∧
        contents l' !! Z.to_nat i = Some s ∧ z ∉ contents l'.
Proof.
  intros Hwf Hlt Hi Hm Hz Hno Hzs.
  destruct (remove_interrupted_contents i m s l) as (l' & E & Hc); [done..|].
  exists l'. split; [done|]. rewrite Hc. split.
  - apply list_lookup_insert_eq. rewrite length_take, length_contents by done. lia.
  - intros [k Hk]%list_elem_of_lookup. apply list_lookup_insert_Some in Hk as [(_ & ? & _)|[_ Hk]].
    + done.
    + apply Hno. by eapply list_elem_of_lookup_2.
Qed.

Lemma remove_signal_unsafe_witness :
  ∃ l', interrupted (remove_stmts 0 2) [[]; [60]] (mkLOCKSET 2 0 [5; 6; 0; 0; 0; 0; 0; 0; 0; 0]) = Ret tt l' ∧
        contents l' !! Z.to_nat 0 = Some 60 ∧ 6 ∉ contents l'.
Proof.
  apply (remove_signal_unsafe 0 5 60 6 (mkLOCKSET 2 0 [5; 6; 0; 0; 0; 0; 0; 0; 0; 0]));
    [split; simpl; [reflexivity|lia|reflexivity]|simpl; lia|simpl; lia|reflexivity|reflexivity| |lia].
  vm_compute. set_solver.
Defined.
