(* ===== verification/Buffer.v ===== *)
(** * The event buffer

    racez_bufferdata.h and racez_bufferdata.cc: one buffer of [BUFFERSIZE] records
    shared by all threads.  A writer reserves an entry with an atomic add on the
    [global_] pointer and fills it; [StopBuffer] writes the entries to the log file. *)

From S2P Require Import Prelude.
From S2P Require Import Records.
From stdpp Require Import base gmap list.

Open Scope Z_scope.

(** [sizeof(struct Record)] depends on [pfm_pebs_core_smpl_entry_t] of the perfmon
    headers: the size is a parameter. *)
Class Platform := {
  sizeof_Record : Z;
  sizeof_Record_range : 0 < sizeof_Record < 65536
}.

Definition BUFFERSIZE : Z := 5000000.

(** ** State *)

(** A block from [malloc]: [blk_init] is what its entries hold before anything is
    stored, [blk_mem] the entries stored since. *)
Record block := mkBlk {
  blk_len : Z;
  blk_init : Z → RacezRecord;
  blk_mem : gmap Z RacezRecord
}.

Definition blk_at (b : block) (i : Z) : RacezRecord := default (blk_init b i) (blk_mem b !! i).

Definition blk_load {S} (b : block) (i : Z) : M S RacezRecord :=
  if bool_decide (0 ≤ i < blk_len b) then mret (blk_at b i) else fail OutOfBounds.

Definition blk_store {S} (b : block) (i : Z) (r : RacezRecord) : M S block :=
  if bool_decide (0 ≤ i < blk_len b)
  then mret (mkBlk (blk_len b) (blk_init b) (<[i := r]> (blk_mem b)))
  else fail OutOfBounds.

(** [struct BufferData]; [start_block] is the block [start_] points to. *)
Record BufferData := mkBuf {
  global_ : Z;
  start_ : Z;
  fd_ : Z;
  start_block : block
}.

Definition set_global (v : Z) (b : BufferData) : BufferData :=
  mkBuf v (start_ b) (fd_ b) (start_block b).
Definition set_block (v : block) (b : BufferData) : BufferData :=
  mkBuf (global_ b) (start_ b) (fd_ b) v.

(** The static [global_buffer] and the files behind the descriptors. *)
Record buf_state := mkBS {
  global_buffer : option BufferData;
  files : gmap Z (list RacezRecord)
}.

Definition set_buffer (b : option BufferData) (s : buf_state) : buf_state := mkBS b (files s).

(** Reading through [global_buffer]. *)
Definition the_buffer : M buf_state BufferData :=
  p ← gets global_buffer; deref p.

(** ** Filling an entry

    The assignments of [WriteRecord] to [current_entry], in order, one store each; a
    copy loop is one store per element. *)

Definition nth_word (l : list Z) (i : nat) : Z := default 0 (l !! i).
Arguments nth_word : simpl never.

Definition copy_lock (r : RacezRecord) (i : nat) (e : RacezRecord) : RacezRecord :=
  upd_op (λ o, set_lockset (<[i := nth_word (lockset_ (op_ r)) i]> (lockset_ o)) o) e.

Definition copy_frame (r : RacezRecord) (i : nat) (e : RacezRecord) : RacezRecord :=
  set_trace (<[i := nth_word (stack_trace_ r) i]> (stack_trace_ e)) (trace_depth_ e) e.

Definition op_stores (r : RacezRecord) : list (RacezRecord → RacezRecord) :=
  if type_is MEMORY_OP r then
    [ upd_op (set_memory_address (memory_address_ (op_ r)));
      upd_op (set_mem_op (mem_op_ (op_ r)));
      upd_op (set_pip (pip_ (op_ r)));
      upd_op (set_sip (sip_ (op_ r)));
      upd_op (set_is_write (is_write_ (op_ r)));
      upd_op (set_lock_count (lock_count_ (op_ r))) ]
    ++ (copy_lock r <$> seq 0 (Z.to_nat (lock_count_ (op_ r))))
  else if type_is MEMORY_ALLOC r then
    [ upd_op (set_memory_address (start_address_ (op_ r)));
      upd_op (set_alloc_size (size_ (op_ r)));
      upd_op (set_alloc_flag (is_alloc_ (op_ r))) ]
  else [].

Definition fill_stores (record_no : Z) (r : RacezRecord) : list (RacezRecord → RacezRecord) :=
  [ set_record_no record_no;
    set_thread_id (thread_id_ r);
    (λ e, mkRecord (record_no_ e) (thread_id_ e) (type_ r) (op_ e) (stack_trace_ e) (trace_depth_ e)) ]
  ++ op_stores r
  ++ [ (λ e, set_trace (stack_trace_ e) (trace_depth_ r) e) ]
  ++ (copy_frame r <$> seq 0 (Z.to_nat (trace_depth_ r))).

Definition apply_stores (e : RacezRecord) (sts : list (RacezRecord → RacezRecord)) : RacezRecord :=
  foldl (λ e st, st e) e sts.

(** One of the copy loops would leave the ten-element arrays. *)
Definition copies_overrun (r : RacezRecord) : bool :=
  (type_is MEMORY_OP r && (10 <? lock_count_ (op_ r))) || (10 <? trace_depth_ r).

(** ** The operations *)

Section ops.
Context `{HP : Platform}.

(** [lock; xadd] on [global_buffer->global_]; yields the new value. *)
Definition atomic_increment_no_barrier (increment : Z) : M buf_state Z :=
  b ← the_buffer;
  let temp := global_ b in
  modify (set_buffer (Some (set_global (wrap64 (temp + increment)) b))) ;;
  mret (wrap64 (temp + increment)).

(** Index of the entry a [struct Record*] points to. *)
Definition entry_index (b : BufferData) (p : Z) : Z := (p - start_ b) `quot` sizeof_Record.

Definition WriteRecord (racez_write_record : Z) (record : RacezRecord) : M buf_state unit :=
  if racez_write_record =? 0 then mret tt else
  current_entry ← atomic_increment_no_barrier sizeof_Record;
  b ← the_buffer;
  let record_no := wrap32 (entry_index b current_entry) in
  if BUFFERSIZE <? record_no then mret tt else
  if copies_overrun record then fail OutOfBounds else
  old ← blk_load (start_block b) (entry_index b current_entry);
  blk ← blk_store (start_block b) (entry_index b current_entry)
          (apply_stores old (fill_stores record_no record));
  modify (set_buffer (Some (set_block blk b))).

(** [write(fd, entry, sizeof(struct Record))]: [ok] says whether it succeeds.  Here a call
    takes a record whole or not at all; ByteBuffer.v has the calls that take a part of
    one. *)
Definition write_entry (ok : bool) (fd : Z) (r : RacezRecord) : M buf_state unit :=
  modify (λ s, if ok then mkBS (global_buffer s) (<[fd := default [] (files s !! fd) ++ [r]]> (files s))
               else s).

(** The loop of [StopBuffer] and [FlushBuffer]; yields [count].  [wr] tells which of
    the calls of [write] succeed. *)
Fixpoint write_loop (fuel : nat) (wr : Z → bool) (fd entry count : Z) : M buf_state Z :=
  match fuel with
  | O => fail OutOfFuel
  | S fuel' =>
      b ← the_buffer;
      if entry <=? global_ b then
        r ← blk_load (start_block b) (entry_index b entry);
        write_entry (wr count) fd r ;;
        write_loop fuel' wr fd (entry + sizeof_Record) (count + 1)
      else mret count
  end.

(** Enough rounds for the entries between [start_] and [global_]. *)
Definition loop_fuel (b : BufferData) : nat := Z.to_nat (entry_index b (global_ b) + 2).

(** Yields the count it prints. *)
Definition StopBuffer (wr : Z → bool) : M buf_state Z :=
  b ← the_buffer;
  count ← write_loop (loop_fuel b) wr (fd_ b) (start_ b) 0;
  modify (set_buffer None) ;;
  mret count.

Definition FlushBuffer (wr : Z → bool) : M buf_state unit :=
  b ← the_buffer;
  write_loop (loop_fuel b) wr (fd_ b) (start_ b) 0 ;;
  mret tt.

(** [hdr]: whether the [malloc] of the [BufferData] succeeds; [mem]: what the one of
    the records returns, an address and the contents found there; [fd]: what [open]
    returns. *)
Definition InitBuffer (hdr : bool) (mem : option (Z * (Z → RacezRecord))) (fd : Z) : M buf_state Z :=
  p ← gets global_buffer;
  c_assert (match p with None => true | Some _ => false end) ;;
  if negb hdr then fail (Exited 1) else
  match mem with
  | None => fail (Exited 1)
  | Some (addr, junk) =>
      modify (set_buffer (Some (mkBuf addr addr 0 (mkBlk BUFFERSIZE junk ∅)))) ;;
      if fd <? 0 then mret 0 else
      modify (λ s, mkBS (Some (mkBuf addr addr fd (mkBlk BUFFERSIZE junk ∅))) (<[fd := []]> (files s))) ;;
      mret 1
  end.
End ops.

(** ** What an entry holds once filled *)

(** [WriteRecord]'s assignments at once: the memory access or the allocation is
    copied, the arrays up to their counts; for any other type the union keeps what the
    entry held before. *)
Definition filled_op (r old : RacezRecord) : op_union :=
  if type_is MEMORY_OP r then
    mkOp (memory_address_ (op_ r)) (pip_ (op_ r)) (sip_ (op_ r)) (is_write_ (op_ r))
         (mem_op_ (op_ r)) (lock_count_ (op_ r))
         (copy_prefix (lock_count_ (op_ r)) (lockset_ (op_ r)) (lockset_ (op_ old)))
  else if type_is MEMORY_ALLOC r then
    set_alloc_flag (is_alloc_ (op_ r)) (set_alloc_size (size_ (op_ r))
      (set_memory_address (start_address_ (op_ r)) (op_ old)))
  else op_ old.

Definition filled (record_no : Z) (r old : RacezRecord) : RacezRecord :=
  mkRecord record_no (thread_id_ r) (type_ r) (filled_op r old)
           (copy_prefix (trace_depth_ r) (stack_trace_ r) (stack_trace_ old)) (trace_depth_ r).

Lemma foldl_copy (src dst : list Z) n :
  (n ≤ length src)%nat → (n ≤ length dst)%nat →
  foldl (λ d i, <[i := nth_word src i]> d) dst (seq 0 n) = take n src ++ drop n dst.
Proof.
  induction n as [|n IH]; intros Hs Hd; [done|].
  rewrite seq_S, foldl_snoc, IH by lia. simpl.
  destruct (lookup_lt_is_Some_2 src n) as [v Hv]; [lia|].
  destruct (lookup_lt_is_Some_2 dst n) as [w Hw]; [lia|].
  unfold nth_word. rewrite Hv; simpl.
  rewrite (take_S_r _ _ v) by done. rewrite (drop_S dst w n) by done.
  rewrite insert_app_r_alt by (rewrite length_take; lia).
  rewrite length_take, Nat.min_l, Nat.sub_diag by lia. simpl.
  by rewrite <- app_assoc.
Qed.

Lemma apply_copy_lock r e ix :
  apply_stores e (copy_lock r <$> ix) =
  upd_op (λ o, set_lockset (foldl (λ d i, <[i := nth_word (lockset_ (op_ r)) i]> d) (lockset_ o) ix) o) e.
Proof.
  revert e. induction ix as [|i ix IH]; intros e; [by destruct e as [? ? ? []]|].
  unfold apply_stores in *; simpl. rewrite IH. by destruct e as [? ? ? []].
Qed.

Lemma apply_copy_lock_seq r e n :
  (n ≤ length (lockset_ (op_ r)))%nat → (n ≤ length (lockset_ (op_ e)))%nat →
  apply_stores e (copy_lock r <$> seq 0 n) =
  upd_op (λ o, set_lockset (take n (lockset_ (op_ r)) ++ drop n (lockset_ o)) o) e.
Proof. intros H1 H2. rewrite apply_copy_lock. unfold upd_op. by rewrite foldl_copy. Qed.

Lemma apply_copy_frame r e ix :
  apply_stores e (copy_frame r <$> ix) =
  set_trace (foldl (λ d i, <[i := nth_word (stack_trace_ r) i]> d) (stack_trace_ e) ix) (trace_depth_ e) e.
Proof.
  revert e. induction ix as [|i ix IH]; intros e; [by destruct e|].
  unfold apply_stores in *; simpl. rewrite IH. by destruct e.
Qed.

Lemma apply_stores_app e s1 s2 : apply_stores e (s1 ++ s2) = apply_stores (apply_stores e s1) s2.
Proof. apply foldl_app. Qed.

Lemma copies_overrun_false r :
  copies_overrun r = false →
  (type_is MEMORY_OP r = true → lock_count_ (op_ r) ≤ 10) ∧ trace_depth_ r ≤ 10.
Proof.
  unfold copies_overrun. destruct (type_is MEMORY_OP r); simpl; intros H.
  - apply orb_false_iff in H as [H1%Z.ltb_ge H2%Z.ltb_ge]. done.
  - apply Z.ltb_ge in H. done.
Qed.

Lemma apply_fill no r old :
  record_wf r → record_wf old → copies_overrun r = false →
  apply_stores old (fill_stores no r) = filled no r old.
Proof.
  intros [[_ _ Hl] Ht] [[_ _ Hl'] Ht'] [Hc Hd]%copies_overrun_false.
  unfold fill_stores, filled. rewrite !apply_stores_app, apply_copy_frame.
  rewrite foldl_copy.
  2: lia.
  2: { unfold op_stores. destruct (type_is MEMORY_OP r); [rewrite apply_stores_app, apply_copy_lock|
         destruct (type_is MEMORY_ALLOC r)]; simpl; lia. }
  unfold op_stores, filled_op. destruct (type_is MEMORY_OP r) eqn:E1.
  - specialize (Hc eq_refl). rewrite apply_stores_app, apply_copy_lock_seq by (simpl; lia).
    destruct r as [? ? ? []], old as [? ? ? []]. reflexivity.
  - by destruct (type_is MEMORY_ALLOC r).
Qed.

(** ** One call, by the number of entries already reserved *)

Section proofs.
Context `{HP : Platform}.

(** [k] entries are reserved: [global_] points to entry [k].  The block is in the
    lower half of the address space, as user memory is on x86-64. *)
Record buffer_at (k : Z) (b : BufferData) : Prop := {
  at_start : 0 ≤ start_ b < 2 ^ 47;
  at_global : global_ b = start_ b + k * sizeof_Record;
  at_len : blk_len (start_block b) = BUFFERSIZE;
  at_count : 0 ≤ k
}.

Lemma entry_index_at b k : entry_index b (start_ b + k * sizeof_Record) = k.
Proof.
  unfold entry_index. replace (start_ b + k * sizeof_Record - start_ b) with (k * sizeof_Record) by lia.
  pose proof sizeof_Record_range. apply Z.quot_mul. lia.
Qed.

(** The pointer after one more reservation. *)
Definition next_buffer (b : BufferData) : BufferData := set_global (global_ b + sizeof_Record) b.

Lemma xadd_spec k b s :
  global_buffer s = Some b → buffer_at k b → k < 2 ^ 32 →
  atomic_increment_no_barrier sizeof_Record s =
    Ret (start_ b + (k + 1) * sizeof_Record) (set_buffer (Some (next_buffer b)) s).
Proof.
  intros Hb [Hst Hg _ Hk] Hlt. pose proof sizeof_Record_range.
  unfold atomic_increment_no_barrier, the_buffer. run_m. rewrite Hb; simpl.
  unfold next_buffer. rewrite wrap64_id by (unfold is_word; rewrite Hg; nia).
  f_equal. lia.
Qed.

(** The entry after the current one, stored. *)
Definition store_next (k : Z) (r : RacezRecord) (b : BufferData) : BufferData :=
  set_block (mkBlk BUFFERSIZE (blk_init (start_block b))
               (<[k + 1 := apply_stores (blk_at (start_block b) (k + 1)) (fill_stores (k + 1) r)]>
                  (blk_mem (start_block b))))
            (next_buffer b).

Lemma WriteRecord_step wr k b s r :
  wr ≠ 0 → global_buffer s = Some b → buffer_at k b → k + 1 < 2 ^ 31 →
  WriteRecord wr r s =
    if BUFFERSIZE <? k + 1 then Ret tt (set_buffer (Some (next_buffer b)) s)
    else if copies_overrun r || (k + 1 =? BUFFERSIZE)
    then Stop OutOfBounds (set_buffer (Some (next_buffer b)) s)
    else Ret tt (set_buffer (Some (store_next k r b)) s).
Proof.
  intros Hwr Hb Hat Hlt. unfold WriteRecord. destruct (Z.eqb_spec wr 0) as [|_]; [done|].
  rewrite (bind_Ret _ _ _ _ _ (xadd_spec k b s Hb Hat ltac:(lia))).
  destruct Hat as [Hst Hg Hlen Hk]. unfold the_buffer. run_m.
  replace (entry_index (next_buffer b) (start_ b + (k + 1) * sizeof_Record)) with (k + 1)
    by (symmetry; apply (entry_index_at (next_buffer b))).
  rewrite wrap32_id by (unfold is_int, INT_MIN, INT_MAX; lia).
  destruct (Z.ltb_spec BUFFERSIZE (k + 1)); [done|].
  destruct (copies_overrun r) eqn:Ec; [done|]; simpl.
  unfold blk_load, blk_store. rewrite Hlen.
  destruct (Z.eqb_spec (k + 1) BUFFERSIZE) as [E|E].
  - rewrite bool_decide_eq_false_2 by lia. done.
  - rewrite bool_decide_eq_true_2 by lia. run_m. done.
Qed.

Lemma store_next_at k r b : buffer_at k b → buffer_at (k + 1) (store_next k r b).
Proof. intros [? ? ? ?]. split; simpl; try done; lia. Qed.

Lemma blk_at_store_next k r b j :
  blk_at (start_block (store_next k r b)) j =
  if decide (j = k + 1) then apply_stores (blk_at (start_block b) (k + 1)) (fill_stores (k + 1) r)
  else blk_at (start_block b) j.
Proof.
  unfold blk_at at 1; simpl. destruct (decide (j = k + 1)) as [->|].
  - by rewrite lookup_insert_eq.
  - by rewrite lookup_insert_ne.
Qed.

(** A run of calls that fits: entries [k+1 .. k + length rs] are filled in order. *)
Lemma WriteRecords_fit wr rs k b s :
  wr ≠ 0 → global_buffer s = Some b → buffer_at k b →
  k + Z.of_nat (length rs) < BUFFERSIZE → Forall (λ r, copies_overrun r = false) rs →
  ∃ b', for_each rs (WriteRecord wr) s = Ret tt (set_buffer (Some b') s) ∧
    buffer_at (k + Z.of_nat (length rs)) b' ∧ fd_ b' = fd_ b ∧ start_ b' = start_ b ∧
    (∀ j, ¬ k < j ≤ k + Z.of_nat (length rs) → blk_at (start_block b') j = blk_at (start_block b) j) ∧
    (∀ i r, rs !! i = Some r →
       blk_at (start_block b') (k + 1 + Z.of_nat i) =
       apply_stores (blk_at (start_block b) (k + 1 + Z.of_nat i)) (fill_stores (k + 1 + Z.of_nat i) r)).
Proof.
  intros Hwr. revert k b s. induction rs as [|r rs IH]; intros k b s Hb Hat Hfit Hok; simpl.
  - exists b. rewrite Z.add_0_r. split; [destruct s; simpl in *; by subst|]. naive_solver.
  - apply Forall_cons in Hok as [Hr Hok]. simpl in Hfit. pose proof (at_count _ _ Hat).
    rewrite (bind_Ret _ _ _ tt (set_buffer (Some (store_next k r b)) s)).
    2: { rewrite (WriteRecord_step wr k b) by (done || unfold BUFFERSIZE in *; lia).
         rewrite Hr; simpl. destruct (Z.ltb_spec BUFFERSIZE (k + 1)); [lia|].
         destruct (Z.eqb_spec (k + 1) BUFFERSIZE); [lia|done]. }
    destruct (IH (k + 1) (store_next k r b) (set_buffer (Some (store_next k r b)) s))
      as (b' & E & Hat' & Hfd & Hst & Hout & Hin); [done|by apply store_next_at|lia|done|].
    exists b'. split; [done|]. split; [by replace (k + Z.of_nat (S (length rs))) with (k + 1 + Z.of_nat (length rs)) by lia|].
    split; [done|]. split; [done|]. split.
    + intros j Hj. rewrite Hout by lia. rewrite blk_at_store_next. by rewrite decide_False by lia.
    + intros [|i] r' Hi; simpl in Hi.
      * injection Hi as <-. rewrite Hout by lia.
        rewrite blk_at_store_next, decide_True by lia. simpl. by rewrite Z.add_0_r.
      * replace (k + 1 + Z.of_nat (S i)) with (k + 1 + 1 + Z.of_nat i) by lia.
        rewrite (Hin i r') by done. rewrite blk_at_store_next. by rewrite decide_False by lia.
Qed.

(** ** The writing loop *)

(** The entries [from .. from + n - 1] whose [write] succeeds. *)
Definition written (wr : Z → bool) (b : BufferData) (from : Z) (n : nat) : list RacezRecord :=
  blk_at (start_block b) <$> filter (λ i, wr i = true) (seqZ from (Z.of_nat n)).

Definition append_file (fd : Z) (rs : list RacezRecord) (s : buf_state) : buf_state :=
  mkBS (global_buffer s) (<[fd := default [] (files s !! fd) ++ rs]> (files s)).

Lemma written_S wr b j n :
  written wr b j (S n) = (if wr j then [blk_at (start_block b) j] else []) ++ written wr b (j + 1) n.
Proof.
  unfold written. rewrite seqZ_cons by lia.
  replace (Z.pred (Z.of_nat (S n))) with (Z.of_nat n) by lia. rewrite filter_cons.
  rewrite <- Z.add_1_r. destruct (wr j); by rewrite ?decide_True, ?decide_False by done.
Qed.

Lemma written_all b j n :
  written (λ _, true) b j n = blk_at (start_block b) <$> seqZ j (Z.of_nat n).
Proof.
  unfold written. f_equal. generalize (seqZ j (Z.of_nat n)). intros l.
  induction l as [|i l IH]; [done|]. rewrite filter_cons, decide_True, IH by done. done.
Qed.

(** From entry [j] the loop writes the entries up to [k] and stops there; a round more
    than there are entries is enough fuel. *)
Lemma write_loop_spec wr k b j n fuel s fs :
  global_buffer s = Some b → buffer_at k b → k < BUFFERSIZE → 0 ≤ j →
  j + Z.of_nat n = k + 1 → (n < fuel)%nat → files s !! fd_ b = Some fs →
  write_loop fuel wr (fd_ b) (start_ b + j * sizeof_Record) j s =
    Ret (k + 1) (append_file (fd_ b) (written wr b j n) s).
Proof.
  intros Hb Hat Hk. pose proof sizeof_Record_range as Hsz.
  revert j fuel s fs Hb. induction n as [|n IH]; intros j fuel s fs Hb Hj Hjn Hfuel Hfs;
    (destruct fuel as [|fuel]; [lia|]); cbn [write_loop]; unfold the_buffer; run_m; rewrite Hb; simpl.
  - destruct (Z.leb_spec (start_ b + j * sizeof_Record) (global_ b)) as [Hle|_];
      [rewrite (at_global _ _ Hat) in Hle; nia|].
    replace j with (k + 1) by lia. unfold append_file, written; simpl.
    rewrite app_nil_r, Hfs; simpl. rewrite insert_id by done. by destruct s.
  - destruct (Z.leb_spec (start_ b + j * sizeof_Record) (global_ b)) as [_|Hlt];
      [|rewrite (at_global _ _ Hat) in Hlt; nia].
    rewrite entry_index_at. unfold blk_load. rewrite (at_len _ _ Hat).
    rewrite bool_decide_eq_true_2 by (pose proof (at_count _ _ Hat); lia). run_m.
    replace (start_ b + j * sizeof_Record + sizeof_Record) with (start_ b + (j + 1) * sizeof_Record) by lia.
    rewrite written_S. destruct (wr j); simpl.
    + rewrite (IH (j + 1) fuel _ (fs ++ [blk_at (start_block b) j])); try done; try lia.
      * f_equal. unfold append_file; simpl. rewrite lookup_insert_eq, Hfs; simpl.
        by rewrite insert_insert_eq, <- app_assoc.
      * simpl. by rewrite lookup_insert_eq, Hfs.
    + by rewrite (IH (j + 1) fuel _ fs) by (done || lia).
Qed.

Lemma write_loop_all wr k b s fs :
  global_buffer s = Some b → buffer_at k b → k < BUFFERSIZE → files s !! fd_ b = Some fs →
  write_loop (loop_fuel b) wr (fd_ b) (start_ b) 0 s =
    Ret (k + 1) (append_file (fd_ b) (written wr b 0 (Z.to_nat (k + 1))) s).
Proof.
  intros Hb Hat Hk Hfs. pose proof (at_count _ _ Hat).
  replace (start_ b) with (start_ b + 0 * sizeof_Record) at 1 by lia.
  apply (write_loop_spec wr k b 0 _ _ s fs); try done; try lia.
  unfold loop_fuel. rewrite (at_global _ _ Hat), entry_index_at. lia.
Qed.

(** ** A logged entry stands for the record that was written *)

Definition same_event (r e : RacezRecord) : Prop :=
  thread_id_ e = thread_id_ r ∧ type_ e = type_ r ∧ trace_depth_ e = trace_depth_ r ∧
  take (Z.to_nat (trace_depth_ r)) (stack_trace_ e) = take (Z.to_nat (trace_depth_ r)) (stack_trace_ r) ∧
  (type_is MEMORY_OP r = true →
     memory_address_ (op_ e) = memory_address_ (op_ r) ∧ pip_ (op_ e) = pip_ (op_ r) ∧
     sip_ (op_ e) = sip_ (op_ r) ∧ is_write_ (op_ e) = is_write_ (op_ r) ∧
     mem_op_ (op_ e) = mem_op_ (op_ r) ∧ lock_count_ (op_ e) = lock_count_ (op_ r) ∧
     take (Z.to_nat (lock_count_ (op_ r))) (lockset_ (op_ e)) =
     take (Z.to_nat (lock_count_ (op_ r))) (lockset_ (op_ r))) ∧
  (type_is MEMORY_ALLOC r = true →
     start_address_ (op_ e) = start_address_ (op_ r) ∧ size_ (op_ e) = size_ (op_ r) ∧
     is_alloc_ (op_ e) = is_alloc_ (op_ r)).

Lemma type_is_excl r : type_is MEMORY_OP r = true → type_is MEMORY_ALLOC r = true → False.
Proof. unfold type_is. rewrite !bool_decide_eq_true. simpl. lia. Qed.

Lemma filled_same_event no r old :
  record_wf r → copies_overrun r = false → same_event r (filled no r old).
Proof.
  intros [[_ _ Hl] Ht] [Hc Hd]%copies_overrun_false. unfold same_event; simpl.
  do 3 (split; [done|]). split; [apply take_copy_prefix; lia|]. split; intros E; unfold filled_op; rewrite E.
  - specialize (Hc E). simpl. do 6 (split; [done|]). apply take_copy_prefix. lia.
  - destruct (type_is MEMORY_OP r) eqn:E'; [by destruct (type_is_excl r)|].
    rewrite size_set_alloc_flag, size_set_alloc_size, is_alloc_set_alloc_flag.
    split; [done|]. split; apply wrap32_id, wrap32_range.
Qed.

Lemma InitBuffer_ok addr junk fd s :
  global_buffer s = None → 0 ≤ fd →
  InitBuffer true (Some (addr, junk)) fd s =
    Ret 1 (mkBS (Some (mkBuf addr addr fd (mkBlk BUFFERSIZE junk ∅))) (<[fd := []]> (files s))).
Proof.
  intros Hs Hfd. unfold InitBuffer. run_m. rewrite Hs. run_m.
  destruct (Z.ltb_spec fd 0); [lia|]. done.
Qed.

Lemma fresh_buffer_at addr junk fd :
  0 ≤ addr < 2 ^ 47 → buffer_at 0 (mkBuf addr addr fd (mkBlk BUFFERSIZE junk ∅)).
Proof. intros. split; simpl; done || lia. Qed.
(** The buffer [InitBuffer] makes. *)
Definition fresh_buffer (addr : Z) (junk : Z → RacezRecord) (fd : Z) : BufferData :=
  mkBuf addr addr fd (mkBlk BUFFERSIZE junk ∅).

(** A run of calls on a fresh buffer, then [StopBuffer]. *)
Lemma write_then_stop flag addr junk fd rs s :
  flag ≠ 0 → 0 ≤ addr < 2 ^ 47 → global_buffer s = Some (fresh_buffer addr junk fd) →
  files s !! fd = Some [] →
  (∀ i, record_wf (junk i)) → Forall record_wf rs →
  Forall (λ r, copies_overrun r = false) rs → Z.of_nat (length rs) < BUFFERSIZE →
  ∃ s1 s' log,
    for_each rs (WriteRecord flag) s = Ret tt s1 ∧
    StopBuffer (λ _, true) s1 = Ret (Z.of_nat (length rs) + 1) s' ∧ files s1 = files s ∧
    global_buffer s' = None ∧ files s' !! fd = Some (junk 0 :: log) ∧
    length log = length rs ∧
    ∀ i r, rs !! i = Some r → ∃ e, log !! i = Some e ∧
      record_no_ e = Z.of_nat i + 1 ∧ same_event r e.
Proof.
  intros Hflag Haddr Hs Hfile Hjunk Hwf Hok Hfit.
  destruct (WriteRecords_fit flag rs 0 (fresh_buffer addr junk fd) s)
    as (b & E & Hat & Hfdb & Hst & Hout & Hin); [done..|by apply fresh_buffer_at|lia|done|].
  exists (set_buffer (Some b) s). simpl in Hfdb. rewrite Z.add_0_l in *.
  unfold StopBuffer, the_buffer. run_m. subst fd.
  rewrite (write_loop_all _ _ b (set_buffer (Some b) s) [] eq_refl Hat Hfit) by done.
  eexists _, _. split; [done|]. split; [done|]. split; [done|]. split; [done|]. simpl. rewrite !lookup_insert_eq, ?Hfile; simpl.
  split; [|split].
  - f_equal. replace (Z.to_nat (Z.of_nat (length rs) + 1)) with (S (length rs)) by lia.
    rewrite written_S; simpl. f_equal. rewrite Hout by lia. reflexivity.
  - rewrite written_all, length_fmap, length_seqZ. lia.
  - intros i r Hi. pose proof (lookup_lt_Some _ _ _ Hi).
    exists (filled (Z.of_nat i + 1) r (junk (Z.of_nat i + 1))). split.
    + rewrite written_all. rewrite list_lookup_fmap, lookup_seqZ_lt by lia. simpl. f_equal.
      rewrite ?Z.add_0_l. rewrite (Hin i r Hi), apply_fill; [by rewrite (Z.add_comm 1)|by eapply Forall_lookup_1|apply (Hjunk (1 + Z.of_nat i))|].
      by eapply (Forall_lookup_1 (λ r, copies_overrun r = false)).
    + split; [done|]. apply filled_same_event; [by eapply Forall_lookup_1|].
      by eapply (Forall_lookup_1 (λ r, copies_overrun r = false)).
Qed.
End proofs.

(** ** The properties *)

Definition demo_platform : Platform.
Proof. exists 368. lia. Defined.

(** What is logged is what was recorded.  After a successful [InitBuffer], any run of
    fewer than [BUFFERSIZE] calls of [WriteRecord] followed by [StopBuffer] returns, and
    the log file holds, behind the never-filled first entry, one entry per call in call
    order: the i-th has record number i and carries the thread, type, operands, lockset
    prefix and stack prefix of the record that was written. *)
Theorem buffer_log_roundtrip (HP : Platform) flag addr junk fd rs s :
  flag ≠ 0 → 0 ≤ addr < 2 ^ 47 → 0 ≤ fd → global_buffer s = None →
  (∀ i, record_wf (junk i)) → Forall record_wf rs →
  Forall (λ r, copies_overrun r = false) rs → Z.of_nat (length rs) < BUFFERSIZE →
  ∃ s' log,
    (InitBuffer true (Some (addr, junk)) fd ;; for_each rs (WriteRecord flag) ;;
     StopBuffer (λ _, true)) s = Ret (Z.of_nat (length rs) + 1) s' ∧
    global_buffer s' = None ∧ files s' !! fd = Some (junk 0 :: log) ∧
    length log = length rs ∧
    ∀ i r, rs !! i = Some r → ∃ e, log !! i = Some e ∧
      record_no_ e = Z.of_nat i + 1 ∧ same_event r e.
Proof.
  intros Hflag Haddr Hfd Hs Hjunk Hwf Hok Hfit.
  rewrite (bind_Ret _ _ _ _ _ (InitBuffer_ok addr junk fd s Hs Hfd)).
  destruct (write_then_stop flag addr junk fd rs
              (mkBS (Some (fresh_buffer addr junk fd)) (<[fd := []]> (files s))))
    as (s1 & s' & log & E1 & E2 & _ & Hrest); try done; [simpl; by rewrite lookup_insert_eq|].
  exists s', log. by rewrite (bind_Ret _ _ _ _ _ E1).
Qed.

Definition demo_access : RacezRecord :=
  mkRecord 0 7 1 (mkOp 4096 100 100 1 zero_pebs 1 [55; 0; 0; 0; 0; 0; 0; 0; 0; 0]) (replicate 10 0) 0.

Lemma demo_access_wf : record_wf demo_access.
Proof. split; [split; [vm_compute; done|vm_compute; done|reflexivity]|reflexivity]. Qed.

Lemma zero_record_wf : record_wf zero_record.
Proof. split; [split; [vm_compute; done|vm_compute; done|reflexivity]|reflexivity]. Qed.

Lemma buffer_log_roundtrip_witness :
  ∃ s' log,
    (InitBuffer true (Some (65536, λ _, zero_record)) 3 ;; for_each [demo_access; demo_access] (WriteRecord (HP := demo_platform) 1) ;;
     StopBuffer (HP := demo_platform) (λ _, true)) (mkBS None ∅) = Ret 3 s' ∧
    global_buffer s' = None ∧ files s' !! 3 = Some (zero_record :: log) ∧
    length log = 2%nat ∧
    ∀ i r, [demo_access; demo_access] !! i = Some r → ∃ e, log !! i = Some e ∧
      record_no_ e = Z.of_nat i + 1 ∧ same_event r e.
Proof.
  apply (buffer_log_roundtrip demo_platform 1 65536 (λ _, zero_record) 3 [demo_access; demo_access] (mkBS None ∅));
    [lia|lia|lia|reflexivity|intros _; apply zero_record_wf
    |repeat constructor; apply demo_access_wf|repeat constructor|vm_compute; reflexivity].
Defined.

(** C36: [WriteRecord] by the number [k] of entries reserved before the call, up to the
    range of [int].  Below the last index the record is stored as entry [k + 1] and no
    other entry changes; once the buffer is exhausted the call drops the record; and in
    between, for [k + 1 = BUFFERSIZE], the test [record_no > BUFFERSIZE] lets an entry
    through that is one past the end of the block. *)
Theorem WriteRecord_by_position (HP : Platform) flag k b s r :
  flag ≠ 0 → global_buffer s = Some b → buffer_at k b → k + 1 < 2 ^ 31 →
  copies_overrun r = false →
  (k + 1 < BUFFERSIZE → ∃ b', WriteRecord flag r s = Ret tt (set_buffer (Some b') s) ∧
     buffer_at (k + 1) b' ∧
     blk_at (start_block b') (k + 1) =
       apply_stores (blk_at (start_block b) (k + 1)) (fill_stores (k + 1) r) ∧
     ∀ j, j ≠ k + 1 → blk_at (start_block b') j = blk_at (start_block b) j) ∧
  (k + 1 = BUFFERSIZE → ∃ s', WriteRecord flag r s = Stop OutOfBounds s') ∧
  (BUFFERSIZE < k + 1 → ∃ b', WriteRecord flag r s = Ret tt (set_buffer (Some b') s) ∧
     start_block b' = start_block b).
Proof.
  intros Hflag Hb Hat Hlt Hok. rewrite (WriteRecord_step flag k b) by done.
  rewrite Hok; simpl. destruct (Z.ltb_spec BUFFERSIZE (k + 1)) as [Hgt|Hle];
    [|destruct (Z.eqb_spec (k + 1) BUFFERSIZE) as [E|E]].
  - split; [lia|]. split; [lia|]. intros _. by eexists.
  - split; [lia|]. split; [|lia]. intros _. by eexists.
  - split; [|lia]. intros _. eexists. split; [done|]. split; [by apply store_next_at|].
    split; [|intros j Hj]; rewrite blk_at_store_next; [by rewrite decide_True|by rewrite decide_False].
Qed.

Definition demo_buffer (k : Z) : BufferData :=
  mkBuf (65536 + k * 368) 65536 3 (mkBlk BUFFERSIZE (λ _, zero_record) ∅).

Lemma WriteRecord_by_position_witness :
  ∃ s', WriteRecord (HP := demo_platform) 1 demo_access (mkBS (Some (demo_buffer 4999999)) ∅) = Stop OutOfBounds s'.
Proof.
  apply (WriteRecord_by_position demo_platform 1 4999999 (demo_buffer 4999999) (mkBS (Some (demo_buffer 4999999)) ∅) demo_access);
    [lia|reflexivity|split; vm_compute; done|lia|reflexivity|reflexivity].
Defined.

(** The record number is an [int]: from the 2^31-th reservation on it is negative,
    the full-buffer test no longer holds, and [WriteRecord] stores far outside the block. *)
Theorem WriteRecord_counter_wraps (HP : Platform) flag k b s r :
  flag ≠ 0 → global_buffer s = Some b → buffer_at k b → 2 ^ 31 ≤ k + 1 < 2 ^ 32 →
  wrap32 (k + 1) < 0 ∧ ∃ s', WriteRecord flag r s = Stop OutOfBounds s'.
Proof.
  intros Hflag Hb Hat Hk.
  assert (Hneg : wrap32 (k + 1) < 0).
  { unfold wrap32. rewrite (Z.mod_eq _ (2 ^ 32)) by lia.
    assert ((k + 1 + 2 ^ 31) / 2 ^ 32 = 1) as ->; [|lia].
    symmetry. apply (Z.div_unique _ _ _ (k + 1 + 2 ^ 31 - 2 ^ 32)); lia. }
  split; [done|]. unfold WriteRecord. destruct (Z.eqb_spec flag 0); [done|].
  rewrite (bind_Ret _ _ _ _ _ (xadd_spec k b s Hb Hat ltac:(lia))).
  unfold the_buffer. run_m.
  replace (entry_index (next_buffer b) (start_ b + (k + 1) * sizeof_Record)) with (k + 1)
    by (symmetry; apply (entry_index_at (next_buffer b))).
  destruct (Z.ltb_spec BUFFERSIZE (wrap32 (k + 1))) as [Hlt|_]; [unfold BUFFERSIZE in Hlt; lia|].
  destruct (copies_overrun r); [by eexists|].
  unfold blk_load. rewrite (at_len _ _ Hat), bool_decide_eq_false_2 by (unfold BUFFERSIZE; lia).
  by eexists.
Qed.

Lemma WriteRecord_counter_wraps_witness :
  wrap32 2147483648 < 0 ∧
  ∃ s', WriteRecord (HP := demo_platform) 1 demo_access (mkBS (Some (demo_buffer 2147483647)) ∅) = Stop OutOfBounds s'.
Proof.
  apply (WriteRecord_counter_wraps demo_platform 1 2147483647 (demo_buffer 2147483647));
    [lia|reflexivity|split; vm_compute; done|lia].
Defined.

Lemma write_loop_overrun `{HP : Platform} wr k b j n fuel s :
  global_buffer s = Some b → buffer_at k b → BUFFERSIZE ≤ k → 0 ≤ j →
  j + Z.of_nat n = BUFFERSIZE → (n < fuel)%nat →
  ∃ s', write_loop fuel wr (fd_ b) (start_ b + j * sizeof_Record) j s = Stop OutOfBounds s'.
Proof.
  intros Hb Hat Hk. pose proof sizeof_Record_range as Hsz.
  revert j fuel s Hb. induction n as [|n IH]; intros j fuel s Hb Hj Hjn Hfuel;
    (destruct fuel as [|fuel]; [lia|]); cbn [write_loop]; unfold the_buffer; run_m; rewrite Hb; simpl;
    (destruct (Z.leb_spec (start_ b + j * sizeof_Record) (global_ b)) as [_|Hlt];
      [|rewrite (at_global _ _ Hat) in Hlt; nia]);
    rewrite entry_index_at; unfold blk_load; rewrite (at_len _ _ Hat).
  - rewrite bool_decide_eq_false_2 by lia. by eexists.
  - rewrite bool_decide_eq_true_2 by lia. run_m.
    replace (start_ b + j * sizeof_Record + sizeof_Record) with (start_ b + (j + 1) * sizeof_Record) by lia.
    apply IH; [|lia..]. by destruct (wr j).
Qed.

(** C37: [StopBuffer] does not stop at the end of the block: once at least [BUFFERSIZE]
    entries were reserved (the dropped ones count), its loop reads past it. *)
Theorem StopBuffer_overrun (HP : Platform) wr k b s :
  global_buffer s = Some b → buffer_at k b → BUFFERSIZE ≤ k →
  ∃ s', StopBuffer wr s = Stop OutOfBounds s'.
Proof.
  intros Hb Hat Hk. unfold StopBuffer, the_buffer. run_m. rewrite Hb; simpl.
  assert (∃ n, Z.of_nat n = BUFFERSIZE) as [n Hn]
    by (exists (Z.to_nat BUFFERSIZE); by apply Z2Nat.id).
  destruct (write_loop_overrun wr k b 0 n (loop_fuel b) s) as [s' E]; [done..| |].
  - unfold loop_fuel. rewrite (at_global _ _ Hat), entry_index_at. lia.
  - replace (start_ b + 0 * sizeof_Record) with (start_ b) in E by lia. rewrite E. by eexists.
Qed.

Lemma StopBuffer_overrun_witness :
  ∃ s', StopBuffer (HP := demo_platform) (λ _, true) (mkBS (Some (demo_buffer 5000000)) ∅) = Stop OutOfBounds s'.
Proof.
  apply (StopBuffer_overrun demo_platform (λ _, true) 5000000 (demo_buffer 5000000));
    [reflexivity|split; vm_compute; done|vm_compute; done].
Defined.

(** The operands of synchronisation records are never logged: for every type other
    than a memory access or an allocation, [WriteRecord] leaves the union of the entry
    holding whatever was there before. *)
Theorem sync_operands_not_logged (HP : Platform) flag k b s r :
  flag ≠ 0 → global_buffer s = Some b → buffer_at k b → k + 1 < BUFFERSIZE →
  record_wf r → record_wf (blk_at (start_block b) (k + 1)) → copies_overrun r = false →
  type_is MEMORY_OP r = false → type_is MEMORY_ALLOC r = false →
  ∃ b', WriteRecord flag r s = Ret tt (set_buffer (Some b') s) ∧
        type_ (blk_at (start_block b') (k + 1)) = type_ r ∧
        op_ (blk_at (start_block b') (k + 1)) = op_ (blk_at (start_block b) (k + 1)).
Proof.
  intros Hflag Hb Hat Hk Hwf Hold Hok H1 H2.
  rewrite (WriteRecord_step flag k b) by (done || unfold BUFFERSIZE in *; lia). rewrite Hok; simpl.
  destruct (Z.ltb_spec BUFFERSIZE (k + 1)); [lia|]. destruct (Z.eqb_spec (k + 1) BUFFERSIZE); [lia|].
  eexists. split; [done|]. rewrite blk_at_store_next, decide_True, apply_fill by done. simpl.
  split; [done|]. unfold filled_op. by rewrite H1, H2.
Qed.

Definition demo_signal : RacezRecord := upd_op (set_memory_address 4096) (set_type SYNC_SIGNAL zero_record).

Lemma sync_operands_not_logged_witness :
  ∃ b', WriteRecord (HP := demo_platform) 1 demo_signal (mkBS (Some (demo_buffer 0)) ∅) =
          Ret tt (set_buffer (Some b') (mkBS (Some (demo_buffer 0)) ∅)) ∧
        type_ (blk_at (start_block b') 1) = 4 ∧
        op_ (blk_at (start_block b') 1) = zero_op.
Proof.
  apply (sync_operands_not_logged demo_platform 1 0 (demo_buffer 0) (mkBS (Some (demo_buffer 0)) ∅) demo_signal);
    [lia|reflexivity|split; vm_compute; done|vm_compute; done
    |split; [split; [vm_compute; done|vm_compute; done|reflexivity]|reflexivity]
    |apply zero_record_wf|reflexivity..].
Defined.

(** When [open] fails, [InitBuffer] reports it but leaves the buffer in place with
    descriptor 0: a later [StopBuffer] of [k] entries then writes the log to descriptor 0. *)
Theorem InitBuffer_open_failure (HP : Platform) addr junk fd s fs :
  global_buffer s = None → fd < 0 → 0 ≤ addr < 2 ^ 47 → files s !! 0 = Some fs →
  ∃ s', InitBuffer true (Some (addr, junk)) fd s = Ret 0 s' ∧
    ∃ s'', StopBuffer (λ _, true) s' = Ret 1 s'' ∧ files s'' !! 0 = Some (fs ++ [junk 0]).
Proof.
  intros Hs Hfd Haddr Hfs. unfold InitBuffer. run_m. rewrite Hs; run_m.
  destruct (Z.ltb_spec fd 0); [|lia]. eexists. split; [done|].
  set (b := mkBuf _ _ _ _). unfold StopBuffer, the_buffer. run_m.
  rewrite (write_loop_all _ 0 b (set_buffer (Some b) s) fs eq_refl)
    by (done || by apply fresh_buffer_at).
  eexists. split; [done|]. simpl. rewrite lookup_insert_eq, Hfs. done.
Qed.

Lemma InitBuffer_open_failure_witness :
  ∃ s', InitBuffer true (Some (65536, λ _, zero_record)) (-1) (mkBS None {[ 0 := [] ]}) = Ret 0 s' ∧
    ∃ s'', StopBuffer (HP := demo_platform) (λ _, true) s' = Ret 1 s'' ∧ files s'' !! 0 = Some ([] ++ [zero_record]).
Proof.
  apply (InitBuffer_open_failure demo_platform 65536 (λ _, zero_record) (-1) (mkBS None {[ 0 := [] ]}) []);
    [reflexivity|lia|lia|reflexivity].
Defined.
