(* ===== verification/BufferConc.v ===== *)
(** * Concurrent writers

    Any number of threads (and signal handlers) are inside [WriteRecord]
    (racez_bufferdata.cc) at once.  Each reserves an entry with one atomic add and
    then fills it with plain stores, which interleave freely with those of the others.
    The theorem of this file is that the buffer ends as if the calls had run one after
    the other in the order of their atomic adds. *)

From S2P Require Import Prelude.
From S2P Require Import Records.
From S2P Require Import Buffer.
From stdpp Require Import base gmap list relations.

Open Scope Z_scope.

Section conc.
Context `{HP : Platform}.

(** The shared buffer; for every thread inside the filling part of [WriteRecord], the
    index of its entry and the stores it still has to do; and, for the proof, the
    records in the order of their reservations. *)
Record conc := mkConc {
  c_buf : BufferData;
  c_writers : gmap Z (Z * list (RacezRecord → RacezRecord));
  c_log : list RacezRecord
}.

(** One store to the shared block. *)
Definition store_entry (b : BufferData) (i : Z) (st : RacezRecord → RacezRecord) : BufferData :=
  set_block (mkBlk (blk_len (start_block b)) (blk_init (start_block b))
               (<[i := st (blk_at (start_block b) i)]> (blk_mem (start_block b)))) b.

Inductive conc_step : conc → conc → Prop :=
  (** a thread enters [WriteRecord] and does the atomic add; a full buffer ends the call *)
  | step_reserve tid r b ws log fs p b' no :
      ws !! tid = None →
      copies_overrun r = false →
      atomic_increment_no_barrier sizeof_Record (mkBS (Some b) fs) = Ret p (mkBS (Some b') fs) →
      no = wrap32 (entry_index b' p) →
      conc_step (mkConc b ws log)
        (mkConc b' (if BUFFERSIZE <? no then ws
                    else <[tid := (entry_index b' p, fill_stores no r)]> ws) (log ++ [r]))
  (** a thread does its next store *)
  | step_store tid i st rest b ws log :
      ws !! tid = Some (i, st :: rest) →
      0 ≤ i < blk_len (start_block b) →
      conc_step (mkConc b ws log) (mkConc (store_entry b i st) (<[tid := (i, rest)]> ws) log)
  (** a thread with nothing left to store returns *)
  | step_return tid i b ws log :
      ws !! tid = Some (i, []) →
      conc_step (mkConc b ws log) (mkConc b (delete tid ws) log).

Definition quiet (b : BufferData) : conc := mkConc b ∅ [].

(** Entry [i + 1] belongs to the [i]-th reservation: it holds the stores done so far,
    and the ones missing are those its writer still has. *)
Record conc_inv (b0 : BufferData) (c : conc) : Prop := {
  ci_at : buffer_at (Z.of_nat (length (c_log c))) (c_buf c);
  ci_start : start_ (c_buf c) = start_ b0 ∧ fd_ (c_buf c) = fd_ b0;
  ci_writer tid i rest : c_writers c !! tid = Some (i, rest) →
    ∃ n r done, i = Z.of_nat n + 1 ∧ c_log c !! n = Some r ∧
      fill_stores i r = done ++ rest ∧
      blk_at (start_block (c_buf c)) i = apply_stores (blk_at (start_block b0) i) done;
  ci_distinct t1 t2 i rest1 rest2 : c_writers c !! t1 = Some (i, rest1) →
    c_writers c !! t2 = Some (i, rest2) → t1 = t2;
  ci_done n r : c_log c !! n = Some r →
    (∀ tid rest, c_writers c !! tid ≠ Some (Z.of_nat n + 1, rest)) →
    blk_at (start_block (c_buf c)) (Z.of_nat n + 1) =
      apply_stores (blk_at (start_block b0) (Z.of_nat n + 1)) (fill_stores (Z.of_nat n + 1) r);
  ci_rest j : ¬ 0 < j ≤ Z.of_nat (length (c_log c)) →
    blk_at (start_block (c_buf c)) j = blk_at (start_block b0) j
}.

Lemma quiet_inv b0 : buffer_at 0 b0 → conc_inv b0 (quiet b0).
Proof.
  intros Hat. split; simpl; try done.
Qed.

Lemma blk_at_store_entry b i st j :
  blk_at (start_block (store_entry b i st)) j =
  if decide (j = i) then st (blk_at (start_block b) i) else blk_at (start_block b) j.
Proof.
  unfold store_entry, blk_at at 1; simpl. destruct (decide (j = i)) as [->|].
  - by rewrite lookup_insert_eq.
  - by rewrite lookup_insert_ne.
Qed.

Lemma store_entry_at k b i st : buffer_at k b → buffer_at k (store_entry b i st).
Proof. by intros []. Qed.

(** The reservation step in closed form, below the range of [int]. *)
Lemma reserve_spec k b fs p b' :
  buffer_at k b → k + 1 < 2 ^ 31 →
  atomic_increment_no_barrier sizeof_Record (mkBS (Some b) fs) = Ret p (mkBS (Some b') fs) →
  b' = next_buffer b ∧ buffer_at (k + 1) b' ∧ entry_index b' p = k + 1 ∧ wrap32 (entry_index b' p) = k + 1.
Proof.
  intros Hat Hk E. rewrite (xadd_spec k b (mkBS (Some b) fs) eq_refl Hat) in E by lia.
  injection E as <- <-. pose proof (at_count _ _ Hat).
  assert (Hix : entry_index (next_buffer b) (start_ b + (k + 1) * sizeof_Record) = k + 1)
    by apply (entry_index_at (next_buffer b)).
  split; [done|]. split; [destruct Hat; split; simpl; done || lia|]. split; [done|].
  rewrite Hix. apply wrap32_id. unfold is_int, INT_MIN, INT_MAX. lia.
Qed.

Lemma inv_reserve b0 tid r b ws log fs p b' :
  conc_inv b0 (mkConc b ws log) → Z.of_nat (length (log ++ [r])) < BUFFERSIZE →
  ws !! tid = None →
  atomic_increment_no_barrier sizeof_Record (mkBS (Some b) fs) = Ret p (mkBS (Some b') fs) →
  conc_inv b0 (mkConc b'
    (if BUFFERSIZE <? wrap32 (entry_index b' p) then ws
     else <[tid := (entry_index b' p, fill_stores (wrap32 (entry_index b' p)) r)]> ws) (log ++ [r])).
Proof.
  intros [Hat Hst Hw Hd Hdone Hrest] Hlen Htid E; cbn [c_buf c_writers c_log] in *.
  rewrite length_app in Hlen; simpl in Hlen.
  apply (reserve_spec _ _ _ _ _ Hat) in E as (-> & Hat' & Hix & ->); [|unfold BUFFERSIZE in *; lia].
  rewrite Hix. destruct (Z.ltb_spec BUFFERSIZE (Z.of_nat (length log) + 1)); [lia|].
  split; cbn [c_buf c_writers c_log]; try done.
  - rewrite length_app; simpl. by replace (Z.of_nat (length log + 1)) with (Z.of_nat (length log) + 1) by lia.
  - intros t i rest [[<- Heq]|[_ Ht]]%lookup_insert_Some.
    + simplify_eq. exists (length log), r, []. rewrite lookup_app_r, Nat.sub_diag by lia.
      split; [done|]. split; [done|]. split; [done|]. apply Hrest. lia.
    + destruct (Hw t i rest Ht) as (n & r' & dn & -> & Hn & Hf & Hb).
      exists n, r', dn. split; [done|]. split; [by apply lookup_app_l_Some|]. done.
  - assert (Hfresh : ∀ t rest, ws !! t ≠ Some (Z.of_nat (length log) + 1, rest)).
    { intros t rest Ht. destruct (Hw _ _ _ Ht) as (n & r' & dn & Hn & Hl & _).
      apply lookup_lt_Some in Hl. lia. }
    intros t1 t2 i rest1 rest2 [[<- E1]|[_ H1]]%lookup_insert_Some [[<- E2]|[_ H2]]%lookup_insert_Some;
      simplify_eq; try done; [by apply Hfresh in H2|by apply Hfresh in H1|by eapply Hd].
  - intros n r' Hn Hno. destruct (decide (n < length log)%nat) as [Hlt|Hge].
    + rewrite lookup_app_l in Hn by done. apply Hdone; [done|]. intros t rest Ht.
      apply (Hno t rest). rewrite lookup_insert_ne; [done|congruence].
    + apply lookup_lt_Some in Hn as Hlt. rewrite length_app in Hlt; simpl in Hlt.
      replace n with (length log) in * by lia. exfalso.
      eapply Hno. by rewrite lookup_insert_eq.
  - intros j Hj. rewrite length_app in Hj; simpl in Hj. apply Hrest. lia.
Qed.

Lemma inv_store b0 tid i st rest b ws log :
  conc_inv b0 (mkConc b ws log) → ws !! tid = Some (i, st :: rest) →
  conc_inv b0 (mkConc (store_entry b i st) (<[tid := (i, rest)]> ws) log).
Proof.
  intros [Hat Hst Hw Hd Hdone Hrest] Htid; cbn [c_buf c_writers c_log] in *.
  destruct (Hw _ _ _ Htid) as (n0 & r0 & d0 & Hi & Hn0 & Hf0 & Hb0).
  split; cbn [c_buf c_writers c_log]; try done; try by apply store_entry_at.
  - intros t j rest' [[<- Heq]|[Hne Ht]]%lookup_insert_Some; rewrite blk_at_store_entry.
    + simplify_eq. rewrite decide_True by done. exists n0, r0, (d0 ++ [st]).
      rewrite <- app_assoc, apply_stores_app, <- Hb0. done.
    + rewrite decide_False by (intros ->; by apply Hne, (Hd _ _ _ _ _ Htid Ht)).
      destruct (Hw t j rest' Ht) as (n & r & dn & -> & Hn & Hf & Hb). by exists n, r, dn.
  - intros t1 t2 j rest1 rest2 [[<- E1]|[_ H1]]%lookup_insert_Some [[<- E2]|[_ H2]]%lookup_insert_Some;
      simplify_eq; try done; by eapply Hd.
  - intros n r Hn Hno. assert (Hne : Z.of_nat n + 1 ≠ i).
    { intros <-. eapply Hno. by rewrite lookup_insert_eq. }
    rewrite blk_at_store_entry, decide_False by done. apply Hdone; [done|].
    intros t rest' Ht. destruct (decide (t = tid)) as [->|Hnt]; [simplify_eq|].
    apply (Hno t rest'). by rewrite lookup_insert_ne.
  - intros j Hj. apply lookup_lt_Some in Hn0. rewrite blk_at_store_entry, decide_False by lia.
    by apply Hrest.
Qed.

Lemma inv_return b0 tid i b ws log :
  conc_inv b0 (mkConc b ws log) → ws !! tid = Some (i, []) →
  conc_inv b0 (mkConc b (delete tid ws) log).
Proof.
  intros [Hat Hst Hw Hd Hdone Hrest] Htid; cbn [c_buf c_writers c_log] in *.
  split; cbn [c_buf c_writers c_log]; try done.
  - intros t j rest [_ Ht]%lookup_delete_Some. by eapply Hw.
  - intros t1 t2 j rest1 rest2 [_ H1]%lookup_delete_Some [_ H2]%lookup_delete_Some. by eapply Hd.
  - intros n r Hn Hno. destruct (decide (Z.of_nat n + 1 = i)) as [<-|Hne].
    + destruct (Hw _ _ _ Htid) as (n' & r' & dn & Hn' & Hr' & Hf & Hb).
      assert (n' = n) as -> by lia. simplify_eq. rewrite app_nil_r in Hf. by rewrite Hf.
    + apply Hdone; [done|]. intros t rest Ht.
      destruct (decide (t = tid)) as [->|Hnt]; [simplify_eq|].
      apply (Hno t rest). by rewrite lookup_delete_ne.
Qed.

Lemma conc_step_log c c' : conc_step c c' → (length (c_log c) ≤ length (c_log c'))%nat.
Proof. intros []; simpl; rewrite ?length_app; lia. Qed.

(** Only records whose copies stay in range get past the reservation. *)
Lemma conc_reach_ok c c' :
  rtc conc_step c c' → Forall (λ r, copies_overrun r = false) (c_log c) →
  Forall (λ r, copies_overrun r = false) (c_log c').
Proof.
  induction 1 as [|x y z [] _ IH]; [done|..]; intros Hok; apply IH; simpl in *; try done.
  by apply Forall_app_2; [|constructor].
Qed.

Lemma conc_step_inv b0 c c' :
  conc_step c c' → Z.of_nat (length (c_log c')) < BUFFERSIZE → conc_inv b0 c → conc_inv b0 c'.
Proof.
  intros [] Hlen Hinv; cbn [c_log] in *; subst; eauto using inv_reserve, inv_store, inv_return.
Qed.

Lemma conc_reach_inv b0 c c' :
  rtc conc_step c c' → Z.of_nat (length (c_log c')) < BUFFERSIZE → conc_inv b0 c → conc_inv b0 c'.
Proof.
  assert (Hmono : ∀ c c', rtc conc_step c c' → (length (c_log c) ≤ length (c_log c'))%nat).
  { induction 1 as [|x y z Hxy _ IH]; [done|]. apply conc_step_log in Hxy. lia. }
  induction 1 as [|x y z Hxy Hyz IH]; intros Hlen Hinv; [done|].
  apply IH; [done|]. eapply conc_step_inv; eauto. apply Hmono in Hyz. lia.
Qed.
(** Once all calls have returned, the buffer is the one of the sequential run. *)
Lemma conc_inv_sequential flag b0 c fs :
  flag ≠ 0 → buffer_at 0 b0 → conc_inv b0 c → Forall (λ r, copies_overrun r = false) (c_log c) → c_writers c = ∅ →
  Z.of_nat (length (c_log c)) < BUFFERSIZE →
  ∃ b, for_each (c_log c) (WriteRecord flag) (mkBS (Some b0) fs) = Ret tt (mkBS (Some b) fs) ∧
    global_ b = global_ (c_buf c) ∧ start_ b = start_ (c_buf c) ∧
    ∀ j, blk_at (start_block b) j = blk_at (start_block (c_buf c)) j.
Proof.
  intros Hflag Hat [Hat' [Hst _] _ _ Hdone Hrest] Hok Hnone Hlen.
  destruct (WriteRecords_fit flag (c_log c) 0 b0 (mkBS (Some b0) fs)) as (b & E & Hatb & _ & Hstb & Hout & Hin);
    [done..|lia|done|]. rewrite Z.add_0_l in *.
  exists b. split; [done|]. split; [|split].
  - rewrite (at_global _ _ Hatb), (at_global _ _ Hat'), Hst, Hstb. done.
  - by rewrite Hst, Hstb.
  - intros j. destruct (decide (0 < j ≤ Z.of_nat (length (c_log c)))) as [Hj|Hj].
    + destruct (lookup_lt_is_Some_2 (c_log c) (Z.to_nat (j - 1))) as [r Hr]; [lia|].
      replace j with (1 + Z.of_nat (Z.to_nat (j - 1))) by lia.
      rewrite (Hin _ _ Hr), (Z.add_comm 1). symmetry. apply Hdone; [done|].
      intros tid rest. by rewrite Hnone, lookup_empty.
    + by rewrite Hout, Hrest.
Qed.

(** *** The calls under way *)

(** A step of a call that has its entry. *)
Definition pending_step (c c' : conc) : Prop := conc_step c c' ∧ c_log c' = c_log c.

(** The steps the calls under way still have to do: their stores and their returns. *)
Definition work (c : conc) : nat :=
  sum_list_with (λ w : Z * (Z * list (RacezRecord → RacezRecord)), S (length w.2.2)) (map_to_list (c_writers c)).

Lemma sum_list_with_perm {A} (f : A → nat) l l' : l ≡ₚ l' → sum_list_with f l = sum_list_with f l'.
Proof. induction 1; simpl; lia. Qed.

Lemma work_delete b ws log tid w :
  ws !! tid = Some w → work (mkConc b ws log) = (S (length w.2) + work (mkConc b (delete tid ws) log))%nat.
Proof. intros Hw. unfold work; simpl. by rewrite <- (sum_list_with_perm _ _ _ (map_to_list_delete ws tid w Hw)). Qed.

Lemma work_insert b ws log tid w :
  work (mkConc b (<[tid := w]> ws) log) = (S (length w.2) + work (mkConc b (delete tid ws) log))%nat.
Proof.
  rewrite (work_delete b (<[tid := w]> ws) log tid w) by apply lookup_insert_eq. by rewrite delete_insert_eq.
Qed.

Lemma pending_step_work c c' : pending_step c c' → work c = S (work c').
Proof.
  intros [[tid r b ws log fs p b' no|tid i st rest b ws log Hw|tid i b ws log Hw] Hlog]; simpl in Hlog.
  - apply (f_equal length) in Hlog. rewrite length_app in Hlog. simpl in Hlog. lia.
  - rewrite (work_delete _ _ _ _ _ Hw), work_insert. done.
  - by rewrite (work_delete _ _ _ _ _ Hw).
Qed.

Lemma work_none c : work c = 0%nat ↔ c_writers c = ∅.
Proof.
  split; [|intros E; unfold work; by rewrite E, map_to_list_empty].
  destruct c as [b ws log]. intros E. destruct (map_choose_or_empty ws) as [(tid & w & Hw)|]; [|done].
  rewrite (work_delete _ _ _ _ _ Hw) in E. lia.
Qed.

(** A call under way is never blocked. *)
Lemma pending_progress b0 c :
  conc_inv b0 c → Z.of_nat (length (c_log c)) < BUFFERSIZE → work c ≠ 0%nat → ∃ c', pending_step c c'.
Proof.
  intros Hinv Hlen Hw. destruct c as [b ws log]. rewrite work_none in Hw. simpl in *.
  destruct (map_choose ws Hw) as (tid & [i [|st rest]] & Ht).
  - eexists. split; [by apply (step_return tid i)|done].
  - eexists. split; [apply (step_store tid i st rest); [done|]|done].
    destruct (ci_writer _ _ Hinv tid i _ Ht) as (n & r & dn & -> & Hn%lookup_lt_Some & _).
    pose proof (ci_at _ _ Hinv) as Hat. simpl in *. rewrite (at_len _ _ Hat). lia.
Qed.

Lemma pending_steps n c c' :
  nsteps pending_step n c c' → rtc conc_step c c' ∧ c_log c' = c_log c ∧ work c = (n + work c')%nat.
Proof.
  induction 1 as [c|n c1 c2 c3 H12 _ (IH1 & IH2 & IH3)]; [done|].
  rewrite (pending_step_work _ _ H12), IH3. destruct H12 as [H12 El]. split; [by eapply rtc_l|]. split; [congruence|lia].
Qed.
End conc.

(** C14: [WriteRecord] is linearisable at its atomic add.  Start from an empty buffer and
    let any number of threads run calls of [WriteRecord] with their stores interleaved in
    any way; when all calls have returned and fewer than [BUFFERSIZE] entries were
    reserved, the buffer is the one the same calls give when run one after the other in
    the order of their reservations: same pointers, same entries. *)
Theorem concurrent_writes_linearise (HP : Platform) flag b0 c fs :
  flag ≠ 0 → buffer_at 0 b0 → rtc conc_step (quiet b0) c → c_writers c = ∅ →
  Z.of_nat (length (c_log c)) < BUFFERSIZE →
  ∃ b, for_each (c_log c) (WriteRecord flag) (mkBS (Some b0) fs) = Ret tt (mkBS (Some b) fs) ∧
    global_ b = global_ (c_buf c) ∧ start_ b = start_ (c_buf c) ∧
    ∀ j, blk_at (start_block b) j = blk_at (start_block (c_buf c)) j.
Proof.
  intros Hflag Hat Hsteps Hnone Hlen. apply conc_inv_sequential; try done.
  - by apply (conc_reach_inv b0 _ _ Hsteps Hlen), quiet_inv.
  - by apply (conc_reach_ok _ _ Hsteps).
Qed.

(** C15: a call of [WriteRecord] that has its entry always finishes.  Whatever the calls
    under way are and in whatever order they are scheduled, as long as fewer than
    [BUFFERSIZE] entries are reserved: some call can go on until all have returned, which
    is after exactly as many steps as they had left; and then the buffer is that of the
    sequential run. *)
Theorem pending_writes_finish (HP : Platform) flag b0 c c' n fs :
  flag ≠ 0 → buffer_at 0 b0 → rtc conc_step (quiet b0) c → Z.of_nat (length (c_log c)) < BUFFERSIZE →
  nsteps pending_step n c c' →
  (n ≤ work c)%nat ∧
  ((n < work c)%nat → ∃ c'', pending_step c' c'') ∧
  (n = work c → c_writers c' = ∅ ∧
     ∃ b, for_each (c_log c) (WriteRecord flag) (mkBS (Some b0) fs) = Ret tt (mkBS (Some b) fs) ∧
       global_ b = global_ (c_buf c') ∧ start_ b = start_ (c_buf c') ∧
       ∀ j, blk_at (start_block b) j = blk_at (start_block (c_buf c')) j).
Proof.
  intros Hflag Hat Hsteps Hlen (Hrtc & Hlog & Hwork)%pending_steps. rewrite <- Hlog in *.
  pose proof (transitivity Hsteps Hrtc) as Hall.
  assert (Hinv : conc_inv b0 c') by (by apply (conc_reach_inv b0 _ _ Hall), quiet_inv).
  split; [lia|]. split; [intros Hn; apply (pending_progress b0); [done|done|lia]|].
  intros Hn. assert (Hnone : c_writers c' = ∅) by (apply work_none; lia). split; [done|].
  apply conc_inv_sequential; try done. by apply (conc_reach_ok _ _ Hall).
Qed.

(** Two threads, the second reserving between the first one's reservation and its
    stores. *)
Definition demo_other : RacezRecord := set_thread_id 8 demo_access.

Fixpoint drain {HP : Platform} (b : BufferData) (i : Z) (sts : list (RacezRecord → RacezRecord)) : BufferData :=
  match sts with
  | [] => b
  | st :: sts' => drain (store_entry b i st) i sts'
  end.

Lemma drain_steps `{HP : Platform} tid i sts b ws log :
  0 ≤ i < blk_len (start_block b) → ws !! tid = Some (i, sts) →
  rtc conc_step (mkConc b ws log) (mkConc (drain b i sts) (delete tid ws) log).
Proof.
  revert b ws. induction sts as [|st sts IH]; intros b ws Hi Hw; simpl.
  - apply rtc_once. by apply (step_return tid i).
  - eapply rtc_l; [by apply (step_store tid i st sts)|].
    replace (delete tid ws) with (delete tid (<[tid := (i, sts)]> ws)) by apply delete_insert_eq.
    apply IH; [done|apply lookup_insert_eq].
Qed.

Definition demo_final : BufferData :=
  drain (HP := demo_platform)
    (drain (HP := demo_platform) (next_buffer (HP := demo_platform) (next_buffer (HP := demo_platform) (demo_buffer 0)))
       2 (fill_stores 2 demo_other))
    1 (fill_stores 1 demo_access).

(** Both entries are reserved and nothing is stored yet. *)
Definition demo_reserved : conc :=
  mkConc (next_buffer (HP := demo_platform) (next_buffer (HP := demo_platform) (demo_buffer 0)))
    (<[8 := (2, fill_stores 2 demo_other)]> (<[7 := (1, fill_stores 1 demo_access)]> ∅)) [demo_access; demo_other].

Lemma demo_reserved_reached : rtc (conc_step (HP := demo_platform)) (quiet (demo_buffer 0)) demo_reserved.
Proof.
  eapply rtc_l; [by apply (step_reserve (HP := demo_platform) 7 demo_access (demo_buffer 0) ∅ [] ∅
                   (65536 + 368) (next_buffer (HP := demo_platform) (demo_buffer 0)) 1)|].
  apply rtc_once. by apply (step_reserve (HP := demo_platform) 8 demo_other (next_buffer (HP := demo_platform) (demo_buffer 0))
                   _ [demo_access] ∅ (65536 + 2 * 368)
                   (next_buffer (HP := demo_platform) (next_buffer (HP := demo_platform) (demo_buffer 0))) 2).
Qed.

Lemma demo_run :
  rtc (conc_step (HP := demo_platform)) (quiet (demo_buffer 0))
    (mkConc demo_final (delete 7 (delete 8 (<[8 := (2, fill_stores 2 demo_other)]>
       (<[7 := (1, fill_stores 1 demo_access)]> ∅)))) [demo_access; demo_other]).
Proof.
  etrans; [exact demo_reserved_reached|].
  etrans; [apply (drain_steps 8 2 (fill_stores 2 demo_other)); [vm_compute; done|reflexivity]|].
  apply (drain_steps 7 1 (fill_stores 1 demo_access)); [vm_compute; done|reflexivity].
Qed.

Lemma concurrent_writes_linearise_witness :
  ∃ b, for_each [demo_access; demo_other] (WriteRecord (HP := demo_platform) 1) (mkBS (Some (demo_buffer 0)) ∅) =
         Ret tt (mkBS (Some b) ∅) ∧
    global_ b = global_ demo_final ∧ start_ b = start_ demo_final ∧
    ∀ j, blk_at (start_block b) j = blk_at (start_block demo_final) j.
Proof.
  apply (concurrent_writes_linearise demo_platform 1 (demo_buffer 0)
           (mkConc demo_final (delete 7 (delete 8 (<[8 := (2, fill_stores 2 demo_other)]>
             (<[7 := (1, fill_stores 1 demo_access)]> ∅)))) [demo_access; demo_other]) ∅);
    [lia|split; vm_compute; done|exact demo_run|reflexivity|vm_compute; reflexivity].
Defined.

Lemma pending_writes_finish_witness :
  (0 < work demo_reserved)%nat ∧ ∃ c'', pending_step (HP := demo_platform) demo_reserved c''.
Proof.
  assert (Hw : (0 < work demo_reserved)%nat) by (apply Nat.ltb_lt; vm_compute; reflexivity). split; [exact Hw|].
  apply (pending_writes_finish demo_platform 1 (demo_buffer 0) demo_reserved demo_reserved 0 ∅);
    [lia|split; vm_compute; done|exact demo_reserved_reached|vm_compute; reflexivity|constructor|exact Hw].
Defined.
