(* ===== verification/Text.v ===== *)
(** * C strings and numbers

    The parts of [printf] and [strtoll] the offline tools use: decimal and hexadecimal
    printing, hexadecimal parsing, and the line reading of [fgets]. *)

From S2P Require Import Prelude.
From Stdlib Require Import Ascii.
From stdpp Require Import base numbers list strings pretty.

Open Scope Z_scope.

Definition newline : ascii := Ascii.ascii_of_nat 10.
Definition tab : ascii := Ascii.ascii_of_nat 9.
Definition nl : string := String newline EmptyString.
Definition tb : string := String tab EmptyString.

(** ** Printing *)

(** [%d], [%lld] *)
Definition fmt_d (z : Z) : string := pretty z.

Definition hex_digit (d : Z) : ascii :=
  if d <? 10 then Ascii.ascii_of_nat (Z.to_nat (48 + d)) else Ascii.ascii_of_nat (Z.to_nat (87 + d)).

(** Hexadecimal digits, most significant first; [fuel] digits at most (16 for 64 bits). *)
Fixpoint hex_digits (fuel : nat) (z : Z) (acc : string) : string :=
  match fuel with
  | O => acc
  | S fuel' =>
      let acc' := String (hex_digit (z mod 16)) acc in
      if z <? 16 then acc' else hex_digits fuel' (z / 16) acc'
  end.

(** [%llx] of an [unsigned long long] *)
Definition fmt_x (z : Z) : string := hex_digits 16 (wrap64 z) EmptyString.

Fixpoint zeros (n : nat) : string :=
  match n with O => EmptyString | S n' => String (Ascii.ascii_of_nat 48) (zeros n') end.

(** ["0x%08llx"] *)
Definition fmt_0x08 (z : Z) : string :=
  "0x" +:+ zeros (8 - String.length (fmt_x z)) +:+ fmt_x z.

(** [%p] of the GNU C library *)
Definition fmt_p (z : Z) : string := if z =? 0 then "(nil)" else "0x" +:+ fmt_x z.

(** ** Parsing *)

Definition digit_value (c : ascii) : option Z :=
  let n := Z.of_nat (Ascii.nat_of_ascii c) in
  if (48 <=? n) && (n <=? 57) then Some (n - 48)
  else if (97 <=? n) && (n <=? 102) then Some (n - 87)
  else if (65 <=? n) && (n <=? 70) then Some (n - 55)
  else None.

(** The value of the longest prefix of hexadecimal digits. *)
Fixpoint hex_value (s : string) (acc : Z) : Z :=
  match s with
  | EmptyString => acc
  | String c s' =>
      match digit_value c with
      | Some d => hex_value s' (acc * 16 + d)
      | None => acc
      end
  end.

Definition is_space (c : ascii) : bool :=
  let n := Ascii.nat_of_ascii c in (n =? 32)%nat || ((9 <=? n)%nat && (n <=? 13)%nat).

Fixpoint skip_space (s : string) : string :=
  match s with
  | String c s' => if is_space c then skip_space s' else s
  | EmptyString => s
  end.

Definition LLONG_MAX : Z := 2 ^ 63 - 1.
Definition LLONG_MIN : Z := - 2 ^ 63.

(** An optional [0x] before hexadecimal digits. *)
Definition skip_0x (s : string) : string :=
  match s with
  | String c0 (String cx (String d s')) =>
      if (Ascii.nat_of_ascii c0 =? 48)%nat &&
         ((Ascii.nat_of_ascii cx =? 120)%nat || (Ascii.nat_of_ascii cx =? 88)%nat) &&
         (match digit_value d with Some _ => true | None => false end)
      then String d s' else s
  | _ => s
  end.

(** [strtoll(s, &endptr, 16)]: the value, clamped to the range of [long long]. *)
Definition strtoll16 (s : string) : Z :=
  let s := skip_space s in
  let '(neg, s) :=
    match s with
    | String c s' => if (Ascii.nat_of_ascii c =? 45)%nat then (true, s')
                     else if (Ascii.nat_of_ascii c =? 43)%nat then (false, s') else (false, s)
    | EmptyString => (false, s)
    end in
  let v := hex_value (skip_0x s) 0 in
  Z.max LLONG_MIN (Z.min LLONG_MAX (if neg : bool then - v else v)).

(** The value of the longest prefix of digits below [base]. *)
Fixpoint base_value (base : Z) (s : string) (acc : Z) : Z :=
  match s with
  | EmptyString => acc
  | String c s' =>
      match digit_value c with
      | Some d => if d <? base then base_value base s' (acc * base + d) else acc
      | None => acc
      end
  end.

(** [atoi]: the decimal value of a prefix, converted to [int]. *)
Definition atoi (s : string) : Z :=
  let s := skip_space s in
  let '(neg, s) :=
    match s with
    | String c s' => if (Ascii.nat_of_ascii c =? 45)%nat then (true, s')
                     else if (Ascii.nat_of_ascii c =? 43)%nat then (false, s') else (false, s)
    | EmptyString => (false, s)
    end in
  let v := base_value 10 s 0 in
  wrap32 (Z.max LLONG_MIN (Z.min LLONG_MAX (if neg : bool then - v else v))).

(** ** Facts *)

Lemma digit_hex_digit d : 0 ≤ d < 16 → digit_value (hex_digit d) = Some d.
Proof.
  intros Hd. assert (d ∈ seqZ 0 16) as Hin by (apply elem_of_seqZ; lia).
  revert Hin. change (seqZ 0 16) with [0;1;2;3;4;5;6;7;8;9;10;11;12;13;14;15].
  rewrite !elem_of_cons, elem_of_nil. intros. destruct_or?; subst; done.
Qed.

Lemma hex_value_app s c acc :
  digit_value c = None → ∀ rest, hex_value (s +:+ String c rest) acc = hex_value s acc.
Proof.
  intros Hc rest. revert acc. induction s as [|d s IH]; intros acc; simpl; [by rewrite Hc|].
  destruct (digit_value d); [|done]. apply IH.
Qed.

Lemma hex_digits_value fuel z acc a :
  0 ≤ z < 16 ^ Z.of_nat fuel → (0 < fuel)%nat →
  ∃ k, 0 ≤ k ∧ hex_value (hex_digits fuel z acc) a = hex_value acc (a * 16 ^ k + z) ∧ (z < 16 ^ k).
Proof.
  revert z acc. induction fuel as [|fuel IH]; intros z acc Hz Hf; [lia|]. simpl.
  pose proof (Z.mod_pos_bound z 16 ltac:(lia)).
  destruct (Z.ltb_spec z 16) as [Hlt|Hge].
  - exists 1. simpl. rewrite digit_hex_digit by lia. rewrite Z.mod_small by lia.
    split; [lia|]. split; [done|lia].
  - destruct fuel as [|fuel]; [simpl in Hz; lia|].
    destruct (IH (z / 16) (String (hex_digit (z mod 16)) acc)) as (k & Hk & E & Hb).
    { rewrite Nat2Z.inj_succ, Z.pow_succ_r in Hz by lia. split; [apply Z.div_pos; lia|].
      apply Z.div_lt_upper_bound; lia. }
    { lia. }
    exists (k + 1). rewrite E. simpl. rewrite digit_hex_digit by lia.
    rewrite Z.pow_add_r by lia. split; [lia|]. pose proof (Z.div_mod z 16 ltac:(lia)).
    split; [f_equal; lia|]. change (16 ^ 1) with 16. lia.
Qed.

Lemma fmt_x_value z a : is_word z → ∃ k, hex_value (fmt_x z) a = a * 16 ^ k + z ∧ 0 ≤ k.
Proof.
  intros Hz. unfold fmt_x. rewrite wrap64_id by done.
  destruct (hex_digits_value 16 z EmptyString a) as (k & Hk & E & _); [by unfold is_word in Hz|lia|].
  exists k. rewrite E. done.
Qed.

Lemma hex_value_zeros n s : hex_value (zeros n +:+ s) 0 = hex_value s 0.
Proof. induction n as [|n IH]; [done|]. apply IH. Qed.

Lemma hex_value_fmt z : is_word z → hex_value (zeros (8 - String.length (fmt_x z)) +:+ fmt_x z) 0 = z.
Proof.
  intros Hz. rewrite hex_value_zeros. destruct (fmt_x_value z 0 Hz) as (k & -> & _). lia.
Qed.

(** The text after [0x] starts with a digit. *)
Lemma fmt_x_head z : is_word z → ∃ c s d, fmt_x z = String c s ∧ digit_value c = Some d.
Proof.
  intros Hz. unfold fmt_x. rewrite wrap64_id by done. unfold is_word in Hz.
  assert (H : ∀ fuel z acc, (0 < fuel)%nat → 0 ≤ z →
            ∃ c s d, hex_digits fuel z acc = String c s ∧ digit_value c = Some d).
  { clear z Hz. induction fuel as [|fuel IH]; intros z acc Hf Hz; [lia|]. simpl.
    pose proof (Z.mod_pos_bound z 16 ltac:(lia)).
    destruct (z <? 16); [do 3 eexists; split; [done|by apply digit_hex_digit]|].
    destruct fuel as [|fuel].
    - do 3 eexists; split; [done|by apply digit_hex_digit].
    - apply IH; [lia|]. apply Z.div_pos; lia. }
  apply H; lia.
Qed.

Lemma app_nil_r_str (t : string) : t +:+ EmptyString = t.
Proof.
  induction t as [|c t IH]; [done|].
  change (String c t +:+ EmptyString) with (String c (t +:+ EmptyString)). by f_equal.
Qed.

Lemma app_assoc_str (a b c : string) : (a +:+ b) +:+ c = a +:+ (b +:+ c).
Proof.
  induction a as [|x a IH]; [done|].
  change (String x ((a +:+ b) +:+ c) = String x (a +:+ (b +:+ c))). by rewrite IH.
Qed.

(** Printing an address with ["0x%08llx\n"] and reading it back with [strtoll] base 16:
    exact up to the largest [long long], clamped above. *)
Lemma strtoll16_fmt z : is_word z → strtoll16 (fmt_0x08 z +:+ nl) = Z.min LLONG_MAX z.
Proof.
  intros Hz. unfold fmt_0x08. rewrite !app_assoc_str.
  set (body := zeros (8 - String.length (fmt_x z)) +:+ fmt_x z).
  assert (Hbody : ∃ c s d, body = String c s ∧ digit_value c = Some d).
  { unfold body. destruct (8 - String.length (fmt_x z))%nat; [by apply fmt_x_head|].
    do 3 eexists; split; [done|reflexivity]. }
  rewrite <- (app_assoc_str (zeros _)). change (zeros _ +:+ fmt_x z) with body.
  assert (Hval : hex_value (body +:+ nl) 0 = z).
  { unfold nl. rewrite hex_value_app by reflexivity. by apply hex_value_fmt. }
  destruct Hbody as (c & s & d & Hb & Hd). rewrite Hb in *. unfold strtoll16.
  change ("0x" +:+ String c s +:+ nl) with
    (String (Ascii.ascii_of_nat 48) (String (Ascii.ascii_of_nat 120) (String c (s +:+ nl)))).
  cbn [skip_space is_space Ascii.nat_of_ascii Ascii.ascii_of_nat].
  change (is_space (Ascii.ascii_of_nat 48)) with false. cbv iota.
  change ((Ascii.nat_of_ascii (Ascii.ascii_of_nat 48) =? 45)%nat) with false.
  change ((Ascii.nat_of_ascii (Ascii.ascii_of_nat 48) =? 43)%nat) with false. cbv iota zeta.
  unfold skip_0x. rewrite Hd.
  change ((Ascii.nat_of_ascii (Ascii.ascii_of_nat 48) =? 48)%nat) with true.
  change ((Ascii.nat_of_ascii (Ascii.ascii_of_nat 120) =? 120)%nat) with true. cbv [andb orb].
  change (String c (s +:+ nl)) with (String c s +:+ nl). rewrite Hval.
  unfold is_word, LLONG_MIN, LLONG_MAX in *. lia.
Qed.
