(* ===== verification/Runtime.v ===== *)
(** * The state of the runtime library

    The globals of the preloaded library: the configuration of racez_preload.c, the
    thread-local locksets, the event buffer, the globals of racez_pmuprofiler.cc, and the
    calls made to the functions behind the wrappers and to the kernel. *)

From S2P Require Import Prelude.
From S2P Require Import Records.
From S2P Require Import LockSet.
From S2P Require Import Buffer.
From stdpp Require Import base gmap list sets strings.

Open Scope Z_scope.

(** ** Configuration *)

Record config := mkCfg {
  racez_enable : Z;
  racez_lockset : Z;
  racez_signal_wait : Z;
  racez_memory_allocator : Z;
  racez_stacktrace : Z;
  racez_sampling_adjust : Z;
  racez_sample_skid : Z;
  racez_signal_sample : Z;
  racez_write_record : Z
}.

(** The initial values. *)
Definition cfg_init : config := mkCfg 0 1 0 0 0 0 0 0 0.

Definition set_enable (v : Z) (c : config) : config :=
  mkCfg v (racez_lockset c) (racez_signal_wait c) (racez_memory_allocator c) (racez_stacktrace c)
        (racez_sampling_adjust c) (racez_sample_skid c) (racez_signal_sample c) (racez_write_record c).

(** ** The profiler *)

(** What [pfm_get_pmu_type] reports. *)
Inductive pmu_kind := INTEL_CORE_PMU | INTEL_NHM_PMU | AMD64_PMU | OTHER_PMU.

#[export] Instance pmu_kind_eq_dec : EqDecision pmu_kind.
Proof. solve_decision. Defined.

(** The sampling buffer of a thread: the header's [count] and the entries behind it. *)
Record smpl_hdr := mkHdr {
  hdr_count : Z;
  hdr_entries : list pebs_entry
}.

Record pmu_state := mkPmu {
  type : pmu_kind;
  sig_enable : bool;
  handler_on : bool;                (** [signal_handler] is installed for [signum] *)
  hdr_key_once : bool;
  hdr_tls : gmap Z smpl_hdr;
  tid_fd_map : gmap Z Z;
  num_stat : Z
}.

Definition pmu_init : pmu_state := mkPmu OTHER_PMU false false false ∅ ∅ 0.

(** A control register as [pfm_write_pmcs] takes it, and a data register as
    [pfm_write_pmds] takes it. *)
Record pmc_reg := mkPmc { pmc_num : Z; pmc_value : Z; pmc_no_emul64 : bool }.
Record pmd_reg := mkPmd { pmd_num : Z; pmd_notify : bool; pmd_value : Z; pmd_long_reset : Z; pmd_short_reset : Z;
  pmd_smpl_pmds : Z }.

#[export] Instance pmc_reg_eq_dec : EqDecision pmc_reg.
Proof. solve_decision. Defined.
#[export] Instance pmd_reg_eq_dec : EqDecision pmd_reg.
Proof. solve_decision. Defined.

(** ** Calls out of the library

    The log of calls also has the two updates the signal handler depends on, so that their
    place among the calls shows: the thread's sampling buffer being stored
    ([pthread_setspecific]) and its descriptor being entered in [tid_fd_map]. *)

(** The sampling-buffer format of a new context, with the count the counter is reset to. *)
Inductive ctx_format := NoFormat | CoreFormat (cnt_reset : Z) | NhmFormat (cnt_reset : Z).

#[export] Instance ctx_format_eq_dec : EqDecision ctx_format.
Proof. solve_decision. Defined.

Inductive call :=
  | RealLock (tid m : Z) | RealUnlock (tid m : Z)
  | RealCondWait (tid cond m : Z) | RealCondSignal (tid cond : Z)
  | RealMalloc (tid size : Z) | RealFree (tid p : Z)
  | RealCreate (tid : Z)
  | KeyCreate | KeyDelete            (** of [pkey], which nothing else uses *)
  | StoreHdr (tid : Z) | MapFd (tid fd : Z)
  | PfmCreate (fd : Z) (fmt : ctx_format)
  | PfmWritePmcs (fd : Z) (pc : list pmc_reg) | PfmWritePmds (fd : Z) (pd : list pmd_reg)
  | PfmLoad (fd tid : Z) | SetAsync (fd : Z) | SetOwner (fd tid : Z) | SetSignal (fd : Z)
  | PfmStart (fd : Z) | PfmRestart (fd : Z) | PfmStop (fd : Z).

#[export] Instance call_eq_dec : EqDecision call.
Proof. solve_decision. Defined.

(** The calls of the functions behind the wrappers. *)
Definition real_call (c : call) : bool :=
  match c with
  | RealLock _ _ | RealUnlock _ _ | RealCondWait _ _ _ | RealCondSignal _ _
  | RealMalloc _ _ | RealFree _ _ | RealCreate _ => true
  | _ => false
  end.

(** ** The state *)

Record rt := mkRt {
  cfg : config;
  initializer : bool;               (** [preload_init] has run *)
  resolved : gset string;           (** the [real_] pointers that are not null *)
  locksets : tls_state;
  buffer : buf_state;
  pmu : pmu_state;
  calls : list call
}.

Definition rt_init (fs : gmap Z (list RacezRecord)) : rt :=
  mkRt cfg_init false ∅ (mkTls false ∅) (mkBS None fs) pmu_init [].

Definition set_cfg (v : config) (s : rt) : rt :=
  mkRt v (initializer s) (resolved s) (locksets s) (buffer s) (pmu s) (calls s).
Definition set_once (s : rt) : rt :=
  mkRt (cfg s) true (resolved s) (locksets s) (buffer s) (pmu s) (calls s).
Definition add_resolved (v : gset string) (s : rt) : rt :=
  mkRt (cfg s) (initializer s) (v ∪ resolved s) (locksets s) (buffer s) (pmu s) (calls s).
Definition set_locksets (v : tls_state) (s : rt) : rt :=
  mkRt (cfg s) (initializer s) (resolved s) v (buffer s) (pmu s) (calls s).
Definition set_buf (v : buf_state) (s : rt) : rt :=
  mkRt (cfg s) (initializer s) (resolved s) (locksets s) v (pmu s) (calls s).
Definition set_pmu (v : pmu_state) (s : rt) : rt :=
  mkRt (cfg s) (initializer s) (resolved s) (locksets s) (buffer s) v (calls s).
Definition add_call (c : call) (s : rt) : rt :=
  mkRt (cfg s) (initializer s) (resolved s) (locksets s) (buffer s) (pmu s) (calls s ++ [c]).

Definition emit (c : call) : M rt unit := modify (add_call c).

(** The lockset component runs inside the runtime state. *)
#[export] Instance HasTls_rt : HasTls rt.
Proof. exists locksets set_locksets; [done|by intros []]. Defined.

(** So does the event buffer. *)
Definition on_buffer {A} (m : M buf_state A) : M rt A := zoom buffer set_buf m.
