(* ===== verification/Preload.v ===== *)
(** * The preloaded wrappers

    racez_preload.c: the initialisation from the environment and the functions that
    stand in front of the pthread and allocation functions of the C library.  A wrapper
    takes the calling thread and the result of the real function as arguments. *)

From S2P Require Import Prelude.
From S2P Require Import Records.
From S2P Require Import LockSet.
From S2P Require Import Buffer.
From S2P Require Import Text.
From S2P Require Import Runtime.
From stdpp Require Import base gmap gmultiset list sets strings.

Open Scope Z_scope.

Section preload.
Context `{HP : Platform}.
(** The environment, and which symbols [dlsym(RTLD_NEXT, ...)] finds. *)
Context (getenv : string → option string) (dlsym : string → bool).

(** [getenv(name) ? atoi(getenv(name)) : dflt] *)
Definition setting (name : string) (dflt : Z) : Z :=
  match getenv name with Some v => atoi v | None => dflt end.

(** The pointers that are non-null after looking the names up. *)
Definition found (names : list string) : gset string := list_to_set (filter (λ n, dlsym n = true) names).

Definition settings (c : config) : config :=
  mkCfg (racez_enable c) (setting "RACEZ_LOCKSET" 1) (setting "RACEZ_SIGNAL_WAIT" 0)
        (setting "RACEZ_MEMORY_ALLOCATOR" 0) (setting "RACEZ_STACKTRACE" 0)
        (setting "RACEZ_SAMPLING_ADJUST" 0) (setting "RACEZ_SAMPLE_SKID" 0)
        (setting "RACEZ_SIGNAL_SAMPLE" 0) (setting "RACEZ_WRITE_RECORD" 0).

Definition preload_init : M rt unit :=
  modify (λ s, set_cfg (settings (cfg s)) s) ;;
  c ← gets cfg;
  modify (add_resolved (found ["pthread_create"])) ;;
  when (negb (racez_lockset c =? 0))
    (modify (add_resolved (found ["pthread_mutex_lock"; "pthread_mutex_trylock"; "pthread_mutex_unlock"]))) ;;
  when (negb (racez_signal_wait c =? 0))
    (modify (add_resolved (found ["pthread_cond_signal"; "pthread_cond_wait"]))) ;;
  when (negb (racez_memory_allocator c =? 0))
    (modify (add_resolved (found ["malloc"; "free"]))) ;;
  emit KeyCreate.

Definition preload_done : M rt unit := emit KeyDelete.

(** [pthread_once(&initializer, preload_init)] *)
Definition once : M rt unit :=
  done ← gets initializer;
  if (done : bool) then mret tt else modify set_once ;; preload_init.

(** [if(real_f == NULL) real_f = dlsym(RTLD_NEXT, "f")] *)
Definition resolve (f : string) : M rt unit :=
  s ← get;
  if decide (f ∈ resolved s) then mret tt else modify (add_resolved (found [f])).

(** Calling through [real_f]. *)
Definition through (f : string) (c : call) : M rt unit :=
  s ← get;
  if decide (f ∈ resolved s) then emit c else fail NullDeref.

(** [WriteRecord(&record)] *)
Definition log (record : RacezRecord) : M rt unit :=
  c ← gets cfg;
  on_buffer (WriteRecord (racez_write_record c) record).

(** ** Allocation *)

Definition alloc_record (tid start size is_alloc : Z) : RacezRecord :=
  upd_op (λ o, set_alloc_flag is_alloc (set_alloc_size size (set_memory_address start o)))
    (set_type MEMORY_ALLOC (set_thread_id tid zero_record)).

(** [racez_memory_allocator && racez_enable] *)
Definition log_alloc (tid start size is_alloc : Z) : M rt unit :=
  c ← gets cfg;
  when (negb (racez_memory_allocator c =? 0) && negb (racez_enable c =? 0))
    (log (alloc_record tid start size is_alloc)).

Definition malloc (tid result size : Z) : M rt Z :=
  once ;;
  resolve "malloc" ;;
  through "malloc" (RealMalloc tid size) ;;
  log_alloc tid result size 1 ;;
  mret result.

Definition free (tid p : Z) : M rt unit :=
  once ;;
  resolve "free" ;;
  through "free" (RealFree tid p) ;;
  log_alloc tid p 0 0.

Definition racez_log_memory_allocation (tid start_address size is_alloc : Z) : M rt unit :=
  log_alloc tid start_address size is_alloc.

(** [malloc(sizeof(LOCKSET))] as the lockset code calls it: [result] is the address the
    real allocator gives, [words] what the array of the new block holds. *)
Definition lockset_malloc (tid result : Z) (words : list Z) : M rt (option (list Z)) :=
  p ← malloc tid result 88;
  mret (if p =? 0 then None else Some words).

(** ** Mutexes *)

(** [result], [words]: the answer of the allocator should the thread need a lockset. *)
Definition pthread_mutex_lock (tid : Z) (mem : Z * list Z) (r m : Z) : M rt Z :=
  once ;;
  c ← gets cfg;
  (if negb (racez_lockset c =? 0)
   then add_one_mutex (lockset_malloc tid mem.1 mem.2) (racez_sample_skid c) tid m
   else resolve "pthread_mutex_lock") ;;
  s ← get;
  c_assert (bool_decide ("pthread_mutex_lock" ∈ resolved s)) ;;
  through "pthread_mutex_lock" (RealLock tid m) ;;
  mret r.

Definition pthread_mutex_unlock (tid : Z) (mem : Z * list Z) (r m : Z) : M rt Z :=
  once ;;
  resolve "pthread_mutex_unlock" ;;
  through "pthread_mutex_unlock" (RealUnlock tid m) ;;
  c ← gets cfg;
  when (negb (racez_lockset c =? 0) && negb (racez_enable c =? 0))
    (remove_one_mutex (lockset_malloc tid mem.1 mem.2) (racez_sample_skid c) tid m) ;;
  mret r.

(** ** Condition variables *)

Definition pthread_cond_wait (tid result cond mutex : Z) : M rt Z :=
  once ;;
  resolve "pthread_cond_wait" ;;
  through "pthread_cond_wait" (RealCondWait tid cond mutex) ;;
  c_assert (result =? 0) ;;
  c ← gets cfg;
  when (negb (racez_signal_wait c =? 0) && negb (racez_enable c =? 0))
    (log (upd_op (λ o, set_pip mutex (set_memory_address cond o))
            (set_type SYNC_WAIT (set_thread_id tid zero_record)))) ;;
  mret result.

Definition pthread_cond_signal (tid result cond : Z) : M rt Z :=
  once ;;
  resolve "pthread_cond_signal" ;;
  through "pthread_cond_signal" (RealCondSignal tid cond) ;;
  c_assert (result =? 0) ;;
  c ← gets cfg;
  when (negb (racez_signal_wait c =? 0) && negb (racez_enable c =? 0))
    (log (upd_op (set_memory_address cond) (set_type SYNC_SIGNAL (set_thread_id tid zero_record)))) ;;
  mret result.

(** ** Debugging aid *)

Definition debug_mutex (tid : Z) : M rt unit :=
  lockset ← GetPerThreadLockset tid;
  match lockset with
  | None => mret tt
  | Some l => c_assert (negb (1 <=? ls_n l))
  end.
End preload.

(** ** The mutex wrappers as hooks *)

(** The library is initialised with the lockset option on and the allocation log off, as
    by default, and every real function was found. *)
Record ready (enable : Z) (s : rt) : Prop := {
  rd_once : initializer s = true;
  rd_enable : racez_enable (cfg s) = enable;
  rd_lockset : racez_lockset (cfg s) ≠ 0;
  rd_alloc : racez_memory_allocator (cfg s) = 0;
  rd_lock : "pthread_mutex_lock" ∈ resolved s;
  rd_create : "pthread_create" ∈ resolved s
}.

(** Only calls of the real functions were added. *)
Definition adds_real (l l' : list call) : Prop :=
  ∃ new, l' = l ++ new ∧ Forall (λ c, real_call c = true) new.

#[export] Instance adds_real_preorder : PreOrder adds_real.
Proof.
  split; [intros l; exists []; by rewrite app_nil_r|].
  intros l1 l2 l3 (n1 & -> & H1) (n2 & -> & H2). exists (n1 ++ n2). rewrite app_assoc. by rewrite Forall_app.
Qed.

Lemma adds_real_snoc l l' c : adds_real l l' → real_call c = true → adds_real l (l' ++ [c]).
Proof. intros H Hc. etrans; [exact H|]. exists [c]. by rewrite Forall_singleton. Qed.

(** The parts of the state the mutex wrappers leave alone. *)
Record frame (s0 s : rt) : Prop := {
  fr_cfg : cfg s = cfg s0;
  fr_buffer : buffer s = buffer s0;
  fr_pmu : pmu s = pmu s0;
  fr_calls : adds_real (calls s0) (calls s)
}.

#[export] Instance frame_preorder : PreOrder frame.
Proof.
  split; [by intros s; split|]. intros s1 s2 s3 [? ? ? ?] [? ? ? ?].
  split; [congruence..|by etrans].
Qed.

Lemma ready_frame enable s s' :
  ready enable s → frame s s' → initializer s' = initializer s → resolved s ⊆ resolved s' → ready enable s'.
Proof.
  intros [H1 H2 H3 H4 H5 H6] [Hc _ _ _] Hi Hres.
  split; [by rewrite Hi|by rewrite Hc|by rewrite Hc|by rewrite Hc|set_solver|set_solver].
Qed.

(** Looking a real function up and calling it. *)
Section resolving.
Context (dlsym : string → bool) (dlsym_finds : ∀ f, dlsym f = true).

Lemma resolve_through f c s :
  real_call c = true →
  ∃ s', (resolve dlsym f ;; through f c) s = Ret tt s' ∧ frame s s' ∧
        locksets s' = locksets s ∧ initializer s' = initializer s ∧ resolved s ⊆ resolved s'.
Proof.
  intros Hc. assert (Hf : found dlsym [f] = {[f]}).
  { unfold found. rewrite filter_cons_True by done. simpl. set_solver. }
  unfold resolve, get, mbind, M_bind. destruct (decide (f ∈ resolved s)) as [Hin|Hout].
  - unfold through, get, mbind, M_bind. simpl. rewrite decide_True by done.
    eexists. split; [done|]. split; [|done]. by split; try (apply adds_real_snoc).
  - unfold through, get, mbind, M_bind. simpl. rewrite decide_True by (rewrite Hf; set_solver).
    eexists. split; [done|]. split; [by split; try (apply adds_real_snoc)|].
    split; [done|]. split; [done|]. simpl. set_solver.
Qed.

Lemma resolve_through_run {A} f c s :
  real_call c = true →
  ∃ s', (∀ k : M rt A, (resolve dlsym f ;; through f c ;; k) s = k s') ∧ frame s s' ∧
        locksets s' = locksets s ∧ initializer s' = initializer s ∧ resolved s ⊆ resolved s'.
Proof.
  intros Hc. destruct (resolve_through f c s Hc) as (s' & E & Hrest). exists s'. split; [|done].
  intros k. revert E. unfold mbind, M_bind. destruct (resolve dlsym f s); [|done]. by intros ->.
Qed.
End resolving.

Section hooks.
Context `{HP : Platform}.
Context (getenv : string → option string) (dlsym : string → bool).
Context (dlsym_finds : ∀ f, dlsym f = true).
(** [once], [resolve] and [through] in an initialised library. *)
Lemma once_ready enable s : ready enable s → once getenv dlsym s = Ret tt s.
Proof. intros [H _ _ _ _ _]. unfold once, gets, mbind, M_bind. by rewrite H. Qed.

Lemma malloc_ready enable tid res n s :
  ready enable s →
  ∃ s', malloc getenv dlsym tid res n s = Ret res s' ∧ ready enable s' ∧
        frame s s' ∧ locksets s' = locksets s.
Proof.
  intros Hr. unfold malloc. rewrite (bind_Ret _ _ _ _ _ (once_ready enable s Hr)).
  destruct (resolve_through_run dlsym dlsym_finds (A := Z) "malloc" (RealMalloc tid n) s eq_refl) as (s' & E & Hf & Hls & Hi & Hres).
  rewrite E. pose proof (ready_frame _ _ _ Hr Hf Hi Hres) as Hr'. exists s'. split; [|done].
  unfold log_alloc, gets, mbind, M_bind. by rewrite (rd_alloc _ _ Hr').
Qed.

(** What the allocator answers the calling thread: a block of ten words. *)
Context (mem : Z * list Z) (mem_ok : mem.1 ≠ 0) (mem_words : length mem.2 = 10%nat).

(** The preloaded [malloc] keeps what the lockset code relies on. *)
Lemma lockset_malloc_gives enable tid s0 :
  malloc_gives (lockset_malloc getenv dlsym tid mem.1 mem.2) (λ s, ready enable s ∧ frame s0 s).
Proof.
  split; [intros t s [[H1 H2 H3 H4 H5 H5'] [H6 H7 H8 H9]]; by split|]. intros s [Hr Hf].
  destruct (malloc_ready enable tid mem.1 88 s Hr) as (s' & E & Hr' & Hf' & Hls).
  exists mem.2, s'. unfold lockset_malloc. rewrite (bind_Ret _ _ _ _ _ E).
  apply Z.eqb_neq in mem_ok. rewrite mem_ok. split; [done|]. split; [done|]. split; [done|].
  split; [done|by etrans].
Qed.

(** What [run_hooks] needs of one hook call. *)
Definition hook_effect (seen : lock_event → bool) (tid : Z) (e : lock_event) (s s' : rt) : Prop :=
  (thread_recorded (locksets s') tid = seen_step seen (thread_recorded (locksets s) tid) e ∨
   size (thread_recorded (locksets s) tid) = 10%nat ∧
   thread_recorded (locksets s') tid = thread_recorded (locksets s) tid ∧ seen e = true ∧ ∃ m, e = Lock m) ∧
  (∀ tid', tid' ≠ tid → tls (locksets s') !! tid' = tls (locksets s) !! tid').

Lemma add_hook enable tid m s :
  ready enable s → tls_wf (locksets s) →
  ∃ s', pthread_mutex_lock getenv dlsym tid mem 0 m s = Ret 0 s' ∧ ready enable s' ∧ frame s s' ∧
        tls_wf (locksets s') ∧ hook_effect all_seen tid (Lock m) s s'.
Proof.
  intros Hr Hwf. unfold pthread_mutex_lock. rewrite (bind_Ret _ _ _ _ _ (once_ready enable s Hr)).
  erewrite bind_Ret by done. pose proof (rd_lockset _ _ Hr) as Hl%Z.eqb_neq. rewrite Hl; simpl.
  destruct (thread_op_spec _ (racez_sample_skid (cfg s)) tid _ (Lock m) s (lockset_malloc_gives enable tid s))
    as (s1 & E & [Hr1 Hf1] & Hwf1 & Hcase & Hoth); [done|done|]. simpl in E. rewrite (bind_Ret _ _ _ _ _ E).
  erewrite bind_Ret by done. rewrite bool_decide_eq_true_2 by apply Hr1.
  erewrite bind_Ret by done. unfold through, get, mbind, M_bind. rewrite decide_True by apply Hr1.
  eexists. split; [done|]. split; [by destruct Hr1|]. split; [by destruct Hf1; split; try (apply adds_real_snoc)|].
  split; [done|]. split; [|done]. unfold seen_step, all_seen; simpl in *. naive_solver.
Qed.

Lemma unlock_hook enable tid m s :
  ready enable s → tls_wf (locksets s) →
  ∃ s', pthread_mutex_unlock getenv dlsym tid mem 0 m s = Ret 0 s' ∧ ready enable s' ∧ frame s s' ∧
        tls_wf (locksets s') ∧ hook_effect (λ _, negb (enable =? 0)) tid (Unlock m) s s'.
Proof.
  intros Hr Hwf. unfold pthread_mutex_unlock. rewrite (bind_Ret _ _ _ _ _ (once_ready enable s Hr)).
  destruct (resolve_through_run dlsym dlsym_finds (A := Z) "pthread_mutex_unlock" (RealUnlock tid m) s eq_refl)
    as (s1 & E1 & Hf1 & Hl1 & Hi1 & Hres1). pose proof (ready_frame _ _ _ Hr Hf1 Hi1 Hres1) as Hr1.
  rewrite E1. erewrite bind_Ret by done. pose proof (rd_lockset _ _ Hr1) as Hl%Z.eqb_neq.
  rewrite Hl, (rd_enable _ _ Hr1); simpl. unfold when. destruct (negb (enable =? 0)) eqn:Een.
  - destruct (thread_op_spec _ (racez_sample_skid (cfg s1)) tid _ (Unlock m) s1 (lockset_malloc_gives enable tid s))
      as (s2 & E2 & [Hr2 Hf2] & Hwf2 & Hcase & Hoth); [done|simpl; by rewrite Hl1|].
    simpl in E2. rewrite (bind_Ret _ _ _ _ _ E2). exists s2. split; [done|]. split; [done|]. split; [done|]. split; [done|].
    unfold hook_effect, seen_step. simpl in *. rewrite <- Hl1. split; [|done]. naive_solver.
  - exists s1. split; [done|]. split; [done|]. split; [done|]. rewrite Hl1. split; [done|].
    unfold hook_effect, seen_step. rewrite Hl1. split; [by left|done].
Qed.

(** Locks are always noted, unlocks only while sampling is enabled. *)
Definition noted (enable : Z) (e : lock_event) : bool :=
  match e with Lock _ => true | Unlock _ => negb (enable =? 0) end.

End hooks.

Lemma noted_step enable h e : enable ≠ 0 → seen_step (noted enable) h e = held_step h e.
Proof. intros Hen. destruct e; [done|]. unfold seen_step; simpl. by rewrite (proj2 (Z.eqb_neq _ _) Hen). Qed.

Lemma noted_fold enable es h :
  enable ≠ 0 → foldl (seen_step (noted enable)) h es = foldl held_step h es.
Proof. intros Hen. revert h. induction es as [|e es IH]; intros h; [done|]. simpl. by rewrite noted_step. Qed.

(** The mutexes a thread has locked so far, released or not. *)
Fixpoint ever_locked (es : list lock_event) : gmultiset Z :=
  match es with
  | [] => ∅
  | Lock m :: es' => {[+ m +]} ⊎ ever_locked es'
  | Unlock _ :: es' => ever_locked es'
  end.

Lemma noted_0_step h e es : h ⊎ ever_locked (e :: es) = seen_step (noted 0) h e ⊎ ever_locked es.
Proof. unfold seen_step. destruct e; cbn [noted negb Z.eqb ever_locked held_step]; multiset_solver. Qed.

Lemma noted_0_fold es h : foldl (seen_step (noted 0)) h es = h ⊎ ever_locked es.
Proof.
  revert h. induction es as [|e es IH]; intros h; cbn [foldl]; [simpl; multiset_solver|].
  by rewrite IH, noted_0_step.
Qed.

Lemma noted_0_fits es h : (size (h ⊎ ever_locked es) ≤ 10)%nat → fits (noted 0) h es.
Proof.
  revert h. induction es as [|e es IH]; intros h; [done|]. rewrite noted_0_step. intros Hsz.
  split; [|by apply IH]. rewrite gmultiset_size_disj_union in Hsz. lia.
Qed.

Lemma fits_noted enable es h : enable ≠ 0 → fits all_seen h es → fits (noted enable) h es.
Proof.
  intros Hen. revert h. induction es as [|e es IH]; intros h; [done|]. simpl. rewrite noted_step by done.
  intros [H1 H2]. split; [done|]. by apply IH.
Qed.

(** What the wrappers have recorded for a thread after its events, if there is room: what
    it holds while sampling is enabled, every mutex it ever locked while it is not. *)
Definition expected (enable : Z) (h : gmultiset Z) (es : list lock_event) : gmultiset Z :=
  if enable =? 0 then h ⊎ ever_locked es else foldl held_step h es.

Lemma expected_fold enable h es : foldl (seen_step (noted enable)) h es = expected enable h es.
Proof.
  unfold expected. destruct (Z.eqb_spec enable 0) as [->|Hen]; [apply noted_0_fold|by apply noted_fold].
Qed.

(** Any interleaving of calls; [mem] gives the answer of the allocator to each thread. *)
Section schedules.
Context `{HP : Platform}.
Context (getenv : string → option string) (dlsym : string → bool).
Context (dlsym_finds : ∀ f, dlsym f = true).
Context (mem : Z → Z * list Z) (mem_ok : ∀ tid, (mem tid).1 ≠ 0).
Context (mem_words : ∀ tid, length (mem tid).2 = 10%nat).

Definition hook (tid : Z) (e : lock_event) : M rt unit :=
  match e with
  | Lock m => pthread_mutex_lock getenv dlsym tid (mem tid) 0 m ;; mret tt
  | Unlock m => pthread_mutex_unlock getenv dlsym tid (mem tid) 0 m ;; mret tt
  end.

Lemma hook_ok_ready enable s0 : hook_ok hook (noted enable) (λ s, ready enable s ∧ frame s0 s).
Proof.
  split. intros tid e s [Hr Hf] Hwf. destruct e as [m|m]; simpl.
  - destruct (add_hook getenv dlsym dlsym_finds (mem tid) (mem_ok tid) (mem_words tid) enable tid m s Hr Hwf) as (s' & E & Hr' & Hf' & Hwf' & Hcase & Hoth).
    exists s'. rewrite (bind_Ret _ _ _ _ _ E). split; [done|]. split; [split; [done|by etrans]|done].
  - destruct (unlock_hook getenv dlsym dlsym_finds (mem tid) (mem_ok tid) (mem_words tid) enable tid m s Hr Hwf) as (s' & E & Hr' & Hf' & Hwf' & Hcase & Hoth).
    exists s'. rewrite (bind_Ret _ _ _ _ _ E). split; [done|]. split; [split; [done|by etrans]|]. split; [done|].
    split; [|done]. destruct Hcase as [->|(_ & _ & _ & ? & ?)]; [by left|done].
Qed.
(** What is recorded after a schedule. *)
Lemma run_wrapped enable sched s :
  ready enable s → tls_wf (locksets s) →
  ∃ s', run_hooks hook sched s = Ret tt s' ∧ ready enable s' ∧ frame s s' ∧ tls_wf (locksets s') ∧
    (∀ tid held, thread_recorded (locksets s) tid ⊆ held →
       thread_recorded (locksets s') tid ⊆ expected enable held (events_of tid sched)) ∧
    ((∀ tid, fits (noted enable) (thread_recorded (locksets s) tid) (events_of tid sched)) →
     ∀ tid, thread_recorded (locksets s') tid = expected enable (thread_recorded (locksets s) tid) (events_of tid sched)).
Proof.
  intros Hr Hwf. pose proof (hook_ok_ready enable s) as Hok.
  pose proof (conj Hr (reflexivity s : frame s s)) as HI.
  destruct (run_hooks_sound _ _ _ sched s (λ tid, thread_recorded (locksets s) tid) Hok HI Hwf)
    as (s' & E & [Hr' Hf'] & Hwf' & Hsub); [done|].
  exists s'. split; [done|]. split; [done|]. split; [done|]. split; [done|]. split.
  - intros tid held Hheld. specialize (Hsub tid). rewrite <- expected_fold. etrans; [exact Hsub|].
    generalize (events_of tid sched). intros es. revert Hheld. generalize (thread_recorded (locksets s) tid). revert held.
    induction es as [|e es IH]; intros held h Hh; [done|]. simpl. apply IH. by apply seen_step_mono.
  - intros Hfits. destruct (run_hooks_exact _ _ _ sched s Hok HI Hwf Hfits) as (s2 & E2 & _ & _ & Hex).
    rewrite E in E2. injection E2 as <-. intros tid. rewrite <- expected_fold. apply Hex.
Qed.
End schedules.

(** ** The properties *)

(** C10: what the wrappers record.  The library is initialised with the lockset option on
    and the allocation log off (the defaults), the real functions are found and succeed,
    and the allocator gives memory.  From any well-formed locksets and for any
    interleaving of calls of [pthread_mutex_lock] and [pthread_mutex_unlock] by any
    threads, with the preloaded [malloc] allocating the locksets, every call returns and
    the locksets stay well formed.  While sampling is enabled, what is recorded for a
    thread stays within what the thread holds, if it was so at the start, and is exactly
    that as long as no more than ten mutexes are recorded at a time.  While it is not
    enabled, unlocks are not noted: what is recorded is within what was recorded at the
    start and every mutex the thread has locked since, held or not, and exactly that as
    long as those are no more than ten. *)
Theorem wrapped_locksets_sound (HP : Platform) getenv dlsym mem enable sched s :
  (∀ f, dlsym f = true) → (∀ t, (mem t).1 ≠ 0) → (∀ t, length (mem t).2 = 10%nat) →
  ready enable s → tls_wf (locksets s) →
  ∃ s', run_hooks (hook getenv dlsym mem) sched s = Ret tt s' ∧ ready enable s' ∧ tls_wf (locksets s') ∧
    let start tid := thread_recorded (locksets s) tid in
    let now tid := thread_recorded (locksets s') tid in
    (enable ≠ 0 →
       (∀ tid held, start tid ⊆ held → now tid ⊆ foldl held_step held (events_of tid sched)) ∧
       ((∀ tid, fits all_seen (start tid) (events_of tid sched)) →
        ∀ tid, now tid = foldl held_step (start tid) (events_of tid sched))) ∧
    (enable = 0 →
       (∀ tid, now tid ⊆ start tid ⊎ ever_locked (events_of tid sched)) ∧
       ((∀ tid, size (start tid ⊎ ever_locked (events_of tid sched)) ≤ 10)%nat →
        ∀ tid, now tid = start tid ⊎ ever_locked (events_of tid sched))).
Proof.
  intros Hd Hm Hw Hr Hwf.
  destruct (run_wrapped getenv dlsym Hd mem Hm Hw enable sched s Hr Hwf) as (s' & E & Hr' & _ & Hwf' & Hsub & Hex).
  exists s'. split; [done|]. split; [done|]. split; [done|]. cbv zeta. unfold expected in *. split.
  - intros Hen. rewrite (proj2 (Z.eqb_neq _ _) Hen) in *. split; [done|]. intros Hfits. apply Hex.
    intros tid. apply fits_noted; [done|]. apply Hfits.
  - intros ->. simpl in *. split; [intros tid; by apply Hsub|]. intros Hsz. apply Hex. intros tid. by apply noted_0_fits.
Qed.

Definition demo_ready (enable : Z) : rt :=
  mkRt (set_enable enable cfg_init) true {["pthread_mutex_lock"; "pthread_create"]} (mkTls false ∅) (mkBS None ∅) pmu_init [].

Lemma demo_ready_ok enable : ready enable (demo_ready enable).
Proof. by split; simpl; try set_solver. Qed.

Definition demo_mem : Z * list Z := (8192, replicate 10 77).

Definition demo_sched : list (Z * lock_event) := [(1, Lock 5); (2, Lock 6); (1, Unlock 5); (1, Lock 7)].

(** Thread 1 holds mutex 9 at the start. *)
Definition demo_ready_locked (enable : Z) : rt :=
  set_locksets (mkTls true {[1 := mkLOCKSET 1 0 [9; 0; 0; 0; 0; 0; 0; 0; 0; 0]]}) (demo_ready enable).

Lemma demo_ready_locked_wf enable : tls_wf (locksets (demo_ready_locked enable)).
Proof. split; [done|]. apply map_Forall_singleton. split; simpl; [done|lia|done]. Qed.

Lemma wrapped_locksets_sound_witness :
  ∃ s', run_hooks (hook (HP := demo_platform) (λ _, None) (λ _, true) (λ _, demo_mem)) demo_sched (demo_ready_locked 1) = Ret tt s' ∧
    thread_recorded (locksets s') 1 ⊆ foldl held_step {[+ 9 +]} (events_of 1 demo_sched).
Proof.
  destruct (wrapped_locksets_sound demo_platform (λ _, None) (λ _, true) (λ _, demo_mem) 1 demo_sched (demo_ready_locked 1))
    as (s' & E & _ & _ & Hon & _); [done|done|done|by split; simpl; try set_solver|apply demo_ready_locked_wf|].
  exists s'. split; [exact E|]. apply Hon; [lia|]. vm_compute (thread_recorded _ 1). done.
Defined.

(** Before [racez_start] the two wrappers disagree: [pthread_mutex_lock] records the
    mutex whenever the lockset option is on, [pthread_mutex_unlock] removes it only while
    sampling is enabled.  What is recorded for a thread is then every mutex it ever
    locked, held or not, so locks released before the start count as held afterwards. *)
Theorem unlocks_before_start_ignored (HP : Platform) getenv dlsym mem sched s :
  (∀ f, dlsym f = true) → (∀ t, (mem t).1 ≠ 0) → (∀ t, length (mem t).2 = 10%nat) →
  ready 0 s → locksets s = mkTls false ∅ →
  (∀ tid, size (ever_locked (events_of tid sched)) ≤ 10)%nat →
  ∃ s', run_hooks (hook getenv dlsym mem) sched s = Ret tt s' ∧
    ∀ tid, thread_recorded (locksets s') tid = ever_locked (events_of tid sched).
Proof.
  intros Hd Hm Hw Hr Hls Hsize.
  assert (H0 : ∀ tid, thread_recorded (locksets s) tid = ∅) by (intros tid; by rewrite Hls).
  destruct (run_wrapped getenv dlsym Hd mem Hm Hw 0 sched s Hr) as (s' & E & _ & _ & _ & _ & Hex); [rewrite Hls; apply tls_wf_empty|].
  exists s'. split; [done|]. intros tid. rewrite Hex, H0; [change (∅ ⊎ ever_locked (events_of tid sched) = ever_locked (events_of tid sched)); apply (left_id_L ∅ _)|].
  intros t. apply noted_0_fits. rewrite H0, (left_id_L ∅ _). apply Hsize.
Qed.

Lemma unlocks_before_start_ignored_witness :
  ∃ s', run_hooks (hook (HP := demo_platform) (λ _, None) (λ _, true) (λ _, demo_mem)) demo_sched (demo_ready 0) = Ret tt s' ∧
    ∀ tid, thread_recorded (locksets s') tid = ever_locked (events_of tid demo_sched).
Proof.
  apply (unlocks_before_start_ignored demo_platform (λ _, None) (λ _, true) (λ _, demo_mem) demo_sched (demo_ready 0));
    [done|done|done|apply demo_ready_ok|reflexivity|].
  intros tid. unfold demo_sched. rewrite !events_of_cons. unfold events_of; simpl.
  destruct (decide (1 = tid)), (decide (2 = tid)); apply Nat.leb_le; vm_compute; reflexivity.
Defined.
