(* ===== verification/Pmu.v ===== *)
(** * Taking a sample

    The signal path of racez_pmuprofiler.cc: the handler for the overflow of the hardware
    counter, the reading of the sampling buffer (Intel) or of the IBS registers (AMD), and
    the record that goes to the event buffer. *)

From S2P Require Import Prelude.
From S2P Require Import Records.
From S2P Require Import LockSet.
From S2P Require Import Buffer.
From S2P Require Import Runtime.
From S2P Require Import Preload.
From stdpp Require Import base gmap list sets strings.

Open Scope Z_scope.

Definition MAX_FRAMES : Z := 10.         (** [N] *)
Definition SMPL_PERIOD : Z := 200001.

(** What one delivery of the signal finds: the descriptor in the [siginfo], the registers
    of the interrupted code, the instruction pointers the unwinder yields, the value of
    [rand()], whether [pfm_write_pmds] and [read] succeed, and the data registers
    [pfm_read_pmds] reads ([None] when it fails). *)
Record sample := mkSample {
  si_fd : Z;
  gregs : list Z;
  frames : list Z;
  rand_value : Z;
  write_pmds_ok : bool;
  msg_ok : bool;
  read_pmds : Z → option Z
}.

Definition greg (sm : sample) (i : nat) : Z := nth_word (gregs sm) i.

Definition set_fd_map (m : gmap Z Z) (p : pmu_state) : pmu_state :=
  mkPmu (type p) (sig_enable p) (handler_on p) (hdr_key_once p) (hdr_tls p) m (num_stat p).
Definition set_num_stat (v : Z) (p : pmu_state) : pmu_state :=
  mkPmu (type p) (sig_enable p) (handler_on p) (hdr_key_once p) (hdr_tls p) (tid_fd_map p) v.

Section pmu.
Context `{HP : Platform}.
(** The load and store bits of the IBS data register (bit fields of [ibsopdata3_t]). *)
Context (ibsldop ibsstop : Z → bool).

(** [GetPerThreadHdr] *)
Definition GetPerThreadHdr (tid : Z) : M rt (option smpl_hdr) :=
  gets (λ s, if hdr_key_once (pmu s) then hdr_tls (pmu s) !! tid else None).

(** The lines that copy the lockset into a record. *)
Definition copy_lockset (lockset : option LOCKSET) (r : RacezRecord) : M rt RacezRecord :=
  match lockset with
  | None => mret r
  | Some l =>
      ls ← arr_copy (ls_n l) (ls_lockset l) (lockset_ (op_ r));
      mret (upd_op (λ o, set_lockset ls (set_lock_count (ls_n l) o)) r)
  end.

Definition pebs_record (record : RacezRecord) (tid : Z) (entry : pebs_entry) (pip sip : Z) : RacezRecord :=
  upd_op (λ o, set_mem_op entry (set_sip sip (set_pip pip (set_is_write 0 (set_memory_address 0 o)))))
    (set_type MEMORY_OP (set_thread_id tid record)).

(** The registers of the signal context, in the order of [gregs]. *)
Definition context_entry (sm : sample) (sip : Z) : pebs_entry :=
  mkPebs (greg sm 17) sip (greg sm 13) (greg sm 11) (greg sm 14) (greg sm 12) (greg sm 9) (greg sm 8)
         (greg sm 10) (greg sm 15) (greg sm 0) (greg sm 1) (greg sm 2) (greg sm 3) (greg sm 4)
         (greg sm 5) (greg sm 6) (greg sm 7).

Definition write_pebs_info (record : RacezRecord) (tid : Z) (entry : pebs_entry) (sip : Z) (sm : sample) : M rt unit :=
  c ← gets cfg;
  lockset ← (if negb (racez_lockset c =? 0) then GetPerThreadLockset tid else mret None);
  record ← copy_lockset lockset (pebs_record record tid entry (ip entry) sip);
  log record ;;
  s ← get;
  when (negb (racez_signal_sample c =? 0) && bool_decide (type (pmu s) = INTEL_CORE_PMU))
    (urecord ← copy_lockset lockset (pebs_record zero_record tid (context_entry sm sip) sip sip);
     log urecord).

Definition write_ibs_info (record : RacezRecord) (tid ip m_addr : Z) (is_read : bool) (sip : Z) : M rt unit :=
  let record :=
    upd_op (λ o, set_sip sip (set_pip ip (set_is_write (if is_read then 0 else 1) (set_memory_address m_addr o))))
      (set_type MEMORY_OP (set_thread_id tid record)) in
  lockset ← GetPerThreadLockset tid;
  record ← copy_lockset lockset record;
  log record.

(** [while(count--)]: only the last entry is written. *)
Fixpoint pebs_loop (count : nat) (ent : Z) (entries : list pebs_entry)
    (record : RacezRecord) (tid sip : Z) (sm : sample) : M rt unit :=
  match count with
  | O => mret tt
  | S count' =>
      when (count' =? 0)%nat (e ← arr_get entries ent; write_pebs_info record tid e sip sm) ;;
      pebs_loop count' (ent + 1) entries record tid sip sm
  end.

Definition process_smpl_buf_pebs (record : RacezRecord) (tid : Z) (hdr : smpl_hdr) (sip : Z) (sm : sample) : M rt unit :=
  if hdr_count hdr =? 0 then mret tt
  else pebs_loop (Z.to_nat (hdr_count hdr)) 0 (hdr_entries hdr) record tid sip sm.

Definition signal_handler_pebs (record : RacezRecord) (tid : Z) (sm : sample) : M rt unit :=
  let sip := greg sm 16 in
  hdr ← GetPerThreadHdr tid;
  match hdr with
  | None => mret tt
  | Some hdr => process_smpl_buf_pebs record tid hdr sip sm
  end.

(** [err(1, ...)] when a register cannot be read. *)
Definition read_pmd (sm : sample) (reg : Z) : M rt Z :=
  match read_pmds sm reg with Some v => mret v | None => fail (Exited 1) end.

Definition signal_handler_amd_ibs (record : RacezRecord) (tid : Z) (sm : sample) : M rt unit :=
  let sip := greg sm 16 in
  if negb (msg_ok sm) then fail (Exited 1) else
  opdata3 ← read_pmd sm 11;
  when (ibsldop opdata3 || ibsstop opdata3)
    (ip ← read_pmd sm 8;
     m_addr ← read_pmd sm 12;
     write_ibs_info record tid ip m_addr (ibsldop opdata3) sip).

(** The loop stores at most [n] frames; yields the array and the number stored. *)
Definition get_backtrace (sm : sample) (n : Z) : list Z * Z :=
  let ips := take (Z.to_nat n) (frames sm) in
  (ips ++ replicate (Z.to_nat n - length ips) 0, Z.of_nat (length ips)).

(** The stack trace of the record: the two innermost frames are dropped. *)
Definition trace_record : sample → M rt RacezRecord := λ sm,
  c ← gets cfg;
  if racez_stacktrace c =? 0 then mret zero_record else
  let '(stack_trace, size) := get_backtrace sm MAX_FRAMES in
  let backtrace_count := size - 2 in
  st ← arr_copy backtrace_count (drop 2 stack_trace) (stack_trace_ zero_record);
  mret (set_trace st backtrace_count zero_record).

(** [num_stat++], an [int] *)
Definition count_sample : M rt unit :=
  s ← get;
  if bool_decide (is_int (num_stat (pmu s) + 1))
  then modify (set_pmu (set_num_stat (num_stat (pmu s) + 1) (pmu s)))
  else fail Undefined.

Definition signal_handler (tid : Z) (sm : sample) : M rt unit :=
  let fd := si_fd sm in
  (* [tid_fd_map[tid]] makes an entry of 0 for a thread it does not know *)
  modify (λ s, set_pmu (set_fd_map (<[tid := default 0 (tid_fd_map (pmu s) !! tid)]> (tid_fd_map (pmu s))) (pmu s)) s) ;;
  count_sample ;;
  record ← trace_record sm;
  s ← get;
  match type (pmu s) with
  | INTEL_CORE_PMU | INTEL_NHM_PMU =>
      signal_handler_pebs record tid sm ;;
      when (negb (racez_sampling_adjust (cfg s) =? 0))
        (let random_value := rand_value sm `rem` 1024 in
         let v := wrap64 (- (SMPL_PERIOD - random_value)) in
         emit (PfmWritePmds fd [mkPmd 0 true v v v 0]) ;;
         if write_pmds_ok sm then mret tt else fail (Exited 1))
  | AMD64_PMU => signal_handler_amd_ibs record tid sm
  | OTHER_PMU => fail (Exited 1)
  end ;;
  emit (PfmRestart fd).
End pmu.

(** ** One sample, step by step *)

(** The lockset the handler sees for a thread, and its mutexes. *)
Definition lockset_of (s : rt) (tid : Z) : option LOCKSET :=
  if key_once (locksets s) then tls (locksets s) !! tid else None.

Definition seen_locks (ls : option LOCKSET) : list Z :=
  match ls with Some l => contents l | None => [] end.

(** A record that was cleared and has no locks yet. *)
Record fresh_record (r : RacezRecord) : Prop := {
  fr_count : lock_count_ (op_ r) = 0;
  fr_slots : length (lockset_ (op_ r)) = 10%nat;
  fr_trace : length (stack_trace_ r) = 10%nat;
  fr_depth : trace_depth_ r ≤ 10
}.

Lemma copy_lockset_ok ls r s :
  (∀ l, ls = Some l → lockset_wf l) → fresh_record r →
  ∃ n slots, copy_lockset ls r s = Ret (upd_op (λ o, set_lockset slots (set_lock_count n o)) r) s ∧
    0 ≤ n ≤ 10 ∧ length slots = 10%nat ∧ take (Z.to_nat n) slots = seen_locks ls.
Proof.
  intros Hwf [Hc Hs Ht Hd]. destruct ls as [l|]; simpl.
  - destruct (Hwf l eq_refl) as [Hlen Hn _]. exists (ls_n l), (copy_prefix (ls_n l) (ls_lockset l) (lockset_ (op_ r))).
    rewrite (bind_Ret _ _ _ _ _ (arr_copy_ok (ls_n l) (ls_lockset l) (lockset_ (op_ r)) s ltac:(lia) ltac:(lia))).
    split; [done|]. split; [lia|]. split; [rewrite length_copy_prefix; lia|].
    apply take_copy_prefix. lia.
  - exists 0, (lockset_ (op_ r)). split; [|split; [lia|by split]].
    destruct r as [? ? ? []]; simpl in *. by subst.
Qed.

(** The event buffer can take one more record. *)
Record can_log `{HP : Platform} (k : Z) (b : BufferData) (s : rt) : Prop := {
  cl_flag : racez_write_record (cfg s) ≠ 0;
  cl_buffer : global_buffer (buffer s) = Some b;
  cl_at : buffer_at k b;
  cl_room : k + 1 < BUFFERSIZE
}.

Definition logged `{HP : Platform} (k : Z) (b : BufferData) (r : RacezRecord) (s : rt) : rt :=
  set_buf (set_buffer (Some (store_next k r b)) (buffer s)) s.

Lemma log_ok `{HP : Platform} k b r s :
  can_log k b s → copies_overrun r = false → log r s = Ret tt (logged k b r s).
Proof.
  intros [Hf Hb Hat Hroom] Hr. unfold log. erewrite bind_Ret by done.
  unfold on_buffer, zoom. rewrite (WriteRecord_step _ k b) by (done || unfold BUFFERSIZE in *; lia).
  rewrite Hr; simpl. destruct (Z.ltb_spec BUFFERSIZE (k + 1)); [lia|].
  destruct (Z.eqb_spec (k + 1) BUFFERSIZE); [lia|done].
Qed.

(** The record a sample of the sampling buffer leaves in the event buffer. *)
Record pebs_event (tid : Z) (e : pebs_entry) (sip : Z) (ls : list Z) (r : RacezRecord) : Prop := {
  pe_tid : thread_id_ r = tid;
  pe_type : type_is MEMORY_OP r = true;
  pe_address : memory_address_ (op_ r) = 0;
  pe_write : is_write_ (op_ r) = 0;
  pe_pip : pip_ (op_ r) = ip e;
  pe_sip : sip_ (op_ r) = sip;
  pe_regs : mem_op_ (op_ r) = e;
  pe_locks : take (Z.to_nat (lock_count_ (op_ r))) (lockset_ (op_ r)) = ls;
  pe_count : 0 ≤ lock_count_ (op_ r) ≤ 10;
  pe_slots : length (lockset_ (op_ r)) = 10%nat;
  pe_frames : length (stack_trace_ r) = 10%nat
}.

Section samples.
Context `{HP : Platform}.

(** The record of the sampling buffer; what is left to do is the record of the signal
    context. *)
Lemma write_pebs_info_first k b r tid e sip sm s :
  can_log k b s → fresh_record r → racez_lockset (cfg s) ≠ 0 →
  (∀ l, lockset_of s tid = Some l → lockset_wf l) →
  ∃ r', write_pebs_info r tid e sip sm s =
          when (negb (racez_signal_sample (cfg s) =? 0) && bool_decide (type (pmu s) = INTEL_CORE_PMU))
            (urecord ← copy_lockset (lockset_of s tid) (pebs_record zero_record tid (context_entry sm sip) sip sip);
             log urecord) (logged k b r' s) ∧
        pebs_event tid e sip (seen_locks (lockset_of s tid)) r' ∧
        stack_trace_ r' = stack_trace_ r ∧ trace_depth_ r' = trace_depth_ r.
Proof.
  intros Hcl Hfr Hlo Hwf. unfold write_pebs_info. erewrite bind_Ret by done.
  apply Z.eqb_neq in Hlo. rewrite Hlo; simpl.
  rewrite (bind_Ret (GetPerThreadLockset tid) _ s (lockset_of s tid) s) by done.
  destruct (copy_lockset_ok (lockset_of s tid) (pebs_record r tid e (ip e) sip) s Hwf)
    as (n & slots & E & Hn & Hlen & Htake); [by destruct Hfr|].
  rewrite (bind_Ret _ _ _ _ _ E).
  erewrite bind_Ret; [|apply (log_ok k b); [done|]].
  2: { unfold copies_overrun; simpl. pose proof (fr_depth _ Hfr).
       rewrite (proj2 (Z.ltb_ge 10 n)), (proj2 (Z.ltb_ge 10 (trace_depth_ r))) by lia.
       done. }
  erewrite bind_Ret by done. eexists. split; [done|]. split; [|done]. split; simpl; try done. apply Hfr.
Qed.

Lemma write_pebs_info_ok k b r tid e sip sm s :
  can_log k b s → fresh_record r → racez_lockset (cfg s) ≠ 0 →
  (∀ l, lockset_of s tid = Some l → lockset_wf l) →
  racez_signal_sample (cfg s) = 0 ∨ type (pmu s) ≠ INTEL_CORE_PMU →
  ∃ r', write_pebs_info r tid e sip sm s = Ret tt (logged k b r' s) ∧
        pebs_event tid e sip (seen_locks (lockset_of s tid)) r' ∧
        stack_trace_ r' = stack_trace_ r ∧ trace_depth_ r' = trace_depth_ r.
Proof.
  intros Hcl Hfr Hlo Hwf Hss.
  destruct (write_pebs_info_first k b r tid e sip sm s Hcl Hfr Hlo Hwf) as (r' & E & Hr'). exists r'. split; [|done].
  rewrite E. destruct Hss as [->|Hne]; [done|]. by rewrite (bool_decide_eq_false_2 _ Hne), andb_false_r.
Qed.

Lemma can_log_next k b r s : can_log k b s → k + 2 < BUFFERSIZE →
  can_log (k + 1) (store_next k r b) (logged k b r s).
Proof.
  intros [Hf Hb [H1 H2 H3 H4] Hroom] Hk. split; simpl; try done; [|lia].
  split; simpl; try done; [rewrite H2; lia|lia].
Qed.

Lemma write_pebs_info_two k b r tid e sip sm s :
  can_log k b s → k + 2 < BUFFERSIZE → fresh_record r → racez_lockset (cfg s) ≠ 0 →
  (∀ l, lockset_of s tid = Some l → lockset_wf l) →
  racez_signal_sample (cfg s) ≠ 0 → type (pmu s) = INTEL_CORE_PMU →
  ∃ r' u, write_pebs_info r tid e sip sm s = Ret tt (logged (k + 1) (store_next k r' b) u (logged k b r' s)) ∧
        pebs_event tid e sip (seen_locks (lockset_of s tid)) r' ∧
        stack_trace_ r' = stack_trace_ r ∧ trace_depth_ r' = trace_depth_ r ∧
        pebs_event tid (context_entry sm sip) sip (seen_locks (lockset_of s tid)) u ∧ trace_depth_ u = 0.
Proof.
  intros Hcl Hk Hfr Hlo Hwf Hss Hty.
  destruct (write_pebs_info_first k b r tid e sip sm s Hcl Hfr Hlo Hwf) as (r' & E & Hev & Hst & Hd).
  rewrite E, (proj2 (Z.eqb_neq _ _) Hss), bool_decide_eq_true_2 by done. simpl.
  destruct (copy_lockset_ok (lockset_of s tid) (pebs_record zero_record tid (context_entry sm sip) sip sip) (logged k b r' s) Hwf)
    as (n & slots & Eu & Hn & Hlen & Htake); [by split|].
  rewrite (bind_Ret _ _ _ _ _ Eu), (log_ok (k + 1) (store_next k r' b)); cycle 1.
  { by apply can_log_next. }
  { unfold copies_overrun; simpl. by rewrite (proj2 (Z.ltb_ge 10 n)) by lia. }
  eexists r', _. split; [done|]. split; [done|]. split; [done|]. split; [done|]. by split.
Qed.

(** The loop writes the last entry. *)
Lemma pebs_loop_eq n i entries r tid sip sm s e :
  entries !! (i + n)%nat = Some e →
  pebs_loop (S n) (Z.of_nat i) entries r tid sip sm s = write_pebs_info r tid e sip sm s.
Proof.
  revert i. induction n as [|n IH]; intros i He.
  - rewrite Nat.add_0_r in He. cbn [pebs_loop]. unfold when; simpl. unfold mbind, M_bind.
    rewrite (arr_get_Some entries (Z.of_nat i) e) by (lia || by rewrite Nat2Z.id).
    by destruct (write_pebs_info r tid e sip sm s) as [[]|].
  - cbn [pebs_loop]. unfold when at 1; simpl ((S n =? 0)%nat). erewrite bind_Ret by done.
    replace (Z.of_nat i + 1) with (Z.of_nat (S i)) by lia. apply IH.
    by replace (S i + n)%nat with (i + S n)%nat by lia.
Qed.

Lemma signal_handler_pebs_eq r tid sm s hdr e :
  hdr_key_once (pmu s) = true → hdr_tls (pmu s) !! tid = Some hdr →
  0 < hdr_count hdr → hdr_entries hdr !! (Z.to_nat (hdr_count hdr) - 1)%nat = Some e →
  signal_handler_pebs r tid sm s = write_pebs_info r tid e (greg sm 16) sm s.
Proof.
  intros Hkey Hhdr Hc He. unfold signal_handler_pebs, GetPerThreadHdr, gets, mbind at 1, M_bind at 1.
  rewrite Hkey, Hhdr. unfold process_smpl_buf_pebs. rewrite (proj2 (Z.eqb_neq _ _)) by lia.
  replace (Z.to_nat (hdr_count hdr)) with (S (Z.to_nat (hdr_count hdr) - 1)) by lia.
  by apply (pebs_loop_eq _ 0).
Qed.
End samples.

(** ** The stack trace *)

(** The depth and the frames a sample's record carries. *)
Definition trace_of (c : config) (sm : sample) (r : RacezRecord) : Prop :=
  if racez_stacktrace c =? 0 then trace_depth_ r = 0
  else trace_depth_ r = Z.of_nat (length (take 10 (frames sm))) - 2 ∧
       take (Z.to_nat (trace_depth_ r)) (stack_trace_ r) = drop 2 (take 10 (frames sm)).

Lemma take_drop_pad (l z : list Z) :
  take (Z.to_nat (Z.of_nat (length l) - 2)) (drop 2 (l ++ z)) = drop 2 l.
Proof.
  destruct l as [|a [|b l]]; [done|done|]. simpl.
  replace (Z.to_nat _) with (length l) by lia. by rewrite drop_0, take_app_length.
Qed.

Lemma trace_record_ok sm s :
  ∃ r, trace_record sm s = Ret r s ∧ fresh_record r ∧ trace_of (cfg s) sm r.
Proof.
  unfold trace_record, trace_of. erewrite bind_Ret by done.
  destruct (racez_stacktrace (cfg s) =? 0); [exists zero_record; by split; [|split; [split|]]|].
  unfold get_backtrace. change (Z.to_nat MAX_FRAMES) with 10%nat.
  set (ips := take 10 (frames sm)). assert (Hips : (length ips ≤ 10)%nat) by (unfold ips; rewrite length_take; lia).
  set (z := replicate (10 - length ips) 0).
  assert (Hlen : length (drop 2 (ips ++ z)) = 8%nat)
    by (rewrite length_drop, length_app; unfold z; rewrite length_replicate; lia).
  rewrite (bind_Ret _ _ _ _ _ (arr_copy_ok (Z.of_nat (length ips) - 2) (drop 2 (ips ++ z)) (stack_trace_ zero_record) s
             ltac:(rewrite Hlen; lia) ltac:(simpl; lia))).
  eexists. split; [done|]. split; [split; simpl; [done|done| |lia]|].
  - rewrite length_copy_prefix; [done|rewrite Hlen; lia|simpl; lia].
  - simpl. split; [done|]. rewrite take_copy_prefix by (rewrite Hlen; lia). apply take_drop_pad.
Qed.

(** ** The properties *)

(** The state after the handler's bookkeeping. *)
Definition noted_sample (tid : Z) (s : rt) : rt :=
  set_pmu (set_num_stat (num_stat (pmu s) + 1)
             (set_fd_map (<[tid := default 0 (tid_fd_map (pmu s) !! tid)]> (tid_fd_map (pmu s))) (pmu s))) s.

(** The data register the handler writes when the period is randomised. *)
Definition randomised_pmd (sm : sample) : pmd_reg :=
  let v := wrap64 (- (SMPL_PERIOD - rand_value sm `rem` 1024)) in mkPmd 0 true v v v 0.

Lemma handler_prefix (HP : Platform) ld st tid sm s :
  is_int (num_stat (pmu s) + 1) →
  ∃ r, fresh_record r ∧ trace_of (cfg s) sm r ∧
    signal_handler ld st tid sm s =
    ((match type (pmu s) with
      | INTEL_CORE_PMU | INTEL_NHM_PMU =>
          signal_handler_pebs r tid sm ;;
          when (negb (racez_sampling_adjust (cfg s) =? 0))
            (emit (PfmWritePmds (si_fd sm) [randomised_pmd sm]) ;;
             if write_pmds_ok sm then mret tt else fail (Exited 1))
      | AMD64_PMU => signal_handler_amd_ibs ld st r tid sm
      | OTHER_PMU => fail (Exited 1)
      end) ;; emit (PfmRestart (si_fd sm))) (noted_sample tid s).
Proof.
  intros Hint. destruct (trace_record_ok sm (noted_sample tid s)) as (r & E & Hfr & Htr).
  exists r. split; [done|]. split; [done|]. unfold signal_handler.
  erewrite bind_Ret by done. unfold count_sample at 1. erewrite (bind_Ret _ _ _ tt (noted_sample tid s)).
  2: { unfold get, mbind, M_bind; simpl. by rewrite bool_decide_eq_true_2. }
  rewrite (bind_Ret _ _ _ _ _ E). erewrite bind_Ret by done. done.
Qed.

(** The records of one sample in the event buffer. *)
Fixpoint log_all `{HP : Platform} (k : Z) (b : BufferData) (rs : list RacezRecord) (s : rt) : rt :=
  match rs with
  | [] => s
  | r :: rs => log_all (k + 1) (store_next k r b) rs (logged k b r s)
  end.

(** The counter is loaded with a random period before it is restarted, if so configured. *)
Definition readjusted (sm : sample) (s : rt) : rt :=
  if racez_sampling_adjust (cfg s) =? 0 then s
  else add_call (PfmWritePmds (si_fd sm) [randomised_pmd sm]) s.

(** On a Core 2 with [RACEZ_SIGNAL_SAMPLE] set, the interrupted context is logged too. *)
Definition logs_context (s : rt) : bool :=
  negb (racez_signal_sample (cfg s) =? 0) && bool_decide (type (pmu s) = INTEL_CORE_PMU).

Lemma pebs_handler_tail ld st tid sm s r0 rs (HP : Platform) k b :
  type (pmu s) = INTEL_NHM_PMU ∨ type (pmu s) = INTEL_CORE_PMU →
  racez_sampling_adjust (cfg s) = 0 ∨ write_pmds_ok sm = true →
  signal_handler_pebs r0 tid sm (noted_sample tid s) = Ret tt (log_all k b rs (noted_sample tid s)) →
  ((match type (pmu s) with
    | INTEL_CORE_PMU | INTEL_NHM_PMU =>
        signal_handler_pebs r0 tid sm ;;
        when (negb (racez_sampling_adjust (cfg s) =? 0))
          (emit (PfmWritePmds (si_fd sm) [randomised_pmd sm]) ;;
           if write_pmds_ok sm then mret tt else fail (Exited 1))
    | AMD64_PMU => signal_handler_amd_ibs ld st r0 tid sm
    | OTHER_PMU => fail (Exited 1)
    end) ;; emit (PfmRestart (si_fd sm))) (noted_sample tid s) =
  Ret tt (add_call (PfmRestart (si_fd sm)) (readjusted sm (log_all k b rs (noted_sample tid s)))).
Proof.
  intros Hty Hadj E.
  assert (∀ rs k b t, cfg (log_all k b rs t) = cfg t) as Hcfg.
  { clear. intros rs. induction rs as [|r rs IH]; intros k b t; [done|]. simpl. by rewrite IH. }
  assert (∀ t, cfg t = cfg s →
    (when (negb (racez_sampling_adjust (cfg s) =? 0))
       (emit (PfmWritePmds (si_fd sm) [randomised_pmd sm]) ;;
        if write_pmds_ok sm then mret tt else fail (Exited 1))) t = Ret tt (readjusted sm t)) as Hw.
  { intros t Ht. unfold readjusted. rewrite Ht. destruct (Z.eqb_spec (racez_sampling_adjust (cfg s)) 0); [done|].
    destruct Hadj as [|Hok]; [done|]. simpl. unfold emit. run_m. by rewrite Hok. }
  destruct Hty as [-> | ->]; rewrite !bind_assoc, (bind_Ret _ _ _ _ _ E), (bind_Ret _ _ _ _ _ (Hw (log_all k b rs (noted_sample tid s)) (Hcfg rs k b (noted_sample tid s)))); done.
Qed.

(** The records one sample of the sampling buffer leaves. *)
Lemma pebs_sample_records (HP : Platform) ld st tid sm s k b hdr e :
  type (pmu s) = INTEL_NHM_PMU ∨ type (pmu s) = INTEL_CORE_PMU →
  is_int (num_stat (pmu s) + 1) → can_log k b s → k + 2 < BUFFERSIZE → racez_lockset (cfg s) ≠ 0 →
  racez_sampling_adjust (cfg s) = 0 ∨ write_pmds_ok sm = true →
  (∀ l, lockset_of s tid = Some l → lockset_wf l) →
  hdr_key_once (pmu s) = true → hdr_tls (pmu s) !! tid = Some hdr →
  0 < hdr_count hdr → hdr_entries hdr !! (Z.to_nat (hdr_count hdr) - 1)%nat = Some e →
  let sip := greg sm 16 in
  let ls := seen_locks (lockset_of s tid) in
  ∃ r us, signal_handler ld st tid sm s =
      Ret tt (add_call (PfmRestart (si_fd sm)) (readjusted sm (log_all k b (r :: us) (noted_sample tid s)))) ∧
    pebs_event tid e sip ls r ∧ trace_of (cfg s) sm r ∧
    (if logs_context s then ∃ u, us = [u] ∧ pebs_event tid (context_entry sm sip) sip ls u ∧ trace_depth_ u = 0
     else us = []).
Proof.
  intros Hty Hint Hcl Hk Hlo Hadj Hwf Hkey Hhdr Hc He sip ls.
  destruct (handler_prefix HP ld st tid sm s Hint) as (r0 & Hfr & Htr & ->).
  pose proof (signal_handler_pebs_eq r0 tid sm (noted_sample tid s) hdr e Hkey Hhdr Hc He) as Eh.
  assert (can_log k b (noted_sample tid s)) as Hcl' by (by destruct Hcl).
  unfold logs_context. destruct (negb (racez_signal_sample (cfg s) =? 0) && bool_decide (type (pmu s) = INTEL_CORE_PMU)) eqn:Es.
  - apply andb_true_iff in Es as [Es Et%bool_decide_eq_true]. apply negb_true_iff, Z.eqb_neq in Es.
    destruct (write_pebs_info_two k b r0 tid e sip sm (noted_sample tid s) Hcl' Hk Hfr Hlo Hwf Es Et)
      as (r & u & E & Hr & Hst & Hd & Hu & Hud). exists r, [u].
    rewrite (pebs_handler_tail ld st tid sm s r0 [r; u] HP k b Hty Hadj (eq_trans Eh E)).
    split; [done|]. split; [done|]. split; [unfold trace_of in *; by rewrite Hst, Hd|]. by exists u.
  - destruct (write_pebs_info_ok k b r0 tid e sip sm (noted_sample tid s) Hcl' Hfr Hlo Hwf) as (r & E & Hr & Hst & Hd).
    { apply andb_false_iff in Es as [Es|Es]; [left; by apply negb_false_iff, Z.eqb_eq in Es|right; by apply bool_decide_eq_false in Es]. }
    exists r, [].
    rewrite (pebs_handler_tail ld st tid sm s r0 [r] HP k b Hty Hadj (eq_trans Eh E)).
    split; [done|]. split; [done|]. split; [unfold trace_of in *; by rewrite Hst, Hd|done].
Qed.

(** C21: one sample on an Intel processor.  When the counter of a monitored thread
    overflows, the handler returns and the event buffer has one more entry, the record of
    the last entry of the sampling buffer: the thread, the sampled instruction pointer and
    registers, the locks recorded for the thread, and the call stack without the two
    innermost frames, at most eight deep; the address is left 0 and the access marked as
    a read for the later phases to fill in.  On a Core 2 with the signal sample switched
    on, a second entry follows with the registers of the interrupted code and the same
    locks, without a stack.  The counter is then loaded with a new period if the
    configuration asks for it, between 198978 and 200001 events from the next overflow,
    and restarted last. *)
Theorem pebs_sample_logged (HP : Platform) ld st tid sm s k b hdr e :
  type (pmu s) = INTEL_NHM_PMU ∨ type (pmu s) = INTEL_CORE_PMU →
  is_int (num_stat (pmu s) + 1) → can_log k b s → k + 2 < BUFFERSIZE → racez_lockset (cfg s) ≠ 0 →
  racez_sampling_adjust (cfg s) = 0 ∨ write_pmds_ok sm = true → 0 ≤ rand_value sm →
  (∀ l, lockset_of s tid = Some l → lockset_wf l) →
  hdr_key_once (pmu s) = true → hdr_tls (pmu s) !! tid = Some hdr →
  0 < hdr_count hdr → hdr_entries hdr !! (Z.to_nat (hdr_count hdr) - 1)%nat = Some e →
  let sip := greg sm 16 in
  let ls := seen_locks (lockset_of s tid) in
  ∃ r us, signal_handler ld st tid sm s =
      Ret tt (add_call (PfmRestart (si_fd sm)) (readjusted sm (log_all k b (r :: us) (noted_sample tid s)))) ∧
    pebs_event tid e sip ls r ∧ trace_of (cfg s) sm r ∧
    (if logs_context s then ∃ u, us = [u] ∧ pebs_event tid (context_entry sm sip) sip ls u ∧ trace_depth_ u = 0
     else us = []) ∧
    ∃ period, 198978 ≤ period ≤ 200001 ∧ pmd_value (randomised_pmd sm) = 2 ^ 64 - period.
Proof.
  intros Hty Hint Hcl Hk Hlo Hadj Hrand Hwf Hkey Hhdr Hc He sip ls.
  destruct (pebs_sample_records HP ld st tid sm s k b hdr e Hty Hint Hcl Hk Hlo Hadj Hwf Hkey Hhdr Hc He)
    as (r & us & E & Hr & Htr & Hus). exists r, us. split; [done|]. split; [done|]. split; [done|]. split; [done|].
  exists (SMPL_PERIOD - rand_value sm `rem` 1024). pose proof (Z.rem_bound_pos (rand_value sm) 1024 Hrand ltac:(lia)).
  unfold SMPL_PERIOD in *. split; [lia|]. simpl. unfold wrap64, SMPL_PERIOD.
  rewrite <- (Z_mod_plus_full _ 1), Z.mod_small by lia. lia.
Qed.

(** A thread with one held mutex, two samples in its buffer, four frames on its stack. *)
Definition demo_cfg : config := mkCfg 1 1 0 0 1 0 0 0 1.
Definition demo_hdr : smpl_hdr :=
  mkHdr 2 [zero_pebs; mkPebs 2 4200 1 2 3 4 5 6 7 8 9 10 11 12 13 14 15 16].
Definition demo_pmu (t : pmu_kind) : pmu_state := mkPmu t true true true {[7 := demo_hdr]} {[7 := 5]} 0.
Definition demo_lockset : LOCKSET := mkLOCKSET 1 0 [55; 0; 0; 0; 0; 0; 0; 0; 0; 0].
Definition demo_rt (t : pmu_kind) : rt :=
  mkRt demo_cfg true ∅ (mkTls true {[7 := demo_lockset]}) (mkBS (Some (demo_buffer 3)) ∅) (demo_pmu t) [].
Definition demo_sample : sample :=
  mkSample 5 (replicate 23 33) [1; 2; 3; 4] 0 true true (λ r, if r =? 11 then Some 1 else Some 4300).

(** A Core 2 that logs the signal context and readjusts its period. *)
Definition demo_core (signal : Z) : rt :=
  let s := demo_rt INTEL_CORE_PMU in
  mkRt (mkCfg 1 1 0 0 1 1 0 signal 1)
       (initializer s) (resolved s) (locksets s) (buffer s) (pmu s) (calls s).

Lemma demo_can_log t : can_log (HP := demo_platform) 3 (demo_buffer 3) (demo_rt t).
Proof. split; [done|done|split; vm_compute; done|done]. Qed.

Lemma demo_lockset_wf t l : lockset_of (demo_rt t) 7 = Some l → lockset_wf l.
Proof.
  unfold lockset_of; simpl. rewrite lookup_singleton_eq. intros [= <-].
  split; [done|simpl; lia|done].
Qed.

Lemma pebs_sample_logged_witness :
  ∃ r us, signal_handler (HP := demo_platform) (λ _, true) (λ _, true) 7 demo_sample (demo_core 1) =
      Ret tt (add_call (PfmRestart 5) (readjusted demo_sample (log_all (HP := demo_platform) 3 (demo_buffer 3) (r :: us) (noted_sample 7 (demo_core 1))))) ∧
    pebs_event 7 (mkPebs 2 4200 1 2 3 4 5 6 7 8 9 10 11 12 13 14 15 16) 33 [55] r ∧
    ∃ u, us = [u] ∧ pebs_event 7 (context_entry demo_sample 33) 33 [55] u ∧ trace_depth_ u = 0.
Proof.
  destruct (pebs_sample_logged demo_platform (λ _, true) (λ _, true) 7 demo_sample (demo_core 1) 3 (demo_buffer 3) demo_hdr
              (mkPebs 2 4200 1 2 3 4 5 6 7 8 9 10 11 12 13 14 15 16)) as (r & us & H1 & H2 & _ & H3 & _);
    [by right|vm_compute; split; discriminate|split; [done|done|split; vm_compute; done|done]|reflexivity|discriminate|by right
    |discriminate|apply (demo_lockset_wf INTEL_CORE_PMU)|reflexivity|reflexivity|reflexivity|reflexivity|].
  exists r, us. split; [exact H1|]. split; [exact H2|exact H3].
Defined.

(** The record a sampled load or store leaves in the event buffer. *)
Record ibs_event (tid addr ip sip w : Z) (ls : list Z) (r : RacezRecord) : Prop := {
  ie_tid : thread_id_ r = tid;
  ie_type : type_is MEMORY_OP r = true;
  ie_address : memory_address_ (op_ r) = addr;
  ie_pip : pip_ (op_ r) = ip;
  ie_sip : sip_ (op_ r) = sip;
  ie_write : is_write_ (op_ r) = w;
  ie_locks : take (Z.to_nat (lock_count_ (op_ r))) (lockset_ (op_ r)) = ls;
  ie_count : 0 ≤ lock_count_ (op_ r) ≤ 10;
  ie_slots : length (lockset_ (op_ r)) = 10%nat;
  ie_frames : length (stack_trace_ r) = 10%nat;
  ie_depth : trace_depth_ r ≤ 10
}.

Lemma ibs_event_fits tid addr ip sip w ls r : ibs_event tid addr ip sip w ls r → copies_overrun r = false.
Proof.
  intros []. unfold copies_overrun. rewrite (proj2 (Z.ltb_ge 10 _)), (proj2 (Z.ltb_ge 10 (trace_depth_ r))) by lia.
  by rewrite andb_false_r.
Qed.

(** A sample of the instruction-based sampling. *)
Lemma ibs_sample (HP : Platform) ld st tid sm s k b op ip addr :
  type (pmu s) = AMD64_PMU → is_int (num_stat (pmu s) + 1) → can_log k b s →
  (∀ l, lockset_of s tid = Some l → lockset_wf l) →
  msg_ok sm = true → read_pmds sm 11 = Some op → read_pmds sm 8 = Some ip → read_pmds sm 12 = Some addr →
  (ld op || st op = true →
   ∃ r, signal_handler ld st tid sm s =
          Ret tt (add_call (PfmRestart (si_fd sm)) (logged k b r (noted_sample tid s))) ∧
        ibs_event tid addr ip (greg sm 16) (if ld op then 0 else 1) (seen_locks (lockset_of s tid)) r) ∧
  (ld op || st op = false →
   signal_handler ld st tid sm s = Ret tt (add_call (PfmRestart (si_fd sm)) (noted_sample tid s))).
Proof.
  intros Htype Hint Hcl Hwf Hmsg H11 H8 H12.
  destruct (handler_prefix HP ld st tid sm s Hint) as (r0 & Hfr & Htr & ->). rewrite Htype.
  unfold signal_handler_amd_ibs, read_pmd. rewrite Hmsg, H11, H8, H12; simpl.
  split; intros Hop.
  - set (r1 := upd_op (λ o, set_sip (greg sm 16) (set_pip ip (set_is_write (if ld op then 0 else 1)
                 (set_memory_address addr o)))) (set_type MEMORY_OP (set_thread_id tid r0))).
    destruct (copy_lockset_ok (lockset_of s tid) r1 (noted_sample tid s) Hwf)
      as (n & slots & E & Hn & Hlen & Htake); [by destruct Hfr|].
    set (r := upd_op (λ o, set_lockset slots (set_lock_count n o)) r1).
    assert (Hev : ibs_event tid addr ip (greg sm 16) (if ld op then 0 else 1) (seen_locks (lockset_of s tid)) r)
      by (destruct Hfr; by split).
    exists r. split; [|exact Hev].
    erewrite bind_Ret; [reflexivity|]. unfold mret, M_ret, mbind, M_bind. rewrite Hop. unfold when, write_ibs_info.
    rewrite (bind_Ret (GetPerThreadLockset tid) _ _ (lockset_of s tid) (noted_sample tid s)) by done.
    rewrite (bind_Ret _ _ _ _ _ E). apply log_ok; [by destruct Hcl|]. by eapply ibs_event_fits.
  - unfold mret, M_ret, mbind, M_bind. by rewrite Hop.
Qed.

(** C22: one sample on an AMD processor.  A sampled load or store is logged with its data
    address, its instruction pointer, and the locks recorded for the thread; an operation
    that both loads and stores is logged as a read.  Any other operation is not logged. *)
Theorem ibs_sample_logged (HP : Platform) ld st tid sm s k b op ip addr :
  type (pmu s) = AMD64_PMU → is_int (num_stat (pmu s) + 1) → can_log k b s →
  (∀ l, lockset_of s tid = Some l → lockset_wf l) →
  msg_ok sm = true → read_pmds sm 11 = Some op → read_pmds sm 8 = Some ip → read_pmds sm 12 = Some addr →
  (ld op || st op = true →
   ∃ r, signal_handler ld st tid sm s =
          Ret tt (add_call (PfmRestart (si_fd sm)) (logged k b r (noted_sample tid s))) ∧
        thread_id_ r = tid ∧ type_is MEMORY_OP r = true ∧ memory_address_ (op_ r) = addr ∧
        pip_ (op_ r) = ip ∧ sip_ (op_ r) = greg sm 16 ∧ is_write_ (op_ r) = (if ld op then 0 else 1) ∧
        take (Z.to_nat (lock_count_ (op_ r))) (lockset_ (op_ r)) = seen_locks (lockset_of s tid)) ∧
  (ld op || st op = false →
   signal_handler ld st tid sm s = Ret tt (add_call (PfmRestart (si_fd sm)) (noted_sample tid s))).
Proof.
  intros Htype Hint Hcl Hwf Hmsg H11 H8 H12.
  destruct (ibs_sample HP ld st tid sm s k b op ip addr Htype Hint Hcl Hwf Hmsg H11 H8 H12) as [H1 H2].
  split; [|exact H2]. intros Hop. destruct (H1 Hop) as (r & E & []). by exists r.
Qed.

Lemma ibs_sample_logged_witness :
  ∃ r, signal_handler (HP := demo_platform) (λ v, v =? 1) (λ _, true) 7 demo_sample (demo_rt AMD64_PMU) =
         Ret tt (add_call (PfmRestart 5) (logged (HP := demo_platform) 3 (demo_buffer 3) r (noted_sample 7 (demo_rt AMD64_PMU)))) ∧
       thread_id_ r = 7 ∧ type_is MEMORY_OP r = true ∧ memory_address_ (op_ r) = 4300 ∧
       pip_ (op_ r) = 4300 ∧ sip_ (op_ r) = 33 ∧ is_write_ (op_ r) = 0 ∧
       take (Z.to_nat (lock_count_ (op_ r))) (lockset_ (op_ r)) = [55].
Proof.
  apply (ibs_sample_logged demo_platform (λ v, v =? 1) (λ _, true) 7 demo_sample (demo_rt AMD64_PMU) 3 (demo_buffer 3) 1 4300 4300);
    [reflexivity|vm_compute; split; discriminate|apply demo_can_log|apply demo_lockset_wf
    |reflexivity|reflexivity|reflexivity|reflexivity|reflexivity].
Defined.
