(* ===== verification/Lifecycle.v ===== *)
(** * Starting, attaching and stopping

    The set-up of racez_pmuprofiler.cc (attaching a counter to a thread, starting and
    stopping the profiler) and the entry points of racez_preload.c that use it.

    The answers of libpfm and of the kernel are arguments.  Several functions that have a
    result end without a [return]: the attach functions, [pmu_profiler_start],
    [disable_signal_handler] and [racez_thread_start_func].  C++ leaves a call of such a
    function undefined, whether or not the caller uses the result.  The model has what
    compilers make of them without optimisation: the body runs, and the result is [None],
    for which a caller finds some value, the argument [junk]; the theorems say what
    happens for every value of [junk]. *)

From S2P Require Import Prelude.
From S2P Require Import Records.
From S2P Require Import LockSet.
From S2P Require Import Buffer.
From S2P Require Import Runtime.
From S2P Require Import Preload.
From S2P Require Import Pmu.
From stdpp Require Import base gmap gmultiset list sets strings sorting.

Open Scope Z_scope.

Definition NUM_PMCS : nat := 16.
Definition NUM_PMDS : nat := 16.
Definition PMD_IBSOP_NUM : Z := 7.

(** What the calls of one attach function answer.  [pmcs] and [pmds] are the registers
    [pfm_dispatch_events] chose. *)
Record attach_env := mkAttach {
  initialize_ok : bool;
  pmu_type : pmu_kind;
  find_event_ok : bool;
  context_fd : Z;
  mapped : option smpl_hdr;
  hdr_version : Z;
  hdr_entry_size : Z;
  dispatch_ok : bool;
  pmcs : list (Z * Z);
  pmds : list Z;
  write_pmcs_result : bool;
  write_pmds_result : bool;
  load_ok : bool;
  setfl_ok : bool;
  setsig_ok : bool
}.

Definition set_type_ (t : pmu_kind) (p : pmu_state) : pmu_state :=
  mkPmu t (sig_enable p) (handler_on p) (hdr_key_once p) (hdr_tls p) (tid_fd_map p) (num_stat p).
Definition set_hdr_tls (once : bool) (m : gmap Z smpl_hdr) (p : pmu_state) : pmu_state :=
  mkPmu (type p) (sig_enable p) (handler_on p) once m (tid_fd_map p) (num_stat p).
Definition set_handler (en on : bool) (p : pmu_state) : pmu_state :=
  mkPmu (type p) en on (hdr_key_once p) (hdr_tls p) (tid_fd_map p) (num_stat p).

Definition tid_le (a b : Z * Z) : Prop := a.1 ≤ b.1.

#[export] Instance tid_le_dec : RelDecision tid_le.
Proof. intros a b. unfold tid_le. apply _. Defined.

Definition upd_pmu (f : pmu_state → pmu_state) : M rt unit := modify (λ s, set_pmu (f (pmu s)) s).

(** [if(!ok) errx(1, ...)] *)
Definition need (ok : bool) : M rt unit := if ok then mret tt else fail (Exited 1).

Section lifecycle.
Context `{HP : Platform}.
Context (getenv : string → option string) (dlsym : string → bool).
(** The allocator's answer should a lockset be needed, and the address of
    [tid_fd_map_mutex]. *)
Context (mem : Z * list Z) (tid_fd_map_mutex : Z).
(** The word of an [ibsopctl_t] with the given [ibsopen] and [ibsopmaxcnt], other fields 0. *)
Context (ibsopctl : Z → Z → Z).

(** ** Programming the counters *)

(** [pc[i]] for the chosen control registers; PMC 0 without 64-bit emulation. *)
Definition program_pmcs (regs : list (Z * Z)) : M rt (list pmc_reg) :=
  if bool_decide (length regs ≤ NUM_PMCS)%nat
  then mret ((λ r, mkPmc r.1 r.2 (r.1 =? 0)) <$> regs)
  else fail OutOfBounds.

(** [pd[i]] for the chosen data registers; the first one gets the period. *)
Definition program_pmds (regs : list Z) : M rt (list pmd_reg) :=
  let v := wrap64 (- SMPL_PERIOD) in
  if bool_decide (length regs ≤ NUM_PMDS)%nat
  then mret (match regs with
             | [] => []
             | r :: rs => mkPmd r true v v v 0 :: ((λ r, mkPmd r false 0 0 0 0) <$> rs)
             end)
  else fail OutOfBounds.

(** [pthread_mutex_lock(&tid_fd_map_mutex); tid_fd_map[tid] = fd; pthread_mutex_unlock] *)
Definition register_fd (tid fd : Z) : M rt unit :=
  pthread_mutex_lock getenv dlsym tid mem 0 tid_fd_map_mutex ;;
  modify (λ s, add_call (MapFd tid fd) (set_pmu (set_fd_map (<[tid := fd]> (tid_fd_map (pmu s))) (pmu s)) s)) ;;
  pthread_mutex_unlock getenv dlsym tid mem 0 tid_fd_map_mutex ;;
  mret tt.

(** [Create_Hdr_Key(); pthread_setspecific(Tls_Hdr_Key, buf_addr)] *)
Definition set_hdr (tid : Z) (hdr : smpl_hdr) : M rt unit :=
  modify (λ s, add_call (StoreHdr tid) (set_pmu (set_hdr_tls true (<[tid := hdr]> (hdr_tls (pmu s))) (pmu s)) s)).

(** The common text of [pmuprofiler_context_attach_core_pebs] and
    [pmuprofiler_context_attach_nhm_pebs]: failures from the writing of the registers on
    are only printed. *)
Definition attach_pebs (fmt : Z → ctx_format) (tid : Z) (env : attach_env) : M rt unit :=
  let fd := context_fd env in
  need (find_event_ok env) ;;
  emit (PfmCreate fd (fmt (wrap64 (- SMPL_PERIOD)))) ;;
  need (0 <=? fd) ;;
  match mapped env with
  | None => fail (Exited 1)
  | Some hdr =>
      set_hdr tid hdr ;;
      need (1 <=? Z.land (Z.shiftr (hdr_version env) 16) 255) ;;
      (if hdr_entry_size env =? 0 then fail Undefined else mret tt) ;;
      need (dispatch_ok env) ;;
      pc ← program_pmcs (pmcs env);
      pd ← program_pmds (pmds env);
      emit (PfmWritePmcs fd pc) ;;
      emit (PfmWritePmds fd pd) ;;
      emit (PfmLoad fd tid) ;;
      emit (SetAsync fd) ;;
      emit (SetOwner fd tid) ;;
      emit (SetSignal fd) ;;
      register_fd tid fd ;;
      emit (PfmStart fd)
  end.

Definition pmuprofiler_context_attach_core_pebs (tid : Z) (env : attach_env) : M rt (option bool) :=
  attach_pebs CoreFormat tid env ;; mret None.

(** Here [pfm_initialize] is called again; its failure is only printed. *)
Definition pmuprofiler_context_attach_nhm_pebs (tid : Z) (env : attach_env) : M rt (option bool) :=
  attach_pebs NhmFormat tid env ;; mret None.

Definition pmuprofiler_context_attach_amd_ibs (tid : Z) (env : attach_env) : M rt (option bool) :=
  let fd := context_fd env in
  emit (PfmCreate fd NoFormat) ;;
  need (0 <=? fd) ;;
  emit (PfmWritePmcs fd [mkPmc 5 (ibsopctl 1 (Z.shiftr 0xFFFF0 4)) false]) ;; need (write_pmcs_result env) ;;
  emit (PfmWritePmds fd [mkPmd 7 true 0 0 0 (Z.shiftl (Z.shiftl 1 PMD_IBSOP_NUM - 1) 7)]) ;; need (write_pmds_result env) ;;
  emit (PfmLoad fd tid) ;; need (load_ok env) ;;
  emit (SetAsync fd) ;; need (setfl_ok env) ;;
  emit (SetOwner fd tid) ;;
  emit (SetSignal fd) ;; need (setsig_ok env) ;;
  register_fd tid fd ;;
  emit (PfmStart fd) ;;
  mret None.

(** Nothing calls this variant without a sampling buffer.  It creates two contexts;
    [fd2] is the answer for the second one, which is not tested. *)
Definition pmuprofiler_context_attach_experimental (tid fd2 : Z) (env : attach_env) : M rt (option bool) :=
  let fd := context_fd env in
  emit (PfmCreate fd NoFormat) ;;
  need (0 <=? fd) ;;
  need (dispatch_ok env) ;;
  pc ← (if bool_decide (length (pmcs env) ≤ NUM_PMCS)%nat
        then mret ((λ r, mkPmc r.1 r.2 false) <$> pmcs env) else fail OutOfBounds);
  pd ← program_pmds (pmds env);
  emit (PfmCreate fd2 NoFormat) ;;
  emit (PfmWritePmcs fd2 pc) ;; need (write_pmcs_result env) ;;
  emit (PfmWritePmds fd2 pd) ;; need (write_pmds_result env) ;;
  emit (PfmLoad fd2 tid) ;; need (load_ok env) ;;
  emit (SetAsync fd2) ;; need (setfl_ok env) ;;
  emit (SetOwner fd2 tid) ;;
  emit (SetSignal fd2) ;; need (setsig_ok env) ;;
  emit (PfmStart fd2) ;;
  register_fd tid fd2 ;;
  mret (Some true).

Definition pmuprofiler_context_attach (tid : Z) (env : attach_env) : M rt (option bool) :=
  need (initialize_ok env) ;;
  upd_pmu (set_type_ (pmu_type env)) ;;
  match pmu_type env with
  | INTEL_CORE_PMU => pmuprofiler_context_attach_core_pebs tid env
  | INTEL_NHM_PMU => pmuprofiler_context_attach_nhm_pebs tid env
  | AMD64_PMU => pmuprofiler_context_attach_amd_ibs tid env
  | OTHER_PMU => fail AssertFailed
  end.

(** [junk]: what an indeterminate [bool] is taken for. *)
Definition pmu_profiler_perthread_attach (junk : bool) (tid : Z) (env : attach_env) : M rt Z :=
  c ← gets cfg;
  if racez_enable c =? 0 then mret 0 else
  r ← pmuprofiler_context_attach tid env;
  mret (if default junk r then 1 else 0).

(** ** Starting *)

Definition setup_signal_handler (sigaction_ok : bool) : M rt bool :=
  if sigaction_ok then upd_pmu (set_handler true true) ;; mret true else mret false.

Definition disable_signal_handler (sigaction_ok : bool) : M rt (option bool) :=
  if sigaction_ok then upd_pmu (λ p, set_handler (sig_enable p) false p) ;; mret None else mret (Some false).

Record start_env := mkStart {
  s_initialize_ok : bool;
  s_pmu_type : pmu_kind;
  s_hdr : bool;                                (** the allocation of the [BufferData] *)
  s_mem : option (Z * (Z → RacezRecord));      (** the allocation of the entries *)
  s_fd : Z;                                    (** [open] of the log *)
  s_sigaction : bool
}.

Definition pmu_profiler_start (env : start_env) : M rt (option Z) :=
  need (s_initialize_ok env) ;;
  upd_pmu (set_type_ (s_pmu_type env)) ;;
  match s_pmu_type env with
  | OTHER_PMU => mret (Some 0)
  | _ =>
      on_buffer (InitBuffer (s_hdr env) (s_mem env) (s_fd env)) ;;
      p ← gets pmu;
      c_assert (negb (sig_enable p)) ;;
      setup_signal_handler (s_sigaction env) ;;
      mret None
  end.

Definition racez_start (junk : Z) (env : start_env) : M rt Z :=
  once getenv dlsym ;;
  r ← pmu_profiler_start env;
  (if default junk r =? 0 then mret tt
   else
     c ← gets cfg;
     c_assert (racez_enable c =? 0) ;;
     modify (λ s, set_cfg (set_enable 1 (cfg s)) s)) ;;
  mret 0.

(** ** Stopping *)

(** The threads of [tid_fd_map] in its order. *)
Definition fd_list (m : gmap Z Z) : list (Z * Z) := merge_sort tid_le (map_to_list m).

Definition stop_fd (te : Z * Z) : M rt unit :=
  c_assert (negb (te.2 =? 0)) ;; emit (PfmStop te.2).

Definition pmu_profiler_stop (tid : Z) (sigaction_ok : bool) (wr : Z → bool) : M rt Z :=
  pthread_mutex_lock getenv dlsym tid mem 0 tid_fd_map_mutex ;;
  p ← gets pmu;
  for_each (fd_list (tid_fd_map p)) stop_fd ;;
  pthread_mutex_unlock getenv dlsym tid mem 0 tid_fd_map_mutex ;;
  disable_signal_handler sigaction_ok ;;
  on_buffer (StopBuffer wr) ;;
  mret 1.

Definition racez_stop (tid : Z) (sigaction_ok : bool) (wr : Z → bool) : M rt Z :=
  c ← gets cfg;
  c_assert (racez_enable c =? 1) ;;
  modify (λ s, set_cfg (set_enable 0 (cfg s)) s) ;;
  pmu_profiler_stop tid sigaction_ok wr ;;
  mret 0.

(** ** Threads *)

(** The start routine of a new thread; its own result is indeterminate, the result of
    the user's routine is dropped. *)
Definition racez_thread_start_func {A} (junk : bool) (tid : Z) (env : attach_env) (start_func : M rt A) : M rt (option A) :=
  c ← gets cfg;
  when (negb (racez_enable c =? 0)) (pmu_profiler_perthread_attach junk tid env ;; mret tt) ;;
  start_func ;;
  mret None.

(** [block]: the address [malloc] gives for the [START_FUNC]; [r]: the result of the real
    function. *)
Definition pthread_create (tid block r : Z) : M rt Z :=
  once getenv dlsym ;;
  p ← malloc getenv dlsym tid block 16;
  (if p =? 0 then fail NullDeref else mret tt) ;;
  through "pthread_create" (RealCreate tid) ;;
  mret r.
End lifecycle.

(** ** Attaching *)

Section facts.
Context `{HP : Platform}.
Context (getenv : string → option string) (dlsym : string → bool).
Context (dlsym_finds : ∀ f, dlsym f = true).
Context (mem : Z * list Z) (mem_ok : mem.1 ≠ 0) (mem_words : length mem.2 = 10%nat).
Context (mutex : Z).

(** What is recorded for the threads, apart from the mutex of the map while it is held. *)
Definition keeps_recorded (tid : Z) (s s' : rt) : Prop :=
  (∀ t, t ≠ tid → thread_recorded (locksets s') t = thread_recorded (locksets s) t) ∧
  ((size (thread_recorded (locksets s) tid) < 10)%nat → thread_recorded (locksets s') tid = thread_recorded (locksets s) tid).

(** The descriptor was entered in the map; around that only calls of the real functions. *)
Definition maps_fd (tid fd : Z) (l l' : list call) : Prop :=
  ∃ mid1 mid2, l' = l ++ mid1 ++ [MapFd tid fd] ++ mid2 ∧
    Forall (λ c, real_call c = true) mid1 ∧ Forall (λ c, real_call c = true) mid2.

Lemma register_fd_full enable tid fd s :
  ready enable s → tls_wf (locksets s) →
  ∃ s', register_fd getenv dlsym mem mutex tid fd s = Ret tt s' ∧
    pmu s' = set_fd_map (<[tid := fd]> (tid_fd_map (pmu s))) (pmu s) ∧
    cfg s' = cfg s ∧ buffer s' = buffer s ∧ maps_fd tid fd (calls s) (calls s') ∧
    ready enable s' ∧ tls_wf (locksets s') ∧ (enable ≠ 0 → keeps_recorded tid s s').
Proof.
  intros Hr Hwf. unfold register_fd.
  destruct (add_hook getenv dlsym dlsym_finds mem mem_ok mem_words enable tid mutex s Hr Hwf)
    as (s1 & E1 & Hr1 & [Fc Fb Fp Fl] & Hwf1 & Hcase1 & Hoth1).
  rewrite (bind_Ret _ _ _ _ _ E1). erewrite bind_Ret by done.
  set (s2 := add_call _ _).
  destruct (unlock_hook getenv dlsym dlsym_finds mem mem_ok mem_words enable tid mutex s2)
    as (s3 & E3 & Hr3 & [Gc Gb Gp Gl] & Hwf3 & Hcase3 & Hoth3); [by destruct Hr1|done|].
  rewrite (bind_Ret _ _ _ _ _ E3). exists s3. split; [done|].
  rewrite Gp, Gc, Gb; simpl. rewrite Fp, Fc, Fb. do 3 (split; [done|]). split.
  { destruct Fl as (mid1 & F1 & F2), Gl as (mid2 & G1 & G2). exists mid1, mid2. split; [|done].
    rewrite G1. simpl. rewrite F1. by rewrite <- !app_assoc. }
  split; [done|]. split; [done|].
  intros Hen. split.
  - intros t Ht. transitivity (thread_recorded (locksets s1) t); apply thread_recorded_other; [by apply Hoth3|by apply Hoth1].
  - intros Hsz. destruct Hcase3 as [->|(_ & _ & _ & ? & ?)]; [|done].
    destruct Hcase1 as [Hc|(Hc & _)]; [|lia]. simpl. unfold seen_step, all_seen in *. rewrite Hc.
    rewrite (proj2 (Z.eqb_neq _ _) Hen). simpl. multiset_solver.
Qed.

Lemma register_fd_ok enable tid fd s :
  ready enable s → tls_wf (locksets s) →
  ∃ s', register_fd getenv dlsym mem mutex tid fd s = Ret tt s' ∧
    pmu s' = set_fd_map (<[tid := fd]> (tid_fd_map (pmu s))) (pmu s) ∧
    cfg s' = cfg s ∧ buffer s' = buffer s ∧ maps_fd tid fd (calls s) (calls s').
Proof. intros Hr Hwf. destruct (register_fd_full enable tid fd s Hr Hwf) as (s' & ? & ? & ? & ? & ? & _). eauto 10. Qed.

(** The environment of a thread that can be monitored. *)
Record attachable (env : attach_env) (hdr : smpl_hdr) : Prop := {
  ok_initialize : initialize_ok env = true;
  ok_type : pmu_type env = INTEL_CORE_PMU ∨ pmu_type env = INTEL_NHM_PMU;
  ok_event : find_event_ok env = true;
  ok_fd : 0 ≤ context_fd env;
  ok_mapped : mapped env = Some hdr;
  ok_version : 1 ≤ Z.land (Z.shiftr (hdr_version env) 16) 255;
  ok_entry : hdr_entry_size env ≠ 0;
  ok_dispatch : dispatch_ok env = true;
  ok_pmcs : (length (pmcs env) ≤ NUM_PMCS)%nat;
  ok_pmds : (length (pmds env) ≤ NUM_PMDS)%nat
}.

(** The registers as they are programmed. *)
Definition pmc_regs (env : attach_env) : list pmc_reg := (λ r, mkPmc r.1 r.2 (r.1 =? 0)) <$> pmcs env.
Definition pmd_regs (env : attach_env) : list pmd_reg :=
  let v := 2 ^ 64 - SMPL_PERIOD in
  match pmds env with
  | [] => []
  | r :: rs => mkPmd r true v v v 0 :: ((λ r, mkPmd r false 0 0 0 0) <$> rs)
  end.

(** The sampling buffer each Intel processor needs. *)
Definition pebs_format (t : pmu_kind) : ctx_format :=
  let v := 2 ^ 64 - SMPL_PERIOD in
  match t with INTEL_CORE_PMU => CoreFormat v | INTEL_NHM_PMU => NhmFormat v | _ => NoFormat end.

(** The calls that set a counter up on an Intel processor, and on an AMD one. *)
Definition pebs_setup (fmt : ctx_format) (tid : Z) (env : attach_env) : list call :=
  let fd := context_fd env in
  [PfmCreate fd fmt; StoreHdr tid; PfmWritePmcs fd (pmc_regs env); PfmWritePmds fd (pmd_regs env);
   PfmLoad fd tid; SetAsync fd; SetOwner fd tid; SetSignal fd].
Definition ibs_setup (ibsopctl : Z → Z → Z) (tid : Z) (env : attach_env) : list call :=
  let fd := context_fd env in
  [PfmCreate fd NoFormat; PfmWritePmcs fd [mkPmc 5 (ibsopctl 1 65535) false];
   PfmWritePmds fd [mkPmd 7 true 0 0 0 (127 * 2 ^ 7)]; PfmLoad fd tid; SetAsync fd; SetOwner fd tid; SetSignal fd].

Lemma attach_pebs_ok fmt enable tid env hdr s :
  attachable env hdr → ready enable s → tls_wf (locksets s) →
  let fd := context_fd env in
  ∃ s' mid1 mid2, attach_pebs getenv dlsym mem mutex fmt tid env s = Ret tt s' ∧
    calls s' = calls s ++ pebs_setup (fmt (2 ^ 64 - SMPL_PERIOD)) tid env ++ mid1 ++ [MapFd tid fd] ++ mid2 ++ [PfmStart fd] ∧
    Forall (λ c, real_call c = true) (mid1 ++ mid2) ∧ tid_fd_map (pmu s') !! tid = Some fd ∧
    hdr_key_once (pmu s') = true ∧ hdr_tls (pmu s') !! tid = Some hdr ∧
    cfg s' = cfg s ∧ buffer s' = buffer s.
Proof.
  intros [_ _ Hev Hfd Hmap Hver Hent Hdis Hpc Hpd] Hr Hwf fd.
  unfold attach_pebs. rewrite Hev, Hmap, Hdis. fold fd. apply Z.leb_le in Hfd, Hver. apply Z.eqb_neq in Hent.
  rewrite Hver, Hent. subst fd. rewrite Hfd. set (fd := context_fd env).
  unfold program_pmcs, program_pmds. rewrite !bool_decide_eq_true_2 by done.
  repeat (erewrite bind_Ret by reflexivity).
  match goal with |- context [(register_fd _ _ _ _ _ _ ≫= _) ?t] => set (s1 := t) end.
  destruct (register_fd_ok enable tid fd s1) as (s2 & E & Hp & Hc & Hb & mid1 & mid2 & Hl & Hmid1 & Hmid2); [by destruct Hr|done|].
  rewrite (bind_Ret _ _ _ _ _ E). eexists _, mid1, mid2. split; [done|].
  simpl. rewrite Hl, Hp, Hc, Hb; simpl. rewrite !lookup_insert_eq.
  split; [|by rewrite Forall_app]. rewrite <- !app_assoc. reflexivity.
Qed.

Context (ibsopctl : Z → Z → Z).

(** An environment in which attaching on an AMD processor succeeds. *)
Record amd_attachable (env : attach_env) : Prop := {
  aa_initialize : initialize_ok env = true;
  aa_type : pmu_type env = AMD64_PMU;
  aa_fd : 0 < context_fd env;
  aa_pmcs : write_pmcs_result env = true;
  aa_pmds : write_pmds_result env = true;
  aa_load : load_ok env = true;
  aa_async : setfl_ok env = true;
  aa_signal : setsig_ok env = true
}.

Lemma attach_amd_ok enable tid env s :
  amd_attachable env → ready enable s → tls_wf (locksets s) →
  ∃ s', pmuprofiler_context_attach getenv dlsym mem mutex ibsopctl tid env s = Ret None s' ∧
    pmu s' = set_fd_map (<[tid := context_fd env]> (tid_fd_map (pmu s))) (set_type_ AMD64_PMU (pmu s)) ∧
    cfg s' = cfg s ∧ buffer s' = buffer s ∧ ready enable s' ∧ tls_wf (locksets s') ∧
    (enable ≠ 0 → keeps_recorded tid s s') ∧
    ∃ mid1 mid2, calls s' = calls s ++ ibs_setup ibsopctl tid env ++ mid1 ++ [MapFd tid (context_fd env)] ++ mid2 ++
                            [PfmStart (context_fd env)] ∧
      Forall (λ c, real_call c = true) (mid1 ++ mid2).
Proof.
  intros [H1 H2 H3 H4 H5 H6 H7 H8] Hr Hwf. unfold pmuprofiler_context_attach, pmuprofiler_context_attach_amd_ibs.
  rewrite H1, H2, H4, H5, H6, H7, H8, (proj2 (Z.leb_le 0 _)) by lia. repeat (erewrite bind_Ret by reflexivity).
  match goal with |- context [(register_fd _ _ _ _ _ _ ≫= _) ?t] => set (s1 := t) end.
  destruct (register_fd_full enable tid (context_fd env) s1) as (s2 & E & Hp & Hc & Hb & (mid1 & mid2 & Hl & Hmid1 & Hmid2) & Hr2 & Hwf2 & Hk); [by destruct Hr|done|].
  rewrite (bind_Ret _ _ _ _ _ E). eexists. split; [done|]. simpl. rewrite Hp, Hc, Hb. do 3 (split; [done|]).
  split; [by destruct Hr2|]. split; [done|]. split; [done|]. exists mid1, mid2. rewrite Forall_app. split; [|done].
  rewrite Hl. simpl. rewrite <- !app_assoc. reflexivity.
Qed.

(** The experimental variant: the counter runs before its descriptor is registered, and the
    descriptor of the first context is used for nothing. *)
Lemma attach_experimental_ok enable tid fd2 env s :
  0 ≤ context_fd env → dispatch_ok env = true → (length (pmcs env) ≤ NUM_PMCS)%nat → (length (pmds env) ≤ NUM_PMDS)%nat →
  write_pmcs_result env = true → write_pmds_result env = true → load_ok env = true → setfl_ok env = true → setsig_ok env = true →
  ready enable s → tls_wf (locksets s) →
  ∃ s' mid1 mid2, pmuprofiler_context_attach_experimental getenv dlsym mem mutex tid fd2 env s = Ret (Some true) s' ∧
    calls s' = calls s ++ [PfmCreate (context_fd env) NoFormat; PfmCreate fd2 NoFormat;
                           PfmWritePmcs fd2 ((λ r, mkPmc r.1 r.2 false) <$> pmcs env); PfmWritePmds fd2 (pmd_regs env);
                           PfmLoad fd2 tid; SetAsync fd2; SetOwner fd2 tid; SetSignal fd2; PfmStart fd2] ++
                          mid1 ++ [MapFd tid fd2] ++ mid2 ∧
    Forall (λ c, real_call c = true) (mid1 ++ mid2) ∧ tid_fd_map (pmu s') = <[tid := fd2]> (tid_fd_map (pmu s)).
Proof.
  intros Hfd Hdis Hpc Hpd H1 H2 H3 H4 H5 Hr Hwf. apply Z.leb_le in Hfd.
  unfold pmuprofiler_context_attach_experimental, program_pmds. rewrite Hfd, Hdis, H1, H2, H3, H4, H5, !bool_decide_eq_true_2 by done.
  repeat (erewrite bind_Ret by reflexivity).
  match goal with |- context [(register_fd _ _ _ _ _ _ ≫= _) ?t] => set (s1 := t) end.
  destruct (register_fd_ok enable tid fd2 s1) as (s2 & E & Hp & _ & _ & mid1 & mid2 & Hl & Hmid1 & Hmid2); [by destruct Hr|done|].
  rewrite (bind_Ret _ _ _ _ _ E). exists s2, mid1, mid2. split; [done|]. rewrite Hl, Hp; simpl.
  split; [|by rewrite Forall_app]. rewrite <- !app_assoc. reflexivity.
Qed.
End facts.

(** ** What the signal handler leaves alone *)

Definition observed (s : rt) := (cfg s, initializer s, resolved s, locksets s, pmu s).

Definition keeps {A} (m : M rt A) : Prop := ∀ s a s', m s = Ret a s' → observed s' = observed s.

Lemma keeps_bind {A B} (m : M rt A) (k : A → M rt B) : keeps m → (∀ a, keeps (k a)) → keeps (m ≫= k).
Proof. intros Hm Hk s b s' (a & s1 & E1 & E2)%bind_Ret_inv. by rewrite (Hk _ _ _ _ E2), (Hm _ _ _ E1). Qed.

Lemma keeps_ret {A} (a : A) : keeps (mret a).
Proof. intros s b s'. by injection 1 as _ <-. Qed.
Lemma keeps_fail {A} f : keeps (fail (A := A) f).
Proof. by intros s b s'. Qed.
Lemma keeps_gets {A} (f : rt → A) : keeps (gets f).
Proof. intros s b s'. by injection 1 as _ <-. Qed.
Lemma keeps_get : keeps get.
Proof. intros s b s'. by injection 1 as _ <-. Qed.
Lemma keeps_emit c : keeps (emit c).
Proof. intros s b s'. by injection 1 as _ <-. Qed.
Lemma keeps_on_buffer {A} (m : M buf_state A) : keeps (on_buffer m).
Proof. intros s a s'. unfold on_buffer, zoom. destruct (m (buffer s)); [by injection 1 as _ <-|done]. Qed.
Lemma keeps_when b m : keeps m → keeps (when b m).
Proof. unfold when. destruct b; [done|]. intros _. apply keeps_ret. Qed.
Lemma keeps_if {A} (b : bool) (m1 m2 : M rt A) : keeps m1 → keeps m2 → keeps (if b then m1 else m2).
Proof. by destruct b. Qed.
Lemma keeps_arr_get {A} (l : list A) i : keeps (arr_get l i).
Proof. unfold arr_get. apply keeps_if; [destruct (l !! _); [apply keeps_ret|apply keeps_fail]|apply keeps_fail]. Qed.
Lemma keeps_arr_copy {A} n (l1 l2 : list A) : keeps (arr_copy n l1 l2).
Proof. unfold arr_copy. apply keeps_if; [apply keeps_ret|apply keeps_fail]. Qed.
Lemma keeps_lockset tid : keeps (GetPerThreadLockset tid).
Proof. apply keeps_gets. Qed.

#[export] Hint Resolve keeps_bind keeps_ret keeps_fail keeps_gets keeps_get keeps_emit keeps_on_buffer
  keeps_when keeps_if keeps_arr_get keeps_arr_copy keeps_lockset : racez.

Lemma keeps_copy_lockset ls r : keeps (copy_lockset ls r).
Proof. destruct ls; simpl; auto with racez. Qed.
#[export] Hint Resolve keeps_copy_lockset : racez.

Section keeps_handler.
Context `{HP : Platform} (ld st : Z → bool).

Lemma keeps_log r : keeps (log r).
Proof. unfold log. auto with racez. Qed.
Hint Resolve keeps_log : racez.

Lemma keeps_pebs r tid sm : keeps (signal_handler_pebs r tid sm).
Proof.
  unfold signal_handler_pebs, GetPerThreadHdr. apply keeps_bind; [apply keeps_gets|]. intros [hdr|]; [|apply keeps_ret].
  unfold process_smpl_buf_pebs. apply keeps_if; [apply keeps_ret|].
  generalize (Z.to_nat (hdr_count hdr)) as n. generalize 0 as ent. intros ent n. revert ent.
  induction n as [|n IH]; intros ent; simpl; [apply keeps_ret|].
  apply keeps_bind; [|intros _; apply IH]. unfold write_pebs_info. auto 20 with racez.
Qed.

Lemma keeps_ibs r tid sm : keeps (signal_handler_amd_ibs ld st r tid sm).
Proof.
  unfold signal_handler_amd_ibs, write_ibs_info.
  assert (Hrd : ∀ reg, keeps (read_pmd sm reg)).
  { intros reg. unfold read_pmd. destruct (read_pmds sm reg); auto with racez. }
  auto 20 with racez.
Qed.

(** A sample changes the profiler's counters and nothing else but the buffer. *)
Lemma handler_observed tid sm s s' :
  is_int (num_stat (pmu s) + 1) → signal_handler ld st tid sm s = Ret tt s' →
  observed s' = observed (noted_sample tid s).
Proof.
  intros Hint. destruct (handler_prefix HP ld st tid sm s Hint) as (r & _ & _ & ->).
  revert s'. match goal with |- ∀ s', ?m (noted_sample tid s) = _ → _ => assert (Hk : keeps m) end.
  { apply keeps_bind; [|intros _; apply keeps_emit]. pose proof (keeps_pebs r tid sm). pose proof (keeps_ibs r tid sm).
    destruct (type (pmu s)); auto 20 with racez. }
  intros s' E. by apply (Hk _ _ _ E).
Qed.
End keeps_handler.

(** ** The properties *)

(** C31: attaching a thread, on each of the three processors.  When the calls of libpfm and
    of the kernel succeed, the context is created, its registers written with the sampling
    period, loaded on the calling thread, and its signal directed to that thread; on Intel
    the thread's sampling buffer is stored right after the context is created; then the
    thread's descriptor is entered in the map, and the counter is started after all this,
    so that the first sample finds both.  The only other calls are those of the mutex
    functions and the allocator around the entry in the map.  The attach function has no
    return statement: its result is indeterminate. *)
Theorem attach_registers_before_start (HP : Platform) getenv dlsym mem mutex ibs enable tid env hdr s :
  (∀ f, dlsym f = true) → mem.1 ≠ 0 → length mem.2 = 10%nat →
  attachable env hdr ∨ amd_attachable env → ready enable s → tls_wf (locksets s) →
  let fd := context_fd env in
  let setup := match pmu_type env with AMD64_PMU => ibs_setup ibs tid env | t => pebs_setup (pebs_format t) tid env end in
  ∃ s' mid1 mid2, pmuprofiler_context_attach getenv dlsym mem mutex ibs tid env s = Ret None s' ∧
    calls s' = calls s ++ setup ++ mid1 ++ [MapFd tid fd] ++ mid2 ++ [PfmStart fd] ∧
    Forall (λ c, real_call c = true) (mid1 ++ mid2) ∧ tid_fd_map (pmu s') !! tid = Some fd ∧
    (pmu_type env ≠ AMD64_PMU → hdr_key_once (pmu s') = true ∧ hdr_tls (pmu s') !! tid = Some hdr).
Proof.
  intros Hd Hm Hw [Hat|Hat] Hr Hwf fd setup.
  - unfold pmuprofiler_context_attach. rewrite (ok_initialize _ _ Hat).
    do 2 erewrite bind_Ret by reflexivity. set (s1 := set_pmu _ s).
    pose proof (λ fmt, attach_pebs_ok getenv dlsym Hd mem Hm Hw mutex fmt enable tid env hdr s1 Hat) as Hok.
    unfold setup. destruct (ok_type _ _ Hat) as [-> | ->].
    + destruct (Hok CoreFormat) as (s' & mid1 & mid2 & E & Hc & Hrest); [by destruct Hr|done|].
      exists s', mid1, mid2. unfold pmuprofiler_context_attach_core_pebs. rewrite (bind_Ret _ _ _ _ _ E). naive_solver.
    + destruct (Hok NhmFormat) as (s' & mid1 & mid2 & E & Hc & Hrest); [by destruct Hr|done|].
      exists s', mid1, mid2. unfold pmuprofiler_context_attach_nhm_pebs. rewrite (bind_Ret _ _ _ _ _ E). naive_solver.
  - destruct (attach_amd_ok getenv dlsym Hd mem Hm Hw mutex ibs enable tid env s Hat Hr Hwf)
      as (s' & E & Hp & _ & _ & _ & _ & _ & mid1 & mid2 & Hc & Hmid).
    exists s', mid1, mid2. unfold setup. rewrite (aa_type _ Hat). split; [done|]. split; [done|]. split; [done|].
    rewrite Hp. simpl. by rewrite lookup_insert_eq.
Qed.

Definition demo_attach : attach_env :=
  mkAttach true INTEL_CORE_PMU true 5 (Some demo_hdr) 65536 144 true [(0, 12)] [0] true true true true true.

Lemma attach_registers_before_start_witness :
  ∃ s' mid1 mid2, pmuprofiler_context_attach (HP := demo_platform) (λ _, None) (λ _, true) demo_mem 9000 (λ _ _, 0) 7 demo_attach (demo_ready 1) = Ret None s' ∧
    calls s' = [] ++ pebs_setup (CoreFormat (2 ^ 64 - SMPL_PERIOD)) 7 demo_attach ++ mid1 ++ [MapFd 7 5] ++ mid2 ++ [PfmStart 5] ∧
    Forall (λ c, real_call c = true) (mid1 ++ mid2) ∧ tid_fd_map (pmu s') !! 7 = Some 5 ∧
    (INTEL_CORE_PMU ≠ AMD64_PMU → hdr_key_once (pmu s') = true ∧ hdr_tls (pmu s') !! 7 = Some demo_hdr).
Proof.
  apply (attach_registers_before_start demo_platform (λ _, None) (λ _, true) demo_mem 9000 (λ _ _, 0) 1 7 demo_attach demo_hdr (demo_ready 1));
    [done|done|done| |apply demo_ready_ok|apply tls_wf_empty].
  left. split; try reflexivity; try (by left); vm_compute; first [discriminate|lia].
Defined.

(** ** Sessions *)

(** A start that finds a supported processor and gets its memory and its log file. *)
Record startable (env : start_env) (addr : Z) (junk : Z → RacezRecord) : Prop := {
  st_initialize : s_initialize_ok env = true;
  st_type : s_pmu_type env ≠ OTHER_PMU;
  st_hdr : s_hdr env = true;
  st_mem : s_mem env = Some (addr, junk);
  st_fd : 0 ≤ s_fd env;
  st_sigaction : s_sigaction env = true
}.

(** The state after a start. *)
Definition started (env : start_env) (addr : Z) (junk : Z → RacezRecord) (s : rt) : rt :=
  set_pmu (set_handler true true (set_type_ (s_pmu_type env) (pmu s)))
    (set_buf (mkBS (Some (fresh_buffer addr junk (s_fd env))) (<[s_fd env := []]> (files (buffer s)))) s).

Section sessions.
Context `{HP : Platform}.
Context (getenv : string → option string) (dlsym : string → bool).

Lemma pmu_profiler_start_ok env addr junk s :
  startable env addr junk → global_buffer (buffer s) = None → sig_enable (pmu s) = false →
  pmu_profiler_start env s = Ret None (started env addr junk s).
Proof.
  intros [Hi Ht Hh Hm Hf Hs] Hb Hsig. unfold pmu_profiler_start. rewrite Hi, Hh, Hm, Hs.
  do 2 erewrite bind_Ret by reflexivity.
  set (s1 := set_pmu _ s). assert (E : on_buffer (InitBuffer true (Some (addr, junk)) (s_fd env)) s1 =
    Ret 1 (set_buf (mkBS (Some (fresh_buffer addr junk (s_fd env))) (<[s_fd env := []]> (files (buffer s)))) s1)).
  { unfold on_buffer, zoom. by rewrite (InitBuffer_ok addr junk (s_fd env) (buffer s1)). }
  destruct (s_pmu_type env) eqn:Et; try done; rewrite (bind_Ret _ _ _ _ _ E); erewrite bind_Ret by reflexivity;
    simpl; rewrite Hsig; unfold started; by rewrite Et.
Qed.

Lemma zoom_for_each {A} (l : list A) (body : A → M buf_state unit) s :
  for_each l (λ a, on_buffer (body a)) s =
  match for_each l body (buffer s) with
  | Ret x t => Ret x (set_buf t s)
  | Stop f t => Stop f (set_buf t s)
  end.
Proof.
  revert s. induction l as [|a l IH]; intros s; simpl; [by destruct s|].
  unfold mbind, M_bind. unfold on_buffer at 1, zoom at 1. destruct (body a (buffer s)) as [[] t|]; [|done].
  rewrite IH; simpl. by destruct (for_each l body t).
Qed.

Lemma for_each_log_on rs w s :
  racez_write_record (cfg s) = w → for_each rs log s = for_each rs (λ r, on_buffer (WriteRecord w r)) s.
Proof.
  revert s. induction rs as [|r rs IH]; intros s Hw; [done|].
  cbn [for_each]. assert (E : log r s = on_buffer (WriteRecord w r) s) by (by rewrite <- Hw).
  unfold mbind, M_bind. rewrite E. destruct (on_buffer (WriteRecord w r) s) as [[] s1|] eqn:E1; [|done].
  apply IH. unfold on_buffer, zoom in E1. destruct (WriteRecord w r (buffer s)); [|done]. by injection E1 as _ <-.
Qed.

Lemma for_each_log rs s t :
  for_each rs (WriteRecord (racez_write_record (cfg s))) (buffer s) = Ret tt t →
  for_each rs log s = Ret tt (set_buf t s).
Proof. intros E. by rewrite (for_each_log_on rs _ s eq_refl), zoom_for_each, E. Qed.
End sessions.

Section stopping.
Context `{HP : Platform}.
Context (getenv : string → option string) (dlsym : string → bool).
Context (dlsym_finds : ∀ f, dlsym f = true).
Context (mem : Z * list Z) (mem_ok : mem.1 ≠ 0) (mem_words : length mem.2 = 10%nat).
Context (mutex : Z).

Lemma stop_fds_ok l s :
  Forall (λ te, te.2 ≠ 0) l → for_each l stop_fd s = Ret tt (foldl (λ s te, add_call (PfmStop te.2) s) s l).
Proof.
  intros Hl. revert s. induction Hl as [|te l Hte _ IH]; intros s; [done|]. simpl.
  apply Z.eqb_neq in Hte. unfold mbind at 1, M_bind at 1, stop_fd at 1. rewrite Hte; simpl. apply IH.
Qed.

Lemma foldl_calls_keeps {A} (f : A → call) l s :
  let s' := foldl (λ s a, add_call (f a) s) s l in observed s' = observed s ∧ buffer s' = buffer s.
Proof. revert s. induction l as [|a l IH]; intros s; [done|]. apply (IH (add_call (f a) s)). Qed.

(** The [fd]s are stopped in some order; with a zero among them the assertion fails. *)
Lemma stop_fds_zero l s : (∃ te, te ∈ l ∧ te.2 = 0) → ∃ s', for_each l stop_fd s = Stop AssertFailed s'.
Proof.
  revert s. induction l as [|[t f] l IH]; intros s (te & Hin & Hz); [set_solver|]. simpl.
  unfold mbind at 1, M_bind at 1, stop_fd at 1. simpl. destruct (Z.eqb_spec f 0) as [->|Hne]; simpl; [by eexists|].
  apply IH. exists te. split; [|done]. apply elem_of_cons in Hin as [->|Hin]; [done|done].
Qed.

Lemma elem_of_fd_list m te : te ∈ fd_list m ↔ m !! te.1 = Some te.2.
Proof. unfold fd_list. rewrite merge_sort_Permutation. destruct te. apply elem_of_map_to_list. Qed.

Lemma pmu_profiler_stop_zero tid t ok wr s :
  ready 0 s → tls_wf (locksets s) → tid_fd_map (pmu s) !! t = Some 0 →
  ∃ s', pmu_profiler_stop getenv dlsym mem mutex tid ok wr s = Stop AssertFailed s'.
Proof.
  intros Hr Hwf Hz. unfold pmu_profiler_stop.
  destruct (add_hook getenv dlsym dlsym_finds mem mem_ok mem_words 0 tid mutex s Hr Hwf)
    as (s1 & E1 & _ & [_ _ Fp _] & _). rewrite (bind_Ret _ _ _ _ _ E1). erewrite bind_Ret by reflexivity.
  destruct (stop_fds_zero (fd_list (tid_fd_map (pmu s1))) s1) as [s2 E2].
  { exists (t, 0). split; [|done]. apply elem_of_fd_list. by rewrite Fp. }
  exists s2. by rewrite (bind_Stop _ _ _ _ _ E2).
Qed.

Lemma pmu_profiler_stop_ok tid wr s n t :
  ready 0 s → tls_wf (locksets s) → (∀ t, tid_fd_map (pmu s) !! t ≠ Some 0) →
  StopBuffer wr (buffer s) = Ret n t →
  ∃ s', pmu_profiler_stop getenv dlsym mem mutex tid true wr s = Ret 1 s' ∧
    buffer s' = t ∧ cfg s' = cfg s ∧ handler_on (pmu s') = false ∧ sig_enable (pmu s') = sig_enable (pmu s).
Proof.
  intros Hr Hwf Hz Hstop. unfold pmu_profiler_stop.
  destruct (add_hook getenv dlsym dlsym_finds mem mem_ok mem_words 0 tid mutex s Hr Hwf)
    as (s1 & E1 & Hr1 & [Fc Fb Fp _] & Hwf1 & _). rewrite (bind_Ret _ _ _ _ _ E1). erewrite bind_Ret by reflexivity.
  assert (Hfds : Forall (λ te, te.2 ≠ 0) (fd_list (tid_fd_map (pmu s1)))).
  { apply Forall_forall. intros [u f] Hin E. simpl in E. apply elem_of_fd_list in Hin. simpl in Hin.
    apply (Hz u). by rewrite <- Fp, Hin, E. }
  rewrite (bind_Ret _ _ _ _ _ (stop_fds_ok _ s1 Hfds)). set (s2 := foldl _ s1 _).
  destruct (foldl_calls_keeps (λ te : Z * Z, PfmStop te.2) (fd_list (tid_fd_map (pmu s1))) s1) as [Ho Hb].
  fold s2 in Ho, Hb. injection Ho as Oc Oi Or Ol Op.
  destruct (unlock_hook getenv dlsym dlsym_finds mem mem_ok mem_words 0 tid mutex s2)
    as (s3 & E3 & _ & [Gc Gb Gp _] & _).
  { destruct Hr1 as [H1 H2 H3 H4 H5 H6]. split; by rewrite ?Oi, ?Oc, ?Or. }
  { by rewrite Ol. }
  rewrite (bind_Ret _ _ _ _ _ E3). erewrite bind_Ret by reflexivity.
  set (s4 := set_pmu _ s3). erewrite (bind_Ret _ _ _ n (set_buf t s4)).
  2: { unfold on_buffer, zoom. simpl. by rewrite Gb, Hb, Fb, Hstop. }
  eexists. split; [done|]. simpl. rewrite Gc, Oc, Fc, Gp, Op, Fp. done.
Qed.
End stopping.

(** What a session starts from: the library initialised, nothing running. *)
Record idle (s : rt) : Prop := {
  id_ready : ready 0 s;
  id_wf : tls_wf (locksets s);
  id_buffer : global_buffer (buffer s) = None;
  id_signal : sig_enable (pmu s) = false;
  id_fds : ∀ t, tid_fd_map (pmu s) !! t ≠ Some 0;
  id_write : racez_write_record (cfg s) ≠ 0
}.

Lemma racez_start_ok getenv dlsym junk env addr jk s :
  startable env addr jk → idle s → junk ≠ 0 →
  racez_start getenv dlsym junk env s =
    Ret 0 (set_cfg (set_enable 1 (cfg s)) (started env addr jk s)).
Proof.
  intros Hst [Hr _ Hb Hsig _ _] Hj. unfold racez_start.
  rewrite (bind_Ret _ _ _ _ _ (once_ready getenv dlsym 0 s Hr)).
  rewrite (bind_Ret _ _ _ _ _ (pmu_profiler_start_ok env addr jk s Hst Hb Hsig)). simpl.
  rewrite (proj2 (Z.eqb_neq _ _) Hj). unfold gets, mbind, M_bind. simpl. by rewrite (rd_enable _ _ Hr).
Qed.

(** With a zero result the buffer is there and the handler installed, but sampling is not
    enabled. *)
Lemma racez_start_zero getenv dlsym env addr jk s :
  startable env addr jk → idle s → racez_start getenv dlsym 0 env s = Ret 0 (started env addr jk s).
Proof.
  intros Hst [Hr _ Hb Hsig _ _]. unfold racez_start. rewrite (bind_Ret _ _ _ _ _ (once_ready getenv dlsym 0 s Hr)).
  by rewrite (bind_Ret _ _ _ _ _ (pmu_profiler_start_ok env addr jk s Hst Hb Hsig)).
Qed.

(** C11: a whole session, from an idle library with the writing of records switched on.
    Between [racez_start], which gets its memory and its log file, and [racez_stop] any
    number of records that fits the buffer is logged.  [pmu_profiler_start] falls off its
    end; [junk] is the value [racez_start] finds.  If that is not 0, the log file holds
    afterwards what the memory of the first entry held, which is never filled, and behind
    it the records in order, numbered from 1; the handler is off, the buffer gone and
    sampling disabled.  If it is 0, sampling is never enabled and [racez_stop] stops at its
    assertion, with nothing written to the file. *)
Theorem session_roundtrip (HP : Platform) getenv dlsym mem mutex tid junk env addr jk rs s :
  (∀ f, dlsym f = true) → mem.1 ≠ 0 → length mem.2 = 10%nat →
  startable env addr jk → idle s → 0 ≤ addr < 2 ^ 47 →
  (∀ i, record_wf (jk i)) → Forall record_wf rs →
  Forall (λ r, copies_overrun r = false) rs → Z.of_nat (length rs) < BUFFERSIZE →
  let session := racez_start getenv dlsym junk env ;; for_each rs log ;;
                 racez_stop getenv dlsym mem mutex tid true (λ _, true) in
  (junk ≠ 0 → ∃ s' entries, session s = Ret 0 s' ∧
    files (buffer s') !! s_fd env = Some (jk 0 :: entries) ∧ length entries = length rs ∧
    (∀ i r, rs !! i = Some r → ∃ e, entries !! i = Some e ∧ record_no_ e = Z.of_nat i + 1 ∧ same_event r e) ∧
    racez_enable (cfg s') = 0 ∧ handler_on (pmu s') = false ∧ global_buffer (buffer s') = None) ∧
  (junk = 0 → ∃ s', session s = Stop AssertFailed s' ∧ files (buffer s') !! s_fd env = Some []).
Proof.
  intros Hd Hm Hw Hst Hidle Haddr Hjk Hwf Hok Hfit session. split; intros Hj; unfold session.
  - rewrite (bind_Ret _ _ _ _ _ (racez_start_ok getenv dlsym junk env addr jk s Hst Hidle Hj)).
    destruct Hidle as [[R1 R2 R3 R4 R5 R6] Htls _ _ Hfds Hwr]. set (s1 := set_cfg _ _).
    destruct (write_then_stop (racez_write_record (cfg s1)) addr jk (s_fd env) rs (buffer s1))
      as (t1 & t2 & entries & E1 & E2 & _ & Hnone & Hfile & Hlen & Hev); try done; [simpl; by rewrite lookup_insert_eq|].
    rewrite (bind_Ret _ _ _ _ _ (for_each_log rs s1 t1 E1)). unfold racez_stop.
    do 3 erewrite bind_Ret by reflexivity. set (s2 := set_cfg _ _).
    destruct (pmu_profiler_stop_ok getenv dlsym Hd mem Hm Hw mutex tid (λ _, true) s2 (Z.of_nat (length rs) + 1) t2)
      as (s3 & E3 & Hbuf & Hcfg & Hoff & _); [by split|done|done|done|].
    rewrite (bind_Ret _ _ _ _ _ E3). exists s3, entries. rewrite Hbuf, Hcfg. done.
  - subst junk. pose proof (id_write _ Hidle) as Hwr.
    rewrite (bind_Ret _ _ _ _ _ (racez_start_zero getenv dlsym env addr jk s Hst Hidle)). set (s1 := started _ _ _ _).
    destruct (write_then_stop (racez_write_record (cfg s1)) addr jk (s_fd env) rs (buffer s1))
      as (t1 & t2 & entries & E1 & _ & Hfiles & _); try done; [simpl; by rewrite lookup_insert_eq|].
    rewrite (bind_Ret _ _ _ _ _ (for_each_log rs s1 t1 E1)). exists (set_buf t1 s1). split.
    + unfold racez_stop. erewrite bind_Ret by reflexivity. simpl. by rewrite (rd_enable _ _ (id_ready _ Hidle)).
    + simpl. rewrite Hfiles. simpl. by rewrite lookup_insert_eq.
Qed.

Definition demo_start : start_env :=
  mkStart true INTEL_NHM_PMU true (Some (65536, λ _, zero_record)) 3 true.

Definition demo_idle : rt :=
  mkRt (mkCfg 0 1 0 0 0 0 0 0 1) true {["pthread_mutex_lock"; "pthread_create"]} (mkTls false ∅) (mkBS None ∅) pmu_init [].

Lemma demo_startable : startable demo_start 65536 (λ _, zero_record).
Proof. by split. Qed.

Lemma demo_idle_ok : idle demo_idle.
Proof.
  split; [split; try done; simpl; set_solver|apply tls_wf_empty|done|done|done|done].
Qed.

Lemma session_roundtrip_witness :
  ∃ s' entries,
    (racez_start (λ _, None) (λ _, true) 1 demo_start ;;
     for_each [demo_access; demo_access] (log (HP := demo_platform)) ;;
     racez_stop (HP := demo_platform) (λ _, None) (λ _, true) demo_mem 9000 7 true (λ _, true)) demo_idle = Ret 0 s' ∧
    files (buffer s') !! 3 = Some (zero_record :: entries) ∧ length entries = 2%nat ∧
    (∀ i r, [demo_access; demo_access] !! i = Some r →
       ∃ e, entries !! i = Some e ∧ record_no_ e = Z.of_nat i + 1 ∧ same_event r e) ∧
    racez_enable (cfg s') = 0 ∧ handler_on (pmu s') = false ∧ global_buffer (buffer s') = None.
Proof.
  apply (session_roundtrip demo_platform (λ _, None) (λ _, true) demo_mem 9000 7 1 demo_start 65536 (λ _, zero_record)
           [demo_access; demo_access] demo_idle);
    [done|done|done|apply demo_startable|apply demo_idle_ok|lia|intros _; apply zero_record_wf
    |repeat constructor; apply demo_access_wf|repeat constructor|vm_compute; reflexivity|lia].
Defined.

(** A second session is impossible: [sig_enable] is set by the first start and never
    cleared, so the next [racez_start] stops at the assertion in [pmu_profiler_start]. *)
Theorem restart_asserts getenv dlsym junk env addr jk enable s :
  startable env addr jk → ready enable s → global_buffer (buffer s) = None → sig_enable (pmu s) = true →
  ∃ s', racez_start getenv dlsym junk env s = Stop AssertFailed s'.
Proof.
  intros [Hi Ht Hh Hm Hf Hs] Hr Hb Hsig. unfold racez_start.
  rewrite (bind_Ret _ _ _ _ _ (once_ready getenv dlsym enable s Hr)).
  unfold pmu_profiler_start. rewrite Hi, Hh, Hm, Hs. set (s1 := set_pmu (set_type_ (s_pmu_type env) (pmu s)) s).
  assert (E : on_buffer (InitBuffer true (Some (addr, jk)) (s_fd env)) s1 =
    Ret 1 (set_buf (mkBS (Some (fresh_buffer addr jk (s_fd env))) (<[s_fd env := []]> (files (buffer s)))) s1)).
  { unfold on_buffer, zoom. by rewrite (InitBuffer_ok addr jk (s_fd env) (buffer s1)). }
  eexists. apply bind_Stop. do 2 erewrite bind_Ret by reflexivity. fold s1.
  destruct (s_pmu_type env); try done; rewrite (bind_Ret _ _ _ _ _ E); erewrite bind_Ret by reflexivity;
    simpl; rewrite Hsig; reflexivity.
Qed.

Lemma restart_asserts_witness :
  ∃ s', racez_start (λ _, None) (λ _, true) 1 demo_start
          (set_pmu (set_handler true false pmu_init) demo_idle) = Stop AssertFailed s'.
Proof.
  apply (restart_asserts (λ _, None) (λ _, true) 1 demo_start 65536 (λ _, zero_record) 0
           (set_pmu (set_handler true false pmu_init) demo_idle));
    [apply demo_startable|split; try done; simpl; set_solver|reflexivity|reflexivity].
Defined.

(** [pmu_profiler_start] has no return statement on a supported processor, so whether
    [racez_start] enables sampling is indeterminate.  Taken as false, the signal handler
    is installed and the buffer allocated while [racez_enable] stays 0, and the matching
    [racez_stop] stops at its assertion. *)
Theorem start_result_indeterminate (HP : Platform) getenv dlsym mem mutex tid env addr jk ok wr s :
  startable env addr jk → idle s →
  pmu_profiler_start env s = Ret None (started env addr jk s) ∧
  racez_start getenv dlsym 0 env s = Ret 0 (started env addr jk s) ∧
  handler_on (pmu (started env addr jk s)) = true ∧ racez_enable (cfg (started env addr jk s)) = 0 ∧
  racez_stop getenv dlsym mem mutex tid ok wr (started env addr jk s) = Stop AssertFailed (started env addr jk s).
Proof.
  intros Hst Hidle. pose proof Hidle as [Hr _ Hb Hsig _ _]. pose proof (pmu_profiler_start_ok env addr jk s Hst Hb Hsig) as E.
  split; [done|]. split; [by apply racez_start_zero|].
  - split; [done|]. pose proof (rd_enable _ _ Hr) as He. split; [done|].
    unfold racez_stop. erewrite bind_Ret by reflexivity. simpl. by rewrite He.
Qed.

Lemma start_result_indeterminate_witness :
  pmu_profiler_start demo_start demo_idle = Ret None (started demo_start 65536 (λ _, zero_record) demo_idle) ∧
  racez_start (λ _, None) (λ _, true) 0 demo_start demo_idle =
    Ret 0 (started demo_start 65536 (λ _, zero_record) demo_idle) ∧
  handler_on (pmu (started demo_start 65536 (λ _, zero_record) demo_idle)) = true ∧
  racez_enable (cfg (started demo_start 65536 (λ _, zero_record) demo_idle)) = 0 ∧
  racez_stop (HP := demo_platform) (λ _, None) (λ _, true) demo_mem 9000 7 true (λ _, true)
    (started demo_start 65536 (λ _, zero_record) demo_idle) =
    Stop AssertFailed (started demo_start 65536 (λ _, zero_record) demo_idle).
Proof.
  apply (start_result_indeterminate demo_platform (λ _, None) (λ _, true) demo_mem 9000 7 demo_start 65536
           (λ _, zero_record) true (λ _, true) demo_idle); [apply demo_startable|apply demo_idle_ok].
Defined.

(** C39: a counter signal delivered to a thread that was never attached makes the handler
    enter the thread in [tid_fd_map] with descriptor 0 (a lookup with [[]] inserts); the
    next [racez_stop] then stops at its assertion and the log is never written. *)
Theorem stray_signal_breaks_stop (HP : Platform) getenv dlsym mem mutex ld st tid t sm ok wr s s1 :
  (∀ f, dlsym f = true) → mem.1 ≠ 0 → length mem.2 = 10%nat →
  ready 1 s → tls_wf (locksets s) → is_int (num_stat (pmu s) + 1) →
  tid_fd_map (pmu s) !! t = None → signal_handler ld st t sm s = Ret tt s1 →
  ∃ s2, racez_stop getenv dlsym mem mutex tid ok wr s1 = Stop AssertFailed s2.
Proof.
  intros Hd Hm Hw [R1 R2 R3 R4 R5 R6] Htls Hint Hno E.
  apply (handler_observed ld st t sm s s1 Hint) in E. injection E as Oc Oi Or Ol Op. simpl in *.
  unfold racez_stop. erewrite bind_Ret by reflexivity. rewrite Oc, R2; simpl.
  do 2 erewrite bind_Ret by reflexivity. set (s2 := set_cfg _ s1).
  destruct (pmu_profiler_stop_zero getenv dlsym Hd mem Hm Hw mutex tid t ok wr s2) as [s3 E3].
  - split; simpl; by rewrite ?Oi, ?Oc, ?Or.
  - simpl. by rewrite Ol.
  - simpl. rewrite Op. simpl. by rewrite lookup_insert_eq, Hno.
  - exists s3. by rewrite (bind_Stop _ _ _ _ _ E3).
Qed.

Definition demo_running : rt :=
  mkRt (mkCfg 1 1 0 0 0 0 0 0 1) true {["pthread_mutex_lock"; "pthread_create"]} (mkTls false ∅)
       (mkBS (Some (demo_buffer 3)) ∅) (mkPmu INTEL_NHM_PMU true true true ∅ {[7 := 5]} 0) [].

Lemma stray_signal_breaks_stop_witness :
  ∃ s2, racez_stop (HP := demo_platform) (λ _, None) (λ _, true) demo_mem 9000 7 true (λ _, true)
          (add_call (PfmRestart 5) (noted_sample 8 demo_running)) = Stop AssertFailed s2.
Proof.
  apply (stray_signal_breaks_stop demo_platform (λ _, None) (λ _, true) demo_mem 9000 (λ _, true) (λ _, true) 7 8
           demo_sample true (λ _, true) demo_running);
    [done|done|done|split; try done; simpl; set_solver|apply tls_wf_empty|vm_compute; split; discriminate
    |reflexivity|vm_compute; reflexivity].
Defined.
