(* ===== verification/DetectCore.v ===== *)
(** * The race detector's state machine

    [set_includes_thread_id] and [core_detection] of tools/detect.cc: the lockset
    algorithm run on one memory address.  The machine's state is the record set, the
    status and the candidate lockset of the address. *)

From S2P Require Import Prelude.
From S2P Require Import Records.
From stdpp Require Import base gmap list sets.

Open Scope Z_scope.

(** ** [INDEX_IP_SET]: a [std::set<Record>]

    Kept as the list of its elements in [operator<] order, the order iteration and the
    search see. *)

Fixpoint set_insert (x : RacezRecord) (l : list RacezRecord) : list RacezRecord :=
  match l with
  | [] => [x]
  | y :: l' =>
      if record_lt x y then x :: l
      else if record_lt y x then y :: set_insert x l'
      else l
  end.

(** The first element of the thread, with its position; [None] is [end()]. *)
Definition set_includes_thread_id (record_set : list RacezRecord) (thread_id : Z)
    : option (nat * RacezRecord) :=
  list_find (λ r, thread_id_ r = thread_id) record_set.

(** ** The machine *)

Record core_state := mkCore {
  record_set : list RacezRecord;
  status : Z;
  lockset : gset Z
}.

Definition set_records (v : list RacezRecord) (s : core_state) : core_state :=
  mkCore v (status s) (lockset s).
Definition set_status (v : Z) (s : core_state) : core_state := mkCore (record_set s) v (lockset s).
Definition set_lset (v : gset Z) (s : core_state) : core_state := mkCore (record_set s) (status s) v.

Definition insert_rec (cur : RacezRecord) : M core_state unit :=
  modify (λ s, set_records (set_insert cur (record_set s)) s).
Definition erase_at (i : nat) : M core_state unit :=
  modify (λ s, set_records (delete i (record_set s)) s).
Definition goto (v : Z) : M core_state unit := modify (set_status v).

(** [cur_record->op_.memory_access_.is_write_ == 1] *)
Definition writes (cur : RacezRecord) : bool := is_write_ (op_ cur) =? 1.

(** The loop that inserts [lockset_[0 .. lock_count_ - 1]] into a set. *)
Definition access_locks (cur : RacezRecord) : list Z :=
  take (Z.to_nat (lock_count_ (op_ cur))) (lockset_ (op_ cur)).

Definition read_locks {S} (cur : RacezRecord) : M S (gset Z) :=
  if bool_decide (lock_count_ (op_ cur) ≤ Z.of_nat (length (lockset_ (op_ cur))))
  then mret (list_to_set (access_locks cur))
  else fail OutOfBounds.

Section cases.
Context (cur : RacezRecord).

Definition find_thread : M core_state (option (nat * RacezRecord)) :=
  gets (λ s, set_includes_thread_id (record_set s) (thread_id_ cur)).
Definition assert_size (ok : nat → bool) : M core_state unit :=
  n ← gets (λ s, length (record_set s)); c_assert (ok n).

(** state 0: one thread, only reads *)
Definition case_0 : M core_state bool :=
  assert_size (λ n, bool_decide (n = 1%nat)) ;;
  iter ← find_thread;
  match iter with
  | None =>
      insert_rec cur ;;
      if writes cur then goto 3 ;; mret true else goto 2 ;; mret false
  | Some (i, _) =>
      erase_at i ;; insert_rec cur ;;
      when (writes cur) (goto 1) ;; mret false
  end.

(** state 1: one thread, with a write *)
Definition case_1 : M core_state bool :=
  assert_size (λ n, bool_decide (n = 1%nat)) ;;
  iter ← find_thread;
  match iter with
  | None => insert_rec cur ;; goto 3 ;; mret true
  | Some (i, _) =>
      when (writes cur) (erase_at i ;; insert_rec cur) ;; mret false
  end.

(** state 2: shared, only reads *)
Definition case_2 : M core_state bool :=
  assert_size (λ n, bool_decide (1 < n)%nat) ;;
  iter ← find_thread;
  match iter with
  | None =>
      insert_rec cur ;;
      if writes cur then goto 3 ;; mret true else mret false
  | Some (i, _) =>
      erase_at i ;; insert_rec cur ;;
      if writes cur then goto 3 ;; mret true else mret false
  end.

(** state 3: shared and modified *)
Definition case_3 : M core_state bool :=
  assert_size (λ n, bool_decide (1 < n)%nat) ;;
  iter ← find_thread;
  match iter with
  | None => insert_rec cur ;; mret false
  | Some (i, r) =>
      when (writes cur || ((is_write_ (op_ r) =? 0) && writes cur))
        (erase_at i ;; insert_rec cur) ;;
      mret true
  end.

(** state 4: reported; the block under [if(0)] is not run *)
Definition case_4 : M core_state bool :=
  assert_size (λ n, bool_decide (1 < n)%nat) ;; mret false.

(** The [switch] on the status; yields [may_report]. *)
Definition core_switch (st : Z) : M core_state bool :=
  match st with
  | 0 => case_0
  | 1 => case_1
  | 2 => case_2
  | 3 => case_3
  | 4 => case_4
  | _ => fail AssertFailed
  end.

(** Yields [will_report]. *)
Definition core_detection : M core_state bool :=
  st ← gets status;
  may_report ← core_switch st;
  temp_set ← read_locks cur;
  modify (λ s, set_lset (lockset s ∩ temp_set) s) ;;
  s ← get;
  if may_report && (status s =? 3) && bool_decide (lockset s = ∅)
  then goto 4 ;; mret true
  else mret false.
End cases.

(** The state the first access of an address creates (in [offline_detection]). *)
Definition core_first (r : RacezRecord) : core_state :=
  mkCore (set_insert r []) (is_write_ (op_ r)) (list_to_set (access_locks r)).

(** ** The specification

    What the detector should know of an address after a history of accesses: which
    threads touched it, whether any wrote, and the locks common to all of them. *)

Definition threads (h : list RacezRecord) : gset Z := list_to_set (thread_id_ <$> h).

Definition shared (h : list RacezRecord) : bool := bool_decide (1 < size (threads h))%nat.

Definition modified (h : list RacezRecord) : bool := existsb writes h.

Definition locks (r : RacezRecord) : gset Z := list_to_set (access_locks r).

(** The locks held at every access. *)
Definition candidate (h : list RacezRecord) : gset Z :=
  match h with
  | [] => ∅
  | r :: h' => foldl (λ s r, s ∩ locks r) (locks r) h'
  end.

Definition spec_status (h : list RacezRecord) : Z :=
  match shared h, modified h with
  | false, false => 0
  | false, true => 1
  | true, false => 2
  | true, true => 3
  end.

(** An access the machine can be fed: the flag is 0 or 1 and the lock count within the
    array. *)
Record access_ok (r : RacezRecord) : Prop := {
  ok_flag : is_write_ (op_ r) = 0 ∨ is_write_ (op_ r) = 1;
  ok_locks : lock_count_ (op_ r) ≤ Z.of_nat (length (lockset_ (op_ r)))
}.

(** Record numbers identify the thread, as [WriteRecord] and the simulation pass assign
    them. *)
Definition numbered (h : list RacezRecord) : Prop :=
  ∀ r1 r2, r1 ∈ h → r2 ∈ h → record_no_ r1 = record_no_ r2 → thread_id_ r1 = thread_id_ r2.

(** *** Facts on histories *)

Lemma elem_of_threads t h : t ∈ threads h ↔ ∃ r, r ∈ h ∧ thread_id_ r = t.
Proof. unfold threads. rewrite elem_of_list_to_set, list_elem_of_fmap. naive_solver. Qed.

Lemma threads_snoc h r : threads (h ++ [r]) = threads h ∪ {[thread_id_ r]}.
Proof. unfold threads. rewrite fmap_app, list_to_set_app_L. simpl. set_solver. Qed.

Lemma modified_snoc h r : modified (h ++ [r]) = modified h || writes r.
Proof. unfold modified. rewrite existsb_app. simpl. by rewrite orb_false_r. Qed.

Lemma candidate_snoc h r : h ≠ [] → candidate (h ++ [r]) = candidate h ∩ locks r.
Proof. destruct h as [|x h]; [done|]. intros _. simpl. by rewrite foldl_snoc. Qed.

Lemma elem_of_candidate x h : h ≠ [] → x ∈ candidate h ↔ ∀ r, r ∈ h → x ∈ locks r.
Proof.
  intros Hne. induction h as [|r h IH] using rev_ind; [done|].
  destruct (decide (h = [])) as [->|Hh].
  - simpl. set_solver.
  - rewrite candidate_snoc by done. set_solver.
Qed.

Lemma shared_spec h :
  shared h = true ↔ ∃ r1 r2, r1 ∈ h ∧ r2 ∈ h ∧ thread_id_ r1 ≠ thread_id_ r2.
Proof.
  unfold shared. rewrite bool_decide_eq_true. split.
  - intros Hsz. destruct (size_pos_elem_of (threads h)) as [t1 H1]; [lia|].
    destruct (size_pos_elem_of (threads h ∖ {[t1]})) as [t2 H2].
    { rewrite size_difference by set_solver. rewrite size_singleton. lia. }
    apply elem_of_difference in H2 as [H2 Hne].
    apply elem_of_threads in H1 as (r1 & ? & ?), H2 as (r2 & ? & ?).
    exists r1, r2. set_solver.
  - intros (r1 & r2 & H1 & H2 & Hne).
    assert (Hsub : {[thread_id_ r1; thread_id_ r2]} ⊆ threads h).
    { intros t Ht. apply elem_of_threads. set_solver. }
    apply subseteq_size in Hsub. rewrite size_union, !size_singleton in Hsub by set_solver. lia.
Qed.

Lemma modified_spec h : modified h = true ↔ ∃ r, r ∈ h ∧ writes r = true.
Proof. unfold modified. rewrite existsb_exists. setoid_rewrite list_elem_of_In. done. Qed.

Lemma spec_status_3 h : spec_status h = 3 ↔ shared h = true ∧ modified h = true.
Proof. unfold spec_status. destruct (shared h), (modified h); naive_solver lia. Qed.

(** *** Facts on the record set *)

Lemma set_insert_fresh x l :
  (∀ y, y ∈ l → record_no_ y ≠ record_no_ x) → set_insert x l ≡ₚ x :: l.
Proof.
  induction l as [|y l IH]; intros Hf; simpl; [done|].
  destruct (record_lt x y) eqn:E1; [done|]. destruct (record_lt y x) eqn:E2.
  - rewrite IH by set_solver. apply Permutation_swap.
  - exfalso. apply (Hf y); [set_solver|].
    assert (Heq : record_equiv y x = true) by (unfold record_equiv; by rewrite E1, E2).
    by apply record_equiv_spec in Heq as [? _].
Qed.

Lemma includes_None rs t : set_includes_thread_id rs t = None ↔ t ∉ thread_id_ <$> rs.
Proof.
  unfold set_includes_thread_id. rewrite list_find_None, Forall_forall, list_elem_of_fmap.
  naive_solver.
Qed.

Lemma includes_Some rs t i r :
  set_includes_thread_id rs t = Some (i, r) → rs ≡ₚ r :: delete i rs ∧ thread_id_ r = t.
Proof.
  unfold set_includes_thread_id. intros (Hi & Ht & _)%list_find_Some.
  split; [by apply delete_Permutation|done].
Qed.

(** ** The refinement *)

(** The record set stands for a history: one record per thread, each of the history. *)
Record tracks (h rs : list RacezRecord) : Prop := {
  tr_nodup : NoDup (thread_id_ <$> rs);
  tr_sub : ∀ r, r ∈ rs → r ∈ h;
  tr_threads : list_to_set (thread_id_ <$> rs) = threads h
}.

Lemma tracks_perm h rs rs' : rs ≡ₚ rs' → tracks h rs → tracks h rs'.
Proof.
  intros Hp [Hn Hs Ht]. split.
  - by rewrite <- Hp.
  - intros r Hr. apply Hs. by rewrite Hp.
  - by rewrite <- Hp.
Qed.

Lemma tracks_length h rs : tracks h rs → length rs = size (threads h).
Proof. intros [Hn _ <-]. rewrite size_list_to_set by done. by rewrite length_fmap. Qed.

Lemma tracks_elem h rs t : tracks h rs → t ∈ thread_id_ <$> rs ↔ t ∈ threads h.
Proof. intros [_ _ <-]. by rewrite elem_of_list_to_set. Qed.

Lemma tracks_add h rs cur :
  tracks h rs → numbered (h ++ [cur]) → thread_id_ cur ∉ threads h →
  tracks (h ++ [cur]) (set_insert cur rs).
Proof.
  intros Htr Hnum Hno. apply tracks_perm with (cur :: rs).
  - symmetry. apply set_insert_fresh. intros y Hy E. apply Hno, elem_of_threads.
    pose proof (tr_sub _ _ Htr y Hy). exists y. split; [done|]. apply Hnum; set_solver.
  - rewrite <- (tracks_elem _ _ _ Htr) in Hno. destruct Htr as [Hn Hs Ht]. split; simpl.
    + by constructor.
    + set_solver.
    + rewrite threads_snoc, <- Ht. set_solver.
Qed.

Lemma tracks_same h rs cur :
  tracks h rs → thread_id_ cur ∈ threads h → tracks (h ++ [cur]) rs.
Proof. intros [Hn Hs Ht] Hin. split; [done|set_solver|]. rewrite threads_snoc, Ht. set_solver. Qed.

Lemma tracks_replace h rs cur i r :
  tracks h rs → numbered (h ++ [cur]) →
  set_includes_thread_id rs (thread_id_ cur) = Some (i, r) →
  tracks (h ++ [cur]) (set_insert cur (delete i rs)).
Proof.
  intros Htr Hnum (Hp & Ht)%includes_Some.
  pose proof (tracks_perm _ _ _ Hp Htr) as [Hn Hs Hthr]. simpl in *.
  apply NoDup_cons in Hn as [Hr Hn]. rewrite Ht in *.
  apply tracks_perm with (cur :: delete i rs).
  - symmetry. apply set_insert_fresh. intros y Hy E. apply Hr, list_elem_of_fmap.
    exists y. split; [|done]. symmetry. apply Hnum; set_solver.
  - split; simpl; [by constructor|set_solver|]. rewrite threads_snoc, <- Hthr. set_solver.
Qed.

(** How one access moves the specified status. *)
Lemma shared_snoc h cur :
  h ≠ [] → shared (h ++ [cur]) = shared h || negb (bool_decide (thread_id_ cur ∈ threads h)).
Proof.
  intros Hne. unfold shared. rewrite threads_snoc. destruct h as [|x h]; [done|].
  assert (Hpos : size (threads (x :: h)) ≠ 0%nat).
  { intros E%size_empty_inv. specialize (E (thread_id_ x)).
    assert (thread_id_ x ∈ threads (x :: h)) by (apply elem_of_threads; set_solver). set_solver. }
  destruct (decide (thread_id_ cur ∈ threads (x :: h))) as [Hin|Hno].
  - rewrite (bool_decide_eq_true_2 (_ ∈ _)) by done. simpl. rewrite orb_false_r.
    assert (threads (x :: h) ∪ {[thread_id_ cur]} = threads (x :: h)) as -> by set_solver. done.
  - rewrite (bool_decide_eq_false_2 (_ ∈ _)) by done. simpl. rewrite orb_true_r.
    apply bool_decide_eq_true_2. rewrite size_union, size_singleton by set_solver. lia.
Qed.

Lemma tracks_size_shared h rs :
  h ≠ [] → tracks h rs → if shared h then (1 < length rs)%nat else length rs = 1%nat.
Proof.
  intros Hne Htr. unfold shared. rewrite (tracks_length _ _ Htr). case_bool_decide; [done|].
  destruct h as [|x h]; [done|].
  assert (size (threads (x :: h)) ≠ 0%nat); [|lia].
  intros E%size_empty_inv. specialize (E (thread_id_ x)).
  assert (thread_id_ x ∈ threads (x :: h)) by (apply elem_of_threads; set_solver). set_solver.
Qed.

(** Deciding the size assertions of the cases. *)
Ltac pass_assert Hsz :=
  unfold assert_size; run_m; rewrite ?(bool_decide_eq_true_2 _ Hsz); unfold find_thread; run_m.

(** The access of a thread that has no record yet. *)
Lemma core_switch_new h cur st :
  h ≠ [] → numbered (h ++ [cur]) → status st = spec_status h → tracks h (record_set st) →
  thread_id_ cur ∉ threads h →
  core_switch cur (status st) st =
    Ret (modified (h ++ [cur]) && negb (spec_status h =? 3))
        (mkCore (set_insert cur (record_set st)) (spec_status (h ++ [cur])) (lockset st)).
Proof.
  intros Hne Hnum Hst Htr Hno.
  assert (Hinc : set_includes_thread_id (record_set st) (thread_id_ cur) = None).
  { apply includes_None. by rewrite (tracks_elem _ _ _ Htr). }
  pose proof (tracks_size_shared _ _ Hne Htr) as Hsz.
  rewrite Hst. unfold spec_status in *. rewrite (shared_snoc h cur Hne), modified_snoc.
  rewrite (bool_decide_eq_false_2 (_ ∈ _)) by done. rewrite orb_true_r.
  destruct st as [rs ? ls]; simpl in *; subst.
  destruct (shared h), (modified h); simpl; unfold case_0, case_1, case_2, case_3; pass_assert Hsz;
    rewrite Hinc; run_m; try done; by destruct (writes cur).
Qed.

(** The access of a thread that has one. *)
Lemma core_switch_old h cur st i r :
  h ≠ [] → status st = spec_status h → tracks h (record_set st) →
  set_includes_thread_id (record_set st) (thread_id_ cur) = Some (i, r) →
  core_switch cur (status st) st =
    Ret (spec_status (h ++ [cur]) =? 3)
        (mkCore (if writes cur || negb (modified h) then set_insert cur (delete i (record_set st)) else record_set st)
                (spec_status (h ++ [cur])) (lockset st)).
Proof.
  intros Hne Hst Htr Hinc.
  assert (Hin : thread_id_ cur ∈ threads h).
  { apply includes_Some in Hinc as [Hp Ht]. rewrite <- (tracks_elem _ _ _ Htr), Hp, <- Ht. simpl. set_solver. }
  pose proof (tracks_size_shared _ _ Hne Htr) as Hsz.
  rewrite Hst. unfold spec_status in *. rewrite (shared_snoc h cur Hne), modified_snoc.
  rewrite (bool_decide_eq_true_2 (_ ∈ _)) by done. rewrite orb_false_r.
  destruct st as [rs ? ls]; simpl in *; subst.
  destruct (shared h), (modified h); simpl; unfold case_0, case_1, case_2, case_3; pass_assert Hsz;
    rewrite Hinc; run_m; destruct (writes cur); simpl; try done;
    by destruct (is_write_ (op_ r) =? 0).
Qed.

(** The access is the first of its thread, and the address is already shared and
    modified. *)
Definition late_thread (h : list RacezRecord) (cur : RacezRecord) : bool :=
  (spec_status h =? 3) && negb (bool_decide (thread_id_ cur ∈ threads h)).

Lemma core_switch_spec h cur st :
  h ≠ [] → numbered (h ++ [cur]) → status st = spec_status h → tracks h (record_set st) →
  ∃ rs', core_switch cur (status st) st =
           Ret ((spec_status (h ++ [cur]) =? 3) && negb (late_thread h cur))
               (mkCore rs' (spec_status (h ++ [cur])) (lockset st)) ∧
         tracks (h ++ [cur]) rs'.
Proof.
  intros Hne Hnum Hst Htr. unfold late_thread.
  destruct (set_includes_thread_id (record_set st) (thread_id_ cur)) as [[i r]|] eqn:E.
  - assert (Hin : thread_id_ cur ∈ threads h).
    { apply includes_Some in E as [Hp Ht]. rewrite <- (tracks_elem _ _ _ Htr), Hp, <- Ht. simpl. set_solver. }
    rewrite (core_switch_old h cur st i r) by done.
    rewrite (bool_decide_eq_true_2 (_ ∈ _)), andb_false_r, andb_true_r by done.
    eexists. split; [done|]. destruct (writes cur || negb (modified h)).
    + by eapply tracks_replace.
    + by apply tracks_same.
  - apply includes_None in E. rewrite (tracks_elem _ _ _ Htr) in E.
    rewrite (core_switch_new h cur st) by done.
    rewrite (bool_decide_eq_false_2 (_ ∈ _)), andb_true_r by done.
    eexists. split; [|by apply tracks_add]. f_equal.
    unfold spec_status at 2. rewrite (shared_snoc h cur Hne), (bool_decide_eq_false_2 (_ ∈ _)), orb_true_r by done.
    by destruct (modified (h ++ [cur])).
Qed.

(** The machine's state after a history. *)
Record core_inv (h : list RacezRecord) (st : core_state) : Prop := {
  ci_lockset : lockset st = candidate h;
  ci_phase :
    status st = spec_status h ∧ tracks h (record_set st) ∨
    status st = 4 ∧ (1 < length (record_set st))%nat ∧ spec_status h = 3 ∧ candidate h = ∅
}.

(** When the access is reported: the address is shared, modified and without a common
    lock, and the thread is not new to an address already in that state. *)
Definition reports (h : list RacezRecord) (cur : RacezRecord) : bool :=
  (spec_status (h ++ [cur]) =? 3) && negb (late_thread h cur) &&
  bool_decide (candidate (h ++ [cur]) = ∅).

Lemma spec_status_3_mono h cur : h ≠ [] → spec_status h = 3 → spec_status (h ++ [cur]) = 3.
Proof.
  intros Hne [Hs Hm]%spec_status_3. apply spec_status_3.
  by rewrite (shared_snoc _ _ Hne), modified_snoc, Hs, Hm.
Qed.

Lemma core_detection_spec h cur st :
  h ≠ [] → access_ok cur → numbered (h ++ [cur]) → core_inv h st →
  ∃ st', core_detection cur st = Ret (negb (status st =? 4) && reports h cur) st' ∧
         core_inv (h ++ [cur]) st' ∧
         (status st ≠ 4 → tracks (h ++ [cur]) (record_set st')) ∧
         (status st' = 4 ↔ status st = 4 ∨ reports h cur = true).
Proof.
  intros Hne [_ Hlk] Hnum [Hls Hph].
  assert (Hread : ∀ s : core_state, read_locks cur s = Ret (locks cur) s).
  { intros s. unfold read_locks. by rewrite bool_decide_eq_true_2. }
  unfold core_detection. run_m. destruct Hph as [[Hst Htr]|(Hst & Hlen & H3 & Hemp)].
  - assert (Hst4 : (status st =? 4) = false)
      by (rewrite Hst; unfold spec_status; by destruct (shared h), (modified h)).
    destruct (core_switch_spec h cur st Hne Hnum Hst Htr) as (rs' & -> & Htr').
    rewrite Hread; simpl. rewrite Hls, <- (candidate_snoc h cur Hne), Hst4; simpl.
    unfold reports. destruct ((spec_status (h ++ [cur]) =? 3) && negb (late_thread h cur)) eqn:Emr; simpl.
    + apply andb_prop in Emr as [E3 _]. rewrite E3; simpl. apply Z.eqb_eq in E3.
      destruct (bool_decide (candidate (h ++ [cur]) = ∅)) eqn:Ec; simpl.
      * eexists. split; [done|]. apply bool_decide_eq_true in Ec. split; [split; [done|right]|].
        -- simpl. split; [done|]. split; [|done]. rewrite (tracks_length _ _ Htr').
           apply spec_status_3 in E3 as [Hs _]. by apply bool_decide_eq_true in Hs.
        -- by split; [|naive_solver].
      * eexists. split; [done|]. split; [split; [done|by left]|]. simpl.
        split; [done|]. rewrite E3, Hst. apply Z.eqb_neq in Hst4. rewrite Hst in Hst4. naive_solver lia.
    + eexists. split; [done|]. split; [split; [done|by left]|]. split; [done|]. simpl.
      apply Z.eqb_neq in Hst4.
      assert (spec_status (h ++ [cur]) ≠ 4)
        by (unfold spec_status; by destruct (shared (h ++ [cur])), (modified (h ++ [cur]))).
      naive_solver.
  - rewrite Hst; simpl. unfold case_4, assert_size. run_m.
    rewrite bool_decide_eq_true_2 by done. simpl. rewrite Hread; simpl.
    eexists. split; [done|]. split; [|naive_solver]. rewrite Hls, <- (candidate_snoc h cur Hne).
    split; [done|right]. simpl. rewrite candidate_snoc, Hemp by done.
    split; [done|]. split; [done|]. split; [by apply spec_status_3_mono|set_solver].
Qed.

(** ** Whole histories *)

(** The later accesses of an address, one after the other, with the report flag of each. *)
Fixpoint core_run (rs : list RacezRecord) : M core_state (list bool) :=
  match rs with
  | [] => mret []
  | cur :: rs' =>
      b ← core_detection cur;
      bs ← core_run rs';
      mret (b :: bs)
  end.

(** The flags the specification asks for: the first access that [reports], and no other. *)
Fixpoint report_flags (reported : bool) (h rs : list RacezRecord) : list bool :=
  match rs with
  | [] => []
  | cur :: rs' =>
      let b := negb reported && reports h cur in
      b :: report_flags (reported || b) (h ++ [cur]) rs'
  end.

Lemma numbered_app_l h1 h2 : numbered (h1 ++ h2) → numbered h1.
Proof. intros Hn r1 r2 H1 H2. apply Hn; set_solver. Qed.

Lemma core_run_spec rs h st :
  h ≠ [] → Forall access_ok rs → numbered (h ++ rs) → core_inv h st →
  ∃ st', core_run rs st = Ret (report_flags (status st =? 4) h rs) st' ∧ core_inv (h ++ rs) st'.
Proof.
  revert h st. induction rs as [|cur rs IH]; intros h st Hne Hok Hnum Hinv; simpl.
  - exists st. by rewrite app_nil_r.
  - apply Forall_cons in Hok as [Hcur Hok].
    replace (h ++ cur :: rs) with ((h ++ [cur]) ++ rs) in * by by rewrite <- app_assoc.
    destruct (core_detection_spec h cur st Hne Hcur (numbered_app_l _ _ Hnum) Hinv)
      as (st1 & E1 & Hinv1 & _ & H4).
    destruct (IH (h ++ [cur]) st1) as (st2 & E2 & Hinv2); [by destruct h|done..|].
    exists st2. split; [|done]. rewrite (bind_Ret _ _ _ _ _ E1), (bind_Ret _ _ _ _ _ E2).
    unfold mret, M_ret. do 2 f_equal. f_equal.
    destruct (Z.eqb_spec (status st1) 4) as [Ha|Ha]; destruct (Z.eqb_spec (status st) 4) as [Hb|Hb];
      destruct (reports h cur); naive_solver.
Qed.

Lemma core_first_inv r : access_ok r → core_inv [r] (core_first r).
Proof.
  intros [Hf _]. split; [done|]. left. unfold core_first; simpl. split.
  - unfold spec_status, shared, modified, writes, existsb.
    replace (threads [r]) with ({[thread_id_ r]} : gset Z) by (unfold threads; set_solver).
    rewrite size_singleton, orb_false_r.
    rewrite bool_decide_eq_false_2 by lia. by destruct Hf as [-> | ->].
  - split; simpl; [apply NoDup_singleton|done|done].
Qed.

Lemma report_flags_sound d h rs i :
  report_flags d h rs !! i = Some true →
  ∃ cur, rs !! i = Some cur ∧ reports (h ++ take i rs) cur = true.
Proof.
  revert d h i. induction rs as [|cur rs IH]; intros d h [|i] E; simpl in *; try done.
  - injection E as [_ E]%andb_prop. exists cur. by rewrite app_nil_r.
  - apply IH in E as (cur' & Hi & Hr). exists cur'. split; [done|]. by rewrite <- app_assoc in Hr.
Qed.

Lemma report_flags_none h rs i : report_flags true h rs !! i ≠ Some true.
Proof.
  revert h i. induction rs as [|cur rs IH]; intros h [|i]; simpl; done || apply IH.
Qed.

Lemma report_flags_unique d h rs i j :
  report_flags d h rs !! i = Some true → report_flags d h rs !! j = Some true → i = j.
Proof.
  revert d h i j. induction rs as [|cur rs IH]; intros d h [|i] [|j] Ei Ej; simpl in *; try done.
  - injection Ei as Ei. rewrite Ei, orb_true_r in Ej. by apply report_flags_none in Ej.
  - injection Ej as Ej. rewrite Ej, orb_true_r in Ei. by apply report_flags_none in Ei.
  - f_equal. by eapply IH.
Qed.

Lemma report_flags_complete h rs i cur :
  rs !! i = Some cur → reports (h ++ take i rs) cur = true →
  ∃ j, (j ≤ i)%nat ∧ report_flags false h rs !! j = Some true.
Proof.
  revert h i. induction rs as [|c rs IH]; intros h [|i] Hi Hr; simpl in *; try done.
  - simplify_eq. rewrite app_nil_r in Hr. exists 0%nat. split; [done|]. simpl. by rewrite Hr.
  - destruct (reports h c) eqn:E; [by exists 0%nat; split; [lia|]|].
    destruct (IH (h ++ [c]) i) as (j & Hj & Hf); [done|by rewrite <- app_assoc|].
    exists (S j). split; [lia|done].
Qed.

(** A report is about an address with two threads, a write and no common lock. *)
Lemma reports_inv h cur :
  reports h cur = true →
  (∃ r1 r2, r1 ∈ h ++ [cur] ∧ r2 ∈ h ++ [cur] ∧ thread_id_ r1 ≠ thread_id_ r2) ∧
  (∃ w, w ∈ h ++ [cur] ∧ writes w = true) ∧
  (∀ x, ∃ r, r ∈ h ++ [cur] ∧ x ∉ locks r).
Proof.
  unfold reports. intros [[E3 _]%andb_prop Ec]%andb_prop.
  apply Z.eqb_eq, spec_status_3 in E3 as [Hs%shared_spec Hm%modified_spec].
  apply bool_decide_eq_true in Ec. split; [done|]. split; [done|].
  intros x. apply Exists_exists.
  destruct (decide (Exists (λ r, x ∉ locks r) (h ++ [cur]))) as [|Hno]; [done|].
  assert (Hx : x ∈ candidate (h ++ [cur])); [|set_solver].
  apply elem_of_candidate; [by destruct h|]. intros r Hr. apply dec_stable. intros Hx.
  apply Hno, Exists_exists. eauto.
Qed.

(** C2: the state machine implements the lockset algorithm.  On any numbered sequence of
    well-formed accesses to one address no assertion fails, the candidate lockset is the
    intersection of the locksets of all accesses, the status is the one given by the
    number of threads and the presence of a write (or 4, once reported), and the report
    flags are those of the specification. *)
Theorem detector_refines_lockset_algorithm r rs :
  Forall access_ok (r :: rs) → numbered (r :: rs) →
  ∃ st', core_run rs (core_first r) = Ret (report_flags false [r] rs) st' ∧
    lockset st' = candidate (r :: rs) ∧
    (status st' = spec_status (r :: rs) ∧ tracks (r :: rs) (record_set st') ∨
     status st' = 4 ∧ spec_status (r :: rs) = 3 ∧ candidate (r :: rs) = ∅).
Proof.
  intros [Hr Hrs]%Forall_cons Hnum.
  destruct (core_run_spec rs [r] (core_first r)) as (st' & E & [Hls Hph]);
    [done|done|done|by apply core_first_inv|].
  exists st'. split; [|split; [done|]].
  - rewrite E. do 2 f_equal. simpl. by destruct (ok_flag _ Hr) as [-> | ->].
  - destruct Hph as [?|(?&_&?&?)]; [by left|by right].
Qed.

Definition access (no tid flag : Z) (lk : list Z) : RacezRecord :=
  mkRecord no tid 1 (mkOp 4096 100 100 flag zero_pebs (Z.of_nat (length lk)) (lk ++ replicate (10 - length lk) 0))
           (replicate 10 0) 0.

Lemma access_is_ok no tid flag lk : flag = 0 ∨ flag = 1 → access_ok (access no tid flag lk).
Proof. intros H. split; simpl; [done|]. rewrite length_app. lia. Qed.

Definition demo_history : list RacezRecord :=
  [access 1 10 1 [7; 8]; access 2 11 0 [8]; access 3 11 1 [9]].

Lemma demo_history_ok : Forall access_ok demo_history.
Proof. repeat constructor; apply access_is_ok; lia. Qed.

Ltac solve_numbered :=
  intros r1 r2 H1 H2; rewrite ?elem_of_cons, elem_of_nil in H1, H2;
  destruct_or?; subst; simpl; done || lia.

Lemma demo_history_numbered : numbered demo_history.
Proof. unfold demo_history. solve_numbered. Qed.

Lemma detector_refines_lockset_algorithm_witness :
  ∃ st', core_run [access 2 11 0 [8]; access 3 11 1 [9]] (core_first (access 1 10 1 [7; 8])) =
           Ret [false; true] st' ∧
    lockset st' = candidate demo_history ∧
    (status st' = spec_status demo_history ∧ tracks demo_history (record_set st') ∨
     status st' = 4 ∧ spec_status demo_history = 3 ∧ candidate demo_history = ∅).
Proof.
  apply (detector_refines_lockset_algorithm (access 1 10 1 [7; 8]) [access 2 11 0 [8]; access 3 11 1 [9]]).
  - apply demo_history_ok.
  - apply demo_history_numbered.
Defined.

(** Every warning is a violation of the locking discipline: at a reported access the
    accesses so far come from at least two threads, include a write, and no lock was held
    at all of them. *)
Theorem reports_are_violations r rs st' bs i :
  Forall access_ok (r :: rs) → numbered (r :: rs) →
  core_run rs (core_first r) = Ret bs st' → bs !! i = Some true →
  let h := r :: take (S i) rs in
  (∃ r1 r2, r1 ∈ h ∧ r2 ∈ h ∧ thread_id_ r1 ≠ thread_id_ r2) ∧
  (∃ w, w ∈ h ∧ writes w = true) ∧
  (∀ x, ∃ r', r' ∈ h ∧ x ∉ locks r').
Proof.
  intros [Hr Hrs]%Forall_cons Hnum E Hi.
  destruct (core_run_spec rs [r] (core_first r)) as (st1 & E1 & _);
    [done|done|done|by apply core_first_inv|].
  rewrite E1 in E. injection E as <- _.
  apply report_flags_sound in Hi as (cur & Hcur & Hrep%reports_inv).
  by rewrite <- app_assoc, <- (take_S_r _ _ _ Hcur) in Hrep.
Qed.

Lemma reports_are_violations_witness :
  let h := [access 1 10 1 [7; 8]; access 2 11 0 [8]; access 3 11 1 [9]] in
  (∃ r1 r2, r1 ∈ h ∧ r2 ∈ h ∧ thread_id_ r1 ≠ thread_id_ r2) ∧
  (∃ w, w ∈ h ∧ writes w = true) ∧
  (∀ x, ∃ r', r' ∈ h ∧ x ∉ locks r').
Proof.
  eapply (reports_are_violations (access 1 10 1 [7; 8]) [access 2 11 0 [8]; access 3 11 1 [9]] _ _ 1);
    [apply demo_history_ok|apply demo_history_numbered|vm_compute; reflexivity|reflexivity].
Defined.

(** An address is reported at most once. *)
Theorem reported_at_most_once r rs st' bs i j :
  Forall access_ok (r :: rs) → numbered (r :: rs) →
  core_run rs (core_first r) = Ret bs st' →
  bs !! i = Some true → bs !! j = Some true → i = j.
Proof.
  intros [Hr Hrs]%Forall_cons Hnum E.
  destruct (core_run_spec rs [r] (core_first r)) as (st1 & E1 & _);
    [done|done|done|by apply core_first_inv|].
  rewrite E1 in E. injection E as <- _. apply report_flags_unique.
Qed.

Lemma reported_at_most_once_witness : 1%nat = 1%nat.
Proof.
  eapply (reported_at_most_once (access 1 10 1 [7; 8]) [access 2 11 0 [8]; access 3 11 1 [9]]);
    [apply demo_history_ok|apply demo_history_numbered|vm_compute; reflexivity|reflexivity|reflexivity].
Defined.

(** C29: no violation goes unreported while the accesses come from threads already seen:
    if after some access the address is shared, modified and without a common lock, and
    that access is not the first of its thread on an already shared modified address,
    then a report was made at that access or before. *)
Theorem violations_are_reported r rs i cur :
  Forall access_ok (r :: rs) → numbered (r :: rs) → rs !! i = Some cur →
  let h := r :: take i rs in
  shared (h ++ [cur]) = true → modified (h ++ [cur]) = true → candidate (h ++ [cur]) = ∅ →
  late_thread h cur = false →
  ∃ bs st' j, core_run rs (core_first r) = Ret bs st' ∧ (j ≤ i)%nat ∧ bs !! j = Some true.
Proof.
  intros [Hr Hrs]%Forall_cons Hnum Hi h Hs Hm Hc Hl.
  destruct (core_run_spec rs [r] (core_first r)) as (st1 & E1 & _);
    [done|done|done|by apply core_first_inv|].
  assert (Hrep : reports ([r] ++ take i rs) cur = true).
  { change ([r] ++ take i rs) with h. unfold reports.
    rewrite (proj2 (spec_status_3 (h ++ [cur]))) by done.
    rewrite Hl, Hc. by rewrite bool_decide_eq_true_2. }
  destruct (report_flags_complete [r] rs i cur Hi Hrep) as (j & Hj & Hf).
  exists (report_flags false [r] rs), st1, j. split; [|done].
  rewrite E1. do 2 f_equal. simpl. by destruct (ok_flag _ Hr) as [-> | ->].
Qed.

Lemma violations_are_reported_witness :
  ∃ bs st' j, core_run [access 2 11 0 [8]; access 3 11 1 [9]] (core_first (access 1 10 1 [7; 8])) = Ret bs st' ∧
    (j ≤ 1)%nat ∧ bs !! j = Some true.
Proof.
  apply (violations_are_reported (access 1 10 1 [7; 8]) [access 2 11 0 [8]; access 3 11 1 [9]] 1 (access 3 11 1 [9]));
    [apply demo_history_ok|apply demo_history_numbered|reflexivity|vm_compute; reflexivity..].
Defined.

(** A violation by a late thread is missed: when a thread new to an already shared
    and modified address removes the last common lock, the candidate set becomes empty,
    the access is not reported and the status stays 3. *)
Theorem late_thread_not_reported h cur st :
  h ≠ [] → access_ok cur → numbered (h ++ [cur]) → core_inv h st →
  status st = 3 → thread_id_ cur ∉ threads h → candidate h ∩ locks cur = ∅ →
  ∃ st', core_detection cur st = Ret false st' ∧ status st' = 3 ∧ lockset st' = ∅ ∧
         shared (h ++ [cur]) = true ∧ modified (h ++ [cur]) = true.
Proof.
  intros Hne Hok Hnum Hinv Hst Hno Hc.
  assert (H3 : spec_status h = 3) by (destruct (ci_phase _ _ Hinv) as [[<- _]|(H4 & _)]; [done|lia]).
  destruct (core_detection_spec h cur st Hne Hok Hnum Hinv) as (st' & E & [Hls Hph] & _ & H4).
  assert (Hrep : reports h cur = false).
  { unfold reports, late_thread. rewrite H3, (bool_decide_eq_false_2 (_ ∈ _)) by done.
    by rewrite andb_false_r. }
  rewrite Hrep, andb_false_r in E. exists st'. split; [done|].
  pose proof (spec_status_3_mono h cur Hne H3) as H3'.
  split; [|split; [by rewrite Hls, candidate_snoc|by apply spec_status_3]].
  destruct Hph as [[-> _]|(E4 & _)]; [done|]. rewrite Hrep in H4.
  destruct (proj1 H4 E4) as [?|?]; [lia|done].
Qed.

Definition demo_shared : list RacezRecord := [access 1 10 1 [7]; access 2 11 1 [7]].

Lemma demo_shared_inv : core_inv demo_shared (mkCore demo_shared 3 {[7]}).
Proof.
  split; [vm_compute; reflexivity|left]. split; [vm_compute; reflexivity|].
  split; [vm_compute; repeat constructor; set_solver|done|vm_compute; reflexivity].
Qed.

Lemma late_thread_not_reported_witness :
  ∃ st', core_detection (access 3 12 1 []) (mkCore demo_shared 3 {[7]}) = Ret false st' ∧
    status st' = 3 ∧ lockset st' = ∅ ∧
    shared (demo_shared ++ [access 3 12 1 []]) = true ∧ modified (demo_shared ++ [access 3 12 1 []]) = true.
Proof.
  apply (late_thread_not_reported demo_shared (access 3 12 1 []) (mkCore demo_shared 3 {[7]}));
    [done|apply access_is_ok; lia| |apply demo_shared_inv|reflexivity|vm_compute; set_solver|vm_compute; reflexivity].
  unfold demo_shared; simpl. solve_numbered.
Defined.
