(* ===== verification/Detect.v ===== *)
(** * The offline race detector

    tools/detect.cc without the state machine (DetectCore.v): the maps from addresses to
    record sets, statuses and locksets, the reuse of freed memory, the warnings, and the
    main loop that interleaves the raw log with the samples added by simulation. *)

From S2P Require Import Prelude.
From S2P Require Import Records.
From S2P Require Import Text.
From S2P Require Import DetectCore.
From Stdlib Require Import Ascii.
From stdpp Require Import base gmap list sets strings pretty.

Open Scope Z_scope.

(** ** The state

    The globals of detect.cc.  [output] is the text of the output file, [warned] the
    calls of [report_error] so far, and [says] the number of times the tool said that it
    does not support a record type. *)

Record detect_state := mkDetect {
  global_record_set_map : gmap Z (list RacezRecord);
  rw_map : gmap Z Z;
  lockset_map : gmap Z (gset Z);
  heap_map : gmap Z Z;
  warning_count : Z;
  output : string;
  warned : list (Z * list RacezRecord);
  says : Z
}.

Definition detect_init : detect_state := mkDetect ∅ ∅ ∅ ∅ 0 EmptyString [] 0.

Definition set_maps (rm : gmap Z (list RacezRecord)) (wm : gmap Z Z) (lm : gmap Z (gset Z))
    (s : detect_state) : detect_state :=
  mkDetect rm wm lm (heap_map s) (warning_count s) (output s) (warned s) (says s).
Definition set_heap (hm : gmap Z Z) (s : detect_state) : detect_state :=
  mkDetect (global_record_set_map s) (rw_map s) (lockset_map s) hm (warning_count s) (output s) (warned s) (says s).
Definition set_output (c : Z) (t : string) (w : list (Z * list RacezRecord)) (s : detect_state) : detect_state :=
  mkDetect (global_record_set_map s) (rw_map s) (lockset_map s) (heap_map s) c t w (says s).
Definition set_says (v : Z) (s : detect_state) : detect_state :=
  mkDetect (global_record_set_map s) (rw_map s) (lockset_map s) (heap_map s) (warning_count s) (output s) (warned s) v.

Definition print (t : string) : M detect_state unit :=
  modify (λ s, set_output (warning_count s) (output s +:+ t) (warned s) s).

(** ** Warnings *)

(** The last character of a string, and the string without it. *)
Fixpoint split_last (s : string) : option (string * ascii) :=
  match s with
  | EmptyString => None
  | String c EmptyString => Some (EmptyString, c)
  | String c s' => match split_last s' with Some (t, d) => Some (String c t, d) | None => None end
  end.

Section detect.
(** What addr2line leaves in the temporary file for an address: [None] when the file
    cannot be opened, else the line [fgets] reads, empty at end of file. *)
Context (addr2line : Z → option string).
(** [enable_memory_reuse], set by the option [-m]. *)
Context (enable_memory_reuse : bool).

(** Fills [buffer] with the source position of an address.  At end of file [fgets] keeps
    the old contents, which are indeterminate at first. *)
Definition get_filename (addr : Z) (buffer : option string) : M detect_state (option string) :=
  match addr2line addr with
  | None => fail (Exited 0)
  | Some line =>
      let buffer := if decide (line = EmptyString) then buffer else Some line in
      match buffer with
      | None => fail Undefined
      | Some b =>
          match split_last b with
          | None => fail OutOfBounds
          | Some (t, c) => c_assert (bool_decide (c = newline)) ;; mret (Some t)
          end
      end
  end.

Definition print_locks (r : RacezRecord) : M detect_state unit :=
  if bool_decide (lock_count_ (op_ r) ≤ Z.of_nat (length (lockset_ (op_ r))))
  then for_each (access_locks r) (λ l, print (fmt_p l +:+ tb))
  else fail OutOfBounds.

(** The call stack lines; yields the buffer. *)
Fixpoint print_frames (frames : list Z) (buffer : option string) : M detect_state (option string) :=
  match frames with
  | [] => mret buffer
  | site :: frames' =>
      buffer ← get_filename site buffer;
      print (default EmptyString buffer +:+ nl) ;;
      print_frames frames' buffer
  end.

(** One access of the warning; [i] counts from 1. *)
Definition print_access (i : Z) (r : RacezRecord) (buffer : option string) : M detect_state (option string) :=
  print ("The " +:+ fmt_d i +:+ "th access: INDEX=" +:+ fmt_d (record_no_ r) +:+ " TID=" +:+
         fmt_d (thread_id_ r) +:+ " IP=" +:+ fmt_0x08 (pip_ (op_ r)) +:+ " ") ;;
  print (if is_write_ (op_ r) =? 0 then "READ " else "WRITE ") ;;
  buffer ← get_filename (pip_ (op_ r)) buffer;
  print (default EmptyString buffer +:+ nl) ;;
  print "the lockset is : ( " ;;
  print_locks r ;;
  print (")" +:+ nl) ;;
  print ("call stack is:" +:+ nl) ;;
  if bool_decide (trace_depth_ r ≤ Z.of_nat (length (stack_trace_ r)))
  then print_frames (take (Z.to_nat (trace_depth_ r)) (stack_trace_ r)) buffer
  else fail OutOfBounds.

Fixpoint print_accesses (i : Z) (rs : list RacezRecord) (buffer : option string) : M detect_state unit :=
  match rs with
  | [] => mret tt
  | r :: rs' =>
      buffer ← print_access i r buffer;
      print_accesses (i + 1) rs' buffer
  end.

Definition report_error (record_set : list RacezRecord) (memory_address : Z) : M detect_state unit :=
  modify (λ s, set_output (warning_count s + 1) (output s) (warned s ++ [(memory_address, record_set)]) s) ;;
  c ← gets warning_count;
  print ("Warning " +:+ fmt_d c +:+ " :" +:+ nl) ;;
  print ("Memory Location: " +:+ fmt_p memory_address +:+ nl) ;;
  print_accesses 1 record_set None ;;
  print nl ;; print nl.

(** ** Freed memory *)

(** Erasing the elements from [lower_bound(start)] to [lower_bound(end)].  With
    [end < start] the second iterator is before the first when a key lies between, and the
    loop runs past the end of the map. *)
Definition range_erase {A} (start_address end_address : Z) (m : gmap Z A) : M detect_state (gmap Z A) :=
  if start_address <=? end_address
  then mret (filter (λ kv, ¬ start_address ≤ kv.1 < end_address) m)
  else if bool_decide (map_Forall (λ k _, ¬ end_address ≤ k < start_address) m)
  then mret m
  else fail Undefined.

Definition delete_map_entries (start_address end_address : Z) : M detect_state unit :=
  s ← get;
  lm ← range_erase start_address end_address (lockset_map s);
  modify (set_maps (global_record_set_map s) (rw_map s) lm) ;;
  rm ← range_erase start_address end_address (global_record_set_map s);
  modify (set_maps rm (rw_map s) lm) ;;
  wm ← range_erase start_address end_address (rw_map s);
  modify (set_maps rm wm lm).

(** ** One record *)

(** The first access of an address. *)
Definition first_access (record : RacezRecord) (memory_address : Z) : M detect_state unit :=
  s ← get;
  c_assert (bool_decide (global_record_set_map s !! memory_address = None)) ;;
  c_assert (bool_decide (lockset_map s !! memory_address = None)) ;;
  ls ← read_locks record;
  modify (set_maps (<[memory_address := set_insert record []]> (global_record_set_map s))
                   (<[memory_address := is_write_ (op_ record)]> (rw_map s))
                   (<[memory_address := ls]> (lockset_map s))).

(** The status machine on the sets the maps point to. *)
Definition later_access (record : RacezRecord) (memory_address st : Z) : M detect_state unit :=
  s ← get;
  record_set ← deref (global_record_set_map s !! memory_address);
  lockset ← deref (lockset_map s !! memory_address);
  let put c := set_maps (<[memory_address := DetectCore.record_set c]> (global_record_set_map s))
                        (<[memory_address := status c]> (rw_map s))
                        (<[memory_address := DetectCore.lockset c]> (lockset_map s)) in
  match core_detection record (mkCore record_set st lockset) with
  | Stop f c => modify (put c) ;; fail f
  | Ret will_report c =>
      modify (put c) ;;
      when will_report (report_error (DetectCore.record_set c) memory_address)
  end.

(** An access: addresses of 0 were not computed and are skipped. *)
Definition memory_op (record : RacezRecord) : M detect_state unit :=
  let memory_address := memory_address_ (op_ record) in
  if memory_address =? 0 then mret tt else
  s ← get;
  match rw_map s !! memory_address with
  | None => first_access record memory_address
  | Some st => later_access record memory_address st
  end.

(** [heap_map[k]], which makes an entry of 0 for a new key. *)
Definition heap_at (k : Z) : M detect_state Z :=
  s ← get;
  let v := default 0 (heap_map s !! k) in
  modify (set_heap (<[k := v]> (heap_map s))) ;;
  mret v.

(** An allocation registers its size; a free forgets the addresses of the block. *)
Definition memory_alloc (record : RacezRecord) : M detect_state unit :=
  let o := op_ record in
  if negb enable_memory_reuse then mret tt else
  if negb (is_alloc_ o =? 0) then
    modify (λ s, set_heap (<[start_address_ o := size_ o]> (heap_map s)) s)
  else if start_address_ o =? 0 then mret tt
  else
    size ← (if size_ o =? 0 then heap_at (start_address_ o) else mret (size_ o));
    if size =? 0 then mret tt
    else delete_map_entries (start_address_ o) (wrap64 (start_address_ o + size)).

Definition offline_detection (record : RacezRecord) : M detect_state unit :=
  if type_is MEMORY_OP record then memory_op record
  else if type_is MEMORY_ALLOC record then memory_alloc record
  else modify (λ s, set_says (says s + 1) s).

(** ** The main loop *)

(** The raw records in log order and the added ones in set order: the added records
    that carry the number of the current raw record go first. *)
Fixpoint merge_loop (raw : list RacezRecord) : list RacezRecord → M detect_state unit :=
  match raw with
  | [] => λ _, mret tt
  | r :: raw' =>
      fix inner (news : list RacezRecord) : M detect_state unit :=
        match news with
        | [] => mret tt
        | n :: news' =>
            if record_no_ n =? record_no_ r
            then offline_detection n ;; inner news'
            else offline_detection r ;; merge_loop raw' news
        end
  end.

(** From the first [fread] on.  [raw] is the raw log, [news] the file of added records
    when the option [-n] gives one.  An empty raw log ends the run; an empty file of added
    records is as none. *)
Definition detect_files (raw : list RacezRecord) (news : option (list RacezRecord)) : M detect_state unit :=
  match raw with
  | [] => mret tt
  | _ =>
      match news with
      | Some (n :: ns) => merge_loop raw (foldl (λ l r, set_insert r l) [] (n :: ns))
      | _ => for_each raw offline_detection
      end
  end.
End detect.

(** ** The command line *)

(** What [getopt] yields for ["b:i:n:o:mh"]. *)
Inductive cmd_option :=
  | opt_b (arg : string) | opt_i (arg : string) | opt_n (arg : string) | opt_o (arg : string)
  | opt_m | opt_h | opt_invalid.

Record options := mkOpts {
  binary : string;
  input_file : option string;
  new_input_file : option string;
  output_file : option string;
  opt_reuse : bool
}.

(** The option loop; [None] when the program returns from it ([-h], an invalid option). *)
Fixpoint parse_options (os : list cmd_option) (p : options) : option options :=
  match os with
  | [] => Some p
  | opt_b a :: os' => parse_options os' (mkOpts a (input_file p) (new_input_file p) (output_file p) (opt_reuse p))
  | opt_i a :: os' => parse_options os' (mkOpts (binary p) (Some a) (new_input_file p) (output_file p) (opt_reuse p))
  | opt_n a :: os' => parse_options os' (mkOpts (binary p) (input_file p) (Some a) (output_file p) (opt_reuse p))
  | opt_o a :: os' => parse_options os' (mkOpts (binary p) (input_file p) (new_input_file p) (Some a) (opt_reuse p))
  | opt_m :: os' => parse_options os' (mkOpts (binary p) (input_file p) (new_input_file p) (output_file p) true)
  | opt_h :: _ => None
  | opt_invalid :: _ => None
  end.

(** [open_r]: the records of a file that can be opened for reading; [open_w]: whether a
    file can be opened for writing.  [input_file] is [NULL] and [output_file]
    indeterminate when the option is missing. *)
Definition detect_main (addr2line : Z → option string) (open_r : string → option (list RacezRecord))
    (open_w : string → bool) (argc : Z) (os : list cmd_option) : M detect_state Z :=
  match parse_options os (mkOpts EmptyString None None None false) with
  | None => mret 0
  | Some p =>
      if argc <? 4 then mret 0 else
      match input_file p with
      | None => fail Undefined
      | Some f =>
          match open_r f with
          | None => fail (Exited 0)
          | Some raw =>
              match (match new_input_file p with
                     | None => Some None
                     | Some g => match open_r g with None => None | Some ns => Some (Some ns) end
                     end) with
              | None => fail (Exited 0)
              | Some news =>
                  match output_file p with
                  | None => fail Undefined
                  | Some o =>
                      if open_w o
                      then detect_files addr2line (opt_reuse p) raw news ;; mret 0
                      else fail (Exited 0)
                  end
              end
          end
      end
  end.
