(* ===== verification/DetectSpec.v ===== *)
(** * What the offline detector computes

    The specification of tools/detect.cc as a function of the record sequence: for every
    address the accesses since it was last freed, and the warnings.  The code of Detect.v
    refines it; from the refinement follow the soundness of the warnings, the effect of a
    free, and which records of the two input files are looked at. *)

From S2P Require Import Prelude.
From S2P Require Import Records.
From S2P Require Import Text.
From S2P Require Import DetectCore.
From S2P Require Import Detect.
From Stdlib Require Import Ascii.
From stdpp Require Import base gmap list sets strings sorting.

Open Scope Z_scope.

(** ** The specification *)

Record spec_state := mkSpec {
  histories : gmap Z (list RacezRecord);
  blocks : gmap Z Z;
  found : list (Z * list RacezRecord)
}.

Definition spec_init : spec_state := mkSpec ∅ ∅ [].

(** Whether a warning was made somewhere in a history. *)
Definition reported (h : list RacezRecord) : bool :=
  match h with
  | [] => false
  | r :: rs => existsb id (report_flags false [r] rs)
  end.

Definition history (σ : spec_state) (a : Z) : list RacezRecord := default [] (histories σ !! a).

Definition spec_access (r : RacezRecord) (σ : spec_state) : spec_state :=
  let a := memory_address_ (op_ r) in
  let h := history σ a in
  if a =? 0 then σ else
  mkSpec (<[a := h ++ [r]]> (histories σ)) (blocks σ)
         (if reports h r && negb (reported h) then found σ ++ [(a, h ++ [r])] else found σ).

(** The size a free releases. *)
Definition freed_size (r : RacezRecord) (σ : spec_state) : Z :=
  if size_ (op_ r) =? 0 then default 0 (blocks σ !! start_address_ (op_ r)) else size_ (op_ r).

Definition in_block (start len a : Z) : Prop := start ≤ a < start + len.

#[export] Instance in_block_dec start len a : Decision (in_block start len a).
Proof. unfold in_block. apply _. Defined.

Definition forget (start len : Z) (σ : spec_state) : spec_state :=
  mkSpec (filter (λ kv, ¬ in_block start len kv.1) (histories σ)) (blocks σ) (found σ).

Definition spec_alloc (reuse : bool) (r : RacezRecord) (σ : spec_state) : spec_state :=
  let o := op_ r in
  if negb reuse then σ
  else if negb (is_alloc_ o =? 0)
  then mkSpec (histories σ) (<[start_address_ o := size_ o]> (blocks σ)) (found σ)
  else if start_address_ o =? 0 then σ
  else forget (start_address_ o) (freed_size r σ) σ.

Definition spec_step (reuse : bool) (σ : spec_state) (r : RacezRecord) : spec_state :=
  if type_is MEMORY_OP r then spec_access r σ
  else if type_is MEMORY_ALLOC r then spec_alloc reuse r σ
  else σ.

(** ** Facts on histories *)

Lemma report_flags_snoc d h rs cur :
  report_flags d h (rs ++ [cur]) =
  report_flags d h rs ++ [negb (d || existsb id (report_flags d h rs)) && reports (h ++ rs) cur].
Proof.
  revert d h. induction rs as [|r rs IH]; intros d h; simpl.
  - by rewrite app_nil_r, orb_false_r.
  - rewrite IH. do 3 f_equal. rewrite <- app_assoc. simpl. f_equal.
    unfold id. by destruct d, (reports h r), (existsb _ _).
Qed.

Lemma reports_nil r : reports [] r = false.
Proof.
  unfold reports, spec_status, shared. simpl app.
  replace (threads [r]) with ({[thread_id_ r]} : gset Z) by (unfold threads; set_solver).
  rewrite size_singleton, bool_decide_eq_false_2 by lia. by destruct (modified [r]).
Qed.

Lemma reported_snoc h cur : reported (h ++ [cur]) = reported h || reports h cur.
Proof.
  destruct h as [|r rs]; [by rewrite reports_nil|]. simpl.
  rewrite report_flags_snoc, existsb_app. simpl. rewrite orb_false_r. unfold id.
  by destruct (existsb _ _), (reports _ _).
Qed.

(** ** The printing code returns

    It touches the output only. *)

Definition says_more (t : string) (s : detect_state) : detect_state :=
  set_output (warning_count s) (output s +:+ t) (warned s) s.

Definition printable (r : RacezRecord) : Prop :=
  lock_count_ (op_ r) ≤ Z.of_nat (length (lockset_ (op_ r))) ∧
  trace_depth_ r ≤ Z.of_nat (length (stack_trace_ r)).

Lemma says_nothing s : says_more EmptyString s = s.
Proof. destruct s; unfold says_more, set_output; simpl. by rewrite app_nil_r_str. Qed.

Lemma says_more_app t1 t2 s : says_more t2 (says_more t1 s) = says_more (t1 +:+ t2) s.
Proof. unfold says_more; simpl. by rewrite app_assoc_str. Qed.

Lemma print_says t s : print t s = Ret tt (says_more t s).
Proof. done. Qed.

Lemma split_last_snoc t c : split_last (t +:+ String c EmptyString) = Some (t, c).
Proof.
  induction t as [|d t IH]; [done|].
  change (String d t +:+ String c EmptyString) with (String d (t +:+ String c EmptyString)).
  simpl. destruct (t +:+ String c EmptyString) eqn:E; [by destruct t|]. by rewrite IH.
Qed.

Section printing.
Context (addr2line : Z → option string).
(** addr2line prints one line for every address. *)
Context (addr2line_line : ∀ a, ∃ t, addr2line a = Some (t +:+ nl)).

Lemma get_filename_returns a b s : ∃ t, get_filename addr2line a b s = Ret (Some t) s.
Proof.
  destruct (addr2line_line a) as [t E]. exists t. unfold get_filename. rewrite E.
  rewrite decide_False by (by destruct t). unfold nl. rewrite split_last_snoc.
  rewrite bool_decide_eq_true_2 by done. done.
Qed.

Lemma print_locks_returns r s :
  printable r → ∃ t, print_locks r s = Ret tt (says_more t s).
Proof.
  intros [Hl _]. unfold print_locks. rewrite bool_decide_eq_true_2 by done.
  generalize (access_locks r) as ls. intros ls. revert s. induction ls as [|l ls IH]; intros s; simpl.
  - exists EmptyString. by rewrite says_nothing.
  - rewrite (bind_Ret _ _ _ _ _ (print_says _ _)).
    destruct (IH (says_more (fmt_p l +:+ tb) s)) as [t ->]. eexists. by rewrite says_more_app.
Qed.

Lemma print_frames_returns fs b s :
  ∃ b' t, print_frames addr2line fs b s = Ret b' (says_more t s).
Proof.
  revert b s. induction fs as [|f fs IH]; intros b s; simpl.
  - exists b, EmptyString. by rewrite says_nothing.
  - destruct (get_filename_returns f b s) as [n En].
    rewrite (bind_Ret _ _ _ _ _ En), (bind_Ret _ _ _ _ _ (print_says _ _)).
    edestruct IH as (b' & t & ->). do 2 eexists. by rewrite says_more_app.
Qed.

Lemma print_access_returns i r b s :
  printable r → ∃ b' t, print_access addr2line i r b s = Ret b' (says_more t s).
Proof.
  intros Hp. unfold print_access.
  rewrite (bind_Ret _ _ _ _ _ (print_says _ _)), (bind_Ret _ _ _ _ _ (print_says _ _)).
  edestruct get_filename_returns as [n En]. rewrite (bind_Ret _ _ _ _ _ En).
  rewrite (bind_Ret _ _ _ _ _ (print_says _ _)), (bind_Ret _ _ _ _ _ (print_says _ _)).
  edestruct (print_locks_returns r) as [t Et]; [done|]. rewrite (bind_Ret _ _ _ _ _ Et).
  rewrite (bind_Ret _ _ _ _ _ (print_says _ _)), (bind_Ret _ _ _ _ _ (print_says _ _)).
  rewrite bool_decide_eq_true_2 by apply Hp.
  edestruct print_frames_returns as (b' & t' & ->). do 2 eexists. by rewrite !says_more_app.
Qed.

Lemma print_accesses_returns i rs b s :
  Forall printable rs → ∃ t, print_accesses addr2line i rs b s = Ret tt (says_more t s).
Proof.
  intros Hp. revert i b s. induction Hp as [|r rs Hr _ IH]; intros i b s; simpl.
  - exists EmptyString. by rewrite says_nothing.
  - destruct (print_access_returns i r b s Hr) as (b' & t & E). rewrite (bind_Ret _ _ _ _ _ E).
    edestruct IH as [t' ->]. eexists. by rewrite says_more_app.
Qed.

Lemma report_error_returns rs a s :
  Forall printable rs →
  ∃ t, report_error addr2line rs a s =
       Ret tt (set_output (warning_count s + 1) t (warned s ++ [(a, rs)]) s).
Proof.
  intros Hp. unfold report_error.
  erewrite bind_Ret by done. erewrite bind_Ret by done.
  rewrite (bind_Ret _ _ _ _ _ (print_says _ _)), (bind_Ret _ _ _ _ _ (print_says _ _)).
  edestruct (print_accesses_returns 1 rs None) as [t Et]; [done|]. rewrite (bind_Ret _ _ _ _ _ Et).
  rewrite (bind_Ret _ _ _ _ _ (print_says _ _)), print_says. by eexists.
Qed.
End printing.

(** ** The refinement *)

(** The machine of an address, as the three maps hold it. *)
Definition machine_at (s : detect_state) (a : Z) (c : core_state) : Prop :=
  global_record_set_map s !! a = Some (record_set c) ∧
  rw_map s !! a = Some (status c) ∧
  lockset_map s !! a = Some (lockset c).

Definition unknown_at (s : detect_state) (a : Z) : Prop :=
  global_record_set_map s !! a = None ∧ rw_map s !! a = None ∧ lockset_map s !! a = None.

(** What the maps hold for an address with a given history. *)
Definition cell (s : detect_state) (a : Z) (h : option (list RacezRecord)) : Prop :=
  match h with
  | None => unknown_at s a
  | Some h =>
      h ≠ [] ∧ ∃ c, machine_at s a c ∧ core_inv h c ∧ (status c = 4 ↔ reported h = true)
  end.

Record abstracts (σ : spec_state) (s : detect_state) : Prop := {
  ab_cells : ∀ a, cell s a (histories σ !! a);
  ab_heap : ∀ a, default 0 (heap_map s !! a) = default 0 (blocks σ !! a);
  ab_found : Forall2 (λ w f, w.1 = f.1 ∧ tracks f.2 w.2) (warned s) (found σ);
  ab_count : warning_count s = Z.of_nat (length (warned s))
}.

Lemma abstracts_init : abstracts spec_init detect_init.
Proof. split; [done|done|by constructor|done]. Qed.

(** Records the detector is meant to be fed. *)
Record loggable (r : RacezRecord) : Prop := {
  lg_access : type_is MEMORY_OP r = true → access_ok r ∧ printable r;
  lg_block : type_is MEMORY_ALLOC r = true →
    0 ≤ start_address_ (op_ r) ∧ 0 ≤ size_ (op_ r) ∧
    start_address_ (op_ r) + size_ (op_ r) < 2 ^ 64
}.

(** The histories are made of accesses of the log, in its order. *)
Record from_log (past : list RacezRecord) (σ : spec_state) : Prop := {
  fl_sub : ∀ a h, histories σ !! a = Some h → h `sublist_of` past;
  fl_addr : ∀ a h r, histories σ !! a = Some h → r ∈ h →
    memory_address_ (op_ r) = a ∧ type_is MEMORY_OP r = true;
  fl_blocks : ∀ a n, blocks σ !! a = Some n → 0 ≤ a ∧ 0 ≤ n ∧ a + n < 2 ^ 64;
  fl_found : ∀ a h, (a, h) ∈ found σ →
    h `sublist_of` past ∧ (∀ r, r ∈ h → memory_address_ (op_ r) = a ∧ type_is MEMORY_OP r = true) ∧
    ∃ h' cur, h = h' ++ [cur] ∧ reports h' cur = true
}.

Lemma from_log_init : from_log [] spec_init.
Proof. split; try set_solver. Qed.

(** The accesses of a log. *)
Definition accesses (rs : list RacezRecord) : list RacezRecord :=
  filter (λ r, type_is MEMORY_OP r = true) rs.

Lemma history_sub past σ a : from_log past σ → history σ a `sublist_of` past.
Proof.
  intros Hfl. unfold history. destruct (histories σ !! a) eqn:E; simpl; [by eapply fl_sub|].
  apply sublist_nil_l.
Qed.

Lemma history_accesses past σ a r : from_log past σ → r ∈ history σ a → r ∈ accesses past.
Proof.
  intros Hfl Hr. unfold accesses. apply list_elem_of_filter.
  pose proof (history_sub past σ a Hfl) as Hsub. split; [|by eapply elem_of_sublist].
  unfold history in Hr. destruct (histories σ !! a) eqn:E; simpl in *; [|set_solver].
  by eapply fl_addr.
Qed.

Lemma from_log_weaken past σ r : from_log past σ → from_log (past ++ [r]) σ.
Proof.
  intros [H1 H2 H3 H4]. split; [|done|done|].
  - intros a h E. by apply sublist_inserts_r, (H1 a).
  - intros a h Hin. destruct (H4 a h Hin) as (? & ? & ?).
    split; [by apply sublist_inserts_r|done].
Qed.

Lemma from_log_step reuse past σ r :
  loggable r → from_log past σ → from_log (past ++ [r]) (spec_step reuse σ r).
Proof.
  intros [_ Hb] Hfl. unfold spec_step. destruct (type_is MEMORY_OP r) eqn:Em.
  - unfold spec_access. destruct (Z.eqb_spec (memory_address_ (op_ r)) 0) as [|Ha]; [by apply from_log_weaken|].
    pose proof (history_sub past σ (memory_address_ (op_ r)) Hfl) as Hsub.
    assert (Haddr : ∀ r', r' ∈ history σ (memory_address_ (op_ r)) ++ [r] →
              memory_address_ (op_ r') = memory_address_ (op_ r) ∧ type_is MEMORY_OP r' = true).
    { intros r' [Hr'|Hr']%elem_of_app; [|set_solver]. unfold history in Hr'.
      destruct (histories σ !! _) eqn:E; simpl in Hr'; [by eapply fl_addr|set_solver]. }
    apply (from_log_weaken past σ r) in Hfl as Hfl'. split; simpl.
    + intros a h [[<- <-]|[_ E]]%lookup_insert_Some; [by apply sublist_app|by eapply fl_sub].
    + intros a h r' [[<- <-]|[_ E]]%lookup_insert_Some Hr'; [auto|by eapply fl_addr].
    + intros a n E. by eapply fl_blocks.
    + intros a h Hin. destruct (reports _ r && _) eqn:Er; [|by eapply fl_found].
      apply andb_prop in Er as [Er _]. apply elem_of_app in Hin as [Hin|Hin]; [by eapply fl_found|].
      apply list_elem_of_singleton in Hin as [= -> ->].
      split; [by apply sublist_app|]. split; [naive_solver|eauto].
  - apply (from_log_weaken past σ r) in Hfl. destruct (type_is MEMORY_ALLOC r); [|done].
    specialize (Hb eq_refl). destruct Hfl as [H1 H2 H3 H4].
    unfold spec_alloc. destruct (negb reuse); [done|]. destruct (negb (is_alloc_ _ =? 0)).
    + split; simpl; [done|done| |done]. intros a n [[<- <-]|[_ E]]%lookup_insert_Some; [done|by apply H3].
    + destruct (_ =? 0); [done|]. split; simpl; [|intros a h r' [E _]%map_lookup_filter_Some; by eapply H2|done|done].
      intros a h [E _]%map_lookup_filter_Some. by eapply H1.
Qed.

(** Writing the machine of one address. *)
Definition put_machine (a : Z) (c : core_state) (s : detect_state) : detect_state :=
  set_maps (<[a := record_set c]> (global_record_set_map s)) (<[a := status c]> (rw_map s))
           (<[a := lockset c]> (lockset_map s)) s.

Lemma cell_put a c s h :
  h ≠ [] → core_inv h c → (status c = 4 ↔ reported h = true) → cell (put_machine a c s) a (Some h).
Proof.
  intros Hne Hinv H4. split; [done|]. exists c.
  unfold machine_at; simpl. by rewrite !lookup_insert_eq.
Qed.

Lemma cell_put_ne a b c s h : a ≠ b → cell s b h → cell (put_machine a c s) b h.
Proof.
  intros Hne. unfold cell, machine_at, unknown_at; simpl.
  by rewrite !lookup_insert_ne by done.
Qed.

Lemma abstracts_put σ s a h c fs :
  abstracts σ s → h ≠ [] → core_inv h c → (status c = 4 ↔ reported h = true) →
  Forall2 (λ w f, w.1 = f.1 ∧ tracks f.2 w.2) (warned s) fs →
  abstracts (mkSpec (<[a := h]> (histories σ)) (blocks σ) fs) (put_machine a c s).
Proof.
  intros [Hc Hh Hf Hn] Hne Hinv H4 Hfs. split; simpl; [|done..]. intros b.
  destruct (decide (a = b)) as [<-|Hab].
  - rewrite lookup_insert_eq. by apply cell_put.
  - rewrite lookup_insert_ne by done. by apply cell_put_ne.
Qed.

Lemma abstracts_warn σ s a h rs t :
  abstracts σ s → tracks h rs →
  abstracts (mkSpec (histories σ) (blocks σ) (found σ ++ [(a, h)]))
            (set_output (warning_count s + 1) t (warned s ++ [(a, rs)]) s).
Proof.
  intros [Hc Hh Hf Hn] Ht. split; simpl; [done|done| |].
  - apply Forall2_app; [done|]. apply Forall2_cons. by split; [|apply Forall2_nil].
  - rewrite length_app, Hn; simpl. lia.
Qed.

Section refinement.
Context (addr2line : Z → option string).
Context (addr2line_line : ∀ a, ∃ t, addr2line a = Some (t +:+ nl)).

Lemma first_access_refines σ s r :
  let a := memory_address_ (op_ r) in
  abstracts σ s → access_ok r → histories σ !! a = None →
  ∃ s', first_access r a s = Ret tt s' ∧
        abstracts (mkSpec (<[a := [r]]> (histories σ)) (blocks σ) (found σ)) s'.
Proof.
  intros a Hab Hok Hno. pose proof (ab_cells _ _ Hab a) as Hcell. rewrite Hno in Hcell.
  destruct Hcell as (H1 & H2 & H3). exists (put_machine a (core_first r) s). split.
  - unfold first_access. erewrite bind_Ret by done. rewrite H1, H3. simpl.
    unfold read_locks. rewrite bool_decide_eq_true_2 by apply Hok. done.
  - apply abstracts_put; [done|done|by apply core_first_inv| |apply Hab]. simpl.
    destruct (ok_flag _ Hok) as [-> | ->]; by split.
Qed.

Lemma later_access_refines σ s r h st :
  let a := memory_address_ (op_ r) in
  abstracts σ s → access_ok r → histories σ !! a = Some h → rw_map s !! a = Some st →
  numbered (h ++ [r]) → Forall printable (h ++ [r]) →
  ∃ s', later_access addr2line r a st s = Ret tt s' ∧
        abstracts (mkSpec (<[a := h ++ [r]]> (histories σ)) (blocks σ)
                     (if reports h r && negb (reported h) then found σ ++ [(a, h ++ [r])] else found σ)) s'.
Proof.
  intros a Hab Hok Hh Hst Hnum Hpr. pose proof (ab_cells _ _ Hab a) as Hcell. rewrite Hh in Hcell.
  destruct Hcell as (Hne & c & (H1 & H2 & H3) & Hinv & H4).
  destruct (core_detection_spec h r c Hne Hok Hnum Hinv) as (c' & E & Hinv' & Htr & H4').
  assert (Hrep : status c' = 4 ↔ reported (h ++ [r]) = true).
  { rewrite reported_snoc, orb_true_iff, H4', H4. done. }
  assert (Hne' : h ++ [r] ≠ []) by (by destruct h).
  pose proof (abstracts_put σ s a _ c' _ Hab Hne' Hinv' Hrep (ab_found _ _ Hab)) as Hput.
  unfold later_access. erewrite bind_Ret by done. rewrite H1, H3; simpl.
  rewrite H2 in Hst. injection Hst as <-.
  assert (Ec : mkCore (record_set c) (status c) (lockset c) = c) by by destruct c.
  unfold deref. erewrite bind_Ret by done. erewrite bind_Ret by done. rewrite Ec, E.
  assert (E4 : (status c =? 4) = reported h).
  { destruct (Z.eqb_spec (status c) 4) as [H|H], (reported h); naive_solver. }
  rewrite E4, (andb_comm (reports h r)). change (set_maps _ _ _ s) with (put_machine a c' s).
  destruct (negb (reported h) && reports h r) eqn:Er; unfold when.
  - assert (Hnot4 : status c ≠ 4).
    { apply andb_prop in Er as [Hr _]. rewrite H4. by destruct (reported h). }
    destruct (report_error_returns addr2line addr2line_line (record_set c') a (put_machine a c' s))
      as [t Et].
    { apply Forall_forall. intros x Hx. eapply Forall_forall; [done|]. by apply (tr_sub _ _ (Htr Hnot4)). }
    eexists. split; [|exact (abstracts_warn _ _ a _ _ t Hput (Htr Hnot4))].
    by rewrite (bind_Ret _ _ _ tt (put_machine a c' s)).
  - eexists. split; [by rewrite (bind_Ret _ _ _ tt (put_machine a c' s))|done].
Qed.

Lemma memory_op_refines past σ s r :
  abstracts σ s → from_log past σ → type_is MEMORY_OP r = true →
  Forall loggable (past ++ [r]) → numbered (accesses (past ++ [r])) →
  ∃ s', memory_op addr2line r s = Ret tt s' ∧ abstracts (spec_access r σ) s'.
Proof.
  intros Hab Hfl Hm Hlog Hnum. unfold memory_op, spec_access.
  assert (Hacc : ∀ x, x ∈ accesses (past ++ [r]) → access_ok x ∧ printable x).
  { intros x [Hx1 Hx2]%list_elem_of_filter. rewrite Forall_forall in Hlog. by apply (Hlog x). }
  assert (Hin : ∀ a x, x ∈ history σ a ++ [r] → x ∈ accesses (past ++ [r])).
  { intros a x Hx. unfold accesses. rewrite filter_app. apply elem_of_app in Hx as [Hx|Hx].
    - apply elem_of_app. left. by eapply history_accesses.
    - apply list_elem_of_singleton in Hx as ->. apply elem_of_app. right.
      apply list_elem_of_filter. set_solver. }
  set (a := memory_address_ (op_ r)) in *. destruct (Z.eqb_spec a 0) as [|Ha]; [by exists s|].
  destruct (Hacc r) as [Hok _]; [apply (Hin a); set_solver|].
  erewrite bind_Ret by done. pose proof (ab_cells _ _ Hab a) as Hcell. unfold history in *.
  destruct (histories σ !! a) as [h|] eqn:Eh; simpl in *.
  - destruct Hcell as (_ & c & (_ & Hrw & _) & _). rewrite Hrw. apply later_access_refines; try done.
    + intros x y Hx Hy. apply Hnum; apply (Hin a); by rewrite Eh.
    + apply Forall_forall. intros x Hx. apply Hacc, (Hin a). by rewrite Eh.
  - destruct Hcell as (_ & Hrw & _). rewrite Hrw, reports_nil. by apply first_access_refines.
Qed.

(** Erasing a range of the three maps. *)
Definition forget_maps (start len : Z) (s : detect_state) : detect_state :=
  set_maps (filter (λ kv, ¬ start ≤ kv.1 < start + len) (global_record_set_map s))
           (filter (λ kv, ¬ start ≤ kv.1 < start + len) (rw_map s))
           (filter (λ kv, ¬ start ≤ kv.1 < start + len) (lockset_map s)) s.

Lemma delete_map_entries_forget start len s :
  0 ≤ len → delete_map_entries start (start + len) s = Ret tt (forget_maps start len s).
Proof.
  intros Hlen. unfold delete_map_entries, range_erase.
  rewrite (proj2 (Z.leb_le start (start + len))) by lia. done.
Qed.

Lemma filter_range_lookup {A} start len (m : gmap Z A) a :
  filter (λ kv : Z * A, ¬ start ≤ kv.1 < start + len) m !! a =
  if decide (in_block start len a) then None else m !! a.
Proof.
  destruct (decide (in_block start len a)) as [Hin|Hout].
  - apply map_lookup_filter_None. right. intros x _. naive_solver.
  - rewrite map_lookup_filter. destruct (m !! a); simpl; [|done]. by rewrite option_guard_True.
Qed.

Lemma abstracts_forget σ s start len :
  abstracts σ s → abstracts (forget start len σ) (forget_maps start len s).
Proof.
  intros [Hc Hh Hf Hn]. split; simpl; [|done..]. intros a. specialize (Hc a).
  unfold in_block. rewrite filter_range_lookup. unfold cell, machine_at, unknown_at; simpl.
  rewrite !filter_range_lookup. by destruct (decide (in_block start len a)).
Qed.

Lemma forget_0 start σ : forget start 0 σ = σ.
Proof.
  destruct σ as [hs bs fs]. unfold forget; simpl. f_equal. apply map_filter_id.
  intros a h _ [? ?]; simpl in *. lia.
Qed.

Lemma abstracts_heap_at σ s a :
  abstracts σ s →
  ∃ s', heap_at a s = Ret (default 0 (blocks σ !! a)) s' ∧ abstracts σ s'.
Proof.
  intros [Hc Hh Hf Hn]. eexists. split; [unfold heap_at; run_m; by rewrite <- (Hh a)|].
  split; simpl; [done| |done|done]. intros b. destruct (decide (a = b)) as [<-|].
  - by rewrite lookup_insert_eq, <- (Hh a).
  - by rewrite lookup_insert_ne.
Qed.

Lemma memory_alloc_refines reuse past σ s r :
  abstracts σ s → from_log past σ → type_is MEMORY_ALLOC r = true → loggable r →
  ∃ s', memory_alloc reuse r s = Ret tt s' ∧ abstracts (spec_alloc reuse r σ) s'.
Proof.
  intros Hab Hfl Ht [_ Hb]. specialize (Hb Ht) as (Hw & Hsz & Hend).
  unfold memory_alloc, spec_alloc. destruct (negb reuse); [by exists s|].
  destruct (negb (is_alloc_ (op_ r) =? 0)).
  - eexists. split; [done|]. destruct Hab as [Hc Hh Hf Hn]. split; simpl; [done| |done|done].
    intros a. destruct (decide (start_address_ (op_ r) = a)) as [<-|].
    + by rewrite !lookup_insert_eq.
    + by rewrite !lookup_insert_ne by done.
  - destruct (Z.eqb_spec (start_address_ (op_ r)) 0) as [|Hst]; [by exists s|].
    assert (Hfree : ∃ s1, (if size_ (op_ r) =? 0 then heap_at (start_address_ (op_ r)) else mret (size_ (op_ r))) s =
                          Ret (freed_size r σ) s1 ∧ abstracts σ s1 ).
    { unfold freed_size. destruct (size_ (op_ r) =? 0); [by apply abstracts_heap_at|by exists s]. }
    assert (Hn : 0 ≤ freed_size r σ ∧ start_address_ (op_ r) + freed_size r σ < 2 ^ 64).
    { unfold freed_size. destruct (size_ (op_ r) =? 0); [|lia].
      destruct (blocks σ !! _) as [n|] eqn:E; simpl; [|lia].
      apply (fl_blocks _ _ Hfl) in E. lia. }
    destruct Hfree as (s1 & E & Hab1). rewrite (bind_Ret _ _ _ _ _ E). destruct Hn as [Hn0 Hn1].
    destruct (Z.eqb_spec (freed_size r σ) 0) as [->|Hn]; [rewrite forget_0; by exists s1|].
    rewrite wrap64_id by (split; lia). rewrite delete_map_entries_forget by done.
    eexists. split; [done|]. by apply abstracts_forget.
Qed.

Lemma offline_detection_refines reuse past σ s r :
  abstracts σ s → from_log past σ → Forall loggable (past ++ [r]) → numbered (accesses (past ++ [r])) →
  ∃ s', offline_detection addr2line reuse r s = Ret tt s' ∧ abstracts (spec_step reuse σ r) s'.
Proof.
  intros Hab Hfl Hlog Hnum. unfold offline_detection, spec_step.
  destruct (type_is MEMORY_OP r) eqn:Em; [by eapply memory_op_refines|].
  destruct (type_is MEMORY_ALLOC r) eqn:Ea.
  - eapply memory_alloc_refines; try done. rewrite Forall_forall in Hlog. apply Hlog. set_solver.
  - eexists. split; [done|]. by destruct Hab.
Qed.

Lemma detection_refines_from reuse rs past σ s :
  abstracts σ s → from_log past σ → Forall loggable (past ++ rs) → numbered (accesses (past ++ rs)) →
  ∃ s', for_each rs (offline_detection addr2line reuse) s = Ret tt s' ∧
        abstracts (foldl (spec_step reuse) σ rs) s' ∧
        from_log (past ++ rs) (foldl (spec_step reuse) σ rs).
Proof.
  revert past σ s. induction rs as [|r rs IH]; intros past σ s Hab Hfl Hlog Hnum; simpl.
  - exists s. by rewrite app_nil_r.
  - replace (past ++ r :: rs) with ((past ++ [r]) ++ rs) in * by by rewrite <- app_assoc.
    pose proof Hlog as [Hlog1 _]%Forall_app.
    assert (Hnum1 : numbered (accesses (past ++ [r]))).
    { unfold accesses in Hnum. rewrite filter_app in Hnum. by eapply numbered_app_l. }
    destruct (offline_detection_refines reuse past σ s r) as (s1 & E1 & Hab1); [done..|].
    rewrite (bind_Ret _ _ _ _ _ E1). apply IH; [done| |done|done].
    apply from_log_step; [|done]. rewrite Forall_forall in Hlog1. apply Hlog1. set_solver.
Qed.
End refinement.

(** ** The whole run *)

(** C1: the offline detector computes the specification.  On any log of well-formed
    records, with addr2line printing a line for every address, no assertion fails and
    nothing is accessed out of bounds; the three maps hold, for every address, the state
    of the lockset machine after exactly the accesses since the address was last freed;
    and the warnings written are those of the specification, in its order. *)
Theorem detection_refines_specification addr2line reuse rs :
  (∀ a, ∃ t, addr2line a = Some (t +:+ nl)) →
  Forall loggable rs → numbered (accesses rs) →
  ∃ s', for_each rs (offline_detection addr2line reuse) detect_init = Ret tt s' ∧
        abstracts (foldl (spec_step reuse) spec_init rs) s'.
Proof.
  intros Hline Hlog Hnum.
  destruct (detection_refines_from addr2line Hline reuse rs [] spec_init detect_init)
    as (s' & E & Hab & _); eauto using abstracts_init, from_log_init.
Qed.

Definition unknown_line (_ : Z) : option string := Some ("??:0" +:+ nl).

Lemma unknown_line_ok a : ∃ t, unknown_line a = Some (t +:+ nl).
Proof. by eexists. Qed.

Definition block_record (no addr n flag : Z) : RacezRecord :=
  mkRecord no 10 6 (mkOp addr (flag * 2 ^ 32 + n) 0 0 zero_pebs 0 (replicate 10 0)) (replicate 10 0) 0.

(** Two threads race on address 4096; the block is freed in between in the second log. *)
Definition demo_log : list RacezRecord :=
  [block_record 1 4096 8 1; access 2 10 1 [7; 8]; access 3 11 0 [8]; access 4 11 1 [9]].
Definition demo_log_freed : list RacezRecord :=
  [block_record 1 4096 8 1; access 2 10 1 [7; 8]; access 3 11 0 [8]; block_record 4 4096 0 0;
   access 5 11 1 [9]].

Lemma access_loggable no tid flag lk : flag = 0 ∨ flag = 1 → loggable (access no tid flag lk).
Proof.
  intros H. split; [|done]. intros _. destruct (access_is_ok no tid flag lk H). split; [done|].
  split; [done|]. vm_compute. discriminate.
Qed.

Lemma block_loggable no addr n flag :
  0 ≤ addr → 0 ≤ n ≤ INT_MAX → addr + n < 2 ^ 64 → loggable (block_record no addr n flag).
Proof.
  intros Ha Hn He. split; [done|]. intros _.
  assert (E : wrap32 (flag * 2 ^ 32 + n) = n).
  { transitivity (wrap32 n); [|apply wrap32_id; unfold is_int, INT_MIN; lia].
    apply wrap32_congr. rewrite Z.add_comm. apply Z_mod_plus_full. }
  unfold start_address_, size_; cbn [block_record op_ memory_address_ pip_]. rewrite E. lia.
Qed.

Ltac solve_loggable :=
  repeat apply Forall_cons_2; try apply Forall_nil_2;
  first [apply access_loggable; lia | apply block_loggable; unfold INT_MAX; lia].

Lemma demo_log_ok : Forall loggable demo_log ∧ numbered (accesses demo_log).
Proof.
  split; [unfold demo_log; solve_loggable|].
  change (accesses demo_log) with [access 2 10 1 [7; 8]; access 3 11 0 [8]; access 4 11 1 [9]].
  solve_numbered.
Qed.

Lemma detection_refines_specification_witness :
  ∃ s', for_each demo_log (offline_detection unknown_line true) detect_init = Ret tt s' ∧
        abstracts (foldl (spec_step true) spec_init demo_log) s'.
Proof.
  apply (detection_refines_specification unknown_line true demo_log);
    [apply unknown_line_ok|apply demo_log_ok|apply demo_log_ok].
Defined.

(** A warning stands for a violation in the log. *)
Lemma warned_violation rs σ s a ws :
  abstracts σ s → from_log rs σ → (a, ws) ∈ warned s →
  ∃ h, h `sublist_of` rs ∧ (∀ r, r ∈ h → memory_address_ (op_ r) = a ∧ type_is MEMORY_OP r = true) ∧
    tracks h ws ∧
    (∃ r1 r2, r1 ∈ h ∧ r2 ∈ h ∧ thread_id_ r1 ≠ thread_id_ r2) ∧
    (∃ w, w ∈ h ∧ writes w = true) ∧
    (∀ x, ∃ r, r ∈ h ∧ x ∉ locks r).
Proof.
  intros Hab Hfl Hw. apply list_elem_of_lookup in Hw as [i Hi].
  destruct (Forall2_lookup_l _ _ _ _ _ (ab_found _ _ Hab) Hi) as ([a' h] & Hf & Ha & Htr).
  simpl in *. subst a'. apply list_elem_of_lookup_2 in Hf.
  destruct (fl_found _ _ Hfl a h Hf) as (Hsub & Haddr & h' & cur & -> & Hrep).
  apply reports_inv in Hrep. eauto 10.
Qed.

(** C5: every warning names a real violation: for a warning on an address there is a
    subsequence of the log, all accesses to that address, which come from two threads at
    least, include a write and share no lock; and the accesses printed are accesses of
    that subsequence, exactly one per thread of it. *)
Theorem warnings_sound addr2line reuse rs s' a ws :
  (∀ a, ∃ t, addr2line a = Some (t +:+ nl)) →
  Forall loggable rs → numbered (accesses rs) →
  for_each rs (offline_detection addr2line reuse) detect_init = Ret tt s' →
  (a, ws) ∈ warned s' →
  ∃ h, h `sublist_of` rs ∧ (∀ r, r ∈ h → memory_address_ (op_ r) = a ∧ type_is MEMORY_OP r = true) ∧
    tracks h ws ∧
    (∃ r1 r2, r1 ∈ h ∧ r2 ∈ h ∧ thread_id_ r1 ≠ thread_id_ r2) ∧
    (∃ w, w ∈ h ∧ writes w = true) ∧
    (∀ x, ∃ r, r ∈ h ∧ x ∉ locks r).
Proof.
  intros Hline Hlog Hnum E Hw.
  destruct (detection_refines_from addr2line Hline reuse rs [] spec_init detect_init)
    as (s1 & E1 & Hab & Hfl); eauto using abstracts_init, from_log_init.
  rewrite E in E1. injection E1 as <-. by eapply warned_violation.
Qed.

Lemma warnings_sound_witness :
  ∃ h, h `sublist_of` demo_log ∧ (∀ r, r ∈ h → memory_address_ (op_ r) = 4096 ∧ type_is MEMORY_OP r = true) ∧
    tracks h [access 2 10 1 [7; 8]; access 4 11 1 [9]] ∧
    (∃ r1 r2, r1 ∈ h ∧ r2 ∈ h ∧ thread_id_ r1 ≠ thread_id_ r2) ∧
    (∃ w, w ∈ h ∧ writes w = true) ∧
    (∀ x, ∃ r, r ∈ h ∧ x ∉ locks r).
Proof.
  eapply (warnings_sound unknown_line true demo_log);
    [apply unknown_line_ok|apply demo_log_ok|apply demo_log_ok|vm_compute; reflexivity|].
  apply list_elem_of_singleton. vm_compute. reflexivity.
Defined.

(** C8: no false alarm on a protected address: when, in a well-formed log in which
    accesses with one number are of one thread, one mutex is in the lockset of every access to an address, no
    warning is ever made for that address.  Other
    records may carry the address too, such as those of an allocation and of a free of a
    block that starts there. *)
Theorem protected_address_not_reported addr2line reuse rs s' a m ws :
  (∀ a, ∃ t, addr2line a = Some (t +:+ nl)) →
  Forall loggable rs → numbered (accesses rs) →
  (∀ r, r ∈ accesses rs → memory_address_ (op_ r) = a → m ∈ locks r) →
  for_each rs (offline_detection addr2line reuse) detect_init = Ret tt s' →
  (a, ws) ∉ warned s'.
Proof.
  intros Hline Hlog Hnum Hm E Hw.
  destruct (detection_refines_from addr2line Hline reuse rs [] spec_init detect_init)
    as (s1 & E1 & Hab & Hfl); eauto using abstracts_init, from_log_init.
  rewrite E in E1. injection E1 as <-.
  destruct (warned_violation rs _ s' a ws Hab Hfl Hw) as (h & Hsub & Haddr & _ & _ & _ & Hno).
  destruct (Hno m) as (r & Hr & Hnot). apply Hnot, Hm; [|by apply Haddr].
  apply list_elem_of_filter. split; [by apply Haddr|by eapply elem_of_sublist].
Qed.

(** Two threads write the first word of a heap block, each holding mutex 8. *)
Definition demo_protected : list RacezRecord :=
  [block_record 0 4096 8 1; access 1 10 1 [7; 8]; access 2 11 1 [8]; access 3 10 1 [8; 9]].

Definition demo_protected_state : detect_state :=
  match for_each demo_protected (offline_detection unknown_line false) detect_init with
  | Ret _ s => s
  | Stop _ s => s
  end.

Lemma protected_address_not_reported_witness :
  (4096, [access 1 10 1 [7; 8]; access 2 11 1 [8]]) ∉ warned demo_protected_state.
Proof.
  apply (protected_address_not_reported unknown_line false demo_protected demo_protected_state 4096 8).
  - apply unknown_line_ok.
  - unfold demo_protected. solve_loggable.
  - change (accesses demo_protected) with [access 1 10 1 [7; 8]; access 2 11 1 [8]; access 3 10 1 [8; 9]]. solve_numbered.
  - change (accesses demo_protected) with [access 1 10 1 [7; 8]; access 2 11 1 [8]; access 3 10 1 [8; 9]].
    intros r Hr _. rewrite !elem_of_cons, elem_of_nil in Hr.
    destruct_or?; subst; vm_compute; set_solver.
  - vm_compute. reflexivity.
Defined.

(** ** Reused memory *)

(** The size the code uses for a free. *)
Definition free_size (r : RacezRecord) (s : detect_state) : Z :=
  if size_ (op_ r) =? 0 then default 0 (heap_map s !! start_address_ (op_ r)) else size_ (op_ r).

Definition is_free (r : RacezRecord) : Prop :=
  type_ r = RecordType_val MEMORY_ALLOC ∧ is_alloc_ (op_ r) = 0 ∧ start_address_ (op_ r) ≠ 0.

Lemma memory_alloc_free addr2line r s :
  is_free r → free_size r s ≠ 0 →
  ∃ s1, global_record_set_map s1 = global_record_set_map s ∧ rw_map s1 = rw_map s ∧
        lockset_map s1 = lockset_map s ∧ warned s1 = warned s ∧ output s1 = output s ∧
        offline_detection addr2line true r s =
        delete_map_entries (start_address_ (op_ r)) (wrap64 (start_address_ (op_ r) + free_size r s)) s1.
Proof.
  intros (Ht & Hf & Ha) Hn. unfold offline_detection, type_is. rewrite Ht; simpl.
  unfold memory_alloc; simpl. rewrite Hf; simpl. rewrite (proj2 (Z.eqb_neq _ _) Ha).
  unfold free_size in *. destruct (size_ (op_ r) =? 0) eqn:E0.
  - unfold heap_at at 1. run_m. apply Z.eqb_neq in Hn. rewrite Hn. by eexists (set_heap _ s).
  - exists s. run_m. by rewrite E0.
Qed.

(** C27: with the memory-reuse filter on, a free forgets every address of the freed block
    and nothing else: an address in [[start, start + size)] is as never accessed, whether
    the size comes with the record or from the allocation that was logged, the data of
    every other address is untouched, and no warning is made. *)
Theorem free_forgets_exactly_the_block addr2line r s :
  is_free r → 0 < free_size r s → 0 ≤ start_address_ (op_ r) →
  start_address_ (op_ r) + free_size r s < 2 ^ 64 →
  ∃ s', offline_detection addr2line true r s = Ret tt s' ∧ warned s' = warned s ∧ output s' = output s ∧
    ∀ a, (in_block (start_address_ (op_ r)) (free_size r s) a → unknown_at s' a) ∧
         (¬ in_block (start_address_ (op_ r)) (free_size r s) a →
            global_record_set_map s' !! a = global_record_set_map s !! a ∧
            rw_map s' !! a = rw_map s !! a ∧ lockset_map s' !! a = lockset_map s !! a).
Proof.
  intros Hfree Hn Ha Hend.
  destruct (memory_alloc_free addr2line r s Hfree) as (s1 & E1 & E2 & E3 & E4 & E5 & ->); [lia|].
  rewrite wrap64_id by (split; lia). rewrite delete_map_entries_forget by lia.
  eexists. split; [done|]. simpl. split; [done|]. split; [done|]. intros a. unfold unknown_at; simpl.
  rewrite !filter_range_lookup, E1, E2, E3. by destruct (decide (in_block _ _ a)).
Qed.

Definition demo_freed_state : detect_state :=
  match for_each (take 3 demo_log_freed) (offline_detection unknown_line true) detect_init with
  | Ret _ s => s
  | Stop _ s => s
  end.

Lemma free_forgets_exactly_the_block_witness :
  ∃ s', offline_detection unknown_line true (block_record 4 4096 0 0) demo_freed_state = Ret tt s' ∧
    warned s' = warned demo_freed_state ∧ output s' = output demo_freed_state ∧
    ∀ a, (in_block 4096 8 a → unknown_at s' a) ∧
         (¬ in_block 4096 8 a →
            global_record_set_map s' !! a = global_record_set_map demo_freed_state !! a ∧
            rw_map s' !! a = rw_map demo_freed_state !! a ∧
            lockset_map s' !! a = lockset_map demo_freed_state !! a).
Proof.
  apply (free_forgets_exactly_the_block unknown_line (block_record 4 4096 0 0) demo_freed_state);
    unfold is_free; repeat apply conj; vm_compute; first [reflexivity | discriminate].
Defined.

(** A free whose size is negative (an allocation of 2 GB or more, whose size was
    truncated to an [int]) is undefined: with an accessed address just below the block
    the erasing loop starts after its end and runs off the map. *)
Theorem negative_size_free_undefined addr2line r s a :
  is_free r → free_size r s < 0 → 0 ≤ start_address_ (op_ r) + free_size r s →
  start_address_ (op_ r) < 2 ^ 64 →
  start_address_ (op_ r) + free_size r s ≤ a < start_address_ (op_ r) → is_Some (lockset_map s !! a) →
  ∃ s', offline_detection addr2line true r s = Stop Undefined s'.
Proof.
  intros Hfree Hn H0 H1 Ha [ls Hls].
  destruct (memory_alloc_free addr2line r s Hfree) as (s1 & E1 & E2 & E3 & _ & _ & ->); [lia|].
  rewrite wrap64_id by (split; lia). unfold delete_map_entries, range_erase.
  rewrite (proj2 (Z.leb_gt _ _)) by lia. exists s1. erewrite bind_Ret by done.
  rewrite E3, (bool_decide_eq_false_2 (map_Forall _ (lockset_map s))); [done|].
  intros Hall. by apply (Hall _ _ Hls).
Qed.

Definition demo_big_free : RacezRecord := block_record 3 4097 (2 ^ 32 - 1) 0.

Lemma negative_size_free_undefined_witness :
  ∃ s', offline_detection unknown_line true demo_big_free demo_freed_state = Stop Undefined s'.
Proof.
  apply (negative_size_free_undefined unknown_line demo_big_free demo_freed_state 4096);
    unfold is_free; repeat apply conj; vm_compute; first [reflexivity | discriminate | by eexists].
Defined.

(** ** The two input files *)

(** The set of added records, in iteration order. *)
Definition ordered (ns : list RacezRecord) : list RacezRecord :=
  foldl (λ l r, set_insert r l) [] ns.

(** The records [merge_loop] analyses, in order. *)
Fixpoint merged (raw : list RacezRecord) : list RacezRecord → list RacezRecord :=
  match raw with
  | [] => λ _, []
  | r :: raw' =>
      fix inner (news : list RacezRecord) : list RacezRecord :=
        match news with
        | [] => []
        | n :: news' => if record_no_ n =? record_no_ r then n :: inner news' else r :: merged raw' news
        end
  end.

Definition no_le (a b : RacezRecord) : Prop := record_no_ a ≤ record_no_ b.
Definition no_lt (a b : RacezRecord) : Prop := record_no_ a < record_no_ b.

(** Numbered below some added record. *)
Definition below (news : list RacezRecord) (r : RacezRecord) : Prop := Exists (no_lt r) news.

#[export] Instance below_dec news r : Decision (below news r).
Proof. unfold below. apply Exists_dec. intros x. unfold no_lt. apply _. Defined.

Lemma merge_loop_merged addr2line reuse raw news s :
  merge_loop addr2line reuse raw news s = for_each (merged raw news) (offline_detection addr2line reuse) s.
Proof.
  revert news s. induction raw as [|r raw IH]; intros news; [done|].
  induction news as [|n news IHn]; intros s; [done|]. simpl.
  destruct (record_no_ n =? record_no_ r).
  - simpl. unfold mbind, M_bind. destruct (offline_detection addr2line reuse n s) as [[] s1|]; [|done]. apply IHn.
  - simpl. unfold mbind, M_bind. destruct (offline_detection addr2line reuse r s) as [[] s1|]; [|done]. apply IH.
Qed.

Lemma set_insert_elem x l y : y ∈ set_insert x l → y = x ∨ y ∈ l.
Proof.
  induction l as [|z l IH]; simpl; [set_solver|].
  destruct (record_lt x z); [set_solver|]. destruct (record_lt z x); set_solver.
Qed.

Lemma set_insert_sorted x l :
  StronglySorted (λ a b, record_lt a b = true) l →
  StronglySorted (λ a b, record_lt a b = true) (set_insert x l).
Proof.
  induction 1 as [|y l Hl IH Hy]; simpl; [by repeat constructor|].
  destruct (record_lt x y) eqn:E1; [|destruct (record_lt y x) eqn:E2].
  - constructor; [by constructor|]. constructor; [done|].
    eapply Forall_impl; [done|]. intros z. by apply record_lt_trans.
  - constructor; [done|]. apply Forall_forall. intros z [->|Hz]%set_insert_elem; [done|].
    by eapply (proj1 (Forall_forall _ _) Hy).
  - by constructor.
Qed.

Lemma ordered_sorted ns :
  StronglySorted (λ a b, record_lt a b = true) (ordered ns) ∧ (∀ n, n ∈ ordered ns → n ∈ ns).
Proof.
  unfold ordered. induction ns as [|n ns [IH1 IH2]] using rev_ind; [split; [constructor|done]|].
  rewrite foldl_snoc. split; [by apply set_insert_sorted|].
  intros m [->|Hm]%set_insert_elem; set_solver.
Qed.

(** A record that is merged comes from one of the files. *)
Lemma merged_elem raw news x : x ∈ merged raw news → x ∈ raw ∨ x ∈ news.
Proof.
  revert news. induction raw as [|r raw IH]; intros news; [set_solver|].
  induction news as [|n news IHn]; [set_solver|]. simpl. destruct (_ =? _); [set_solver|].
  intros [->|Hx]%elem_of_cons; [set_solver|]. apply IH in Hx. set_solver.
Qed.

Lemma filter_ext_in {A} (P Q : A → Prop) `{∀ x, Decision (P x)} `{∀ x, Decision (Q x)} (l : list A) :
  (∀ x, x ∈ l → P x ↔ Q x) → filter P l = filter Q l.
Proof.
  induction l as [|x l IH]; intros Hl; [done|]. rewrite !filter_cons.
  rewrite IH by set_solver. pose proof (Hl x (list_elem_of_here _ _)).
  by destruct (decide (P x)), (decide (Q x)); try tauto.
Qed.

Lemma filter_below_nil l : filter (below []) l = [].
Proof.
  induction l as [|x l IH]; [done|].
  rewrite filter_cons_False; [done|]. intros Hx. by apply Exists_nil in Hx.
Qed.

Lemma sorted_cons_elems (R : RacezRecord → RacezRecord → Prop) x l :
  StronglySorted R l → (∀ y, y ∈ l → R x y) → StronglySorted R (x :: l).
Proof. intros Hl Hx. constructor; [done|]. by apply Forall_forall. Qed.

(** The inner loop: an added record with the number of the current raw record. *)
Lemma merged_same r raw n news :
  (∀ x, x ∈ raw → no_lt r x) → (∀ x, x ∈ news → no_le n x) → record_no_ n = record_no_ r →
  merged (r :: raw) news ≡ₚ news ++ filter (below news) (r :: raw) →
  StronglySorted no_le (merged (r :: raw) news) →
  n :: merged (r :: raw) news ≡ₚ (n :: news) ++ filter (below (n :: news)) (r :: raw) ∧
  StronglySorted no_le (n :: merged (r :: raw) news).
Proof.
  intros Hr Hn E Hp Hs. assert (Hge : ∀ x, x ∈ r :: raw → no_le n x).
  { intros x [->|Hx]%elem_of_cons; unfold no_le; [lia|]. specialize (Hr x Hx). unfold no_lt in Hr. lia. }
  split.
  - rewrite Hp, (filter_ext_in (below (n :: news)) (below news)); [done|].
    intros x Hx. unfold below. rewrite Exists_cons. specialize (Hge x Hx). unfold no_lt, no_le in *.
    split; [intros [?|?]; [lia|done]|by right].
  - apply sorted_cons_elems; [done|]. intros x [Hx|Hx]%merged_elem; auto.
Qed.

(** A raw record before the next added one. *)
Lemma merged_before r raw n news :
  (∀ x, x ∈ raw → no_lt r x) → (∀ x, x ∈ news → no_le n x) → no_lt r n →
  merged raw (n :: news) ≡ₚ (n :: news) ++ filter (below (n :: news)) raw →
  StronglySorted no_le (merged raw (n :: news)) →
  r :: merged raw (n :: news) ≡ₚ (n :: news) ++ filter (below (n :: news)) (r :: raw) ∧
  StronglySorted no_le (r :: merged raw (n :: news)).
Proof.
  intros Hr Hn Hlt Hp Hs. split.
  - rewrite filter_cons_True by (by left). rewrite Hp. by apply (Permutation_middle (n :: news)).
  - apply sorted_cons_elems; [done|]. unfold no_lt, no_le in *.
    intros x [Hx|[->|Hx]%elem_of_cons]%merged_elem;
      [specialize (Hr x Hx); lia|lia|specialize (Hn x Hx); lia].
Qed.

Lemma merged_perm raw news :
  StronglySorted no_lt raw → StronglySorted no_le news →
  (∀ n, n ∈ news → ∃ r, r ∈ raw ∧ record_no_ r = record_no_ n) →
  merged raw news ≡ₚ news ++ filter (below news) raw ∧ StronglySorted no_le (merged raw news).
Proof.
  intros Hraw. revert news. induction Hraw as [|r raw Hraw IH Hr]; intros news Hnews Hin.
  - destruct news as [|n news]; [split; [done|constructor]|]. destruct (Hin n) as (? & ? & _); set_solver.
  - rewrite Forall_forall in Hr. induction Hnews as [|n news Hnews IHn Hn].
    + split; [by rewrite filter_below_nil|constructor].
    + rewrite Forall_forall in Hn. cbn [merged].
      destruct (Z.eqb_spec (record_no_ n) (record_no_ r)) as [E|E].
      * destruct IHn as [Hp Hs]; [set_solver|]. by apply merged_same.
      * assert (Hlt : no_lt r n).
        { destruct (Hin n) as (x & [->|Hx]%elem_of_cons & Ex); [set_solver|done|].
          specialize (Hr x Hx). unfold no_lt in *. lia. }
        destruct (IH (n :: news)) as [Hp Hs]; [constructor; [done|by apply Forall_forall]| |by apply merged_before].
        intros m Hm. destruct (Hin m Hm) as (x & [->|Hx]%elem_of_cons & Ex); [exfalso|eauto].
        unfold no_lt, no_le in *. apply elem_of_cons in Hm as [->|Hm]; [lia|]. specialize (Hn m Hm). lia.
Qed.

(** C28: with a file of added records, the detector analyses the two files merged by record
    number, each added record before the raw record of its number; it analyses all the
    added records (as a set), and of the raw log exactly the records numbered below some
    added record: from the number of the last added record on, the raw log is never
    looked at. *)
Theorem detect_files_merge_order addr2line reuse raw ns s :
  StronglySorted no_lt raw → ns ≠ [] →
  (∀ n, n ∈ ns → ∃ r, r ∈ raw ∧ record_no_ r = record_no_ n) →
  ∃ analysed,
    detect_files addr2line reuse raw (Some ns) s = for_each analysed (offline_detection addr2line reuse) s ∧
    analysed ≡ₚ ordered ns ++ filter (below (ordered ns)) raw ∧
    StronglySorted no_le analysed.
Proof.
  intros Hraw Hne Hin. destruct (ordered_sorted ns) as [Hs Hsub].
  exists (merged raw (ordered ns)). split.
  - destruct ns as [|n ns]; [done|]. destruct raw as [|r raw].
    + destruct (Hin n) as (? & ? & _); set_solver.
    + unfold detect_files. apply merge_loop_merged.
  - apply merged_perm; [done| |auto].
    clear Hsub. induction Hs as [|a l _ IH Ha]; constructor; [done|].
    eapply Forall_impl; [exact Ha|]. intros b Hlt%record_lt_spec. unfold no_le. lia.
Qed.

Lemma detect_files_merge_order_witness :
  ∃ analysed,
    detect_files unknown_line true demo_log (Some [access 3 12 1 []]) detect_init =
      for_each analysed (offline_detection unknown_line true) detect_init ∧
    analysed ≡ₚ [access 3 12 1 []; block_record 1 4096 8 1; access 2 10 1 [7; 8]] ∧
    StronglySorted no_le analysed.
Proof.
  apply (detect_files_merge_order unknown_line true demo_log [access 3 12 1 []] detect_init).
  - unfold demo_log. repeat constructor; unfold no_lt; simpl; lia.
  - done.
  - intros n Hn%list_elem_of_singleton. subst n. exists (access 3 11 0 [8]).
    split; [unfold demo_log; set_solver|done].
Defined.
