(* ===== verification/DetectTypes.v ===== *)
(** * The data of the detector on any input

    The detector reads its records from a file and trusts them.  Whatever the file holds,
    the detector's maps stay consistent with each other (the same addresses in all three,
    each with a set of accesses to that address in set order), so that the pointers it
    looks up are never null; a bad record ends the run at an assertion or at an access to
    its own arrays. *)

From S2P Require Import Prelude.
From S2P Require Import Records.
From S2P Require Import Text.
From S2P Require Import DetectCore.
From S2P Require Import Detect.
From S2P Require Import DetectSpec.
From stdpp Require Import base gmap list sets sorting strings.

Open Scope Z_scope.

(** ** Code that keeps an invariant and follows no null pointer *)

Definition safe {S A} (I : S → Prop) (m : M S A) : Prop :=
  ∀ s, I s → match m s with Ret _ s' => I s' | Stop f _ => f ≠ NullDeref end.

Section closure.
Context {S : Type} (I : S → Prop).

Lemma safe_bind {A B} (m : M S A) (k : A → M S B) : safe I m → (∀ a, safe I (k a)) → safe I (m ≫= k).
Proof.
  intros Hm Hk s Hs. specialize (Hm s Hs). unfold mbind, M_bind. destruct (m s) as [a s'|]; [by apply Hk|done].
Qed.

Lemma safe_ret {A} (a : A) : safe I (mret a).
Proof. by intros s. Qed.
Lemma safe_fail {A} f : f ≠ NullDeref → safe I (fail (A := A) f).
Proof. by intros Hf s _. Qed.
Lemma safe_gets {A} (f : S → A) : safe I (gets f).
Proof. by intros s. Qed.
Lemma safe_get : safe I get.
Proof. by intros s. Qed.
Lemma safe_modify (f : S → S) : (∀ s, I s → I (f s)) → safe I (modify f).
Proof. intros Hf s Hs. by apply Hf. Qed.
Lemma safe_if {A} (b : bool) (m1 m2 : M S A) : safe I m1 → safe I m2 → safe I (if b then m1 else m2).
Proof. by destruct b. Qed.
Lemma safe_when b m : safe I m → safe I (when b m).
Proof. intros H. unfold when. apply safe_if; [done|apply safe_ret]. Qed.
Lemma safe_assert b : safe I (c_assert b).
Proof. unfold c_assert. apply safe_if; [apply safe_ret|by apply safe_fail]. Qed.
Lemma safe_for_each {A} (l : list A) (f : A → M S unit) : (∀ a, safe I (f a)) → safe I (for_each l f).
Proof. intros Hf. induction l as [|a l IH]; simpl; [apply safe_ret|]. by apply safe_bind. Qed.
Lemma safe_read_locks cur : safe I (read_locks cur).
Proof. unfold read_locks. apply safe_if; [apply safe_ret|by apply safe_fail]. Qed.
End closure.

#[export] Hint Resolve safe_bind safe_ret safe_gets safe_get safe_if safe_when safe_assert safe_for_each safe_read_locks : racez.
#[export] Hint Extern 1 (safe _ (fail _)) => (apply safe_fail; discriminate) : racez.

(** ** The machine of an address *)

(** A [std::set] of accesses with a property. *)
Record set_of (P : RacezRecord → Prop) (l : list RacezRecord) : Prop := {
  so_sorted : StronglySorted (λ a b, record_lt a b = true) l;
  so_all : Forall P l
}.

Lemma sorted_sublist {A} (R : A → A → Prop) l l' : l `sublist_of` l' → StronglySorted R l' → StronglySorted R l.
Proof.
  induction 1 as [|x l l' Hl IH|x l l' Hl IH]; intros Hs; inversion Hs as [|? ? Hs' Hx]; subst; [constructor|constructor|by apply IH].
  - by apply IH.
  - apply Forall_forall. intros y Hy. eapply Forall_forall; [exact Hx|]. by eapply elem_of_sublist.
Qed.

Lemma set_of_delete P i l : set_of P l → set_of P (delete i l).
Proof.
  intros [Hs Ha]. split; [eapply sorted_sublist; [apply sublist_delete|done]|].
  apply Forall_forall. intros x Hx. eapply Forall_forall; [exact Ha|]. eapply elem_of_sublist; [exact Hx|apply sublist_delete].
Qed.

Lemma set_of_insert (P : RacezRecord → Prop) x l : P x → set_of P l → set_of P (set_insert x l).
Proof.
  intros Hx [Hs Ha]. split; [by apply set_insert_sorted|]. apply Forall_forall. intros y [->|Hy]%set_insert_elem; [done|].
  by eapply Forall_forall.
Qed.

Section machine.
Context (P : RacezRecord → Prop) (cur : RacezRecord) (Hcur : P cur).

Definition core_typed (c : core_state) : Prop := set_of P (record_set c).

Lemma safe_insert_rec : safe core_typed (insert_rec cur).
Proof. apply safe_modify. intros c. by apply set_of_insert. Qed.
Lemma safe_erase_at i : safe core_typed (erase_at i).
Proof. apply safe_modify. intros c. apply set_of_delete. Qed.
Lemma safe_goto v : safe core_typed (goto v).
Proof. by apply safe_modify. Qed.
Lemma safe_assert_size ok : safe core_typed (assert_size ok).
Proof. unfold assert_size. auto with racez. Qed.
Lemma safe_find_thread : safe core_typed (find_thread cur).
Proof. apply safe_gets. Qed.
Hint Resolve safe_insert_rec safe_erase_at safe_goto safe_assert_size safe_find_thread : racez.

Lemma core_switch_safe st : safe core_typed (core_switch cur st).
Proof.
  assert (Hc : safe core_typed (case_0 cur) ∧ safe core_typed (case_1 cur) ∧ safe core_typed (case_2 cur) ∧
    safe core_typed (case_3 cur) ∧ safe core_typed case_4).
  { unfold case_0, case_1, case_2, case_3, case_4.
    split_and!; (apply safe_bind; [auto with racez|intros _]); [..|auto with racez];
      (apply safe_bind; [auto with racez|]); intros [[i r]|]; auto 10 with racez. }
  destruct Hc as (? & ? & ? & ? & ?). unfold core_switch. repeat case_match; auto with racez.
Qed.

Lemma core_detection_safe : safe core_typed (core_detection cur).
Proof.
  unfold core_detection. apply safe_bind; [auto with racez|]. intros st. apply safe_bind; [apply core_switch_safe|]. intros may.
  apply safe_bind; [auto with racez|]. intros ls. apply safe_bind; [by apply safe_modify|]. auto 10 with racez.
Qed.
End machine.

(** ** The three maps *)

(** An access to the address. *)
Definition access_to (a : Z) (r : RacezRecord) : Prop := memory_address_ (op_ r) = a ∧ type_is MEMORY_OP r = true.

Record detect_typed (s : detect_state) : Prop := {
  dt_rw : dom (rw_map s) = dom (global_record_set_map s);
  dt_lockset : dom (lockset_map s) = dom (global_record_set_map s);
  dt_zero : global_record_set_map s !! 0 = None;
  dt_sets : ∀ a l, global_record_set_map s !! a = Some l → set_of (access_to a) l;
  dt_warned : ∀ a l, (a, l) ∈ warned s → a ≠ 0 ∧ set_of (access_to a) l;
  dt_count : warning_count s = Z.of_nat (length (warned s))
}.

Lemma detect_init_typed : detect_typed detect_init.
Proof. split; set_solver. Qed.

Lemma typed_some s a : detect_typed s → is_Some (rw_map s !! a) →
  is_Some (global_record_set_map s !! a) ∧ is_Some (lockset_map s !! a).
Proof.
  intros Hs H%elem_of_dom. rewrite (dt_rw _ Hs) in H. split; apply elem_of_dom; [done|]. by rewrite (dt_lockset _ Hs).
Qed.

(** Replacing the machine of an address. *)
Lemma typed_put s a l st ls :
  detect_typed s → a ≠ 0 → set_of (access_to a) l →
  detect_typed (set_maps (<[a := l]> (global_record_set_map s)) (<[a := st]> (rw_map s)) (<[a := ls]> (lockset_map s)) s).
Proof.
  intros [H1 H2 H3 H4 H5 H6] Ha Hl. split; simpl; try done.
  - by rewrite !dom_insert_L, H1.
  - by rewrite !dom_insert_L, H2.
  - by rewrite lookup_insert_ne.
  - intros b l' [[<- <-]|[_ E]]%lookup_insert_Some; auto.
Qed.

Lemma safe_print t : safe detect_typed (print t).
Proof. apply safe_modify. by intros s []. Qed.
#[export] Hint Resolve safe_print : racez.

Section detector.
Context (addr2line : Z → option string) (reuse : bool).

Lemma safe_get_filename a b : safe detect_typed (get_filename addr2line a b).
Proof.
  unfold get_filename. destruct (addr2line a) as [line|]; [|auto with racez].
  destruct (decide (line = EmptyString)); [destruct b as [b|]; [|auto with racez]|];
    cbv zeta; (destruct (split_last _) as [[t c]|]; auto with racez).
Qed.
Hint Resolve safe_get_filename : racez.

Lemma safe_print_frames fs b : safe detect_typed (print_frames addr2line fs b).
Proof. revert b. induction fs as [|f fs IH]; intros b; simpl; auto with racez. Qed.
Hint Resolve safe_print_frames : racez.

Lemma safe_print_access i r b : safe detect_typed (print_access addr2line i r b).
Proof. unfold print_access, print_locks. auto 20 with racez. Qed.

Lemma safe_print_accesses i rs b : safe detect_typed (print_accesses addr2line i rs b).
Proof.
  revert i b. induction rs as [|r rs IH]; intros i b; simpl; [auto with racez|].
  apply safe_bind; [apply safe_print_access|auto].
Qed.
Hint Resolve safe_print_accesses : racez.

Lemma safe_report_error l a : a ≠ 0 → set_of (access_to a) l → safe detect_typed (report_error addr2line l a).
Proof.
  intros Ha Hl. unfold report_error. apply safe_bind; [|auto 10 with racez].
  apply safe_modify. intros s [H1 H2 H3 H4 H5 H6]. split; simpl; try done.
  - intros b l' [Hin|Hin]%elem_of_app; [by apply H5|]. apply list_elem_of_singleton in Hin. by simplify_eq.
  - rewrite length_app, H6. simpl. lia.
Qed.

Lemma safe_first_access r a : a ≠ 0 → access_to a r → safe detect_typed (first_access r a).
Proof.
  intros Ha Hr s Hs. unfold first_access.
  assert (Hl : set_of (access_to a) (set_insert r [])) by (apply set_of_insert; [done|split; constructor]).
  unfold get, c_assert, read_locks, mbind, M_bind.
  do 3 (case_bool_decide; [|done]; cbv beta iota delta [mret M_ret]). by apply typed_put.
Qed.

Lemma safe_later_access r a st s :
  a ≠ 0 → access_to a r → detect_typed s → rw_map s !! a = Some st →
  match later_access addr2line r a st s with Ret _ s' => detect_typed s' | Stop f _ => f ≠ NullDeref end.
Proof.
  intros Ha Hr Hs Hst. destruct (typed_some s a Hs) as [[l Hl] [ls Hls]]; [by eexists|].
  unfold later_access. erewrite bind_Ret by done. rewrite Hl, Hls. do 2 (erewrite bind_Ret by done).
  pose proof (core_detection_safe (access_to a) r Hr (mkCore l st ls) (dt_sets _ Hs a l Hl)) as Hc.
  destruct (core_detection r (mkCore l st ls)) as [will c|f c]; [|done].
  pose proof (typed_put s a _ (status c) (lockset c) Hs Ha Hc) as Hput.
  erewrite bind_Ret by done. by apply (safe_when detect_typed will _ (safe_report_error _ _ Ha Hc)).
Qed.

Lemma elem_of_dom_range {A} (m : gmap Z A) lo hi a :
  a ∈ dom (filter (λ kv : Z * A, ¬ lo ≤ kv.1 < hi) m) ↔ a ∈ dom m ∧ ¬ lo ≤ a < hi.
Proof.
  rewrite !elem_of_dom. split.
  - intros [x [H1 H2]%map_lookup_filter_Some]. split; [by eexists|done].
  - intros [[x Hx] H]. exists x. by apply map_lookup_filter_Some.
Qed.

(** The same addresses go from all three maps. *)
Lemma safe_delete_map_entries start end_ : safe detect_typed (delete_map_entries start end_).
Proof.
  intros s [H1 H2 H3 H4 H5 H6]. unfold delete_map_entries, range_erase.
  assert (Hdom : ∀ {A} (m : gmap Z A), dom m = dom (global_record_set_map s) →
    dom (filter (λ kv : Z * A, ¬ start ≤ kv.1 < end_) m) =
    dom (filter (λ kv : Z * list RacezRecord, ¬ start ≤ kv.1 < end_) (global_record_set_map s))).
  { intros A m Hm. apply set_eq. intros a. by rewrite !elem_of_dom_range, Hm. }
  destruct (start <=? end_).
  - split; simpl; try done; [by rewrite !Hdom|by rewrite !Hdom| |].
    + apply map_lookup_filter_None. by left.
    + intros a l [E _]%map_lookup_filter_Some. by apply H4.
  - unfold get, mbind, M_bind. do 3 (case_bool_decide; [|done]; cbv beta iota delta [mret M_ret modify]). by destruct s.
Qed.
Hint Resolve safe_delete_map_entries : racez.

Lemma safe_set_heap (f : detect_state → gmap Z Z) : safe detect_typed (modify (λ s, set_heap (f s) s)).
Proof. apply safe_modify. by intros s []. Qed.

Lemma safe_heap_at k : safe detect_typed (heap_at k).
Proof.
  unfold heap_at. apply safe_bind; [auto with racez|]. intros s. apply safe_bind; [|auto with racez].
  apply (safe_set_heap (λ _, _)).
Qed.
Hint Resolve safe_set_heap safe_heap_at : racez.

Lemma safe_offline_detection r : safe detect_typed (offline_detection addr2line reuse r).
Proof.
  unfold offline_detection. destruct (type_is MEMORY_OP r) eqn:Em; [|apply safe_if].
  - intros s Hs. unfold memory_op. destruct (Z.eqb_spec (memory_address_ (op_ r)) 0) as [|Ha]; [done|].
    erewrite bind_Ret by done. destruct (rw_map s !! memory_address_ (op_ r)) as [st|] eqn:Est.
    + by apply safe_later_access.
    + by apply safe_first_access.
  - unfold memory_alloc. auto 10 with racez.
  - apply safe_modify. by intros s [].
Qed.
End detector.

(** ** The properties *)

(** C19: the detector's data stays well-formed on any input.  For every list of records,
    well-formed or not, whatever addr2line answers: if the run returns, the three maps
    hold the same addresses, none of them 0, each with a set of accesses to that address
    in the order of the set, every warning made is such a set, and the count of warnings
    is right; if it does not return, it is not because a pointer from the maps was null. *)
Theorem detector_data_typed addr2line reuse rs :
  match for_each rs (offline_detection addr2line reuse) detect_init with
  | Ret _ s' => detect_typed s'
  | Stop f _ => f ≠ NullDeref
  end.
Proof. apply (safe_for_each detect_typed); [intros r; apply safe_offline_detection|apply detect_init_typed]. Qed.
