(* ===== verification/EndToEnd.v ===== *)
(** * From the running program to the detector

    Properties that cross the components: the runtime records an event, the buffer logs
    it, and the offline detector acts on the logged entry. *)

From S2P Require Import Prelude.
From S2P Require Import Records.
From S2P Require Import LockSet.
From S2P Require Import Buffer.
From S2P Require Import Text.
From S2P Require Import DetectCore.
From S2P Require Import Detect.
From S2P Require Import DetectSpec.
From S2P Require Import Runtime.
From S2P Require Import Preload.
From S2P Require Import Pmu.
From stdpp Require Import base gmap gmultiset list sets strings.

Open Scope Z_scope.

(** ** Allocation *)

Section alloc.
Context `{HP : Platform}.
Context (getenv : string → option string) (dlsym : string → bool).
Context (dlsym_finds : ∀ f, dlsym f = true).

(** Allocations are being logged. *)
Record logging_allocs (s : rt) : Prop := {
  la_once : initializer s = true;
  la_alloc : racez_memory_allocator (cfg s) ≠ 0;
  la_enable : racez_enable (cfg s) ≠ 0
}.

Lemma alloc_record_wf tid p n flag : is_word p → record_wf (alloc_record tid p n flag).
Proof.
  intros Hp. unfold alloc_record. split; [|done]. split; simpl; [done| |done].
  unfold is_word in *. pose proof (Z.mod_pos_bound flag (2 ^ 32)). pose proof (Z.mod_pos_bound n (2 ^ 32)).
  change (2 ^ 32) with 4294967296 in *. rewrite (Z.mod_small (n mod 4294967296)) by lia. lia.
Qed.

Lemma alloc_record_size tid p n flag : size_ (op_ (alloc_record tid p n flag)) = wrap32 n.
Proof. unfold alloc_record; cbn [upd_op set_op op_]. rewrite size_set_alloc_flag. apply size_set_alloc_size. Qed.

Lemma alloc_record_flag tid p n flag : is_alloc_ (op_ (alloc_record tid p n flag)) = wrap32 flag.
Proof. unfold alloc_record; cbn [upd_op set_op op_]. apply is_alloc_set_alloc_flag. Qed.

Lemma log_alloc_ok k b tid p n flag s :
  logging_allocs s → can_log k b s →
  log_alloc tid p n flag s = Ret tt (logged k b (alloc_record tid p n flag) s).
Proof.
  intros [_ Ha He] Hcl. unfold log_alloc. erewrite bind_Ret by reflexivity.
  apply Z.eqb_neq in Ha, He. rewrite Ha, He. by apply log_ok.
Qed.

(** One entry was logged: the others are as before, the new one stands for the record. *)
Lemma logged_entry k b r :
  record_wf r → copies_overrun r = false → record_wf (blk_at (start_block b) (k + 1)) →
  same_event r (blk_at (start_block (store_next k r b)) (k + 1)).
Proof.
  intros Hr Ho Hb. rewrite blk_at_store_next, decide_True by done.
  rewrite apply_fill by done. by apply filled_same_event.
Qed.

Lemma malloc_free_logged k b t1 t2 p n s :
  logging_allocs s → can_log k b s → k + 2 < BUFFERSIZE → is_word p →
  (∀ i, record_wf (blk_at (start_block b) i)) →
  ∃ s' b', (malloc getenv dlsym t1 p n ;; free getenv dlsym t2 p) s = Ret tt s' ∧
    global_buffer (buffer s') = Some b' ∧
    same_event (alloc_record t1 p n 1) (blk_at (start_block b') (k + 1)) ∧
    same_event (alloc_record t2 p 0 0) (blk_at (start_block b') (k + 2)).
Proof.
  intros Hla Hcl Hk Hp Hb.
  assert (Hon : ∀ s, initializer s = true → once getenv dlsym s = Ret tt s).
  { intros s1 H1. unfold once, gets, mbind, M_bind. by rewrite H1. }
  destruct (@resolve_through_run dlsym dlsym_finds Z "malloc" (RealMalloc t1 n) s eq_refl)
    as (s1 & E1 & [Fc Fb _ _] & _ & Fi & _).
  assert (Hla1 : logging_allocs s1) by (destruct Hla; split; by rewrite ?Fi, ?Fc).
  assert (Hcl1 : can_log k b s1) by (destruct Hcl; split; by rewrite ?Fb, ?Fc).
  set (r1 := alloc_record t1 p n 1). set (s2 := logged k b r1 s1).
  assert (Em : malloc getenv dlsym t1 p n s = Ret p s2).
  { unfold malloc. rewrite (bind_Ret _ _ _ _ _ (Hon s (la_once _ Hla))), E1.
    by rewrite (bind_Ret _ _ _ _ _ (log_alloc_ok k b t1 p n 1 s1 Hla1 Hcl1)). }
  rewrite (bind_Ret _ _ _ _ _ Em).
  destruct (@resolve_through_run dlsym dlsym_finds unit "free" (RealFree t2 p) s2 eq_refl)
    as (s3 & E3 & [Gc Gb _ _] & _ & Gi & _).
  assert (Hla3 : logging_allocs s3) by (destruct Hla1; split; by rewrite ?Gi, ?Gc).
  assert (Hcl3 : can_log (k + 1) (store_next k r1 b) s3).
  { destruct (can_log_next k b r1 s1 Hcl1 Hk). split; by rewrite ?Gb, ?Gc. }
  set (r2 := alloc_record t2 p 0 0).
  exists (logged (k + 1) (store_next k r1 b) r2 s3), (store_next (k + 1) r2 (store_next k r1 b)). split.
  - unfold free. rewrite (bind_Ret _ _ _ _ _ (Hon s2 (la_once _ Hla1))), E3. by apply log_alloc_ok.
  - split; [done|]. split.
    + rewrite blk_at_store_next, decide_False by lia.
      apply logged_entry; [by apply alloc_record_wf|done|apply Hb].
    + replace (k + 2) with (k + 1 + 1) by lia.
      apply logged_entry; [by apply alloc_record_wf|done|]. rewrite blk_at_store_next, decide_False by lia. apply Hb.
Qed.
End alloc.

(** The detector on the two entries. *)
Lemma alloc_entries_forget addr2line d e1 e2 t1 t2 p n :
  same_event (alloc_record t1 p n 1) e1 → same_event (alloc_record t2 p 0 0) e2 →
  0 < p → 0 < n ≤ INT_MAX → p + n < 2 ^ 64 →
  ∃ d', for_each [e1; e2] (offline_detection addr2line true) d = Ret tt d' ∧
        ∀ a, in_block p n a → unknown_at d' a.
Proof.
  intros (_ & T1 & _ & _ & _ & A1) (_ & T2 & _ & _ & _ & A2) Hp Hn Hend.
  destruct (A1 eq_refl) as (S1 & N1 & F1). destruct (A2 eq_refl) as (S2 & N2 & F2).
  rewrite alloc_record_size in N1, N2. rewrite alloc_record_flag in F1, F2.
  change (start_address_ (op_ (alloc_record t1 p n 1))) with p in S1.
  change (start_address_ (op_ (alloc_record t2 p 0 0))) with p in S2.
  change (wrap32 1) with 1 in F1. change (wrap32 0) with 0 in N2, F2.
  rewrite wrap32_id in N1 by (unfold is_int, INT_MIN, INT_MAX in *; lia).
  assert (E1 : offline_detection addr2line true e1 d = Ret tt (set_heap (<[p := n]> (heap_map d)) d)).
  { unfold offline_detection, type_is. rewrite T1; simpl. unfold memory_alloc; simpl. by rewrite F1, S1, N1. }
  cbn [for_each]. rewrite (bind_Ret _ _ _ _ _ E1). set (d1 := set_heap _ d).
  assert (Hfs : free_size e2 d1 = n).
  { unfold free_size. rewrite N2, S2; simpl. by rewrite lookup_insert_eq. }
  destruct (memory_alloc_free addr2line e2 d1) as (s1 & _ & _ & _ & _ & _ & E2);
    [split; [done|]; split; [done|lia]|lia|].
  rewrite Hfs, S2, wrap64_id in E2 by (split; lia).
  rewrite delete_map_entries_forget in E2 by lia.
  exists (forget_maps p n s1). rewrite (bind_Ret _ _ _ _ _ E2). split; [done|].
  intros a Ha. unfold unknown_at; simpl. rewrite !filter_range_lookup. by rewrite !decide_True.
Qed.

(** C23: a block that is allocated and freed leaves no trace in the detector.  With the
    allocation log on, [malloc] and [free] put two entries in the event buffer from which
    the detector, run with the memory-reuse filter, forgets exactly that block's
    addresses: whatever it knew before, afterwards they count as never accessed. *)
Theorem freed_block_forgotten (HP : Platform) getenv dlsym addr2line d k b t1 t2 p n s :
  (∀ f, dlsym f = true) → logging_allocs s → can_log k b s → k + 2 < BUFFERSIZE →
  (∀ i, record_wf (blk_at (start_block b) i)) →
  0 < p → 0 < n ≤ INT_MAX → p + n < 2 ^ 64 →
  ∃ s' b', (malloc getenv dlsym t1 p n ;; free getenv dlsym t2 p) s = Ret tt s' ∧
    global_buffer (buffer s') = Some b' ∧
    ∃ d', for_each [blk_at (start_block b') (k + 1); blk_at (start_block b') (k + 2)]
            (offline_detection addr2line true) d = Ret tt d' ∧
          ∀ a, in_block p n a → unknown_at d' a.
Proof.
  intros Hd Hla Hcl Hk Hb Hp Hn Hend.
  destruct (malloc_free_logged getenv dlsym Hd k b t1 t2 p n s Hla Hcl Hk) as (s' & b' & E & Hb' & H1 & H2);
    [split; lia|done|].
  exists s', b'. split; [done|]. split; [done|]. by eapply alloc_entries_forget.
Qed.

Definition demo_alloc_rt : rt :=
  mkRt (mkCfg 1 1 0 1 0 0 0 0 1) true ∅ (mkTls false ∅) (mkBS (Some (demo_buffer 3)) ∅) pmu_init [].

Lemma freed_block_forgotten_witness :
  ∃ s' b', (malloc (HP := demo_platform) (λ _, None) (λ _, true) 7 4096 8 ;;
            free (HP := demo_platform) (λ _, None) (λ _, true) 7 4096) demo_alloc_rt = Ret tt s' ∧
    global_buffer (buffer s') = Some b' ∧
    ∃ d', for_each [blk_at (start_block b') 4; blk_at (start_block b') 5]
            (offline_detection unknown_line true) demo_freed_state = Ret tt d' ∧
          ∀ a, in_block 4096 8 a → unknown_at d' a.
Proof.
  apply (freed_block_forgotten demo_platform (λ _, None) (λ _, true) unknown_line demo_freed_state 3 (demo_buffer 3) 7 7 4096 8 demo_alloc_rt);
    [done|by split|split; [done|done|split; vm_compute; done|done]|reflexivity
    |intros i; apply zero_record_wf|lia|unfold INT_MAX; lia|lia].
Defined.

(** ** Samples *)

Lemma seen_locks_recorded s tid m :
  tls_wf (locksets s) → m ∈ seen_locks (lockset_of s tid) ↔ m ∈ thread_recorded (locksets s) tid.
Proof.
  intros [Hkey _]. unfold lockset_of, thread_recorded. destruct (key_once (locksets s)) eqn:Ek; simpl.
  - destruct (tls (locksets s) !! tid) as [l|]; simpl; [|multiset_solver].
    unfold recorded. by rewrite elem_of_list_to_set_disj.
  - rewrite (Hkey eq_refl). simpl. multiset_solver.
Qed.

Lemma lockset_of_wf s tid l : tls_wf (locksets s) → lockset_of s tid = Some l → lockset_wf l.
Proof.
  intros [_ Hwf]. unfold lockset_of. destruct (key_once (locksets s)); [|done]. apply Hwf.
Qed.

Lemma trace_of_bound c sm r : trace_of c sm r → trace_depth_ r ≤ 10.
Proof.
  unfold trace_of. destruct (_ =? 0); [lia|]. intros [-> _]. rewrite length_take. lia.
Qed.

(** *** The records of one sample, on every processor *)

(** What the detector needs of the record of a sampled access. *)
Record access_event (tid : Z) (ls : list Z) (r : RacezRecord) : Prop := {
  ae_tid : thread_id_ r = tid;
  ae_type : type_is MEMORY_OP r = true;
  ae_locks : take (Z.to_nat (lock_count_ (op_ r))) (lockset_ (op_ r)) = ls;
  ae_count : lock_count_ (op_ r) ≤ 10;
  ae_depth : trace_depth_ r ≤ 10;
  ae_wf : record_wf r
}.

(** A delivery of the signal that finds a sampled access with instruction pointer [pc]: on
    Intel the last entry of the thread's sampling buffer; on AMD a load or a store in the
    data registers. *)
Inductive takes_sample (ld st : Z → bool) (tid : Z) (sm : sample) (s : rt) : Z → Prop :=
  | takes_pebs hdr e :
      type (pmu s) = INTEL_NHM_PMU ∨ type (pmu s) = INTEL_CORE_PMU →
      racez_sampling_adjust (cfg s) = 0 ∨ write_pmds_ok sm = true →
      hdr_key_once (pmu s) = true → hdr_tls (pmu s) !! tid = Some hdr →
      0 < hdr_count hdr → hdr_entries hdr !! (Z.to_nat (hdr_count hdr) - 1)%nat = Some e →
      takes_sample ld st tid sm s (ip e)
  | takes_ibs op pc addr :
      type (pmu s) = AMD64_PMU → msg_ok sm = true →
      read_pmds sm 11 = Some op → read_pmds sm 8 = Some pc → read_pmds sm 12 = Some addr →
      is_word addr → ld op || st op = true →
      takes_sample ld st tid sm s pc.

(** The entries of a buffer after a sequence of records. *)
Fixpoint store_all `{HP : Platform} (k : Z) (rs : list RacezRecord) (b : BufferData) : BufferData :=
  match rs with
  | [] => b
  | r :: rs' => store_all (k + 1) rs' (store_next k r b)
  end.

Section store_all.
Context `{HP : Platform}.

Lemma log_all_buffer k b rs s :
  global_buffer (buffer s) = Some b → global_buffer (buffer (log_all k b rs s)) = Some (store_all k rs b).
Proof. revert k b s. induction rs as [|r rs IH]; intros k b s Hb; [done|]. simpl. by apply IH. Qed.

Lemma store_all_at k rs b : buffer_at k b → buffer_at (k + Z.of_nat (length rs)) (store_all k rs b).
Proof.
  revert k b. induction rs as [|r rs IH]; intros k b Hat; simpl; [by rewrite Z.add_0_r|].
  replace (k + Z.of_nat (S (length rs))) with (k + 1 + Z.of_nat (length rs)) by lia. by apply IH, store_next_at.
Qed.

Lemma store_all_before k rs b i : i ≤ k → blk_at (start_block (store_all k rs b)) i = blk_at (start_block b) i.
Proof.
  revert k b. induction rs as [|r rs IH]; intros k b Hi; [done|]. simpl. rewrite IH by lia.
  rewrite blk_at_store_next. by rewrite decide_False by lia.
Qed.

Lemma store_all_entry k rs b j r :
  (∀ i, record_wf (blk_at (start_block b) i) ) → Forall (λ r, record_wf r ∧ copies_overrun r = false) rs → rs !! j = Some r →
  same_event r (blk_at (start_block (store_all k rs b)) (k + 1 + Z.of_nat j)).
Proof.
  intros Hb Hrs. assert (Hb' : ∀ i, k < i → record_wf (blk_at (start_block b) i)) by auto. clear Hb. revert k b j Hb'.
  induction Hrs as [|r0 rs [Hwf Ho] _ IH]; intros k b [|j] Hb Hj; simplify_eq/=.
  - rewrite Z.add_0_r, store_all_before by lia. apply logged_entry; [done|done|apply Hb; lia].
  - replace (k + 1 + Z.of_nat (S j)) with (k + 1 + 1 + Z.of_nat j) by lia. apply IH; [|done].
    intros i Hi. rewrite blk_at_store_next, decide_False by lia. apply Hb. lia.
Qed.
End store_all.

Section records.
Context `{HP : Platform}.

Lemma pebs_access_event tid e sip ls r :
  pebs_event tid e sip ls r → trace_depth_ r ≤ 10 → is_word (ip e) → access_event tid ls r.
Proof.
  intros [Htid Ht Ha _ Hp _ _ Hl Hc Hs Hf] Hd Hip. split; try done; [lia|]. split; [|done].
  split; [rewrite Ha; by vm_compute|by rewrite Hp|done].
Qed.

Lemma ibs_access_event tid addr pc sip w ls r :
  ibs_event tid addr pc sip w ls r → is_word pc → is_word addr → access_event tid ls r.
Proof.
  intros [Htid Ht Haddr Hp _ _ Hl Hc Hs Hf Hd] Hpc Ha. split; try done; [lia|]. split; [|done].
  split; [by rewrite Haddr|by rewrite Hp|done].
Qed.

Lemma access_event_fits tid ls r : access_event tid ls r → record_wf r ∧ copies_overrun r = false.
Proof.
  intros []. split; [done|]. unfold copies_overrun.
  rewrite (proj2 (Z.ltb_ge 10 _)), (proj2 (Z.ltb_ge 10 (trace_depth_ r))) by lia. by rewrite andb_false_r.
Qed.

(** The handler returns and logs one record, or two on a Core 2 that logs the signal
    context; all are accesses of the thread with the locks recorded for it. *)
Lemma sample_records ld st tid sm s k b pc :
  takes_sample ld st tid sm s pc → is_word pc → is_word (greg sm 16) →
  is_int (num_stat (pmu s) + 1) → can_log k b s → k + 2 < BUFFERSIZE → racez_lockset (cfg s) ≠ 0 →
  (∀ l, lockset_of s tid = Some l → lockset_wf l) →
  ∃ s' r us, signal_handler ld st tid sm s = Ret tt s' ∧
    global_buffer (buffer s') = Some (store_all k (r :: us) b) ∧ (length us ≤ 1)%nat ∧ pip_ (op_ r) = pc ∧
    Forall (access_event tid (seen_locks (lockset_of s tid))) (r :: us).
Proof.
  intros Ht Hpc Hsip Hint Hcl Hk Hlo Hwf. destruct Ht as [hdr e Hty Hadj Hkey Hhdr Hc He|op pc addr Hty Hmsg H11 H8 H12 Ha Hop].
  - destruct (pebs_sample_records HP ld st tid sm s k b hdr e Hty Hint Hcl Hk Hlo Hadj Hwf Hkey Hhdr Hc He)
      as (r & us & E & Hr & Htr & Hus). eexists _, r, us. split; [exact E|]. split.
    { assert (Hre : ∀ t, buffer (readjusted sm t) = buffer t) by (intros t; unfold readjusted; by destruct (_ =? 0)).
      simpl. rewrite Hre. apply (log_all_buffer (k + 1)). done. }
    pose proof (trace_of_bound _ _ _ Htr) as Hd. pose proof (pebs_access_event _ _ _ _ _ Hr Hd Hpc) as Hae.
    destruct (logs_context s).
    + destruct Hus as (u & -> & Hu & Hud). split; [simpl; lia|]. split; [apply Hr|].
      repeat apply Forall_cons_2; [done| |apply Forall_nil_2]. eapply pebs_access_event; [exact Hu|lia|done].
    + subst us. split; [simpl; lia|]. split; [apply Hr|]. by apply Forall_singleton.
  - destruct (ibs_sample HP ld st tid sm s k b op pc addr Hty Hint Hcl Hwf Hmsg H11 H8 H12) as [H _].
    destruct (H Hop) as (r & E & Hr). eexists _, r, []. split; [exact E|]. split; [done|]. split; [simpl; lia|].
    split; [apply Hr|]. apply Forall_singleton. by eapply ibs_access_event.
Qed.

(** What the detector reads from a logged entry. *)
Lemma logged_access k b rs tid ls j r :
  (∀ i, record_wf (blk_at (start_block b) i)) → Forall (access_event tid ls) rs → rs !! j = Some r →
  let entry := blk_at (start_block (store_all k rs b)) (k + 1 + Z.of_nat j) in
  thread_id_ entry = tid ∧ type_is MEMORY_OP entry = true ∧ pip_ (op_ entry) = pip_ (op_ r) ∧
  locks entry = list_to_set ls.
Proof.
  intros Hb Hrs Hj entry. pose proof (Forall_lookup_1 _ _ _ _ Hrs Hj) as [Htid Hty Hl _ _ _].
  destruct (store_all_entry k rs b j r Hb) as (Et & Ety & _ & _ & Hop & _); [|done|].
  { eapply Forall_impl; [exact Hrs|]. intros x. apply access_event_fits. }
  destruct (Hop Hty) as (_ & Epip & _ & _ & _ & Hn & Hlk). unfold locks, access_locks, entry.
  rewrite Hn, Hlk, Hl, Epip, Et. repeat split; [done|]. revert Hty. unfold type_is. by rewrite Ety.
Qed.
End records.

(** C3: a sampled access never claims a lock its thread did not hold.  The library is
    initialised with the lockset option on and the allocation log off, the real functions
    succeed, sampling is enabled, records are written and the buffer has room for two
    more.  Take any interleaving of calls of the lock and unlock wrappers by any threads,
    from locksets in which what is recorded for the thread in hand is what it holds or
    less.  A signal that then finds a sampled access of that thread, on any of the three
    supported processors, makes the handler log it as the next entry, under that thread
    and the sampled instruction (on a Core 2, possibly with a second entry for the
    interrupted context).  Every mutex the detector reads from these entries is one the
    thread holds at that point; and if what was recorded at the start was all the thread
    held, and no thread has had more than ten mutexes recorded at a time, the detector
    reads exactly the mutexes held. *)
Theorem sampled_locks_are_held (HP : Platform) getenv dlsym mem enable sched ld st tid sm s k b pc held0 :
  (∀ f, dlsym f = true) → (∀ t, (mem t).1 ≠ 0) → (∀ t, length (mem t).2 = 10%nat) →
  ready enable s → enable ≠ 0 → tls_wf (locksets s) → thread_recorded (locksets s) tid ⊆ held0 →
  can_log k b s → k + 2 < BUFFERSIZE → is_int (num_stat (pmu s) + 1) →
  takes_sample ld st tid sm s pc → is_word pc → is_word (greg sm 16) →
  (∀ i, record_wf (blk_at (start_block b) i)) →
  ∃ s' b' n, (run_hooks (hook getenv dlsym mem) sched ;; signal_handler ld st tid sm) s = Ret tt s' ∧
    global_buffer (buffer s') = Some b' ∧ buffer_at (k + n) b' ∧ 1 ≤ n ≤ 2 ∧
    pip_ (op_ (blk_at (start_block b') (k + 1))) = pc ∧
    ∀ i, k < i ≤ k + n →
      let entry := blk_at (start_block b') i in
      let held := foldl held_step held0 (events_of tid sched) in
      thread_id_ entry = tid ∧ type_is MEMORY_OP entry = true ∧
      (∀ m, m ∈ locks entry → m ∈ held) ∧
      (thread_recorded (locksets s) tid = held0 →
       (∀ t, fits all_seen (thread_recorded (locksets s) t) (events_of t sched)) → ∀ m, m ∈ held → m ∈ locks entry).
Proof.
  intros Hd Hm Hw Hr Hen Hwf Hheld Hcl Hk Hint Ht Hpc Hsip Hb.
  destruct (run_wrapped getenv dlsym Hd mem Hm Hw enable sched s Hr Hwf)
    as (s1 & E1 & Hr1 & [Fc Fb Fp _] & Hwf1 & Hsub & Hex).
  rewrite (bind_Ret _ _ _ _ _ E1).
  destruct (sample_records ld st tid sm s1 k b pc) as (s2 & r & us & E2 & Eb & Hus & Epc & Hev); try done.
  { destruct Ht as [hdr e|op pc addr]; [eapply takes_pebs|eapply takes_ibs]; by rewrite ?Fp, ?Fc. }
  { by rewrite Fp. }
  { destruct Hcl; split; by rewrite ?Fb, ?Fc. }
  { apply Hr1. }
  { intros l. by apply lockset_of_wf. }
  pose proof (λ j r', logged_access k b (r :: us) tid _ j r' Hb Hev) as Hentry.
  exists s2, (store_all k (r :: us) b), (Z.of_nat (length (r :: us))).
  split; [done|]. split; [done|]. split; [apply store_all_at; apply Hcl|]. split; [simpl; lia|]. split.
  { destruct (Hentry 0%nat r eq_refl) as (_ & _ & E & _). change (Z.of_nat 0) with 0 in E. rewrite Z.add_0_r in E. by rewrite E. }
  intros i Hi. cbv zeta. destruct (lookup_lt_is_Some_2 (r :: us) (Z.to_nat (i - k - 1))) as [r' Hr']; [lia|].
  destruct (Hentry _ r' Hr') as (H1 & H2 & _ & H4).
  replace (k + 1 + Z.of_nat (Z.to_nat (i - k - 1))) with i in * by lia. split; [done|]. split; [done|].
  rewrite H4. assert (Hseen : ∀ m, m ∈ (list_to_set (seen_locks (lockset_of s1 tid)) : gset Z) ↔ m ∈ thread_recorded (locksets s1) tid)
    by (intros m; rewrite elem_of_list_to_set; by apply seen_locks_recorded).
  unfold expected in *. rewrite (proj2 (Z.eqb_neq _ _) Hen) in *. split.
  - intros m Hin%Hseen. specialize (Hsub tid held0 Hheld). multiset_solver.
  - intros E0 Hfits m Hin. apply Hseen. rewrite Hex, E0; [done|]. intros t. by apply fits_noted.
Qed.

(** A thread that holds mutex 9 when the schedule starts. *)
Definition demo_sampled (t : pmu_kind) : rt :=
  mkRt (mkCfg 1 1 0 0 1 1 0 1 1) true {["pthread_mutex_lock"; "pthread_create"]}
       (mkTls true {[7 := mkLOCKSET 1 0 [9; 0; 0; 0; 0; 0; 0; 0; 0; 0]]})
       (mkBS (Some (demo_buffer 3)) ∅) (demo_pmu t) [].

Definition demo_locking : list (Z * lock_event) := [(7, Lock 5); (8, Lock 6); (7, Lock 4); (7, Unlock 5)].

Lemma demo_sampled_ok t :
  ready 1 (demo_sampled t) ∧ tls_wf (locksets (demo_sampled t)) ∧ can_log (HP := demo_platform) 3 (demo_buffer 3) (demo_sampled t).
Proof.
  split; [split; try done; simpl; set_solver|]. split.
  - split; [done|]. apply map_Forall_singleton. split; simpl; [done|lia|done].
  - split; [done|done|split; vm_compute; done|done].
Qed.

Lemma sampled_locks_are_held_witness :
  ∃ s' b' n, (run_hooks (hook (HP := demo_platform) (λ _, None) (λ _, true) (λ _, demo_mem)) demo_locking ;;
              signal_handler (HP := demo_platform) (λ _, true) (λ _, true) 7 demo_sample) (demo_sampled INTEL_CORE_PMU) = Ret tt s' ∧
    global_buffer (buffer s') = Some b' ∧ buffer_at (HP := demo_platform) (3 + n) b' ∧ 1 ≤ n ≤ 2 ∧
    pip_ (op_ (blk_at (start_block b') 4)) = 4200 ∧
    ∀ i, 3 < i ≤ 3 + n →
      let entry := blk_at (start_block b') i in
      let held := foldl held_step {[+ 9 +]} (events_of 7 demo_locking) in
      thread_id_ entry = 7 ∧ type_is MEMORY_OP entry = true ∧
      (∀ m, m ∈ locks entry → m ∈ held) ∧
      (thread_recorded (locksets (demo_sampled INTEL_CORE_PMU)) 7 = {[+ 9 +]} →
       (∀ t, fits all_seen (thread_recorded (locksets (demo_sampled INTEL_CORE_PMU)) t) (events_of t demo_locking)) →
       ∀ m, m ∈ held → m ∈ locks entry).
Proof.
  destruct (demo_sampled_ok INTEL_CORE_PMU) as (H1 & H2 & H3).
  apply (sampled_locks_are_held demo_platform (λ _, None) (λ _, true) (λ _, demo_mem) 1 _ (λ _, true) (λ _, true) 7
           demo_sample (demo_sampled INTEL_CORE_PMU) 3 (demo_buffer 3) 4200 {[+ 9 +]});
    [done|done|done|exact H1|lia|exact H2|vm_compute (thread_recorded _ 7); done|exact H3|reflexivity
    |vm_compute; split; discriminate| |vm_compute; split; [discriminate|reflexivity]
    |vm_compute; split; [discriminate|reflexivity]|intros i; apply zero_record_wf].
  apply (takes_pebs (λ _, true) (λ _, true) 7 demo_sample (demo_sampled INTEL_CORE_PMU) demo_hdr
           (mkPebs 2 4200 1 2 3 4 5 6 7 8 9 10 11 12 13 14 15 16));
    [by right|by right|reflexivity|reflexivity|reflexivity|reflexivity].
Defined.
