(* ===== verification/Benchmark.v ===== *)
(** * The test program

    benchmarks/test/test-1.c, two threads that write one variable without a common lock,
    run with the library preloaded; and the stubs of util/util.cc that a program is linked
    with when the library is not.  Whatever the interleaving of the two threads is, once
    both have been sampled at the variable the detector's run on the log of the session
    reports it. *)

From S2P Require Import Prelude.
From S2P Require Import Records.
From S2P Require Import LockSet.
From S2P Require Import Buffer.
From S2P Require Import Text.
From S2P Require Import Runtime.
From S2P Require Import Preload.
From S2P Require Import Pmu.
From S2P Require Import Lifecycle.
From S2P Require Import DetectCore.
From S2P Require Import Detect.
From S2P Require Import DetectSpec.
From S2P Require Import EndToEnd.
From stdpp Require Import base gmap gmultiset list sets strings.

Open Scope Z_scope.

(** ** The stubs *)

Definition stub_racez_start {S} : M S Z := mret 0.
Definition stub_racez_stop {S} : M S Z := mret 0.
Definition stub_racez_log_memory_allocation {S} (start_address size is_alloc : Z) : M S unit := mret tt.
Definition stub_debug_mutex {S} : M S unit := mret tt.

(** While nothing is sampled the preloaded functions are as good as the stubs. *)
Lemma log_memory_allocation_stub `{HP : Platform} tid a n f s :
  racez_enable (cfg s) = 0 → racez_log_memory_allocation tid a n f s = stub_racez_log_memory_allocation a n f s.
Proof.
  intros H. unfold racez_log_memory_allocation, log_alloc, gets, mbind, M_bind. rewrite H. simpl. by rewrite andb_false_r.
Qed.

Lemma debug_mutex_stub tid s :
  lockset_of s tid = None → debug_mutex tid s = stub_debug_mutex s.
Proof. intros H. unfold debug_mutex. by rewrite (bind_Ret (GetPerThreadLockset tid) _ s (lockset_of s tid) s), H. Qed.

(** ** The program *)

(** What a thread does, as far as the library can see it: [Begin] is the start routine of
    the library, a store to memory is seen when it is sampled. *)
Inductive action :=
  | Begin
  | Malloc (q n : Z)
  | Free (q : Z)
  | LockMutex (m : Z)
  | UnlockMutex (m : Z)
  | Store (p v : Z).

(** [#define M 10000] *)
Definition M_rounds : nat := Z.to_nat 10000.

(** [sum = sum + j;], seven times *)
Definition add_seven (j sum : Z) : Z := Nat.iter 7 (λ sum, sum + j) sum.

Section program.
(** The address of [mutex]. *)
Context (mutex : Z).

(** [n] rounds of the loop of [foo] from [j] on, and the value of [sum] after them. *)
Fixpoint foo_loop (n : nat) (j sum : Z) : list action * Z :=
  match n with
  | O => ([], sum)
  | S n' =>
      let locked := if j `rem` 100 =? 0 then [LockMutex mutex] else [] in
      let sum := add_seven j sum in
      let unlocked := if j `rem` 100 =? 0 then [UnlockMutex mutex] else [] in
      let rest := foo_loop n' (j + 1) sum in
      (locked ++ unlocked ++ rest.1, rest.2)
  end.

(** [q]: what [malloc] answers. *)
Definition foo (q : Z) : list action := Malloc q 1000 :: (foo_loop (Z.to_nat 6000) 0 0).1 ++ [Free q].

Fixpoint bar_loop (n : nat) (j sum : Z) : Z :=
  match n with O => sum | S n' => bar_loop n' (j + 1) (add_seven j sum) end.

Definition bar (q : Z) : list action := [Malloc q 1000; Free q].

(** [qs]: the answers of [malloc], round by round. *)
Definition foo_2 (qs : nat → Z) (p : Z) : list action :=
  concat ((λ i, foo (qs i) ++ [Store p 1]) <$> seq 0 M_rounds).
Definition foo_1 (qs : nat → Z) (p : Z) : list action := foo_2 qs p.
Definition foo_0 (qs : nat → Z) (p : Z) : list action := foo_1 qs p.

Definition bar_2 (qs : nat → Z) (p : Z) : list action :=
  concat ((λ i, bar (qs i) ++ [Store p 1]) <$> seq 0 M_rounds).
Definition bar_1 (qs : nat → Z) (p : Z) : list action := bar_2 qs p.
Definition bar_0 (qs : nat → Z) (p : Z) : list action := bar_1 qs p.
End program.

(** The sums stay within an [int]. *)
Lemma foo_loop_sum mutex n j sum : (foo_loop mutex n j sum).2 = bar_loop n j sum.
Proof. revert j sum. induction n as [|n IH]; intros j sum; simpl; [done|apply IH]. Qed.

Lemma bar_loop_closed n j sum :
  2 * bar_loop n j sum = 2 * sum + 7 * Z.of_nat n * (2 * j + Z.of_nat n - 1).
Proof.
  revert j sum. induction n as [|n IH]; intros j sum; cbn [bar_loop]; [simpl; lia|].
  rewrite IH. unfold add_seven. cbn [Nat.iter nat_rect]. lia.
Qed.

Lemma sums_in_range mutex k :
  (k ≤ Z.to_nat 20000)%nat → is_int (bar_loop k 0 0) ∧ is_int (foo_loop mutex k 0 0).2.
Proof.
  intros Hk. rewrite foo_loop_sum. pose proof (bar_loop_closed k 0 0) as H. unfold is_int, INT_MIN, INT_MAX. nia.
Qed.

(** ** Running it with the library *)

Definition item : Type := Z * action * option sample.

Section running.
Context `{HP : Platform}.
Context (getenv : string → option string) (dlsym : string → bool).
(** The allocator's answer should a thread need a lockset, the mutex of the descriptor map,
    the control word, and the answers at the attaching of each thread. *)
Context (mem : Z → Z * list Z) (tid_fd_map_mutex : Z) (ibsopctl : Z → Z → Z) (att : Z → attach_env).
Context (ld st : Z → bool).
Context (junk : bool).

Definition exec_action (tid : Z) (a : action) : M rt unit :=
  match a with
  | Begin => racez_thread_start_func getenv dlsym (mem tid) tid_fd_map_mutex ibsopctl junk tid (att tid) (mret tt) ;; mret tt
  | Malloc q n => malloc getenv dlsym tid q n ;; mret tt
  | Free q => free getenv dlsym tid q
  | LockMutex m => pthread_mutex_lock getenv dlsym tid (mem tid) 0 m ;; mret tt
  | UnlockMutex m => pthread_mutex_unlock getenv dlsym tid (mem tid) 0 m ;; mret tt
  | Store _ _ => mret tt
  end.

(** A thread does something, and the counter may overflow. *)
Definition run_item (it : item) : M rt unit :=
  exec_action it.1.1 it.1.2 ;;
  match it.2 with Some sm => signal_handler ld st it.1.1 sm | None => mret tt end.

(** [main], with one element of [creations] and of [joins] for each of the [N] threads: a
    creation comes with the block its arguments get, its result, and what the
    threads do before [main] goes on. *)
Definition test_main (tid0 : Z) (start_junk : Z) (env : start_env) (creations : list (Z * Z * list item))
    (joins : list Z) : M rt Z :=
  racez_start getenv dlsym start_junk env ;;
  for_each creations (λ c,
    rv ← pthread_create getenv dlsym tid0 c.1.1 c.1.2;
    (if rv =? 0 then mret tt else fail (Exited 0)) ;;
    for_each c.2 run_item) ;;
  for_each joins (λ rv, if rv =? 0 then mret tt else fail (Exited 0)) ;;
  racez_stop getenv dlsym (mem tid0) tid_fd_map_mutex tid0 true (λ _, true) ;;
  mret 0.
End running.

(** What a thread did. *)
Definition actions_of (t : Z) (sched : list item) : list action :=
  omap (λ it : item, if decide (it.1.1 = t) then Some it.1.2 else None) sched.

(** ** The discipline of the program *)

Definition act_step (h : gmultiset Z) (a : action) : gmultiset Z :=
  match a with
  | LockMutex m => held_step h (Lock m)
  | UnlockMutex m => held_step h (Unlock m)
  | _ => h
  end.

(** The thread begins first, has room for what it locks, and stores while it holds
    nothing. *)
Definition allowed (begun : bool) (h : gmultiset Z) (a : action) : Prop :=
  match a with
  | Begin => (size h < 10)%nat
  | LockMutex _ => begun = true ∧ (size h < 10)%nat
  | Store _ _ => begun = true ∧ h = ∅
  | _ => begun = true
  end.

Fixpoint disciplined (begun : bool) (h : gmultiset Z) (l : list action) : Prop :=
  match l with
  | [] => True
  | a :: l' => allowed begun h a ∧ disciplined true (act_step h a) l'
  end.

Lemma disciplined_prefix begun h l l' : l `prefix_of` l' → disciplined begun h l' → disciplined begun h l.
Proof.
  intros [k ->]. revert begun h. induction l as [|a l IH]; intros begun h; [done|].
  intros [Ha Hl]. split; [done|]. by apply IH.
Qed.

(** Code that starts and ends holding nothing. *)
Definition balanced (l : list action) : Prop := disciplined true ∅ l ∧ foldl act_step ∅ l = ∅.

Lemma balanced_app l1 l2 : balanced l1 → balanced l2 → balanced (l1 ++ l2).
Proof.
  intros [H1 E1] [H2 E2]. split; [|by rewrite foldl_app, E1].
  rewrite <- E1 in H2. clear E1 E2. revert H1 H2. generalize (∅ : gmultiset Z) as h.
  induction l1 as [|a l1 IH]; intros h; [done|]. intros [Ha Hl] H2. split; [done|]. by apply IH.
Qed.

Lemma balanced_nil : balanced [].
Proof. done. Qed.

Lemma balanced_concat ls : Forall balanced ls → balanced (concat ls).
Proof. induction 1; simpl; [done|by apply balanced_app]. Qed.

Lemma balanced_foo_loop mutex n j sum : balanced (foo_loop mutex n j sum).1.
Proof.
  revert j sum. induction n as [|n IH]; intros j sum; [done|]. cbn [foo_loop fst].
  destruct (_ =? 0); [|apply IH]. rewrite app_assoc. apply balanced_app; [|apply IH].
  split; [|simpl; multiset_solver]. split; [split; [done|vm_compute; lia]|done].
Qed.

Lemma balanced_foo_2 mutex qs p : balanced (foo_2 mutex qs p).
Proof.
  apply balanced_concat, Forall_fmap, Forall_forall. intros i _. apply balanced_app; [|by split].
  change (foo mutex (qs i)) with ([Malloc (qs i) 1000] ++ (foo_loop mutex (Z.to_nat 6000) 0 0).1 ++ [Free (qs i)]).
  apply balanced_app; [done|]. apply balanced_app; [apply balanced_foo_loop|done].
Qed.

Lemma balanced_bar_2 qs p : balanced (bar_2 qs p).
Proof. apply balanced_concat, Forall_fmap, Forall_forall. intros i _. by split. Qed.

(** The two threads of the program. *)
Definition thread_code (mutex : Z) (qs : Z → nat → Z) (p t1 t2 t : Z) : list action :=
  if decide (t = t1) then Begin :: foo_0 mutex (qs t) p
  else if decide (t = t2) then Begin :: bar_0 (qs t) p else [].

Lemma thread_code_disciplined mutex qs p t1 t2 t : disciplined false ∅ (thread_code mutex qs p t1 t2 t).
Proof.
  unfold thread_code. destruct (decide _); [|destruct (decide _); [|done]]; (split; [vm_compute; lia|]).
  - apply (balanced_foo_2 mutex (qs t) p).
  - apply (balanced_bar_2 (qs t) p).
Qed.

(** ** One step *)

Record monitored (begun : Z → bool) (held : Z → gmultiset Z) (s : rt) : Prop := {
  mo_ready : ready 1 s;
  mo_wf : tls_wf (locksets s);
  mo_held : ∀ t, thread_recorded (locksets s) t = held t;
  mo_type : type (pmu s) = AMD64_PMU;
  mo_write : racez_write_record (cfg s) ≠ 0;
  mo_fds : ∀ t, tid_fd_map (pmu s) !! t ≠ Some 0;
  mo_begun : ∀ t, begun t = true → is_Some (tid_fd_map (pmu s) !! t)
}.

Definition upd {A} (f : Z → A) (t : Z) (v : A) : Z → A := λ u, if decide (u = t) then v else f u.

(** The state but for the locksets and the descriptors. *)
Record untouched (s s' : rt) : Prop := {
  un_buffer : buffer s' = buffer s;
  un_cfg : cfg s' = cfg s;
  un_stat : num_stat (pmu s') = num_stat (pmu s)
}.

Section steps.
Context `{HP : Platform}.
Context (getenv : string → option string) (dlsym : string → bool).
Context (mem : Z → Z * list Z) (fd_mutex : Z) (ibsopctl : Z → Z → Z) (att : Z → attach_env).
Context (ld st : Z → bool) (junk : bool).
Context (dlsym_finds : ∀ f, dlsym f = true).
Context (mem_ok : ∀ t, (mem t).1 ≠ 0) (mem_words : ∀ t, length (mem t).2 = 10%nat).
Context (att_ok : ∀ t, amd_attachable (att t)).

(** A wrapper that leaves the recorded locks alone. *)
Lemma monitored_frame begun held t h s s' :
  monitored begun held s → begun t = true → ready 1 s' → frame s s' → tls_wf (locksets s') →
  (∀ u, u ≠ t → thread_recorded (locksets s') u = thread_recorded (locksets s) u) →
  thread_recorded (locksets s') t = h →
  monitored (upd begun t true) (upd held t h) s' ∧ untouched s s'.
Proof.
  intros [] Hb Hr [Hc Hbu Hp _] Hwf Hoth Ht. split; [|split; [done|done|by rewrite Hp]].
  split; rewrite ?Hp, ?Hc; try done; intros u; unfold upd; destruct (decide (u = t)) as [->|Hu]; auto. by rewrite Hoth.
Qed.

Lemma free_ready tid q s :
  ready 1 s → ∃ s', free getenv dlsym tid q s = Ret tt s' ∧ ready 1 s' ∧ frame s s' ∧ locksets s' = locksets s.
Proof.
  intros Hr. unfold free. rewrite (bind_Ret _ _ _ _ _ (once_ready getenv dlsym 1 s Hr)).
  destruct (resolve_through_run dlsym dlsym_finds (A := unit) "free" (RealFree tid q) s eq_refl) as (s' & E & Hf & Hls & Hi & Hres).
  rewrite E. pose proof (ready_frame _ _ _ Hr Hf Hi Hres) as Hr'. exists s'. split; [|done].
  unfold log_alloc, gets, mbind, M_bind. by rewrite (rd_alloc _ _ Hr').
Qed.

Lemma begin_ok begun held t s :
  monitored begun held s → (size (held t) < 10)%nat →
  ∃ s', exec_action getenv dlsym mem fd_mutex ibsopctl att junk t Begin s = Ret tt s' ∧
        monitored (upd begun t true) held s' ∧ untouched s s'.
Proof.
  intros [] Hsz. unfold exec_action, racez_thread_start_func, pmu_profiler_perthread_attach.
  destruct (attach_amd_ok getenv dlsym dlsym_finds (mem t) (mem_ok t) (mem_words t) fd_mutex ibsopctl 1 t (att t) s)
    as (s' & E & Hp & Hc & Hb & Hr & Hwf & Hk & _); [done..|].
  destruct Hk as [Hoth Ht]; [done|]. exists s'. split.
  - assert (He : racez_enable (cfg s) = 1) by apply mo_ready0.
    unfold gets, when, mbind, M_bind in *. rewrite He. simpl. rewrite He. simpl. by rewrite E.
  - split; [|split; [done|done|by rewrite Hp]]. split; rewrite ?Hp, ?Hc; try done.
    + intros u. rewrite <- mo_held0. destruct (decide (u = t)) as [->|Hu]; [apply Ht; by rewrite mo_held0|by apply Hoth].
    + simpl. intros u. destruct (decide (t = u)) as [<-|Hu]; [rewrite lookup_insert_eq|by rewrite lookup_insert_ne].
      pose proof (aa_fd _ (att_ok t)). intros [= ?]. lia.
    + simpl. intros u Hu. destruct (decide (t = u)) as [<-|Hne]; [rewrite lookup_insert_eq; by eexists|].
      rewrite lookup_insert_ne by done. apply mo_begun0. unfold upd in Hu. by rewrite decide_False in Hu by congruence.
Qed.

(** The mutex calls, from what the wrappers are known to do. *)
Lemma hook_monitored begun held t e seen s s' :
  monitored begun held s → begun t = true → ready 1 s' → frame s s' → tls_wf (locksets s') →
  hook_effect seen t e s s' → seen e = true → ((∃ m, e = Lock m) → (size (held t) < 10)%nat) →
  monitored (upd begun t true) (upd held t (held_step (held t) e)) s' ∧ untouched s s'.
Proof.
  intros Hm Hb Hr Hf Hwf [Hcase Hoth] Hse Hsz. apply (monitored_frame begun held t); try done.
  - intros u Hu. apply thread_recorded_other. by apply Hoth.
  - destruct Hcase as [->|(H10 & _ & _ & Hl)]; [unfold seen_step; by rewrite Hse, (mo_held _ _ _ Hm)|].
    specialize (Hsz Hl). rewrite (mo_held _ _ _ Hm) in H10. lia.
Qed.

Lemma upd_same {A} (f : Z → A) t : ∀ u, upd f t (f t) u = f u.
Proof. intros u. unfold upd. by destruct (decide (u = t)) as [->|]. Qed.

Lemma monitored_ext begun held held' s : (∀ t, held t = held' t) → monitored begun held s → monitored begun held' s.
Proof. intros H []. split; try done. intros t. by rewrite mo_held0. Qed.

Lemma exec_ok begun held t a s :
  monitored begun held s → allowed (begun t) (held t) a →
  ∃ s', exec_action getenv dlsym mem fd_mutex ibsopctl att junk t a s = Ret tt s' ∧
        monitored (upd begun t true) (upd held t (act_step (held t) a)) s' ∧ untouched s s'.
Proof.
  intros Hm Ha. destruct a as [|q n|q|m|m|p v]; simpl in Ha.
  - destruct (begin_ok begun held t s Hm Ha) as (s' & E & Hm' & Hu). exists s'. split; [done|]. split; [|done].
    eapply monitored_ext; [|exact Hm']. intros u. simpl. by rewrite upd_same.
  - destruct (malloc_ready getenv dlsym dlsym_finds 1 t q n s (mo_ready _ _ _ Hm)) as (s' & E & Hr & Hf & Hl).
    exists s'. split; [unfold exec_action; by rewrite (bind_Ret _ _ _ _ _ E)|].
    apply (monitored_frame begun held t); try done; rewrite Hl; try done; apply Hm.
  - destruct (free_ready t q s (mo_ready _ _ _ Hm)) as (s' & E & Hr & Hf & Hl). exists s'. split; [done|].
    apply (monitored_frame begun held t); try done; rewrite Hl; try done; apply Hm.
  - destruct Ha as [Hb Hsz].
    destruct (add_hook getenv dlsym dlsym_finds (mem t) (mem_ok t) (mem_words t) 1 t m s (mo_ready _ _ _ Hm) (mo_wf _ _ _ Hm))
      as (s' & E & Hr & Hf & Hwf & He).
    exists s'. split; [unfold exec_action; by rewrite (bind_Ret _ _ _ _ _ E)|]. by eapply hook_monitored.
  - destruct (unlock_hook getenv dlsym dlsym_finds (mem t) (mem_ok t) (mem_words t) 1 t m s (mo_ready _ _ _ Hm) (mo_wf _ _ _ Hm))
      as (s' & E & Hr & Hf & Hwf & He).
    exists s'. split; [unfold exec_action; by rewrite (bind_Ret _ _ _ _ _ E)|]. eapply hook_monitored; try done. by intros [? ?].
  - exists s. split; [done|]. apply (monitored_frame begun held t); try done; try apply Ha; try apply Hm; done.
Qed.
End steps.

(** ** Samples *)

(** What the sampling registers hold. *)
Definition op_of (sm : sample) : Z := default 0 (read_pmds sm 11).
Definition addr_of (sm : sample) : Z := default 0 (read_pmds sm 12).

Record readable (sm : sample) : Prop := {
  re_msg : msg_ok sm = true;
  re_op : is_Some (read_pmds sm 11);
  re_ip : ∃ v, read_pmds sm 8 = Some v ∧ is_word v;
  re_addr : ∃ v, read_pmds sm 12 = Some v ∧ is_word v
}.

Definition item_readable (it : item) : Prop := ∀ sm, it.2 = Some sm → readable sm.

Section sampling.
Context `{HP : Platform}.
Context (ld st : Z → bool).

(** The item is sampled at a load or a store. *)
Definition memory_item (it : item) : Prop :=
  match it.2 with Some sm => ld (op_of sm) || st (op_of sm) = true | None => False end.

#[export] Instance memory_item_dec it : Decision (memory_item it).
Proof. unfold memory_item. destruct it.2; apply _. Defined.

(** The record of such an item. *)
Record item_record (it : item) (r : RacezRecord) : Prop := {
  ir_tid : thread_id_ r = it.1.1;
  ir_type : type_is MEMORY_OP r = true;
  ir_sampled : ∃ sm, it.2 = Some sm ∧ memory_address_ (op_ r) = addr_of sm ∧ is_write_ (op_ r) = (if ld (op_of sm) then 0 else 1);
  ir_store : (∃ q v, it.1.2 = Store q v) → locks r = ∅;
  ir_wf : record_wf r;
  ir_fits : copies_overrun r = false
}.

Lemma WriteRecord_logged k b r s :
  can_log k b s → copies_overrun r = false →
  WriteRecord (racez_write_record (cfg s)) r (buffer s) = Ret tt (buffer (logged k b r s)).
Proof.
  intros Hcl Hr. pose proof (log_ok k b r s Hcl Hr) as E. unfold log, gets, mbind, M_bind, on_buffer, zoom in E.
  destruct (WriteRecord _ r (buffer s)) as [[] t|]; [|done]. by injection E as ->.
Qed.

Lemma monitored_noted begun held t s :
  monitored begun held s → begun t = true → monitored begun held (noted_sample t s).
Proof.
  intros [] Hb. split; try done; [by destruct mo_ready0|..]; simpl; intros u; destruct (decide (t = u)) as [<-|Hu];
    rewrite ?lookup_insert_eq, ?lookup_insert_ne by done; auto.
  destruct (mo_begun0 t Hb) as [fd Hfd]. rewrite Hfd. simpl. intros [= ->]. by apply (mo_fds0 t).
Qed.

(** The parts [monitored] speaks of. *)
Lemma monitored_observed begun held s s' :
  monitored begun held s → locksets s' = locksets s → pmu s' = pmu s → cfg s' = cfg s → initializer s' = initializer s →
  resolved s' = resolved s → monitored begun held s'.
Proof.
  intros [[H1 H2 H3 H4 H5 H6] ] El Ep Ec Ei Er. split; rewrite ?El, ?Ep, ?Ec; try done.
  split; by rewrite ?Ec, ?Ei, ?Er.
Qed.

(** [k] entries are in use. *)
Definition at_entry (k : Z) (s : rt) : Prop := ∃ b, global_buffer (buffer s) = Some b ∧ buffer_at k b.

Lemma sample_run begun held t a sm s k :
  monitored begun held s → begun t = true → readable sm → is_int (num_stat (pmu s) + 1) → at_entry k s → k + 1 < BUFFERSIZE →
  ((∃ q v, a = Store q v) → held t = ∅) →
  ∃ s' rs, signal_handler ld st t sm s = Ret tt s' ∧ monitored begun held s' ∧ cfg s' = cfg s ∧
    num_stat (pmu s') = num_stat (pmu s) + 1 ∧ at_entry (k + Z.of_nat (length rs)) s' ∧
    for_each rs (WriteRecord (racez_write_record (cfg s))) (buffer s) = Ret tt (buffer s') ∧
    if decide (memory_item (t, a, Some sm)) then ∃ r, rs = [r] ∧ item_record (t, a, Some sm) r else rs = [].
Proof.
  intros Hm Hb [Hmsg [op Hop] (ip & Hip & Wip) (addr & Hadr & Waddr)] Hint (b & Eb & Hat) Hroom Hst.
  assert (Hcl : can_log k b s) by (split; try done; apply Hm).
  destruct (ibs_sample HP ld st t sm s k b op ip addr (mo_type _ _ _ Hm) Hint Hcl) as [H1 H2];
    [intros l; apply lockset_of_wf, Hm|done..|].
  pose proof (monitored_noted _ _ _ _ Hm Hb) as Hn.
  assert (Eop : op_of sm = op) by (unfold op_of; by rewrite Hop).
  assert (Eaddr : addr_of sm = addr) by (unfold addr_of; by rewrite Hadr).
  destruct (decide (memory_item (t, a, Some sm))) as [Hmem|Hmem]; unfold memory_item in Hmem; simpl in Hmem; rewrite Eop in Hmem.
  - destruct (H1 Hmem) as (r & E & Hev). eexists _, [r]. split; [exact E|]. pose proof (ibs_event_fits _ _ _ _ _ _ _ Hev) as Hfit.
    split; [by eapply monitored_observed|]. split; [done|]. split; [done|].
    split; [exists (store_next k r b); split; [done|by apply store_next_at]|]. split.
    + cbn [for_each]. by rewrite (bind_Ret _ _ _ _ _ (WriteRecord_logged k b r s Hcl Hfit)).
    + exists r. split; [done|]. destruct Hev. split; simpl; try done.
      * exists sm. by rewrite Eop, Eaddr.
      * intros Hs. specialize (Hst Hs). unfold locks, access_locks. rewrite ie_locks. apply set_eq. intros m.
        rewrite elem_of_list_to_set, (seen_locks_recorded s t m (mo_wf _ _ _ Hm)), (mo_held _ _ _ Hm), Hst. set_solver.
      * split; [split|]; [by rewrite ie_address|by rewrite ie_pip|done|done].
  - exists (add_call (PfmRestart (si_fd sm)) (noted_sample t s)), []. split; [apply H2; by destruct (_ || _)|].
    split; [by eapply monitored_observed|]. split; [done|]. split; [done|]. split; [|done].
    exists b. simpl. by rewrite Z.add_0_r.
Qed.
End sampling.

(** ** A run *)

Lemma actions_of_cons t it sched :
  actions_of t (it :: sched) = (if decide (it.1.1 = t) then [it.1.2] else []) ++ actions_of t sched.
Proof. unfold actions_of; simpl. by destruct (decide (it.1.1 = t)). Qed.

Lemma actions_of_app t l1 l2 : actions_of t (l1 ++ l2) = actions_of t l1 ++ actions_of t l2.
Proof. unfold actions_of. apply omap_app. Qed.

Lemma for_each_app_Ret {S A} (l1 l2 : list A) (f : A → M S unit) s s1 :
  for_each l1 f s = Ret tt s1 → for_each (l1 ++ l2) f s = for_each l2 f s1.
Proof. intros E. by rewrite for_each_app, (bind_Ret _ _ _ _ _ E). Qed.

Section runs.
Context `{HP : Platform}.
Context (getenv : string → option string) (dlsym : string → bool).
Context (mem : Z → Z * list Z) (fd_mutex : Z) (ibsopctl : Z → Z → Z) (att : Z → attach_env).
Context (ld st : Z → bool) (junk : bool).
Context (dlsym_finds : ∀ f, dlsym f = true).
Context (mem_ok : ∀ t, (mem t).1 ≠ 0) (mem_words : ∀ t, length (mem t).2 = 10%nat).
Context (att_ok : ∀ t, amd_attachable (att t)).

Abbreviation run := (run_item getenv dlsym mem fd_mutex ibsopctl att ld st junk).
Abbreviation hit := (memory_item ld st).

(** The threads can go on with [rest]. *)
Definition ready_for (rest : Z → list action) (s : rt) : Prop :=
  ∃ begun held, monitored begun held s ∧ ∀ t, disciplined (begun t) (held t) (rest t).

(** What a run leaves: [rs] are the records it logged. *)
Record ran (k : Z) (n : nat) (items : list item) (rest : Z → list action) (s s' : rt) (rs : list RacezRecord) : Prop := {
  rn_ready : ready_for rest s';
  rn_cfg : cfg s' = cfg s;
  rn_stat : num_stat (pmu s) ≤ num_stat (pmu s') ≤ num_stat (pmu s) + Z.of_nat n;
  rn_entry : at_entry (k + Z.of_nat (length rs)) s';
  rn_written : for_each rs (WriteRecord (racez_write_record (cfg s))) (buffer s) = Ret tt (buffer s');
  rn_records : Forall2 (item_record ld) (filter hit items) rs
}.

Lemma item_run it rest s k :
  ready_for (λ t, actions_of t [it] ++ rest t) s → item_readable it → is_int (num_stat (pmu s) + 1) →
  at_entry k s → k + 1 < BUFFERSIZE →
  ∃ s' rs, run it s = Ret tt s' ∧ ran k 1 [it] rest s s' rs.
Proof.
  destruct it as [[t a] sm]. intros (begun & held & Hm & Hd) Hre Hint (b & Eb & Hat) Hroom.
  assert (Ha : allowed (begun t) (held t) a).
  { specialize (Hd t). rewrite actions_of_cons in Hd. simpl in Hd. rewrite decide_True in Hd by done. apply Hd. }
  destruct (exec_ok getenv dlsym mem fd_mutex ibsopctl att junk dlsym_finds mem_ok mem_words att_ok begun held t a s Hm Ha)
    as (s1 & E1 & Hm1 & [Ub Uc Un]).
  assert (Hd1 : ∀ u, disciplined (upd begun t true u) (upd held t (act_step (held t) a) u) (rest u)).
  { intros u. specialize (Hd u). rewrite actions_of_cons in Hd. unfold upd. simpl in Hd.
    destruct (decide (t = u)) as [<-|Hu]; [rewrite !decide_True by done; apply Hd|by rewrite !decide_False by congruence]. }
  assert (Hen1 : at_entry k s1) by (exists b; by rewrite Ub).
  unfold run_item. cbn [fst snd]. destruct sm as [sm|].
  - destruct (sample_run ld st (upd begun t true) (upd held t (act_step (held t) a)) t a sm s1 k)
      as (s2 & rs & E2 & Hm2 & Ec2 & En2 & Hat2 & Ew & Hrs); try done.
    + unfold upd. by rewrite decide_True.
    + by apply Hre.
    + by rewrite Un.
    + intros (q & v & ->). unfold upd. rewrite decide_True by done. apply Ha.
    + exists s2, rs. split; [by rewrite (bind_Ret _ _ _ _ _ E1)|]. split; try done; [by exists (upd begun t true), (upd held t (act_step (held t) a))|congruence|lia| |].
      * by rewrite <- Ub, <- Uc.
      * destruct (decide _) as [Hh|Hh]; [destruct Hrs as (r & -> & Hr); rewrite filter_cons_True by done; by constructor; [|constructor]|].
        rewrite Hrs, filter_cons_False by done. constructor.
  - exists s1, []. split; [by rewrite (bind_Ret _ _ _ _ _ E1)|]. split; simpl; [by exists (upd begun t true), (upd held t (act_step (held t) a))|done|lia|by rewrite Z.add_0_r|by rewrite Ub|].
    rewrite filter_cons_False by (by intros []). constructor.
Qed.

Lemma ready_for_ext rest rest' s : (∀ t, rest t = rest' t) → ready_for rest s → ready_for rest' s.
Proof. intros H (begun & held & Hm & Hd). exists begun, held. split; [done|]. intros t. by rewrite <- H. Qed.

Lemma sched_run sched rest s k :
  ready_for (λ t, actions_of t sched ++ rest t) s → Forall item_readable sched →
  0 ≤ num_stat (pmu s) → num_stat (pmu s) + Z.of_nat (length sched) ≤ INT_MAX →
  at_entry k s → k + Z.of_nat (length (filter hit sched)) < BUFFERSIZE - 1 →
  ∃ s' rs, for_each sched run s = Ret tt s' ∧ ran k (length sched) sched rest s s' rs.
Proof.
  revert s k. induction sched as [|it sched IH]; intros s k Hd Hre H0 Hint Hat Hroom.
  - exists s, []. split; [done|]. split; try done; simpl; [lia|by rewrite Z.add_0_r].
  - apply Forall_cons in Hre as [Hit Hre]. simpl in Hint.
    assert (Hlen : length (filter hit (it :: sched)) = (length (filter hit [it]) + length (filter hit sched))%nat).
    { rewrite <- length_app, <- filter_app. done. }
    destruct (item_run it (λ t, actions_of t sched ++ rest t) s k) as (s1 & rs1 & E1 & [Hr1 Hc1 Hs1 Ha1 Hw1 Hi1]); try done.
    + eapply ready_for_ext; [|exact Hd]. intros t.
      change (actions_of t ([it] ++ sched) ++ rest t = actions_of t [it] ++ (actions_of t sched ++ rest t)).
      by rewrite actions_of_app, app_assoc.
    + unfold is_int, INT_MIN. lia.
    + lia.
    + pose proof (Forall2_length _ _ _ Hi1) as Hl1.
      destruct (IH s1 (k + Z.of_nat (length rs1))) as (s2 & rs2 & E2 & [Hr2 Hc2 Hs2 Ha2 Hw2 Hi2]); try done; try lia.
      exists s2, (rs1 ++ rs2). split; [cbn [for_each]; by rewrite (bind_Ret _ _ _ _ _ E1)|].
      split; try done; [congruence|simpl in *; lia|rewrite length_app; by replace (k + _) with (k + Z.of_nat (length rs1) + Z.of_nat (length rs2)) by lia| |].
      * rewrite (for_each_app_Ret _ _ _ _ _ Hw1). by rewrite <- Hc1.
      * change (it :: sched) with ([it] ++ sched). rewrite filter_app. by apply Forall2_app.
Qed.

(** [pthread_create] between two parts of the run. *)
Lemma create_ok rest tid0 block s :
  ready_for rest s → block ≠ 0 →
  ∃ s', pthread_create getenv dlsym tid0 block 0 s = Ret 0 s' ∧ ready_for rest s' ∧ untouched s s'.
Proof.
  intros (begun & held & Hm & Hd) Hb. pose proof (mo_ready _ _ _ Hm) as Hr. unfold pthread_create.
  rewrite (bind_Ret _ _ _ _ _ (once_ready getenv dlsym 1 s Hr)).
  destruct (malloc_ready getenv dlsym dlsym_finds 1 tid0 block 16 s Hr) as (s1 & E & Hr1 & [Fc Fb Fp _] & Hl).
  rewrite (bind_Ret _ _ _ _ _ E), (proj2 (Z.eqb_neq _ _) Hb). erewrite bind_Ret by reflexivity.
  unfold through, get, mbind, M_bind. rewrite decide_True by apply Hr1. eexists. split; [done|].
  split; [|split; simpl; [done|done|by rewrite Fp]]. exists begun, held. split; [|done]. destruct Hm.
  split; simpl; rewrite ?Hl, ?Fp, ?Fc; try done. by destruct Hr1.
Qed.
End runs.

(** ** The detector on unprotected writes *)

Lemma candidate_no_locks h : h ≠ [] → (∀ r, r ∈ h → locks r = ∅) → candidate h = ∅.
Proof.
  intros Hne Hl. apply set_eq. intros x. rewrite elem_of_candidate by done. destruct h as [|r h]; [done|].
  split; [|set_solver]. intros H. rewrite <- (Hl r) by set_solver. apply H. set_solver.
Qed.

(** Writes without a lock from two threads are reported, whatever their order. *)
Lemma unlocked_writes_reported h :
  (∀ r, r ∈ h → writes r = true ∧ locks r = ∅) → shared h = true → reported h = true.
Proof.
  induction h as [|cur h IH] using rev_ind; intros Hw Hs; [done|]. rewrite reported_snoc.
  destruct (shared h) eqn:Hsh; [rewrite IH; [done|set_solver|done]|]. apply orb_true_iff. right.
  assert (Hm : modified (h ++ [cur]) = true).
  { rewrite modified_snoc. destruct (Hw cur) as [-> _]; [set_solver|]. by rewrite orb_true_r. }
  assert (Hl : late_thread h cur = false) by (unfold late_thread, spec_status; rewrite Hsh; by destruct (modified h)).
  unfold reports. rewrite (proj2 (spec_status_3 _) (conj Hs Hm)), Hl, candidate_no_locks; [done|by destruct h|].
  intros r Hr. by apply Hw.
Qed.

Definition at_address (p : Z) (r : RacezRecord) : Prop := type_is MEMORY_OP r = true ∧ memory_address_ (op_ r) = p.

#[export] Instance at_address_dec p r : Decision (at_address p r).
Proof. unfold at_address. apply _. Defined.

(** Without frees the history of an address is all the accesses to it. *)
Lemma history_all reuse p rs :
  p ≠ 0 → Forall (λ r, type_is MEMORY_ALLOC r = false) rs →
  let σ := foldl (spec_step reuse) spec_init rs in
  history σ p = filter (at_address p) rs ∧ (reported (history σ p) = true → ∃ h, (p, h) ∈ found σ).
Proof.
  intros Hp. induction rs as [|r rs IH] using rev_ind; intros Hrs; [by split|].
  apply Forall_app in Hrs as [Hrs [Hr _]%Forall_cons]. specialize (IH Hrs) as [IH1 IH2].
  cbv zeta. rewrite foldl_snoc, filter_app. set (σ := foldl (spec_step reuse) spec_init rs) in *.
  unfold spec_step. destruct (type_is MEMORY_OP r) eqn:Em.
  2: { rewrite Hr, filter_cons_False by (by intros []; congruence). by rewrite app_nil_r. }
  assert (Hins : ∀ a l bs fs, history (mkSpec (<[a := l]> (histories σ)) bs fs) p = if decide (a = p) then l else history σ p).
  { intros a l bs fs. unfold history; simpl. destruct (decide (a = p)) as [->|Hne]; [by rewrite lookup_insert_eq|by rewrite lookup_insert_ne]. }
  unfold spec_access. destruct (decide (memory_address_ (op_ r) = p)) as [Ea|Ea].
  - rewrite filter_cons_True by done. rewrite Ea, (proj2 (Z.eqb_neq _ _) Hp), Hins, decide_True by done.
    split; [by rewrite IH1|]. rewrite reported_snoc. simpl.
    destruct (reported (history σ p)) eqn:Er; [rewrite andb_false_r; intros _; by apply IH2|]. simpl.
    intros ->. simpl. eexists. apply elem_of_app. right. by apply list_elem_of_singleton.
  - rewrite filter_cons_False by (by intros []; congruence). rewrite app_nil_r.
    destruct (_ =? 0); [done|]. rewrite Hins, decide_False by done. split; [done|]. simpl.
    intros H. destruct (IH2 H) as [h Hh]. exists h. destruct (_ && _); [set_solver|done].
Qed.

Lemma shared_two h r1 r2 : r1 ∈ h → r2 ∈ h → thread_id_ r1 ≠ thread_id_ r2 → shared h = true.
Proof.
  intros H1 H2 Hne. apply bool_decide_eq_true.
  assert (Hsub : ({[thread_id_ r1; thread_id_ r2]} : gset Z) ⊆ threads h).
  { intros t Ht. apply elem_of_threads. set_solver. }
  apply subseteq_size in Hsub. rewrite size_union, !size_singleton in Hsub by set_solver. lia.
Qed.

(** A record of an access as it is handed to the buffer. *)
Record access_record (r : RacezRecord) : Prop := {
  ar_type : type_is MEMORY_OP r = true;
  ar_wf : record_wf r;
  ar_fits : copies_overrun r = false;
  ar_flag : is_write_ (op_ r) = 0 ∨ is_write_ (op_ r) = 1
}.

(** The logged entry of an access is an access as the detector takes it. *)
Lemma same_event_access r e :
  access_record r → same_event r e →
  type_is MEMORY_OP e = true ∧ type_is MEMORY_ALLOC e = false ∧ thread_id_ e = thread_id_ r ∧
  memory_address_ (op_ e) = memory_address_ (op_ r) ∧ writes e = writes r ∧ locks e = locks r ∧ access_ok e ∧ printable e.
Proof.
  intros [Hop [[_ _ Hll] Htl] Hc Hf] (Et & Ety & Ed & Etr & Hm & _).
  destruct (Hm Hop) as (Ea & _ & _ & Ew & _ & En & El). apply copies_overrun_false in Hc as [Hc1 Hc2]. specialize (Hc1 Hop).
  assert (Hn : lock_count_ (op_ e) ≤ Z.of_nat (length (lockset_ (op_ e)))).
  { apply (f_equal length) in El. rewrite !length_take, Hll in El. rewrite En. lia. }
  assert (Hd : trace_depth_ e ≤ Z.of_nat (length (stack_trace_ e))).
  { apply (f_equal length) in Etr. rewrite !length_take, Htl in Etr. rewrite Ed. lia. }
  assert (Hop' : type_is MEMORY_OP e = true) by (revert Hop; unfold type_is; by rewrite Ety).
  split; [done|]. split; [destruct (type_is MEMORY_ALLOC e) eqn:Ealloc; [by destruct (type_is_excl e)|done]|].
  split; [done|]. split; [done|]. split; [unfold writes; by rewrite Ew|].
  split; [unfold locks, access_locks; by rewrite En, El|]. split; [split; [by rewrite Ew|done]|done].
Qed.

(** A log: an unused entry, and entries for the records [rs]. *)
Record log_of (rs : list RacezRecord) (first : RacezRecord) (entries : list RacezRecord) : Prop := {
  lo_first : type_is MEMORY_OP first = false ∧ type_is MEMORY_ALLOC first = false;
  lo_records : Forall access_record rs;
  lo_length : length entries = length rs;
  lo_entries : ∀ i r, rs !! i = Some r → ∃ e, entries !! i = Some e ∧ record_no_ e = Z.of_nat i + 1 ∧ same_event r e
}.

Lemma log_of_entry rs first entries i e :
  log_of rs first entries → entries !! i = Some e →
  record_no_ e = Z.of_nat i + 1 ∧ ∃ r, r ∈ rs ∧ access_record r ∧ same_event r e.
Proof.
  intros [_ Hrs Hlen Hev] He. destruct (lookup_lt_is_Some_2 rs i) as [r Hr]; [rewrite <- Hlen; by eapply lookup_lt_Some|].
  destruct (Hev i r Hr) as (e' & He' & Hn & Hs). rewrite He in He'. injection He' as <-.
  split; [done|]. exists r. split; [by eapply list_elem_of_lookup_2|]. split; [by eapply Forall_lookup_1|done].
Qed.

Lemma log_of_loggable rs first entries :
  log_of rs first entries → Forall loggable (first :: entries) ∧ numbered (accesses (first :: entries)) ∧
  Forall (λ r, type_is MEMORY_ALLOC r = false) (first :: entries).
Proof.
  intros Hlog. pose proof (lo_first _ _ _ Hlog) as [F1 F2].
  assert (Hin : ∀ e, e ∈ entries → type_is MEMORY_ALLOC e = false ∧ loggable e).
  { intros e [i Hi]%list_elem_of_lookup. destruct (log_of_entry _ _ _ _ _ Hlog Hi) as (_ & r & _ & Ha & Hs).
    destruct (same_event_access r e Ha Hs) as (? & ? & _ & _ & _ & _ & ? & ?). split; [done|]. split; [done|congruence]. }
  split; [|split].
  - apply Forall_cons. split; [split; congruence|]. apply Forall_forall. intros e He. by apply Hin.
  - intros x y. unfold accesses. rewrite filter_cons_False by congruence.
    intros [_ Hx]%list_elem_of_filter [_ Hy]%list_elem_of_filter En.
    apply list_elem_of_lookup in Hx as [i Hi], Hy as [j Hj].
    destruct (log_of_entry _ _ _ _ _ Hlog Hi) as [Nx _], (log_of_entry _ _ _ _ _ Hlog Hj) as [Ny _].
    assert (i = j) as -> by lia. congruence.
  - apply Forall_cons. split; [done|]. apply Forall_forall. intros e He. by apply Hin.
Qed.

(** The accesses to an address in the log and among the records. *)
Lemma log_of_filter rs first entries p :
  log_of rs first entries →
  Forall2 (λ r e, thread_id_ e = thread_id_ r ∧ writes e = writes r ∧ locks e = locks r)
    (filter (at_address p) rs) (filter (at_address p) (first :: entries)).
Proof.
  intros [[F1 _] Hrs Hlen Hev]. rewrite filter_cons_False by (by intros []; congruence).
  assert (Hall : Forall2 (λ r e, access_record r ∧ same_event r e) rs entries).
  { apply Forall2_same_length_lookup. split; [done|]. intros i r e Hr He. split; [by eapply Forall_lookup_1|].
    destruct (Hev i r Hr) as (e' & He' & _ & Hs). congruence. }
  clear Hrs Hlen Hev. induction Hall as [|r e rs entries [Ha Hs] _ IH]; [done|].
  destruct (same_event_access r e Ha Hs) as (Ho & _ & Et & Ea & Ew & El & _).
  destruct (decide (memory_address_ (op_ r) = p)) as [Hp|Hp].
  - rewrite !filter_cons_True by (split; [done || apply Ha|congruence]). by constructor.
  - rewrite !filter_cons_False by (by intros []; congruence). done.
Qed.

Lemma log_detected addr2line reuse p first entries rs :
  (∀ a, ∃ t, addr2line a = Some (t +:+ nl)) → p ≠ 0 → log_of rs first entries →
  (∀ r, r ∈ rs → memory_address_ (op_ r) = p → writes r = true ∧ locks r = ∅) →
  (∃ r1 r2, r1 ∈ rs ∧ r2 ∈ rs ∧ memory_address_ (op_ r1) = p ∧ memory_address_ (op_ r2) = p ∧ thread_id_ r1 ≠ thread_id_ r2) →
  ∃ d ws, for_each (first :: entries) (offline_detection addr2line reuse) detect_init = Ret tt d ∧ (p, ws) ∈ warned d.
Proof.
  intros Hline Hp Hlog Hw (r1 & r2 & H1 & H2 & E1 & E2 & Hne).
  pose proof (log_of_filter _ _ _ p Hlog) as Hfil. pose proof (lo_records _ _ _ Hlog) as Hrs. rewrite Forall_forall in Hrs.
  destruct (log_of_loggable _ _ _ Hlog) as (Hl & Hn & Hno).
  destruct (detection_refines_from addr2line Hline reuse (first :: entries) [] spec_init detect_init abstracts_init from_log_init Hl Hn)
    as (d & Ed & Hab & _).
  destruct (history_all reuse p (first :: entries) Hp Hno) as [Hh [h Hfound]].
  - rewrite Hh. apply unlocked_writes_reported.
    + intros e [i Hi]%list_elem_of_lookup. destruct (Forall2_lookup_r _ _ _ _ _ Hfil Hi) as (r & Hr & _ & -> & ->).
      apply list_elem_of_lookup_2, list_elem_of_filter in Hr as [[_ Ha] Hr]. by apply Hw.
    + assert (Hget : ∀ r, r ∈ rs → memory_address_ (op_ r) = p →
        ∃ e, e ∈ filter (at_address p) (first :: entries) ∧ thread_id_ e = thread_id_ r).
      { intros r Hr Ea. assert (Hr' : r ∈ filter (at_address p) rs) by (apply list_elem_of_filter; split; [split; [by apply Hrs|done]|done]).
        apply list_elem_of_lookup in Hr' as [i Hi]. destruct (Forall2_lookup_l _ _ _ _ _ Hfil Hi) as (e & He & Et & _).
        exists e. split; [by eapply list_elem_of_lookup_2|done]. }
      destruct (Hget r1 H1 E1) as (e1 & He1 & T1), (Hget r2 H2 E2) as (e2 & He2 & T2).
      apply (shared_two _ e1 e2); congruence.
  - apply list_elem_of_lookup in Hfound as [i Hi]. destruct (Forall2_lookup_r _ _ _ _ _ (ab_found _ _ Hab) Hi) as ([a ws] & Hws & Ea & _).
    simpl in Ea. subst a. exists d, ws. split; [done|]. by eapply list_elem_of_lookup_2.
Qed.

(** ** The whole program *)

(** A sampled access to [p] is the store of the program, not an access of other code. *)
Definition sample_fits (ld st : Z → bool) (p : Z) (it : item) : Prop :=
  ∀ sm, it.2 = Some sm → memory_item ld st it → addr_of sm = p → (∃ v, it.1.2 = Store p v) ∧ ld (op_of sm) = false.

(** The thread was sampled at [p]. *)
Definition sampled_at (ld st : Z → bool) (p t : Z) (sched : list item) : Prop :=
  ∃ it sm, it ∈ sched ∧ it.1.1 = t ∧ it.2 = Some sm ∧ memory_item ld st it ∧ addr_of sm = p.

Lemma items_accesses ld st p sched rs :
  Forall2 (item_record ld) (filter (memory_item ld st) sched) rs → Forall (sample_fits ld st p) sched →
  Forall access_record rs ∧
  (∀ r, r ∈ rs → memory_address_ (op_ r) = p → writes r = true ∧ locks r = ∅) ∧
  (∀ t, sampled_at ld st p t sched → ∃ r, r ∈ rs ∧ memory_address_ (op_ r) = p ∧ thread_id_ r = t).
Proof.
  intros Hrs Hfit. rewrite Forall_forall in Hfit.
  assert (Hget : ∀ r, r ∈ rs → ∃ it, it ∈ sched ∧ memory_item ld st it ∧ item_record ld it r).
  { intros r [i Hi]%list_elem_of_lookup. destruct (Forall2_lookup_r _ _ _ _ _ Hrs Hi) as (it & Hit & Hr).
    apply list_elem_of_lookup_2, list_elem_of_filter in Hit as [Hm Hit]. eauto. }
  split; [|split].
  - apply Forall_forall. intros r Hr. destruct (Hget r Hr) as (it & _ & _ & [? ? (sm & _ & _ & Hw) ? ? ?]).
    split; try done. rewrite Hw. destruct (ld _); auto.
  - intros r Hr Ha. destruct (Hget r Hr) as (it & Hin & Hm & [_ _ (sm & Hsm & Ea & Hw) Hst _ _]).
    destruct (Hfit it Hin sm Hsm Hm) as [[v Hv] Hld]; [congruence|]. rewrite Hld in Hw. unfold writes. rewrite Hw. eauto.
  - intros t (it & sm & Hin & <- & Hsm & Hm & Ha).
    assert (Hf : it ∈ filter (memory_item ld st) sched) by (by apply list_elem_of_filter).
    apply list_elem_of_lookup in Hf as [i Hi]. destruct (Forall2_lookup_l _ _ _ _ _ Hrs Hi) as (r & Hr & [Ht _ (sm' & Hsm' & Ea & _) _ _ _]).
    exists r. split; [by eapply list_elem_of_lookup_2|]. split; [congruence|done].
Qed.

Section whole.
Context `{HP : Platform}.
Context (getenv : string → option string) (dlsym : string → bool).
Context (mem : Z → Z * list Z) (fd_mutex : Z) (ibsopctl : Z → Z → Z) (att : Z → attach_env).
Context (ld st : Z → bool) (junk : bool).
Context (dlsym_finds : ∀ f, dlsym f = true).
Context (mem_ok : ∀ t, (mem t).1 ≠ 0) (mem_words : ∀ t, length (mem t).2 = 10%nat).
Context (att_ok : ∀ t, amd_attachable (att t)).

(** The state after [racez_start]. *)
Definition started_rt (env : start_env) (addr : Z) (jk : Z → RacezRecord) (s : rt) : rt :=
  set_cfg (set_enable 1 (cfg s)) (started env addr jk s).

Lemma started_ready env addr jk rest s :
  startable env addr jk → idle s → locksets s = mkTls false ∅ → s_pmu_type env = AMD64_PMU → 0 ≤ addr < 2 ^ 47 →
  (∀ t, disciplined false ∅ (rest t)) →
  ready_for rest (started_rt env addr jk s) ∧ at_entry 0 (started_rt env addr jk s).
Proof.
  intros Hst [Hr Hwf Hb Hsig Hfds Hwr] Hls Hty Haddr Hd. split.
  - exists (λ _, false), (λ _, ∅). split; [|done]. destruct Hr. unfold started_rt, started. split; simpl; try done.
    intros t. by rewrite Hls.
  - eexists. split; [done|]. by apply fresh_buffer_at.
Qed.

(** The end of [main]: the counters are stopped and the buffer is written. *)
Lemma stop_writes_log rest tid0 env addr jk rs s1 s2 :
  ready_for rest s2 → cfg s2 = cfg s1 →
  global_buffer (buffer s1) = Some (fresh_buffer addr jk (s_fd env)) → files (buffer s1) !! s_fd env = Some [] →
  for_each rs (WriteRecord (racez_write_record (cfg s1))) (buffer s1) = Ret tt (buffer s2) →
  0 ≤ addr < 2 ^ 47 → (∀ i, record_wf (jk i)) → Forall access_record rs → Z.of_nat (length rs) < BUFFERSIZE →
  type_is MEMORY_OP (jk 0) = false → type_is MEMORY_ALLOC (jk 0) = false →
  ∃ s' entries, racez_stop getenv dlsym (mem tid0) fd_mutex tid0 true (λ _, true) s2 = Ret 0 s' ∧
    files (buffer s') !! s_fd env = Some (jk 0 :: entries) ∧ log_of rs (jk 0) entries.
Proof.
  intros (begun & held & Hm & _) Hcfg Hb Hf Hw Haddr Hjk Hrs Hlen Hj1 Hj2. destruct Hm as [[R1 R2 R3 R4 R5 R6] Hwf _ _ Hwr Hfds _].
  destruct (write_then_stop (racez_write_record (cfg s1)) addr jk (s_fd env) rs (buffer s1))
    as (t1 & t2 & entries & E1 & E2 & _ & _ & Hfile & Hl & Hev); try done.
  - by rewrite <- Hcfg.
  - eapply Forall_impl; [exact Hrs|]. by intros r [].
  - eapply Forall_impl; [exact Hrs|]. by intros r [].
  - rewrite Hw in E1. injection E1 as <-. unfold racez_stop.
    rewrite (bind_Ret (gets cfg) _ s2 (cfg s2) s2) by done. rewrite R2. do 2 erewrite bind_Ret by reflexivity. set (s3 := set_cfg _ _).
    destruct (pmu_profiler_stop_ok getenv dlsym dlsym_finds (mem tid0) (mem_ok tid0) (mem_words tid0) fd_mutex tid0 (λ _, true) s3 (Z.of_nat (length rs) + 1) t2)
      as (s4 & E4 & Hbuf & _); [by split|done|done|done|].
    rewrite (bind_Ret _ _ _ _ _ E4). exists s4, entries. split; [done|]. split; [by rewrite Hbuf|done].
Qed.

Lemma ready_untouched rest k s s' : ready_for rest s' → untouched s s' → at_entry k s → at_entry k s'.
Proof. intros _ [Hb _ _] (b & Eb & Hat). exists b. by rewrite Hb. Qed.

(** [main] up to the second [pthread_join]. *)
Lemma creations_run tid0 b0 b1 sched0 sched1 s :
  ready_for (λ t, actions_of t (sched0 ++ sched1)) s → b0 ≠ 0 → b1 ≠ 0 → Forall item_readable (sched0 ++ sched1) →
  0 ≤ num_stat (pmu s) → num_stat (pmu s) + Z.of_nat (length (sched0 ++ sched1)) ≤ INT_MAX →
  at_entry 0 s → Z.of_nat (length (filter (memory_item ld st) (sched0 ++ sched1))) < BUFFERSIZE - 1 →
  ∃ s' rs, for_each [(b0, 0, sched0); (b1, 0, sched1)] (λ c,
      rv ← pthread_create getenv dlsym tid0 c.1.1 c.1.2;
      (if rv =? 0 then mret tt else fail (Exited 0)) ;;
      for_each c.2 (run_item getenv dlsym mem fd_mutex ibsopctl att ld st junk)) s = Ret tt s' ∧
    ready_for (λ _, []) s' ∧ cfg s' = cfg s ∧
    for_each rs (WriteRecord (racez_write_record (cfg s))) (buffer s) = Ret tt (buffer s') ∧
    Forall2 (item_record ld) (filter (memory_item ld st) (sched0 ++ sched1)) rs.
Proof.
  intros Hd Hb0 Hb1 [Hre0 Hre1]%Forall_app H0 Hint Hat Hroom. rewrite filter_app, length_app in *.
  destruct (create_ok getenv dlsym dlsym_finds _ tid0 b0 s Hd Hb0) as (s1 & E1 & Hd1 & [Ub1 Uc1 Un1]).
  destruct (sched_run getenv dlsym mem fd_mutex ibsopctl att ld st junk dlsym_finds mem_ok mem_words att_ok
              sched0 (λ t, actions_of t sched1) s1 0) as (s2 & rs0 & E2 & [Hd2 Hc2 Hs2 Ha2 Hw2 Hi2]); try done; try (rewrite ?Un1; lia).
  { eapply ready_for_ext; [|exact Hd1]. intros t. apply actions_of_app. }
  { by eapply ready_untouched. }
  destruct (create_ok getenv dlsym dlsym_finds _ tid0 b1 s2 Hd2 Hb1) as (s3 & E3 & Hd3 & [Ub3 Uc3 Un3]).
  pose proof (Forall2_length _ _ _ Hi2) as Hl0.
  destruct (sched_run getenv dlsym mem fd_mutex ibsopctl att ld st junk dlsym_finds mem_ok mem_words att_ok
              sched1 (λ _, []) s3 (0 + Z.of_nat (length rs0))) as (s4 & rs1 & E4 & [Hd4 Hc4 Hs4 Ha4 Hw4 Hi4]); try done; try lia.
  { eapply ready_for_ext; [|exact Hd3]. intros t. by rewrite app_nil_r. }
  { by eapply ready_untouched. }
  exists s4, (rs0 ++ rs1). split; [|split; [done|split; [congruence|split; [|by apply Forall2_app]]]].
  - cbn [for_each fst snd]. rewrite (bind_Ret _ _ _ tt s2); [rewrite (bind_Ret _ _ _ tt s4); [done|]|].
    + rewrite (bind_Ret _ _ _ _ _ E3). by erewrite bind_Ret by reflexivity.
    + rewrite (bind_Ret _ _ _ _ _ E1). by erewrite bind_Ret by reflexivity.
  - rewrite (for_each_app_Ret _ _ _ _ (buffer s2)); [|by rewrite <- Ub1, <- Uc1]. rewrite <- Ub3. by replace (cfg s) with (cfg s3) by congruence.
Qed.
End whole.

(** C4: the race of the test program is found, in this setting: an AMD processor (the
    records of an Intel one have no address before the simulation); the writing of records
    switched on with RACEZ_WRITE_RECORD (it is off by default) and the allocator's log off;
    starting, attaching and finding the wrapped functions succeed; the value [racez_start]
    finds when [pmu_profiler_start] falls off its end is not 0 (with 0 the run ends at an
    assertion, as for a session); no lockset exists yet; the memory of the first entry,
    which is never filled, does not look like an access or a block; fewer samples of loads
    and stores than the buffer has room for.  [main] starts the library and creates the two
    threads; they run their code in any interleaving and for any part of it, and are
    sampled wherever the counters overflow, a sample of [global] only at the store to it.
    Once each of them was sampled there, [main] returns, and the detector's run on the log
    it leaves returns with a warning for [global]. *)
Theorem test_1_race_reported (HP : Platform) getenv dlsym mem fd_mutex ibsopctl att ld st junk
    tid0 start_junk env addr jk b0 b1 mutex qs p t1 t2 sched0 sched1 addr2line reuse s :
  (∀ f, dlsym f = true) → (∀ t, (mem t).1 ≠ 0) → (∀ t, length (mem t).2 = 10%nat) → (∀ t, amd_attachable (att t)) →
  (∀ a, ∃ t, addr2line a = Some (t +:+ nl)) →
  startable env addr jk → s_pmu_type env = AMD64_PMU → 0 ≤ addr < 2 ^ 47 → (∀ i, record_wf (jk i)) →
  type_is MEMORY_OP (jk 0) = false → type_is MEMORY_ALLOC (jk 0) = false →
  idle s → locksets s = mkTls false ∅ → start_junk ≠ 0 → b0 ≠ 0 → b1 ≠ 0 → t1 ≠ t2 → p ≠ 0 →
  (∀ t, actions_of t (sched0 ++ sched1) `prefix_of` thread_code mutex qs p t1 t2 t) →
  Forall item_readable (sched0 ++ sched1) → Forall (sample_fits ld st p) (sched0 ++ sched1) →
  sampled_at ld st p t1 (sched0 ++ sched1) → sampled_at ld st p t2 (sched0 ++ sched1) →
  0 ≤ num_stat (pmu s) → num_stat (pmu s) + Z.of_nat (length (sched0 ++ sched1)) ≤ INT_MAX →
  Z.of_nat (length (filter (memory_item ld st) (sched0 ++ sched1))) < BUFFERSIZE - 1 →
  ∃ s' log d ws,
    test_main getenv dlsym mem fd_mutex ibsopctl att ld st junk tid0 start_junk env [(b0, 0, sched0); (b1, 0, sched1)] [0; 0] s = Ret 0 s' ∧
    files (buffer s') !! s_fd env = Some log ∧
    detect_files addr2line reuse log None detect_init = Ret tt d ∧ (p, ws) ∈ warned d.
Proof.
  intros Hd Hm Hw Ha Hline Hst Hty Haddr Hjk Hj1 Hj2 Hid Hls Hsj Hb0 Hb1 Ht Hp Hpre Hre Hfit S1 S2 H0 Hint Hroom.
  destruct (started_ready env addr jk (λ t, actions_of t (sched0 ++ sched1)) s) as [Hrd Hat]; try done.
  { intros t. eapply disciplined_prefix; [apply Hpre|apply thread_code_disciplined]. }
  set (s1 := started_rt env addr jk s) in *.
  destruct (creations_run getenv dlsym mem fd_mutex ibsopctl att ld st junk Hd Hm Hw Ha tid0 b0 b1 sched0 sched1 s1)
    as (s2 & rs & E2 & Hrd2 & Hc2 & Hw2 & Hrs); try done.
  destruct (items_accesses ld st p _ rs Hrs Hfit) as (Hacc & Hun & Hget).
  pose proof (Forall2_length _ _ _ Hrs) as Hlen.
  destruct (stop_writes_log getenv dlsym mem fd_mutex Hd Hm Hw (λ _, []) tid0 env addr jk rs s1 s2)
    as (s3 & entries & E3 & Hfile & Hlog); try done; try lia; [apply lookup_insert_eq|].
  destruct (log_detected addr2line reuse p (jk 0) entries rs Hline Hp Hlog Hun) as (d & ws & Ed & Hws).
  { destruct (Hget t1 S1) as (r1 & ? & ? & <-), (Hget t2 S2) as (r2 & ? & ? & <-). by exists r1, r2. }
  exists s3, (jk 0 :: entries), d, ws. split; [|done]. unfold test_main.
  rewrite (bind_Ret _ _ _ _ _ (racez_start_ok getenv dlsym start_junk env addr jk s Hst Hid Hsj)). fold (started_rt env addr jk s). fold s1.
  rewrite (bind_Ret _ _ _ _ _ E2), (bind_Ret _ _ _ tt s2) by done. by rewrite (bind_Ret _ _ _ _ _ E3).
Qed.

(** *** A run in which both threads store once *)

Definition demo_att (t : Z) : attach_env :=
  mkAttach true AMD64_PMU true 5 None 0 0 true [] [] true true true true true.
Definition demo_start_amd : start_env := mkStart true AMD64_PMU true (Some (65536, λ _, zero_record)) 3 true.

(** The counter overflows at the store: bit 1 of the data register says so. *)
Definition store_sample : sample := mkSample 5 (replicate 23 33) [1; 2; 3; 4] 0 true true (λ r, if r =? 11 then Some 2 else Some 4096).

Definition plainly (t : Z) (a : action) : item := (t, a, None).
Definition one_round (t : Z) (l : list action) : list item :=
  (plainly t <$> Begin :: l) ++ [(t, Store 4096 1, Some store_sample)].

Lemma one_round_actions t u l :
  actions_of u (one_round t l) = if decide (t = u) then (Begin :: l) ++ [Store 4096 1] else [].
Proof.
  assert (Hl : ∀ k, actions_of u (plainly t <$> k) = if decide (t = u) then k else []).
  { intros k. induction k as [|a k IH]; [by destruct (decide (t = u))|]. cbn [fmap list_fmap]. rewrite actions_of_cons, IH. simpl.
    by destruct (decide (t = u)). }
  unfold one_round. rewrite actions_of_app, Hl, actions_of_cons. simpl. by destruct (decide (t = u)).
Qed.

Lemma first_round_prefix {A} (l : list A) (f : nat → list A) n :
  f 0%nat = l → l `prefix_of` concat (f <$> seq 0 (S n)).
Proof. intros <-. simpl. by eexists. Qed.

Lemma demo_code_prefix t :
  actions_of t (one_round 11 (foo 500 8192) ++ one_round 12 (bar 8192)) `prefix_of` thread_code 500 (λ _ _, 8192) 4096 11 12 t.
Proof.
  rewrite actions_of_app, !one_round_actions. unfold thread_code.
  assert (EM : M_rounds = S (Nat.pred M_rounds)) by (vm_compute; reflexivity).
  destruct (decide (11 = t)) as [<-|H11].
  - rewrite decide_False, app_nil_r by done. rewrite decide_True by done.
    change ((Begin :: foo 500 8192) ++ [Store 4096 1]) with (Begin :: (foo 500 8192 ++ [Store 4096 1])).
    apply prefix_cons. unfold foo_0, foo_1, foo_2. rewrite EM. by apply first_round_prefix.
  - rewrite (decide_False (P := t = 11)) by congruence. destruct (decide (12 = t)) as [<-|H12]; [|by rewrite decide_False by congruence].
    rewrite decide_True by done. apply (prefix_cons Begin). unfold bar_0, bar_1, bar_2. rewrite EM. by apply first_round_prefix.
Qed.

Lemma one_round_all (P : item → Prop) t l :
  (∀ a, P (plainly t a)) → P (t, Store 4096 1, Some store_sample) → Forall P (one_round t l).
Proof. intros H1 H2. unfold one_round. apply Forall_app. split; [apply Forall_fmap, Forall_forall; auto|by apply Forall_singleton]. Qed.

Lemma one_round_sampled t l sched :
  one_round t l ⊆ sched → sampled_at (λ v, v =? 1) (λ v, v =? 2) 4096 t sched.
Proof.
  intros Hsub. exists (t, Store 4096 1, Some store_sample), store_sample. split; [|by repeat split].
  apply Hsub. unfold one_round. apply elem_of_app. right. by apply list_elem_of_singleton.
Qed.

Lemma one_round_hits t l : filter (memory_item (λ v, v =? 1) (λ v, v =? 2)) (one_round t l) = [(t, Store 4096 1, Some store_sample)].
Proof.
  unfold one_round. rewrite filter_app.
  assert (H : filter (memory_item (λ v, v =? 1) (λ v, v =? 2)) (plainly t <$> Begin :: l) = []).
  { induction (Begin :: l) as [|a k IH]; [done|]. cbn [fmap list_fmap]. by rewrite filter_cons_False by (by intros []). }
  rewrite H. by rewrite filter_cons_True.
Qed.

Lemma test_1_race_reported_witness :
  ∃ s' log d ws,
    test_main (HP := demo_platform) (λ _, None) (λ _, true) (λ _, demo_mem) 9000 (λ _ _, 0) demo_att (λ v, v =? 1) (λ v, v =? 2) true
      10 1 demo_start_amd [(12288, 0, one_round 11 (foo 500 8192)); (12304, 0, one_round 12 (bar 8192))] [0; 0] demo_idle = Ret 0 s' ∧
    files (buffer s') !! 3 = Some log ∧
    detect_files unknown_line true log None detect_init = Ret tt d ∧ (4096, ws) ∈ warned d.
Proof.
  apply (test_1_race_reported demo_platform (λ _, None) (λ _, true) (λ _, demo_mem) 9000 (λ _ _, 0) demo_att (λ v, v =? 1) (λ v, v =? 2) true
    10 1 demo_start_amd 65536 (λ _, zero_record) 12288 12304 500 (λ _ _, 8192) 4096 11 12
    (one_round 11 (foo 500 8192)) (one_round 12 (bar 8192)) unknown_line true demo_idle).
  - done.
  - done.
  - done.
  - by split.
  - apply unknown_line_ok.
  - by split.
  - done.
  - lia.
  - intros i. apply zero_record_wf.
  - done.
  - done.
  - apply demo_idle_ok.
  - done.
  - lia.
  - lia.
  - lia.
  - lia.
  - lia.
  - apply demo_code_prefix.
  - apply Forall_app; split; apply one_round_all; try (by intros a sm); intros sm [= <-]; (split; [done|by eexists|by eexists|by eexists]).
  - apply Forall_app; split; apply one_round_all; try (by intros a sm); intros sm [= <-] _ _; (split; [by eexists|done]).
  - eapply one_round_sampled, list_subseteq_app_l; reflexivity.
  - eapply one_round_sampled, list_subseteq_app_r; reflexivity.
  - done.
  - vm_compute. discriminate.
  - rewrite filter_app, !one_round_hits. vm_compute. reflexivity.
Defined.
