(* ===== verification/Convert.v ===== *)
(** * The symbolizer

    tools/convert.cc: the addresses of the samples are printed to a text file, looked up
    in the symbol table that readelf prints, paired with the source positions that
    addr2line prints, and written as one line per sample.

    Text files are strings without NUL characters. *)

From S2P Require Import Prelude.
From S2P Require Import Records.
From S2P Require Import Text.
From Stdlib Require Import Ascii.
From stdpp Require Import base list sorting strings pretty.

Open Scope Z_scope.

(** ** Reading lines *)

(** The characters [fgets] takes: at most [n], up to a newline; the rest of the file, and
    whether the end of the file was met. *)
Fixpoint fgets_aux (n : nat) (s : string) : string * string * bool :=
  match n with
  | O => (EmptyString, s, false)
  | S n' =>
      match s with
      | EmptyString => (EmptyString, EmptyString, true)
      | String c s' =>
          if decide (c = newline) then (nl, s', false)
          else let '(l, r, e) := fgets_aux n' s' in (String c l, r, e)
      end
  end.

(** [fgets(buffer, size, fp)]; [None] is the null pointer. *)
Definition fgets (size : nat) (s : string) : option (string * string * bool) :=
  let '(l, r, e) := fgets_aux (size - 1) s in
  if decide (l = EmptyString) then None else Some (l, r, e).

(** The buffers [while(fgets(...))] goes through, with the state of [feof] after each. *)
Fixpoint chunks_aux (fuel size : nat) (s : string) : list (string * bool) :=
  match fuel with
  | O => []
  | S fuel' =>
      match fgets size s with
      | None => []
      | Some (l, r, e) => (l, e) :: chunks_aux fuel' size r
      end
  end.

Definition chunks (size : nat) (s : string) : list (string * bool) := chunks_aux (S (String.length s)) size s.

(** [buffer[strlen(buffer) - 1] == '\n'] *)
Fixpoint ends_nl (s : string) : bool :=
  match s with
  | EmptyString => false
  | String c EmptyString => bool_decide (c = newline)
  | String _ s' => ends_nl s'
  end.

(** [buffer[strlen(buffer) - 1] = '\0'] *)
Fixpoint chop (s : string) : string :=
  match s with
  | EmptyString => EmptyString
  | String _ EmptyString => EmptyString
  | String c s' => String c (chop s')
  end.

(** ** Searching strings *)

Definition space : ascii := Ascii.ascii_of_nat 32.

(** Moving [ptr] over the blanks it points to. *)
Fixpoint skip_blanks (s : string) : string :=
  match s with
  | String c s' => if decide (c = space) then skip_blanks s' else s
  | EmptyString => s
  end.

(** [strchr(ptr, c)]: the text before and after the first [c]. *)
Fixpoint strchr (c : ascii) (s : string) : option (string * string) :=
  match s with
  | EmptyString => None
  | String d s' =>
      if decide (d = c) then Some (EmptyString, s')
      else match strchr c s' with Some (b, a) => Some (String d b, a) | None => None end
  end.

(** [strncmp(s, pre, strlen(pre)) == 0] *)
Fixpoint starts_with (pre s : string) : bool :=
  match pre, s with
  | EmptyString, _ => true
  | String c pre', String d s' => bool_decide (c = d) && starts_with pre' s'
  | String _ _, EmptyString => false
  end.

(** [strstr(s, pat) != NULL] *)
Fixpoint strstr (pat s : string) : bool :=
  starts_with pat s || match s with EmptyString => false | String _ s' => strstr pat s' end.

(** ** [strtoll] with base 0 *)

Definition strtoll0 (s : string) : Z :=
  let s := skip_space s in
  let '(neg, s) :=
    match s with
    | String c s' => if (Ascii.nat_of_ascii c =? 45)%nat then (true, s')
                     else if (Ascii.nat_of_ascii c =? 43)%nat then (false, s') else (false, s)
    | EmptyString => (false, s)
    end in
  let v :=
    if decide (skip_0x s = s)
    then base_value (if starts_with "0" s then 8 else 10) s 0
    else hex_value (skip_0x s) 0 in
  Z.max LLONG_MIN (Z.min LLONG_MAX (if neg : bool then - v else v)).

(** ** The symbol table *)

Record RacezFunctionEntry := mkEntry {
  function_name_ : string;
  offset_ : Z;
  fsize_ : Z
}.

(** [MyCompare] *)
Definition entry_lt (e1 e2 : RacezFunctionEntry) : bool := offset_ e1 <? offset_ e2.

(** [for (i = 0; i < n; i++)]: skip blanks and the field after them.  Past a missing
    field the pointer is [NULL + 1]. *)
Fixpoint skip_fields {S} (n : nat) (ptr : string) : M S string :=
  match n with
  | O => mret ptr
  | S n' =>
      match strchr space (skip_blanks ptr) with
      | None => fail Undefined
      | Some (_, ptr') => skip_fields n' ptr'
      end
  end.

(** The body of the loop of [ReadSymFile] after the header lines; [None] is
    [goto parse_error]. *)
Definition parse_sym_line {S} (line : string) : M S (option RacezFunctionEntry) :=
  match strchr space (skip_blanks line) with
  | None => fail Undefined
  | Some (_, ptr) =>
      match strchr space ptr with
      | None => mret None
      | Some (tok, ptr) =>
          let offset := wrap64 (strtoll16 tok) in
          match strchr space (skip_blanks ptr) with
          | None => mret None
          | Some (tok, ptr) =>
              let size := wrap64 (strtoll0 tok) in
              ptr ← skip_fields 4 ptr;
              match strchr newline ptr with
              | None => mret None
              | Some (func, _) => mret (Some (mkEntry func offset size))
              end
          end
      end
  end.

(** The loop of [ReadSymFile] over the lines [ReadSymLine] yields.  The state is the
    vector of functions. *)
Fixpoint sym_loop (first_occ : Z) (ls : list (string * bool)) : M (list RacezFunctionEntry) bool :=
  match ls with
  | [] => mret true
  | (line, eof) :: ls' =>
      c_assert (ends_nl line || eof) ;;
      if negb (strstr ".symtab" line) && (first_occ =? 0) then sym_loop first_occ ls'
      else if first_occ + 1 <=? 2 then sym_loop (first_occ + 1) ls'
      else
        e ← parse_sym_line line;
        match e with
        | None => mret false
        | Some e => modify (λ v, v ++ [e]) ;; sym_loop (first_occ + 1) ls'
        end
  end.

Definition SIZE : nat := Z.to_nat 10000.

(** [sym] is the text of the symbol file, [None] when it cannot be opened. *)
Definition ReadSymFile (sym : option string) : M (list RacezFunctionEntry) bool :=
  match sym with
  | None => mret false
  | Some text => sym_loop 0 (chunks SIZE text)
  end.

(** ** The addresses *)

Definition WriteRawRecord (record : RacezRecord) : M string unit :=
  modify (λ out, out +:+ (if type_is MEMORY_OP record then fmt_0x08 (pip_ (op_ record)) +:+ nl
                          else "invalid" +:+ nl)).

(** [raw] is the list of complete records in the raw file. *)
Definition ReadRawFile (raw : option (list RacezRecord)) : M string bool :=
  match raw with
  | None => mret false
  | Some rs => for_each rs WriteRawRecord ;; mret true
  end.

(** What the C library promises of [strcmp]: only the sign of the result is fixed. *)
Fixpoint str_compare (a b : string) : comparison :=
  match a, b with
  | EmptyString, EmptyString => Eq
  | EmptyString, String _ _ => Lt
  | String _ _, EmptyString => Gt
  | String c a', String d b' =>
      match (Ascii.nat_of_ascii c ?= Ascii.nat_of_ascii d)%nat with
      | Eq => str_compare a' b'
      | o => o
      end
  end.

Class Strcmp := {
  strcmp : string → string → Z;
  strcmp_sign : ∀ a b, (strcmp a b ?= 0) = str_compare a b
}.

(** What [std::sort] promises: a sorted permutation; the order of equal keys is open. *)
Class StdSort := {
  std_sort : list RacezFunctionEntry → list RacezFunctionEntry;
  std_sort_perm : ∀ l, std_sort l ≡ₚ l;
  std_sort_sorted : ∀ l, StronglySorted (λ a b, offset_ a ≤ offset_ b) (std_sort l)
}.

(** [lower_bound]: the position of the first element that is not less than the value. *)
Fixpoint lower_bound (l : list RacezFunctionEntry) (offset : Z) : nat :=
  match l with
  | [] => 0
  | e :: l' => if offset_ e <? offset then S (lower_bound l' offset) else 0
  end.

(** The entry [ConvertIP] prints for an address; [low - 1] at the start of the vector is
    outside it. *)
Definition find_function {S} (functions : list RacezFunctionEntry) (offset : Z) : M S RacezFunctionEntry :=
  let low := lower_bound functions offset in
  let exact := match functions !! low with Some e => offset_ e =? offset | None => false end in
  if exact then arr_get functions (Z.of_nat low) else arr_get functions (Z.of_nat low - 1).

(** [%lld] of the difference of two 64-bit values *)
Definition as_llong (z : Z) : Z := (z + 2 ^ 63) mod 2 ^ 64 - 2 ^ 63.

Section convert_ip.
Context `{Strcmp} `{StdSort}.

Definition convert_line (functions : list RacezFunctionEntry) (buffer : string) : M string unit :=
  if strcmp buffer "invalid" =? 1 then modify (λ out, out +:+ "invalid" +:+ nl)
  else
    c_assert (ends_nl buffer) ;;
    let offset := wrap64 (strtoll16 buffer) in
    low ← find_function functions offset;
    modify (λ out, out +:+ function_name_ low +:+ tb +:+ fmt_d (as_llong (offset - offset_ low)) +:+ nl).

(** [ip] is the text of the file of addresses. *)
Definition ConvertIP (functions : list RacezFunctionEntry) (ip : string) : M string unit :=
  for_each (chunks 100 ip).*1 (convert_line (std_sort functions)).

(** The loop of [Combine]; [count] is its counter before the iteration. *)
Fixpoint combine_loop (count : Z) (filenames functions : list string) : M string unit :=
  match filenames, functions with
  | filename_buffer :: filenames', function_buffer :: functions' =>
      (if strcmp function_buffer "invalid" =? 0 then mret tt
       else if starts_with "??:0" filename_buffer then mret tt
       else
         c_assert (ends_nl filename_buffer) ;;
         c_assert (ends_nl function_buffer) ;;
         modify (λ out, out +:+ fmt_d (count + 1 - 1) +:+ tb +:+ chop filename_buffer +:+ tb +:+
                        chop function_buffer +:+ nl)) ;;
      combine_loop (count + 1) filenames' functions'
  | _, _ => mret tt
  end.

Definition Combine (function_output filename_output : string) : M string unit :=
  combine_loop 0 (chunks 2000 filename_output).*1 (chunks 200 function_output).*1.
End convert_ip.

(** ** The program *)

(** The files around [main]: the raw log, what readelf leaves in [sym.txt], what addr2line
    makes of the text of [ip.txt], and whether an output file can be created. *)
Record convert_env := mkEnv {
  raw_log : option (list RacezRecord);
  readelf_out : option string;
  addr2line_out : string → option string;
  can_create : string → bool
}.

(** Runs a writer on an empty file. *)
Definition to_file {A} (m : M string A) : M string string := λ s,
  match m EmptyString with Ret _ t => Ret t s | Stop f _ => Stop f s end.

(** The state is the text of the final output file. *)
Definition convert_main `{Strcmp} `{StdSort} (env : convert_env) (argc : Z) (final_output : string) : M string Z :=
  if argc <? 4 then fail (Exited 0) else
  if negb (can_create env "ip.txt") then fail (Exited 0) else
  ip ← to_file (ReadRawFile (raw_log env));
  match readelf_out env with
  | None => fail (Exited 0)
  | Some sym =>
      functions ← (λ s, match ReadSymFile (Some sym) [] with Ret _ v => Ret v s | Stop f _ => Stop f s end);
      if negb (can_create env "functions.txt") then fail (Exited 0) else
      fns ← to_file (ConvertIP functions ip);
      match addr2line_out env ip with
      | None => fail (Exited 0)
      | Some filenames =>
          if negb (can_create env final_output) then fail (Exited 0) else
          Combine fns filenames ;; mret 0
      end
  end.
