(* ===== verification/ConvertSpec.v ===== *)
(** * What the symbolizer computes

    The properties of tools/convert.cc: the grammar of the symbol table, the function
    found for an address, the line of the final file for each record of the log, and the
    inputs on which the code stops. *)

From S2P Require Import Prelude.
From S2P Require Import Records.
From S2P Require Import Text.
From S2P Require Import Convert.
From Stdlib Require Import Ascii.
From stdpp Require Import base list sets sorting strings pretty.

Open Scope Z_scope.

(** ** Strings and lines *)

(** The string has no character [c]. *)
Definition lacks (c : ascii) (s : string) : Prop := strchr c s = None.

(** A text file from its lines. *)
Fixpoint text (ls : list string) : string :=
  match ls with
  | [] => EmptyString
  | l :: ls' => l +:+ nl +:+ text ls'
  end.

Definition short_line (size : nat) (l : string) : Prop :=
  lacks newline l ∧ (String.length l + 2 ≤ size)%nat.

Lemma str_cons_app (c : ascii) (s t : string) : String c s +:+ t = String c (s +:+ t).
Proof. done. Qed.

Lemma lacks_cons c d s : lacks c (String d s) ↔ d ≠ c ∧ lacks c s.
Proof.
  unfold lacks; simpl. destruct (decide (d = c)); [naive_solver|].
  destruct (strchr c s) as [[]|]; naive_solver.
Qed.

Lemma strchr_app c s t : lacks c s → strchr c (s +:+ String c t) = Some (s, t).
Proof.
  induction s as [|d s IH]; intros Hs; simpl.
  - by rewrite decide_True.
  - apply lacks_cons in Hs as [Hd Hs]. rewrite decide_False by done. by rewrite (IH Hs).
Qed.

Lemma fgets_aux_line n l t :
  lacks newline l → (String.length l + 1 ≤ n)%nat → fgets_aux n (l +:+ nl +:+ t) = (l +:+ nl, t, false).
Proof.
  revert n. induction l as [|c l IH]; intros [|n] Hl Hn; simpl in Hn; try lia.
  - simpl. done.
  - apply lacks_cons in Hl as [Hc Hl]. rewrite !str_cons_app. simpl.
    rewrite decide_False by done. by rewrite IH by (done || lia).
Qed.

Lemma fgets_line size l t :
  short_line size l → fgets size (l +:+ nl +:+ t) = Some (l +:+ nl, t, false).
Proof.
  intros [Hl Hn]. unfold fgets. rewrite fgets_aux_line by (done || lia).
  by rewrite decide_False by (by destruct l).
Qed.

Lemma fgets_empty size : fgets size EmptyString = None.
Proof. unfold fgets. by destruct (size - 1)%nat. Qed.

Lemma str_length_app (s t : string) : String.length (s +:+ t) = (String.length s + String.length t)%nat.
Proof. induction s as [|c s IH]; [done|]. rewrite str_cons_app. simpl. by rewrite IH. Qed.

Lemma chunks_aux_text fuel size ls :
  Forall (short_line size) ls → (length ls < fuel)%nat →
  chunks_aux fuel size (text ls) = (λ l, (l +:+ nl, false)) <$> ls.
Proof.
  intros Hls. revert fuel. induction Hls as [|l ls Hl _ IH]; intros [|fuel] Hf; simpl in *; try lia.
  - by rewrite fgets_empty.
  - rewrite fgets_line by done. f_equal. apply IH. lia.
Qed.

(** [fgets] takes the text apart without losing a character, and takes at least one. *)
Lemma fgets_aux_parts n s l r e : fgets_aux n s = (l, r, e) → s = l +:+ r ∧ (s ≠ EmptyString → n ≠ O → l ≠ EmptyString).
Proof.
  revert s l r e. induction n as [|n IH]; intros [|c s] l r e E; simpl in E; simplify_eq; [done..|].
  destruct (decide (c = newline)) as [->|Hc]; simplify_eq; [done|].
  destruct (fgets_aux n s) as [[l' r'] e'] eqn:E'. simplify_eq.
  apply IH in E' as [-> _]. done.
Qed.

(** The lines read are the whole file: the fuel of [chunks] is enough. *)
Lemma chunks_read_all size s :
  (2 ≤ size)%nat → foldr String.append EmptyString (chunks size s).*1 = s.
Proof.
  intros Hsize. unfold chunks. assert (Hf : (String.length s < S (String.length s))%nat) by lia.
  revert Hf. generalize (S (String.length s)) as fuel. intros fuel. revert s.
  induction fuel as [|fuel IH]; intros s Hf; [lia|]. simpl. unfold fgets.
  destruct (fgets_aux (size - 1) s) as [[l r] e] eqn:E. apply fgets_aux_parts in E as [-> Hl].
  destruct (decide (l = EmptyString)) as [->|Hne].
  - simpl. destruct r as [|c r]; [done|]. exfalso. apply Hl; [done|lia|done].
  - simpl. rewrite IH; [done|]. rewrite str_length_app in Hf.
    destruct l as [|c l]; [done|]. simpl in Hf. lia.
Qed.

Lemma length_text ls : (length ls ≤ String.length (text ls))%nat.
Proof. induction ls as [|l ls IH]; simpl; [done|]. rewrite !str_length_app. simpl. lia. Qed.

(** Reading a file of short lines yields the lines. *)
Lemma chunks_text size ls :
  Forall (short_line size) ls → chunks size (text ls) = (λ l, (l +:+ nl, false)) <$> ls.
Proof. intros Hls. apply chunks_aux_text; [done|]. pose proof (length_text ls). lia. Qed.

Lemma chunks_text_lines size ls :
  Forall (short_line size) ls → (chunks size (text ls)).*1 = (λ l, l +:+ nl) <$> ls.
Proof. intros Hls. rewrite chunks_text by done. by rewrite <- list_fmap_compose. Qed.

Lemma ends_nl_line l : ends_nl (l +:+ nl) = true.
Proof.
  induction l as [|c l IH]; [done|]. rewrite str_cons_app. simpl.
  destruct (l +:+ nl) eqn:E; [by destruct l|]. done.
Qed.

Lemma chop_line l : chop (l +:+ nl) = l.
Proof.
  induction l as [|c l IH]; [done|]. rewrite str_cons_app. simpl.
  destruct (l +:+ nl) eqn:E; [by destruct l|]. by rewrite IH.
Qed.

Lemma text_snoc ls l : text (ls ++ [l]) = text ls +:+ l +:+ nl.
Proof.
  induction ls as [|k ls IH]; simpl; [by rewrite app_nil_r_str|].
  rewrite IH. by rewrite !app_assoc_str.
Qed.

Lemma text_app ls ks : text (ls ++ ks) = text ls +:+ text ks.
Proof. induction ls as [|l ls IH]; [done|]. simpl. rewrite IH. by rewrite !app_assoc_str. Qed.

(** ** The symbol table *)

Fixpoint blanks (n : nat) : string :=
  match n with O => EmptyString | S n' => String space (blanks n') end.

(** A field: no blank inside, not empty. *)
Definition field (f : string) : Prop := lacks space f ∧ f ≠ EmptyString.

Lemma skip_blanks_app n s : skip_blanks (blanks n +:+ s) = skip_blanks s.
Proof. induction n as [|n IH]; [done|]. simpl. by rewrite IH. Qed.

Lemma skip_blanks_field f s : field f → skip_blanks (f +:+ s) = f +:+ s.
Proof.
  intros [Hl Hne]. destruct f as [|c f]; [done|]. apply lacks_cons in Hl as [Hc _].
  rewrite str_cons_app. simpl. by rewrite decide_False.
Qed.

(** Blanks, then a field, then a blank. *)
Definition column (n : nat) (f s : string) : string := blanks n +:+ f +:+ String space s.

Lemma next_column n f s :
  field f → strchr space (skip_blanks (column n f s)) = Some (f, s).
Proof.
  intros Hf. unfold column. rewrite skip_blanks_app, skip_blanks_field by done.
  apply strchr_app. apply Hf.
Qed.

Lemma this_column f s : lacks space f → strchr space (column 0 f s) = Some (f, s).
Proof. apply strchr_app. Qed.

(** The parser of the symbol table accepts the lines readelf prints: an index, the
    value, the size, four more columns, the name, separated by any number of blanks (one
    after the index), and yields the name with the value read as hexadecimal and the size
    read with the base its prefix gives. *)
Theorem parse_sym_line_columns {S} n0 n1 n2 n3 n4 n5 idx off sz f1 f2 f3 f4 name (s : S) :
  field idx → field off → field sz → field f1 → field f2 → field f3 → field f4 →
  lacks newline name →
  parse_sym_line
    (column n0 idx (column 0 off (column n1 sz (column n2 f1 (column n3 f2 (column n4 f3 (column n5 f4
      (name +:+ nl)))))))) s =
  Ret (Some (mkEntry name (wrap64 (strtoll16 off)) (wrap64 (strtoll0 sz)))) s.
Proof.
  intros Hi Ho Hs H1 H2 H3 H4 Hn. unfold parse_sym_line. rewrite next_column by done.
  rewrite this_column by apply Ho. rewrite next_column by done.
  unfold skip_fields. rewrite !next_column by done. run_m.
  unfold nl. by rewrite strchr_app.
Qed.

Lemma parse_sym_line_columns_witness :
  parse_sym_line ("    53: 0000000000400586    37 FUNC    GLOBAL DEFAULT   13 main" +:+ nl) tt =
  Ret (Some (mkEntry "main" (wrap64 (strtoll16 "0000000000400586")) (wrap64 (strtoll0 "37")))) tt.
Proof.
  apply (parse_sym_line_columns 4 3 0 3 0 2 "53:" "0000000000400586" "37" "FUNC" "GLOBAL" "DEFAULT" "13" "main" tt);
    first [reflexivity | split; [reflexivity|discriminate]].
Defined.

(** A line of the symbol file without the expected columns is not always rejected: a
    line with one word only, such as an empty line, and a line that ends in one of the four
    columns after the size make the parser read through a null pointer; only a missing
    value, size or line end is reported as a parse error. *)
Theorem parse_sym_line_missing_columns {S} n0 n1 idx off sz w (s : S) :
  field idx → field off → field sz → field w →
  parse_sym_line (blanks n0 +:+ w) s = Stop Undefined s ∧
  parse_sym_line (column n0 idx w) s = Ret None s ∧
  parse_sym_line (column n0 idx (column 0 off (blanks n1 +:+ w))) s = Ret None s ∧
  parse_sym_line (column n0 idx (column 0 off (column n1 sz w))) s = Stop Undefined s.
Proof.
  intros Hi Ho Hs Hw. assert (Hlast : ∀ n, strchr space (skip_blanks (blanks n +:+ w)) = None).
  { intros n. rewrite skip_blanks_app. rewrite <- (app_nil_r_str w), skip_blanks_field by done.
    rewrite app_nil_r_str. apply Hw. }
  unfold parse_sym_line. rewrite Hlast, !next_column by done.
  rewrite (this_column off) by apply Ho. rewrite this_column by apply Ho.
  rewrite Hlast, next_column by done.
  pose proof (Hlast 0%nat) as Hlast0. simpl in Hlast0. change (EmptyString +:+ w) with w in Hlast0.
  unfold skip_fields. rewrite Hlast0. destruct Hw as [Hw _]. unfold lacks in Hw. by rewrite Hw.
Qed.

Lemma parse_sym_line_missing_columns_witness :
  parse_sym_line nl tt = Stop Undefined tt ∧
  parse_sym_line ("1: " +:+ nl) tt = Ret None tt ∧
  parse_sym_line ("1: 0040 " +:+ nl) tt = Ret None tt ∧
  parse_sym_line ("1: 0040 7 " +:+ nl) tt = Stop Undefined tt.
Proof.
  apply (parse_sym_line_missing_columns 0 0 "1:" "0040" "7" nl tt);
    split; first [reflexivity|discriminate].
Defined.

(** ** The function of an address *)

Section lookup.
Implicit Types l : list RacezFunctionEntry.

Local Notation "'by_offset'" := (StronglySorted (λ a b, offset_ a ≤ offset_ b)).

(** The entry at or below an address, as close as possible. *)
Definition nearest_below l (a : Z) (e : RacezFunctionEntry) : Prop :=
  e ∈ l ∧ offset_ e ≤ a ∧ ∀ e', e' ∈ l → offset_ e' ≤ a → offset_ e' ≤ offset_ e.

(** The parts of a sorted vector below and not below an address. *)
Lemma lower_bound_split l a :
  by_offset l →
  ∃ l1 l2, l = l1 ++ l2 ∧ length l1 = lower_bound l a ∧
    (∀ e, e ∈ l1 → offset_ e < a) ∧ by_offset l2 ∧ (∀ e, head l2 = Some e → a ≤ offset_ e).
Proof.
  induction 1 as [|e l Hl IH He]; simpl; [by exists [], []; repeat constructor; set_solver|].
  destruct (Z.ltb_spec (offset_ e) a) as [Hlt|Hge].
  - destruct IH as (l1 & l2 & -> & Hlen & H1 & H2 & H3). exists (e :: l1), l2. simpl.
    split; [done|]. split; [lia|]. split; [set_solver|done].
  - exists [], (e :: l). split; [done|]. split; [done|]. split; [set_solver|].
    split; [by constructor|]. naive_solver.
Qed.

Lemma sorted_head_min e l x : by_offset (e :: l) → x ∈ e :: l → offset_ e ≤ offset_ x.
Proof.
  intros Hs. inversion Hs as [|? ? _ He]; subst. rewrite Forall_forall in He.
  intros [->|Hx]%elem_of_cons; [done|]. by apply He.
Qed.

Lemma sorted_last_max l e l' x : by_offset (l ++ e :: l') → x ∈ l → offset_ x ≤ offset_ e.
Proof.
  induction l as [|y l IH]; simpl; intros Hs Hx; [set_solver|].
  inversion Hs as [|? ? Hs' Hy]; subst. apply elem_of_cons in Hx as [->|Hx]; [|by apply IH].
  rewrite Forall_forall in Hy. apply Hy. set_solver.
Qed.

Lemma find_function_nearest {S} l a (s : S) :
  by_offset l → (∃ e, e ∈ l ∧ offset_ e ≤ a) →
  ∃ e, find_function l a s = Ret e s ∧ nearest_below l a e.
Proof.
  intros Hs (e0 & He0 & Ha0).
  destruct (lower_bound_split l a Hs) as (l1 & l2 & -> & Hlen & H1 & Hs2 & H2).
  unfold find_function. rewrite <- Hlen, lookup_app_r, Nat.sub_diag by done.
  destruct (match l2 !! 0%nat with Some e => offset_ e =? a | None => false end) eqn:Eex.
  - destruct l2 as [|e2 l2]; simpl in Eex; [done|]. apply Z.eqb_eq in Eex. exists e2. split.
    + apply arr_get_Some; [lia|]. by rewrite Nat2Z.id, lookup_app_r, Nat.sub_diag.
    + split; [set_solver|]. split; [lia|]. intros e' _ He'. lia.
  - assert (Hgt : ∀ x, x ∈ l2 → a < offset_ x).
    { intros x Hx. destruct l2 as [|e2 l2]; [set_solver|]. simpl in Eex. apply Z.eqb_neq in Eex.
      pose proof (sorted_head_min _ _ _ Hs2 Hx). specialize (H2 e2 eq_refl). lia. }
    assert (Hin1 : ∀ x, x ∈ l1 ++ l2 → offset_ x ≤ a → x ∈ l1).
    { intros x [Hx|Hx]%elem_of_app Hle; [done|]. specialize (Hgt x Hx). lia. }
    destruct l1 as [|e1 l1 _] using rev_ind; [specialize (Hin1 _ He0 Ha0); set_solver|].
    exists e1. rewrite length_app; simpl. split.
    + apply arr_get_Some; [lia|]. replace (Z.to_nat _) with (length l1) by lia.
      rewrite <- app_assoc. by rewrite lookup_app_r, Nat.sub_diag.
    + split; [set_solver|]. specialize (H1 e1). split; [set_solver by lia|].
      intros e' He' Hle. apply Hin1, elem_of_app in Hle as [Hx|Hx]; [| |done]; [|set_solver].
      rewrite <- app_assoc in Hs. by eapply sorted_last_max.
Qed.

Lemma find_function_none {S} l a (s : S) :
  (∀ e, e ∈ l → a < offset_ e) → find_function l a s = Stop OutOfBounds s.
Proof.
  intros Hl. unfold find_function. assert (lower_bound l a = 0%nat) as ->.
  { destruct l as [|e l]; [done|]. simpl. specialize (Hl e). destruct (Z.ltb_spec (offset_ e) a); [|done].
    set_solver by lia. }
  destruct l as [|e l]; simpl; [done|]. destruct (Z.eqb_spec (offset_ e) a) as [E|]; [|done].
  specialize (Hl e). set_solver by lia.
Qed.
End lookup.

(** ** The file of addresses *)

Lemma lacks_app c s t : lacks c (s +:+ t) ↔ lacks c s ∧ lacks c t.
Proof.
  induction s as [|d s IH]; [by split; [|intros []]|]. rewrite str_cons_app, !lacks_cons, IH. naive_solver.
Qed.

(** The printed numbers have digits only. *)
Lemma hex_digits_lacks c fuel z acc :
  digit_value c = None → 0 ≤ z → lacks c acc →
  lacks c (hex_digits fuel z acc) ∧
  (String.length (hex_digits fuel z acc) ≤ fuel + String.length acc)%nat.
Proof.
  intros Hc. revert z acc. induction fuel as [|fuel IH]; intros z acc Hz Hacc; simpl; [split; [done|lia]|].
  pose proof (Z.mod_pos_bound z 16 ltac:(lia)) as Hm.
  assert (Hl : lacks c (String (hex_digit (z mod 16)) acc)).
  { apply lacks_cons. split; [|done]. intros E. pose proof (digit_hex_digit (z mod 16) Hm) as Hd. congruence. }
  destruct (z <? 16); [split; [done|simpl; lia]|].
  destruct (IH (z / 16) _ (Z.div_pos z 16 Hz ltac:(lia)) Hl) as [H1 H2]. split; [done|]. simpl in H2. lia.
Qed.

Lemma zeros_lacks c n : digit_value c = None → lacks c (zeros n) ∧ String.length (zeros n) = n.
Proof.
  intros Hc. induction n as [|n [IH1 IH2]]; [done|]. simpl. split; [|by rewrite IH2].
  apply lacks_cons. split; [by intros <-|done].
Qed.

Lemma fmt_0x08_lacks c z : digit_value c = None → lacks c "0x" →
  lacks c (fmt_0x08 z) ∧ (String.length (fmt_0x08 z) ≤ 26)%nat.
Proof.
  intros Hc H0x. unfold fmt_0x08, fmt_x. destruct (hex_digits_lacks c 16 (wrap64 z) EmptyString) as [H1 H2]; [done| |done|].
  { apply wrap64_range. }
  set (x := hex_digits 16 (wrap64 z) EmptyString) in *. simpl in H2.
  destruct (zeros_lacks c (8 - String.length x) Hc) as [Hz1 Hz2]. split.
  - rewrite !lacks_app. done.
  - rewrite !str_length_app, Hz2. simpl. lia.
Qed.

(** The line of a record in the file of addresses. *)
Definition raw_line (r : RacezRecord) : string :=
  if type_is MEMORY_OP r then fmt_0x08 (pip_ (op_ r)) else "invalid".

Lemma raw_line_short r : short_line 100 (raw_line r).
Proof.
  unfold raw_line. destruct (type_is MEMORY_OP r); [|split; [done|simpl; lia]].
  destruct (fmt_0x08_lacks newline (pip_ (op_ r)) eq_refl eq_refl). split; [done|lia].
Qed.

Lemma write_records rs out :
  for_each rs WriteRawRecord out = Ret tt (out +:+ text (raw_line <$> rs)).
Proof.
  revert out. induction rs as [|r rs IH]; intros out; simpl; [by rewrite app_nil_r_str|].
  erewrite bind_Ret by done. rewrite IH. f_equal. unfold raw_line.
  destruct (type_is MEMORY_OP r); by rewrite !app_assoc_str.
Qed.

(** ** The whole conversion *)

Section pipeline.
Context `{Strcmp} `{StdSort}.

(** The line of an entry for an address. *)
Definition entry_line (a : Z) (e : RacezFunctionEntry) : string :=
  function_name_ e +:+ tb +:+ fmt_d (a - offset_ e).

(** The function line of a record: the name of the nearest function at or below the
    sampled address, and the distance.  For a record that is not an access, the mark
    ["invalid"], or, where [strcmp] does not return exactly 1 for it, the line of address
    0. *)
Definition names (functions : list RacezFunctionEntry) (r : RacezRecord) (l : string) : Prop :=
  if type_is MEMORY_OP r
  then ∃ e, nearest_below functions (pip_ (op_ r)) e ∧ l = entry_line (pip_ (op_ r)) e
  else l = "invalid" ∨ ∃ e, nearest_below functions 0 e ∧ l = entry_line 0 e.

(** A record whose line is found: the table covers its address, or, if it is not an access,
    [strcmp] returns 1 for its mark or the table has an entry at 0, as the null symbol that
    comes first in every table that readelf prints. *)
Definition covered (functions : list RacezFunctionEntry) (r : RacezRecord) : Prop :=
  if type_is MEMORY_OP r
  then 0 ≤ pip_ (op_ r) ≤ LLONG_MAX ∧ ∃ e, e ∈ functions ∧ offset_ e ≤ pip_ (op_ r)
  else strcmp ("invalid" +:+ nl) "invalid" = 1 ∨ ∃ e, e ∈ functions ∧ offset_ e = 0.

Lemma nearest_below_perm l l' a e : l ≡ₚ l' → nearest_below l a e → nearest_below l' a e.
Proof.
  intros Hp (H1 & H2 & H3). split; [by rewrite <- Hp|]. split; [done|].
  intros e' He'. apply H3. by rewrite Hp.
Qed.

Lemma strcmp_digit l : (∃ t, l = "0" +:+ t) → strcmp l "invalid" < 0.
Proof. intros [t ->]. unfold Z.lt. by rewrite strcmp_sign. Qed.

Lemma as_llong_id z : 0 ≤ z ≤ LLONG_MAX → as_llong z = z.
Proof. unfold as_llong, LLONG_MAX. intros Hz. rewrite Z.mod_small; lia. Qed.

(** A line that is an address in the table. *)
Lemma convert_line_address functions line a out :
  strcmp (line +:+ nl) "invalid" ≠ 1 → wrap64 (strtoll16 (line +:+ nl)) = a → 0 ≤ a ≤ LLONG_MAX →
  Forall (λ e, 0 ≤ offset_ e) functions → (∃ e, e ∈ functions ∧ offset_ e ≤ a) →
  ∃ e, nearest_below functions a e ∧
       convert_line (std_sort functions) (line +:+ nl) out = Ret tt (out +:+ entry_line a e +:+ nl).
Proof.
  intros Hs <- Ha Hpos (e0 & He0 & Ha0). set (a := wrap64 _) in *. unfold convert_line. apply Z.eqb_neq in Hs.
  rewrite Hs, ends_nl_line. erewrite bind_Ret by done. fold a.
  destruct (find_function_nearest (std_sort functions) a out) as (e & Ee & Hnear).
  { apply std_sort_sorted. } { exists e0. by rewrite std_sort_perm. }
  apply (nearest_below_perm _ functions) in Hnear; [|apply std_sort_perm].
  exists e. split; [done|]. rewrite (bind_Ret _ _ _ _ _ Ee). unfold modify, entry_line. f_equal.
  rewrite as_llong_id, !app_assoc_str; [done|]. destruct Hnear as (Hin & Hle & _).
  rewrite Forall_forall in Hpos. specialize (Hpos e Hin). lia.
Qed.

Lemma convert_line_names functions r out :
  Forall (λ e, 0 ≤ offset_ e) functions → covered functions r →
  ∃ l, names functions r l ∧
       convert_line (std_sort functions) (raw_line r +:+ nl) out = Ret tt (out +:+ l +:+ nl).
Proof.
  intros Hpos. unfold raw_line, names, covered. destruct (type_is MEMORY_OP r).
  - intros [Hw Hex]. destruct (convert_line_address functions (fmt_0x08 (pip_ (op_ r))) (pip_ (op_ r)) out) as (e & Hn & E);
      [| |done|done|done|eauto].
    + pose proof (strcmp_digit (fmt_0x08 (pip_ (op_ r)) +:+ nl) ltac:(by eexists)). lia.
    + rewrite strtoll16_fmt by (unfold is_word, LLONG_MAX in *; lia). rewrite Z.min_r by lia.
      apply wrap64_id. unfold is_word, LLONG_MAX in *; lia.
  - destruct (decide (strcmp ("invalid" +:+ nl) "invalid" = 1)) as [E|Hne]; intros Hcov.
    + exists "invalid". split; [by left|]. unfold convert_line. by rewrite E.
    + destruct Hcov as [?|(e0 & He0 & E0)]; [done|].
      destruct (convert_line_address functions "invalid" 0 out) as (e & Hn & E);
        [done|done|unfold LLONG_MAX; lia|done|exists e0; split; [done|lia]|]. eauto 10.
Qed.

Lemma convert_lines_names functions rs out :
  Forall (λ e, 0 ≤ offset_ e) functions → Forall (covered functions) rs →
  ∃ ls, Forall2 (names functions) rs ls ∧
    for_each ((λ l, l +:+ nl) <$> (raw_line <$> rs)) (convert_line (std_sort functions)) out =
    Ret tt (out +:+ text ls).
Proof.
  intros Hpos Hcov. revert out. induction Hcov as [|r rs Hr _ IH]; intros out.
  - exists []. split; [constructor|]. simpl. by rewrite app_nil_r_str.
  - rewrite !fmap_cons. cbn [for_each]. destruct (convert_line_names functions r out Hpos Hr) as (l & Hl & E).
    rewrite (bind_Ret _ _ _ _ _ E). destruct (IH (out +:+ l +:+ nl)) as (ls & Hls & ->).
    exists (l :: ls). split; [by constructor|]. simpl. by rewrite !app_assoc_str.
Qed.

(** The lines of the final file: one for each record whose source position is known, with
    the position of the record in the log. *)
Fixpoint final_lines (i : Z) (fs ls : list string) : list string :=
  match fs, ls with
  | f :: fs', l :: ls' =>
      (if starts_with "??:0" f then [] else [fmt_d i +:+ tb +:+ f +:+ tb +:+ l]) ++
      final_lines (i + 1) fs' ls'
  | _, _ => []
  end.

Lemma starts_with_unknown f : lacks newline f → starts_with "??:0" (f +:+ nl) = starts_with "??:0" f.
Proof.
  intros _. do 4 (destruct f as [|? f]; [simpl; by rewrite ?andb_false_r|]). done.
Qed.

Lemma strcmp_line l : (strcmp (l +:+ nl) "invalid" =? 0) = false.
Proof.
  apply Z.eqb_neq. intros E. pose proof (strcmp_sign (l +:+ nl) "invalid") as Hs.
  rewrite E in Hs. simpl (0 ?= 0) in Hs.
  assert (Hne : ∀ a b, str_compare a b = Eq → ends_nl a = ends_nl b).
  { clear. induction a as [|c a IH]; intros [|d b]; simpl; try done.
    destruct (Nat.compare_spec (nat_of_ascii c) (nat_of_ascii d)) as [Hc|Hc|Hc]; try done.
    apply (f_equal ascii_of_nat) in Hc. rewrite !ascii_nat_embedding in Hc. subst d.
    intros Hab. specialize (IH b Hab). destruct a, b; simpl in *; try done. }
  symmetry in Hs. apply Hne in Hs. rewrite ends_nl_line in Hs. done.
Qed.

Lemma combine_loop_lines i fs ls out :
  Forall (lacks newline) fs → length fs = length ls →
  combine_loop i ((λ l, l +:+ nl) <$> fs) ((λ l, l +:+ nl) <$> ls) out =
  Ret tt (out +:+ text (final_lines i fs ls)).
Proof.
  intros Hfs. revert i ls out. induction Hfs as [|f fs Hf _ IH]; intros i [|l ls] out Hlen; try done.
  - simpl. by rewrite app_nil_r_str.
  - simpl in Hlen. cbn [fmap list_fmap combine_loop final_lines]. rewrite strcmp_line, starts_with_unknown by done.
    destruct (starts_with "??:0" f).
    + erewrite bind_Ret by done. rewrite IH by lia. done.
    + rewrite !ends_nl_line, !chop_line. erewrite bind_Ret; [|run_m; done].
      rewrite IH by lia. f_equal. rewrite text_app. simpl.
      rewrite !app_assoc_str. replace (i + 1 - 1) with i by lia. done.
Qed.
(** Parsing changes no state, and the offsets of the table are 64-bit values. *)
Lemma skip_fields_state {S} n ptr (s s' : S) ptr' : skip_fields n ptr s = Ret ptr' s' → s' = s.
Proof.
  revert ptr. induction n as [|n IH]; intros ptr; simpl; [by injection 1|].
  destruct (strchr _ _) as [[? ?]|]; [apply IH|done].
Qed.

Lemma parse_sym_line_inv {S} line (s s' : S) e :
  parse_sym_line line s = Ret e s' → s' = s ∧ ∀ x, e = Some x → 0 ≤ offset_ x.
Proof.
  unfold parse_sym_line. destruct (strchr _ _) as [[t1 p1]|]; [|done].
  destruct (strchr _ p1) as [[t2 p2]|]; [|by injection 1 as <- <-].
  destruct (strchr _ _) as [[t3 p3]|]; [|by injection 1 as <- <-].
  intros (ptr & s1 & ->%skip_fields_state & E)%bind_Ret_inv.
  destruct (strchr _ ptr) as [[? ?]|]; injection E as <- <-; [|done].
  split; [done|]. intros x [= <-]. apply wrap64_range.
Qed.

Lemma sym_loop_offsets n ls fs b fs' :
  sym_loop n ls fs = Ret b fs' → Forall (λ e, 0 ≤ offset_ e) fs → Forall (λ e, 0 ≤ offset_ e) fs'.
Proof.
  revert n fs. induction ls as [|[line eof] ls IH]; intros n fs; simpl; [by injection 1 as _ <-|].
  intros (? & fs1 & Ea & E)%bind_Ret_inv.
  assert (fs1 = fs) as ->.
  { unfold c_assert in Ea. destruct (ends_nl line || eof); [by injection Ea|discriminate]. }
  destruct (negb _ && _); [by apply (IH n)|]. destruct (_ <=? 2); [by apply (IH (n + 1))|].
  apply bind_Ret_inv in E as (e & fs2 & [-> He]%parse_sym_line_inv & E). intros Hfs.
  destruct e as [e|]; [|by injection E as _ <-].
  apply bind_Ret_inv in E as (? & fs3 & Em & E). injection Em as _ <-. apply IH in E; [done|].
  apply Forall_app. split; [done|]. constructor; [by apply He|constructor].
Qed.

Lemma to_file_Ret {A} (m : M string A) a t s : m EmptyString = Ret a t → to_file m s = Ret t s.
Proof. unfold to_file. by intros ->. Qed.

Lemma ReadRawFile_lines rs : ReadRawFile (Some rs) EmptyString = Ret true (text (raw_line <$> rs)).
Proof. unfold ReadRawFile. by rewrite (bind_Ret _ _ _ _ _ (write_records rs EmptyString)). Qed.

Lemma ConvertIP_names functions rs :
  Forall (λ e, 0 ≤ offset_ e) functions → Forall (covered functions) rs →
  ∃ ls, Forall2 (names functions) rs ls ∧
    ConvertIP functions (text (raw_line <$> rs)) EmptyString = Ret tt (text ls).
Proof.
  intros Hpos Hcov. unfold ConvertIP. rewrite chunks_text_lines.
  - by apply convert_lines_names.
  - apply Forall_fmap, Forall_true. apply raw_line_short.
Qed.

Lemma Combine_lines fs ls :
  Forall (short_line 2000) fs → Forall (short_line 200) ls → length fs = length ls →
  Combine (text ls) (text fs) EmptyString = Ret tt (text (final_lines 0 fs ls)).
Proof.
  intros Hfs Hls Hlen. unfold Combine. rewrite !chunks_text_lines by done.
  apply combine_loop_lines; [|done]. eapply Forall_impl; [exact Hfs|]. by intros f [? _].
Qed.

(** The whole program. *)
Lemma convert_main_lines env final_output rs sym functions b fs :
  raw_log env = Some rs → readelf_out env = Some sym →
  ReadSymFile (Some sym) [] = Ret b functions → (∀ f, can_create env f = true) →
  addr2line_out env (text (raw_line <$> rs)) = Some (text fs) →
  length fs = length rs → Forall (short_line 2000) fs →
  Forall (covered functions) rs → (∀ r l, r ∈ rs → names functions r l → short_line 200 l) →
  ∃ ls, Forall2 (names functions) rs ls ∧ Forall (short_line 200) ls ∧
    convert_main env 4 final_output EmptyString = Ret 0 (text (final_lines 0 fs ls)).
Proof.
  intros Hraw Hsym Hread Hcan Haddr Hlen Hfs Hcov Hshort.
  assert (Hpos : Forall (λ e, 0 ≤ offset_ e) functions)
    by (eapply sym_loop_offsets; [exact Hread|constructor]).
  destruct (ConvertIP_names functions rs Hpos Hcov) as (ls & Hls & E).
  assert (Hls200 : Forall (short_line 200) ls).
  { apply Forall_forall. intros l [i Hi]%list_elem_of_lookup.
    destruct (Forall2_lookup_r _ _ _ _ _ Hls Hi) as (r & Hr & Hn).
    eapply Hshort; [by eapply list_elem_of_lookup_2|done]. }
  assert (Hlen' : length fs = length ls) by (rewrite Hlen; by eapply Forall2_length).
  exists ls. split; [done|]. split; [done|]. unfold convert_main. rewrite Hraw, Hsym, !Hcan. cbn [negb Z.ltb Z.compare Pos.compare Pos.compare_cont].
  rewrite (bind_Ret _ _ _ _ _ (to_file_Ret _ _ _ _ (ReadRawFile_lines rs))).
  erewrite bind_Ret by (by rewrite Hread).
  rewrite (bind_Ret _ _ _ _ _ (to_file_Ret _ _ _ _ E)), Haddr.
  by rewrite (bind_Ret _ _ _ _ _ (Combine_lines fs ls Hfs Hls200 Hlen')).
Qed.
End pipeline.

(** C24: the conversion of a whole log.  When every sampled address is covered by the
    symbol table, addr2line prints one line per line of addresses, no line exceeds the
    buffers, and for records that are not accesses either [strcmp] returns exactly 1 for
    their mark or the table has an entry at 0 (readelf's null symbol), the program ends
    normally.  Its output has one line for every record for which addr2line does not
    print ["??:0"]: the position of the record in the log (counted from 0), the line of
    addr2line and the function line, which for an access is the name of the function at
    or nearest below the sampled address and the distance to it. *)
Theorem convert_pipeline `{Strcmp} `{StdSort} env final_output rs sym functions b fs :
  raw_log env = Some rs → readelf_out env = Some sym →
  ReadSymFile (Some sym) [] = Ret b functions → (∀ f, can_create env f = true) →
  addr2line_out env (text (raw_line <$> rs)) = Some (text fs) →
  length fs = length rs → Forall (short_line 2000) fs →
  Forall (covered functions) rs →
  (∀ r l, r ∈ rs → names functions r l → short_line 200 l) →
  ∃ ls, Forall2 (names functions) rs ls ∧
    convert_main env 4 final_output EmptyString = Ret 0 (text (final_lines 0 fs ls)).
Proof.
  intros Hraw Hsym Hread Hcan Haddr Hlen Hfs Hcov Hshort.
  destruct (convert_main_lines env final_output rs sym functions b fs) as (ls & H1 & _ & H2); eauto.
Qed.

(** ** Libraries that keep the promises *)

(** A [strcmp] that returns -1, 0 or 1. *)
Definition sign_strcmp : Strcmp.
Proof.
  refine {| strcmp a b := match str_compare a b with Lt => -1 | Eq => 0 | Gt => 1 end |}.
  intros a b. by destruct (str_compare a b).
Defined.

(** A [strcmp] that returns the difference of the first bytes that differ (the bytes of a
    string are at least 1). *)
Fixpoint byte_difference (a b : string) : Z :=
  match a, b with
  | EmptyString, EmptyString => 0
  | EmptyString, String d _ => - Z.max 1 (Z.of_nat (Ascii.nat_of_ascii d))
  | String c _, EmptyString => Z.max 1 (Z.of_nat (Ascii.nat_of_ascii c))
  | String c a', String d b' =>
      if decide (c = d) then byte_difference a' b'
      else Z.of_nat (Ascii.nat_of_ascii c) - Z.of_nat (Ascii.nat_of_ascii d)
  end.

Definition byte_strcmp : Strcmp.
Proof.
  refine {| strcmp := byte_difference |}.
  induction a as [|c a IH]; intros [|d b]; cbn [byte_difference str_compare]; try done.
  - apply Z.compare_lt_iff. lia.
  - apply Z.compare_gt_iff. lia.
  - destruct (decide (c = d)) as [->|Hne]; [by rewrite Nat.compare_refl|].
    assert (Hn : nat_of_ascii c ≠ nat_of_ascii d).
    { intros E%(f_equal ascii_of_nat). by rewrite !ascii_nat_embedding in E. }
    destruct (Nat.compare_spec (nat_of_ascii c) (nat_of_ascii d)); [done| |].
    + apply Z.compare_lt_iff. lia.
    + apply Z.compare_gt_iff. lia.
Defined.

Definition offset_le (a b : RacezFunctionEntry) : Prop := offset_ a ≤ offset_ b.

#[export] Instance offset_le_dec : RelDecision offset_le.
Proof. intros a b. unfold offset_le. apply _. Defined.

Definition merge_std_sort : StdSort.
Proof.
  refine {| std_sort := merge_sort offset_le |}.
  - intros l. apply merge_sort_Permutation.
  - intros l. assert (Transitive offset_le) by (intros a b c; unfold offset_le; lia).
    assert (Total offset_le) by (intros a b; unfold offset_le; lia).
    by apply (StronglySorted_merge_sort offset_le).
Defined.

Definition access_at (a : Z) : RacezRecord :=
  upd_op (set_pip a) (set_type MEMORY_OP zero_record).

Definition demo_functions : list RacezFunctionEntry := [mkEntry "main" 64 64].

(** The null symbol first, as readelf prints it; its name is empty. *)
Definition demo_table : list RacezFunctionEntry := [mkEntry "" 0 0; mkEntry "main" 64 64].
Definition demo_sym : string :=
  "Symbol table '.symtab' contains 2 entries:" +:+ nl +:+
  "   Num:    Value          Size Type    Bind   Vis      Ndx Name" +:+ nl +:+
  "     0: 0000000000000000     0 NOTYPE  LOCAL  DEFAULT  UND " +:+ nl +:+
  "    53: 0000000000000040    64 FUNC    GLOBAL DEFAULT   13 main" +:+ nl.

Definition demo_env : convert_env :=
  mkEnv (Some [zero_record; access_at 100]) (Some demo_sym)
        (λ _, Some (text ["??:0"; "a.c:7"])) (λ _, true).

Lemma demo_covered `{Strcmp} : Forall (covered demo_table) [zero_record; access_at 100].
Proof.
  repeat apply Forall_cons_2; [| |apply Forall_nil_2]; unfold covered; simpl.
  - right. exists (mkEntry "" 0 0). split; [set_solver|done].
  - split; [unfold LLONG_MAX; lia|]. exists (mkEntry "main" 64 64). split; [set_solver|simpl; lia].
Qed.

Lemma demo_names r l :
  r ∈ [zero_record; access_at 100] → names demo_table r l → short_line 200 l.
Proof.
  intros Hr Hn. assert (l ∈ ["main" +:+ tb +:+ "36"; "invalid"; tb +:+ "0"]) as Hl.
  { rewrite !elem_of_cons in Hr. destruct Hr as [->|[->|Hr]]; [| |set_solver]; unfold names in Hn; simpl in Hn.
    - destruct Hn as [->|(e & (He & Hle & _) & ->)]; [set_solver|]. unfold demo_table in He. rewrite !elem_of_cons in He.
      destruct He as [->|[->|He]]; [|simpl in Hle; lia|set_solver]. apply elem_of_cons. right. apply elem_of_cons. right.
      apply list_elem_of_singleton. reflexivity.
    - destruct Hn as (e & (He & Hle & Hmax) & ->). unfold demo_table in He. rewrite !elem_of_cons in He.
      destruct He as [->|[->|He]]; [|left|set_solver].
      specialize (Hmax (mkEntry "main" 64 64)). simpl in Hmax. exfalso.
      enough (64 ≤ 0) by lia. apply Hmax; [unfold demo_table; set_solver|lia]. }
  rewrite !elem_of_cons in Hl.
  destruct Hl as [->|[->|[->|Hl]]]; [| | |set_solver]; split; first [reflexivity|by apply Nat.leb_le].
Qed.

(** With a [strcmp] that returns the difference of bytes. *)
Lemma convert_pipeline_witness :
  ∃ ls, Forall2 (names demo_table) [zero_record; access_at 100] ls ∧
    @convert_main byte_strcmp merge_std_sort demo_env 4 "out.txt" EmptyString =
    Ret 0 (text (final_lines 0 ["??:0"; "a.c:7"] ls)).
Proof.
  eapply (@convert_pipeline byte_strcmp merge_std_sort demo_env "out.txt" [zero_record; access_at 100]
            demo_sym demo_table true ["??:0"; "a.c:7"]);
    [reflexivity|reflexivity|vm_compute; reflexivity|done|reflexivity|reflexivity| |apply demo_covered|apply demo_names].
  repeat apply Forall_cons_2; try apply Forall_nil_2; (split; [reflexivity|by apply Nat.leb_le]).
Defined.

(** ** Inputs on which the tool stops *)

(** The test [strcmp(buffer, "invalid") == 1] relies on a value the C library does not
    promise: with a [strcmp] that returns another positive number, the line of a record
    that is not an access is taken for address 0, and when no function starts at 0 the
    lookup reads before the start of the vector. *)
Theorem invalid_line_taken_for_zero `{Strcmp} functions out :
  strcmp ("invalid" +:+ nl) "invalid" ≠ 1 → (∀ e, e ∈ functions → 0 < offset_ e) →
  convert_line functions ("invalid" +:+ nl) out = Stop OutOfBounds out.
Proof.
  intros Hne Hpos. unfold convert_line. apply Z.eqb_neq in Hne. rewrite Hne, ends_nl_line.
  erewrite bind_Ret by done. change (wrap64 (strtoll16 ("invalid" +:+ nl))) with 0.
  by rewrite (bind_Stop _ _ _ _ _ (find_function_none functions 0 out Hpos)).
Qed.

Lemma invalid_line_taken_for_zero_witness :
  @convert_line byte_strcmp demo_functions ("invalid" +:+ nl) EmptyString = Stop OutOfBounds EmptyString.
Proof.
  apply (@invalid_line_taken_for_zero byte_strcmp demo_functions EmptyString); [vm_compute; discriminate|].
  intros e He%list_elem_of_singleton. subst e. vm_compute. reflexivity.
Defined.

(** An address below every function of the table makes the lookup read before the
    start of the vector: the assertion that would stop the program is commented out. *)
Theorem address_below_table `{Strcmp} `{StdSort} functions a out :
  0 ≤ a ≤ LLONG_MAX → (∀ e, e ∈ functions → a < offset_ e) →
  convert_line (std_sort functions) (fmt_0x08 a +:+ nl) out = Stop OutOfBounds out.
Proof.
  intros Ha Hlow. unfold convert_line.
  assert (Hs : (strcmp (fmt_0x08 a +:+ nl) "invalid" =? 1) = false).
  { apply Z.eqb_neq. assert (strcmp (fmt_0x08 a +:+ nl) "invalid" < 0); [|lia].
    apply strcmp_digit. by eexists. }
  rewrite Hs, ends_nl_line. erewrite bind_Ret by done.
  rewrite strtoll16_fmt by (unfold is_word, LLONG_MAX in *; lia). rewrite Z.min_r by lia.
  rewrite wrap64_id by (unfold is_word, LLONG_MAX in *; lia).
  erewrite bind_Stop; [done|]. apply find_function_none. intros e. rewrite std_sort_perm. apply Hlow.
Qed.

Lemma address_below_table_witness :
  @convert_line sign_strcmp (@std_sort merge_std_sort demo_functions) (fmt_0x08 5 +:+ nl) EmptyString =
  Stop OutOfBounds EmptyString.
Proof.
  apply (@address_below_table sign_strcmp merge_std_sort demo_functions 5 EmptyString).
  - unfold LLONG_MAX. lia.
  - intros e He%list_elem_of_singleton. subst e. vm_compute. reflexivity.
Defined.

Lemma fgets_aux_long n l t :
  lacks newline l → (n ≤ String.length l)%nat →
  ∃ p r e, fgets_aux n (l +:+ t) = (p, r, e) ∧ lacks newline p ∧ String.length p = n.
Proof.
  revert n. induction l as [|c l IH]; intros [|n] Hl Hn; simpl in Hn; try lia; try by do 3 eexists.
  apply lacks_cons in Hl as [Hc Hl]. rewrite str_cons_app. simpl. rewrite decide_False by done.
  destruct (IH n Hl) as (p & r & e & -> & Hp & Hlen); [lia|]. do 3 eexists. split; [done|].
  split; [by apply lacks_cons|simpl; lia].
Qed.

Lemma lacks_ends_nl s : lacks newline s → ends_nl s = false.
Proof.
  induction s as [|c s IH]; [done|]. intros [Hc Hs]%lacks_cons. simpl.
  destruct s; [by apply bool_decide_eq_false_2|by apply IH].
Qed.

Lemma lacks_strcmp `{Strcmp} s : (7 < String.length s)%nat → (strcmp s "invalid" =? 0) = false.
Proof.
  intros Hlen. apply Z.eqb_neq. intros E. pose proof (strcmp_sign s "invalid") as Hs.
  rewrite E in Hs. simpl (0 ?= 0) in Hs.
  assert (Heq : ∀ a b, str_compare a b = Eq → String.length a = String.length b).
  { clear. induction a as [|c a IH]; intros [|d b]; simpl; try done.
    destruct (Nat.compare _ _); try done. intros Hab. by rewrite (IH b Hab). }
  symmetry in Hs. apply Heq in Hs. simpl in Hs. lia.
Qed.

(** A function line of 199 characters or more (a long mangled name) does not fit the
    buffer of [Combine]; for a record with a known source position the program stops at
    an assertion. *)
Theorem long_function_line_asserts `{Strcmp} f l fs ls out :
  short_line 2000 f → starts_with "??:0" f = false → lacks newline l → (199 ≤ String.length l)%nat →
  Combine (text (l :: ls)) (text (f :: fs)) out = Stop AssertFailed out.
Proof.
  intros Hf Hu Hl Hlen. unfold Combine, chunks. cbn [text chunks_aux].
  rewrite fgets_line by done. unfold fgets.
  destruct (fgets_aux_long (200 - 1) l (nl +:+ text ls) Hl) as (p & r & e & -> & Hp & Hpl); [simpl; lia|].
  rewrite decide_False by (intros ->; simpl in Hpl; lia).
  cbn [fmap list_fmap fst combine_loop]. rewrite (lacks_strcmp p) by (simpl in Hpl; lia).
  rewrite starts_with_unknown, Hu by apply Hf. rewrite ends_nl_line, lacks_ends_nl by done. done.
Qed.

Fixpoint letters (n : nat) : string :=
  match n with O => EmptyString | S n' => String "a"%char (letters n') end.

Lemma long_function_line_asserts_witness :
  @Combine sign_strcmp (text [letters 200]) (text ["a.c:7"]) EmptyString = Stop AssertFailed EmptyString.
Proof.
  apply (@long_function_line_asserts sign_strcmp "a.c:7" (letters 200) [] [] EmptyString);
    [split; [reflexivity|by apply Nat.leb_le]|reflexivity|vm_compute; reflexivity|by apply Nat.leb_le].
Defined.
