(* ===== verification/SampleReader.v ===== *)
(** * Reading the symbolized samples

    [RacezProfileReader] of MaoInstructionSim.cc (added by mao-patch/patch): the file that
    the symbolizer wrote is read line by line, and the samples of one function of one
    source file are kept. *)

From S2P Require Import Prelude.
From S2P Require Import Records.
From S2P Require Import Text.
From S2P Require Import Convert.
From S2P Require Import ConvertSpec.
From Stdlib Require Import Ascii.
From stdpp Require Import base list strings pretty.

Open Scope Z_scope.

(** ** Numbers *)

(** What is left after the longest prefix of digits below [base]. *)
Fixpoint digits_rest (base : Z) (s : string) : string :=
  match s with
  | EmptyString => s
  | String c s' =>
      match digit_value c with
      | Some d => if d <? base then digits_rest base s' else s
      | None => s
      end
  end.

(** The text after an optional sign. *)
Definition unsigned_part (s : string) : string :=
  match s with
  | String c s' =>
      if (Ascii.nat_of_ascii c =? 45)%nat || (Ascii.nat_of_ascii c =? 43)%nat then s' else s
  | EmptyString => s
  end.

(** [strtoll(s, &endptr, 0)] leaves [endptr] at the end of [s]: all of [s] is a number, or
    there is nothing to read. *)
Definition strtoll0_all (s : string) : bool :=
  let d := unsigned_part (skip_space s) in
  let '(base, d) := if decide (skip_0x d = d) then (if starts_with "0" d then 8 else 10, d) else (16, skip_0x d) in
  bool_decide (s = EmptyString) ||
  (negb (bool_decide (d = EmptyString)) && bool_decide (digits_rest base d = EmptyString)).

(** [strtoll(token, &endptr, 0)] with the test [endptr != delim]. *)
Definition parse_long (token : string) : option Z :=
  if strtoll0_all token then Some (strtoll0 token) else None.

(** ** Samples *)

Record RacezInstructionSample := mkSample_ {
  s_index : Z;
  s_file : string;
  s_offset : Z;
  s_value : Z
}.

(** [BUFSIZ] of the GNU C library. *)
Definition kBufferSizeIncrement : nat := Z.to_nat 8192.

Definition colon : ascii := Ascii.ascii_of_nat 58.

(** What one line says: an error, nothing of interest, or a sample. *)
Inductive sample_line := ParseError | OtherLine | Sample (s : RacezInstructionSample).

(** The search for the tab behind the line number has no bound: without one it reads on
    behind the line. *)
Definition parse_sample_line {S} (function_name current_source_file line : string) : M S sample_line :=
  match strchr tab line with
  | None => mret ParseError
  | Some (tok, ptr) =>
      match parse_long tok with
      | None => mret ParseError
      | Some index =>
          match strchr colon ptr with
          | None => mret ParseError
          | Some (file, ptr) =>
              if negb (bool_decide (file = current_source_file)) then mret OtherLine else
              match strchr tab ptr with
              | None => fail Undefined
              | Some (_, ptr) =>
                  match strchr tab ptr with
                  | None => mret ParseError
                  | Some (func, ptr) =>
                      match strchr newline ptr with
                      | None => mret ParseError
                      | Some (tok, _) =>
                          match parse_long tok with
                          | None => mret ParseError
                          | Some offset =>
                              if bool_decide (func = function_name)
                              then mret (Sample (mkSample_ index file offset 0))
                              else mret OtherLine
                          end
                      end
                  end
              end
          end
      end
  end.

(** The loop over the lines [ReadLine] yields; the state is the list of samples.  A line
    that does not fit the buffer is continued through a pointer into the buffer that
    [xrealloc] has released. *)
Fixpoint read_samples (function_name file : string) (ls : list (string * bool)) :
    M (list RacezInstructionSample) bool :=
  match ls with
  | [] => mret true
  | (line, eof) :: ls' =>
      if negb (ends_nl line) && negb eof then fail Undefined else
      l ← parse_sample_line function_name file line;
      match l with
      | ParseError => mret false
      | OtherLine => read_samples function_name file ls'
      | Sample s => modify (λ v, v ++ [s]) ;; read_samples function_name file ls'
      end
  end.

(** [profile] is the text of the file, [None] when it cannot be opened. *)
Definition Read (profile : option string) (function_name current_source_file : string) :
    M (list RacezInstructionSample) bool :=
  match profile with
  | None => mret false
  | Some text => read_samples function_name current_source_file (chunks kBufferSizeIncrement text)
  end.

(** ** Decimal numbers read back *)

Fixpoint all_dec (s : string) : bool :=
  match s with
  | EmptyString => true
  | String c s' => match digit_value c with Some d => d <? 10 | None => false end && all_dec s'
  end.

Lemma all_dec_app s t : all_dec (s +:+ t) = all_dec s && all_dec t.
Proof. induction s as [|c s IH]; [done|]. rewrite str_cons_app. simpl. by rewrite IH, andb_assoc. Qed.

Lemma base_value_snoc p c d acc :
  all_dec p = true → digit_value c = Some d → d < 10 →
  base_value 10 (p +:+ String c EmptyString) acc = base_value 10 p acc * 10 + d.
Proof.
  intros Hp Hc Hd. revert acc Hp. induction p as [|e p IH]; intros acc Hp.
  - simpl. rewrite Hc, (proj2 (Z.ltb_lt _ _)) by done. done.
  - rewrite str_cons_app. simpl in *. destruct (digit_value e) as [v|]; [|done].
    destruct (v <? 10); [|done]. by apply IH.
Qed.

Lemma digits_rest_dec p : all_dec p = true → digits_rest 10 p = EmptyString.
Proof.
  induction p as [|c p IH]; [done|]. simpl. destruct (digit_value c) as [d|]; [|done].
  destruct (d <? 10); [apply IH|done].
Qed.

(** A digit other than 0 in front. *)
Definition nonzero_head (s : string) : Prop :=
  match s with String c _ => Ascii.nat_of_ascii c ∈ seq 49 9 | EmptyString => False end.

Lemma pretty_digit x : (x < 10)%N →
  digit_value (pretty_N_char x) = Some (Z.of_N x) ∧ ((0 < x)%N → nat_of_ascii (pretty_N_char x) ∈ seq 49 9).
Proof.
  intros Hx. assert (Hin : x ∈ [0;1;2;3;4;5;6;7;8;9]%N).
  { rewrite !elem_of_cons, elem_of_nil. lia. }
  rewrite !elem_of_cons, elem_of_nil in Hin. destruct_or! Hin; subst; (split; [done|]); intros H; try lia;
    apply elem_of_seq; vm_compute; lia.
Qed.

Lemma pretty_N_go_dec x :
  ∃ p, (∀ s, pretty_N_go x s = p +:+ s) ∧ all_dec p = true ∧ base_value 10 p 0 = Z.of_N x ∧
       ((0 < x)%N → nonzero_head p).
Proof.
  induction (N.lt_wf_0 x) as [x _ IH]. destruct (decide (x = 0)%N) as [->|Hx].
  { exists EmptyString. split; [intros s; by rewrite pretty_N_go_0|]. split; [done|]. split; [done|lia]. }
  destruct (IH (x `div` 10)%N) as (p & Hp & Hd & Hv & Hh); [apply N.div_lt; lia|].
  pose proof (N.mod_lt x 10 ltac:(done)) as Hm. destruct (pretty_digit _ Hm) as [Hc Hn].
  exists (p +:+ String (pretty_N_char (x `mod` 10)) EmptyString).
  pose proof (N.div_mod x 10 ltac:(done)) as Hdm. split; [|split; [|split]].
  - intros s. rewrite pretty_N_go_step by lia. by rewrite Hp, app_assoc_str.
  - rewrite all_dec_app, Hd. simpl. rewrite Hc. rewrite (proj2 (Z.ltb_lt _ _)) by lia. done.
  - rewrite (base_value_snoc _ _ _ _ Hd Hc) by lia. rewrite Hv. lia.
  - intros _. destruct (decide (0 < x `div` 10)%N) as [H|H].
    + specialize (Hh H). destruct p as [|c p]; [done|]. exact Hh.
    + assert (x `div` 10 = 0)%N as E by lia. rewrite E in *. specialize (Hp EmptyString).
      rewrite pretty_N_go_0, app_nil_r_str in Hp. subst p. simpl. apply Hn. lia.
Qed.

Lemma fmt_d_dec z : 0 < z → all_dec (fmt_d z) = true ∧ base_value 10 (fmt_d z) 0 = z ∧ nonzero_head (fmt_d z).
Proof.
  intros Hz. destruct z as [|q|q]; [lia| |lia]. destruct (pretty_N_go_dec (Npos q)) as (p & Hp & H1 & H2 & H3).
  assert (E : fmt_d (Zpos q) = p).
  { unfold fmt_d. cbn. unfold pretty, pretty_positive, pretty, pretty_N.
    rewrite decide_False by done. by rewrite Hp, app_nil_r_str. }
  rewrite E. split; [done|]. split; [done|]. by apply H3.
Qed.

Lemma nonzero_head_cases s : nonzero_head s →
  ∃ c t, s = String c t ∧ is_space c = false ∧ (nat_of_ascii c =? 45)%nat = false ∧
    (nat_of_ascii c =? 43)%nat = false ∧ (nat_of_ascii c =? 48)%nat = false.
Proof.
  destruct s as [|c t]; [done|]. intros H. exists c, t. split; [done|].
  unfold is_space. apply elem_of_seq in H. repeat split; repeat (case_bool_decide || rewrite ?andb_false_iff, ?orb_false_iff);
    rewrite ?Nat.eqb_neq, ?Nat.leb_gt; lia.
Qed.

Lemma skip_0x_head c t : (nat_of_ascii c =? 48)%nat = false → skip_0x (String c t) = String c t.
Proof. intros H. destruct t as [|x [|d t]]; [done|done|]. unfold skip_0x. by rewrite H. Qed.

Lemma parse_long_fmt z : 0 ≤ z ≤ LLONG_MAX → parse_long (fmt_d z) = Some z.
Proof.
  intros [H0 Hz]. destruct (decide (z = 0)) as [->|Hne]; [done|].
  destruct (fmt_d_dec z ltac:(lia)) as (Hd & Hv & (c & t & E & Hsp & Hm & Hp & H48)%nonzero_head_cases).
  assert (Hst : starts_with "0" (fmt_d z) = false).
  { rewrite E. simpl. rewrite andb_true_r. apply bool_decide_eq_false_2. by intros <-. }
  assert (Hx : skip_0x (fmt_d z) = fmt_d z) by (rewrite E; by apply skip_0x_head).
  assert (Hu : unsigned_part (skip_space (fmt_d z)) = fmt_d z).
  { rewrite E. simpl. rewrite Hsp. unfold unsigned_part. by rewrite Hm, Hp. }
  unfold parse_long, strtoll0_all. rewrite Hu, decide_True by done. rewrite Hst, digits_rest_dec by done.
  rewrite (bool_decide_eq_false_2 (fmt_d z = EmptyString)) by (by rewrite E). simpl. f_equal.
  revert Hx Hst Hv. rewrite E. intros Hx Hst Hv. unfold strtoll0. cbn [skip_space].
  rewrite Hsp, Hm, Hp. cbv iota. rewrite decide_True by done. rewrite Hst, Hv.
  unfold LLONG_MIN, LLONG_MAX in *. lia.
Qed.

(** A decimal number has none of the separators. *)
Lemma fmt_d_lacks c z : 0 ≤ z → digit_value c = None → lacks c (fmt_d z).
Proof.
  intros Hz Hc. assert (Hall : all_dec (fmt_d z) = true).
  { destruct (decide (z = 0)) as [->|]; [done|]. apply (fmt_d_dec z). lia. }
  revert Hall. generalize (fmt_d z) as s. induction s as [|d s IH]; [done|]. simpl. intros [Hd Hs]%andb_true_iff.
  apply lacks_cons. split; [|by apply IH]. intros ->. by rewrite Hc in Hd.
Qed.

(** ** The lines of the symbolizer *)

(** A record as the symbolizer sees it: its source file and line, and, for an access, the
    function it is in with the distance to its start. *)
Record symbolized := mkSym {
  y_path : string;
  y_line : string;
  y_place : option (string * Z)
}.

Definition position_text (y : symbolized) : string := y_path y +:+ String colon (y_line y).
Definition place_text (y : symbolized) : string :=
  match y_place y with Some (name, off) => name +:+ tb +:+ fmt_d off | None => "invalid" end.

(** No separator inside a name; addr2line knows no position for what is not an address. *)
Definition sym_ok (y : symbolized) : Prop :=
  lacks colon (y_path y) ∧ lacks tab (y_line y) ∧
  match y_place y with
  | Some (name, off) => lacks tab name ∧ 0 ≤ off ≤ LLONG_MAX
  | None => starts_with "??:0" (position_text y) = true
  end.

(** The samples of the function [fn] in the file [cur], in the order of the log. *)
Fixpoint wanted (fn cur : string) (i : Z) (ys : list symbolized) : list RacezInstructionSample :=
  match ys with
  | [] => []
  | y :: ys' =>
      match y_place y with
      | Some (name, off) =>
          if negb (starts_with "??:0" (position_text y)) && bool_decide (y_path y = cur) && bool_decide (name = fn)
          then [mkSample_ i cur off 0] else []
      | None => []
      end ++ wanted fn cur (i + 1) ys'
  end.

Definition log_line (i : Z) (y : symbolized) : string :=
  fmt_d i +:+ tb +:+ position_text y +:+ tb +:+ place_text y.

Lemma tb_app x : tb +:+ x = String tab x.
Proof. done. Qed.

Lemma parse_log_line {S} fn cur i y name off (s : S) :
  sym_ok y → y_place y = Some (name, off) → 0 ≤ i ≤ LLONG_MAX →
  parse_sample_line fn cur (log_line i y +:+ nl) s =
  Ret (if bool_decide (y_path y = cur) && bool_decide (name = fn) then Sample (mkSample_ i cur off 0) else OtherLine) s.
Proof.
  intros (Hpath & Hline & Hpl) Hy Hi. rewrite Hy in Hpl. destruct Hpl as [Hname Hoff].
  unfold log_line, position_text, place_text, parse_sample_line. rewrite Hy, !app_assoc_str, !tb_app, !str_cons_app.
  rewrite strchr_app by (apply fmt_d_lacks; [lia|done]).
  rewrite parse_long_fmt by done. rewrite strchr_app by done.
  case_bool_decide as Hc; simpl; [|done]. rewrite strchr_app by done. rewrite strchr_app by done.
  change (fmt_d off +:+ nl) with (fmt_d off +:+ String newline EmptyString).
  rewrite strchr_app by (apply fmt_d_lacks; [lia|done]). rewrite parse_long_fmt by done. subst cur.
  by case_bool_decide.
Qed.

Lemma read_log_lines fn cur i ys acc :
  Forall sym_ok ys → 0 ≤ i → i + Z.of_nat (length ys) ≤ LLONG_MAX →
  read_samples fn cur ((λ l, (l +:+ nl, false)) <$> final_lines i (position_text <$> ys) (place_text <$> ys)) acc =
  Ret true (acc ++ wanted fn cur i ys).
Proof.
  intros Hys. revert i acc. induction Hys as [|y ys Hy _ IH]; intros i acc Hi Hlen.
  - simpl. by rewrite app_nil_r.
  - simpl in Hlen. cbn [fmap list_fmap final_lines wanted].
    destruct (starts_with "??:0" (position_text y)) eqn:Hun; simpl.
    { rewrite IH by lia. by destruct (y_place y) as [[name off]|]. }
    pose proof Hy as (_ & _ & Hpl). destruct (y_place y) as [[name off]|] eqn:Hp; [|by rewrite Hun in Hpl].
    change (fmt_d i +:+ tb +:+ position_text y +:+ tb +:+ place_text y) with (log_line i y).
    rewrite ends_nl_line. cbn [negb andb].
    rewrite (bind_Ret _ _ _ _ _ (parse_log_line fn cur i y name off acc Hy Hp ltac:(lia))).
    destruct (bool_decide (y_path y = cur) && bool_decide (name = fn)).
    + erewrite bind_Ret by done. rewrite IH by lia. by rewrite <- app_assoc.
    + by rewrite IH by lia.
Qed.

(** ** The file that the symbolizer leaves *)

(** A number of 64 bits has at most 19 digits. *)
Lemma base_value_ge p acc : all_dec p = true → acc * 10 ^ Z.of_nat (String.length p) ≤ base_value 10 p acc.
Proof.
  revert acc. induction p as [|c p IH]; intros acc; [simpl; lia|]. cbn [String.length all_dec base_value].
  destruct (digit_value c) as [d|] eqn:Ed; [|done]. destruct (Z.ltb_spec d 10); [|done]. simpl andb. intros Hp.
  assert (Hd : 0 ≤ d) by (revert Ed; unfold digit_value; repeat case_match; intros [= <-]; lia).
  specialize (IH (acc * 10 + d) Hp). pose proof (Z.pow_nonneg 10 (Z.of_nat (String.length p)) ltac:(lia)).
  rewrite Nat2Z.inj_succ, Z.pow_succ_r by lia. nia.
Qed.

Lemma fmt_d_length z : 0 ≤ z ≤ LLONG_MAX → (String.length (fmt_d z) ≤ 19)%nat.
Proof.
  intros Hz. destruct (decide (z = 0)) as [->|Hne]; [vm_compute; lia|].
  destruct (fmt_d_dec z ltac:(lia)) as (Hall & Hv & Hh). destruct (fmt_d z) as [|c p]; [done|].
  cbn [nonzero_head] in Hh. apply elem_of_seq in Hh.
  cbn [String.length all_dec base_value] in *. destruct (digit_value c) as [d|] eqn:Ed; [|done].
  destruct (d <? 10); [|done]. simpl andb in Hall.
  assert (1 ≤ d) by (unfold digit_value in Ed; repeat case_match; simplify_eq; lia).
  pose proof (base_value_ge p (0 * 10 + d) Hall) as Hge. rewrite Hv in Hge.
  destruct (decide (String.length p < 19)%nat); [lia|exfalso].
  assert (10 ^ 19 ≤ 10 ^ Z.of_nat (String.length p)) by (apply Z.pow_le_mono_r; lia).
  unfold LLONG_MAX in Hz. nia.
Qed.

Lemma final_lines_short i fs ls :
  0 ≤ i → i + Z.of_nat (length fs) ≤ LLONG_MAX → Forall (short_line 2000) fs → Forall (short_line 200) ls →
  Forall (short_line kBufferSizeIncrement) (final_lines i fs ls).
Proof.
  intros Hi Hlen Hfs. revert i ls Hi Hlen. induction Hfs as [|f fs [Hf Hfl] _ IH]; intros i [|l ls] Hi Hlen Hls; try done.
  apply Forall_cons in Hls as [[Hl Hll] Hls]. cbn [length final_lines] in *. apply Forall_app. split; [|apply IH; [lia|lia|done]].
  destruct (starts_with _ f); [done|]. apply Forall_singleton. split.
  - rewrite !lacks_app. repeat split; try done. apply fmt_d_lacks; [done|reflexivity].
  - rewrite !str_length_app. pose proof (fmt_d_length i ltac:(lia)) as H. simpl (String.length tb).
    unfold kBufferSizeIncrement. lia.
Qed.

(** What addr2line prints for a record: a path and a line; for a record that is not an
    access the position it has for no address. *)
Definition position_line (p : string * string) : string := p.1 +:+ String colon p.2.
Definition position_ok (rp : RacezRecord * (string * string)) : Prop :=
  lacks colon rp.2.1 ∧ lacks tab rp.2.2 ∧
  (type_is MEMORY_OP rp.1 = false → starts_with "??:0" (position_line rp.2) = true).

(** The record with the position addr2line found, and for an access the nearest function at
    or below the sampled address. *)
Definition symbolizes (functions : list RacezFunctionEntry) (rp : RacezRecord * (string * string)) (y : symbolized) : Prop :=
  y_path y = rp.2.1 ∧ y_line y = rp.2.2 ∧
  if type_is MEMORY_OP rp.1
  then ∃ e, nearest_below functions (pip_ (op_ rp.1)) e ∧
         y_place y = Some (function_name_ e, pip_ (op_ rp.1) - offset_ e)
  else y_place y = None.

Section symbolized.
Context `{Strcmp}.
Context (functions : list RacezFunctionEntry).
Context (Hpos : Forall (λ e, 0 ≤ offset_ e) functions) (Hnames : Forall (λ e, lacks tab (function_name_ e)) functions).

Lemma symbolize_line r p l :
  covered functions r → names functions r l → position_ok (r, p) →
  ∃ y, symbolizes functions (r, p) y ∧ sym_ok y ∧ position_text y = position_line p ∧
    (starts_with "??:0" (position_line p) = false → place_text y = l).
Proof.
  unfold covered, names, position_ok, symbolizes. simpl. intros Hcov Hn (Hc & Ht & Hu).
  destruct (type_is MEMORY_OP r).
  - destruct Hn as (e & Hnear & ->). exists (mkSym p.1 p.2 (Some (function_name_ e, pip_ (op_ r) - offset_ e))).
    pose proof Hnear as (Hin & Hle & _). rewrite Forall_forall in Hpos. rewrite Forall_forall in Hnames.
    split; [by eauto 10|]. split; [|done]. split; [done|]. split; [done|]. simpl. split; [by apply Hnames|].
    specialize (Hpos e Hin). lia.
  - exists (mkSym p.1 p.2 None). split; [done|]. split; [|split; [done|by rewrite Hu]].
    split; [done|]. split; [done|]. by apply Hu.
Qed.

Lemma symbolize_lines rs ps ls :
  Forall (covered functions) rs → Forall2 (names functions) rs ls → length ps = length rs →
  Forall position_ok (zip rs ps) →
  ∃ ys, Forall2 (symbolizes functions) (zip rs ps) ys ∧ Forall sym_ok ys ∧ length ys = length rs ∧
    ∀ i, final_lines i (position_line <$> ps) ls = final_lines i (position_text <$> ys) (place_text <$> ys).
Proof.
  intros Hcov Hn. revert ps. induction Hn as [|r l rs ls Hl _ IH]; intros [|p ps] Hlen Hok; try done.
  - exists []. by repeat constructor.
  - apply Forall_cons in Hcov as [Hc Hcov]. cbn [zip zip_with] in *. apply Forall_cons in Hok as [Hp Hok].
    destruct (symbolize_line r p l Hc Hl Hp) as (y & H1 & H2 & H3 & H4).
    destruct (IH Hcov ps) as (ys & I1 & I2 & I3 & I4); [simpl in Hlen; lia|done|].
    exists (y :: ys). split; [by constructor|]. split; [by constructor|]. split; [simpl; lia|]. intros i.
    cbn [fmap list_fmap final_lines]. rewrite I4, H3. destruct (starts_with _ _); [done|]. by rewrite H4.
Qed.
End symbolized.

(** C20: the simulator reads back what the symbolizer writes.  Let [convert] run on a log
    under the conditions of its own theorem, with a path and a line printed for every
    record (["??:0"] for those that are not accesses), and no tab or colon inside a name.
    From the file it leaves, [Read] yields for every function and source file exactly the
    accesses that addr2line places in that file and the symbol table in that function, in
    the order of the log, each with the index of its record in the log and the distance of
    its address from the start of the function. *)
Theorem symbolized_samples_read_back `{Strcmp} `{StdSort} env final_output rs sym functions b ps :
  raw_log env = Some rs → readelf_out env = Some sym →
  ReadSymFile (Some sym) [] = Ret b functions → (∀ f, can_create env f = true) →
  addr2line_out env (text (raw_line <$> rs)) = Some (text (position_line <$> ps)) →
  length ps = length rs → Z.of_nat (length rs) ≤ LLONG_MAX → Forall (short_line 2000) (position_line <$> ps) →
  Forall (covered functions) rs → (∀ r l, r ∈ rs → names functions r l → short_line 200 l) →
  Forall (λ e, lacks tab (function_name_ e)) functions → Forall position_ok (zip rs ps) →
  ∃ profile ys, convert_main env 4 final_output EmptyString = Ret 0 profile ∧
    Forall2 (symbolizes functions) (zip rs ps) ys ∧
    ∀ fn cur, Read (Some profile) fn cur [] = Ret true (wanted fn cur 0 ys).
Proof.
  intros Hraw Hsym Hread Hcan Haddr Hlen Hmax Hfs Hcov Hshort Htab Hps.
  destruct (convert_main_lines env final_output rs sym functions b (position_line <$> ps)) as (ls & Hls & Hls200 & E);
    try done; [by rewrite length_fmap|].
  assert (Hpos : Forall (λ e, 0 ≤ offset_ e) functions) by (eapply sym_loop_offsets; [exact Hread|constructor]).
  destruct (symbolize_lines functions Hpos Htab rs ps ls) as (ys & H1 & H2 & H3 & H4); [done..|].
  eexists _, ys. split; [exact E|]. split; [done|]. intros fn cur. unfold Read. rewrite chunks_text.
  - rewrite H4. apply read_log_lines; [done|lia|]. by rewrite H3.
  - apply final_lines_short; [lia|by rewrite length_fmap, Hlen|done|done].
Qed.

(** The run of the symbolizer's example: its second record is the access. *)
Lemma symbolized_samples_read_back_witness :
  ∃ profile ys, @convert_main byte_strcmp merge_std_sort demo_env 4 "out.txt" EmptyString = Ret 0 profile ∧
    Forall2 (symbolizes demo_table) (zip [zero_record; access_at 100] [("??", "0"); ("a.c", "7")]) ys ∧
    ∀ fn cur, Read (Some profile) fn cur [] = Ret true (wanted fn cur 0 ys).
Proof.
  eapply (@symbolized_samples_read_back byte_strcmp merge_std_sort demo_env "out.txt" [zero_record; access_at 100]
            demo_sym demo_table true [("??", "0"); ("a.c", "7")]);
    [reflexivity|reflexivity|vm_compute; reflexivity|done|reflexivity|reflexivity|vm_compute; discriminate| |apply demo_covered|apply demo_names|..].
  - repeat apply Forall_cons_2; try apply Forall_nil_2; (split; [reflexivity|by apply Nat.leb_le]).
  - by repeat apply Forall_cons_2; try apply Forall_nil_2.
  - repeat apply Forall_cons_2; try apply Forall_nil_2; by repeat split.
Defined.

Example demo_profile_read :
  match @convert_main byte_strcmp merge_std_sort demo_env 4 "out.txt" EmptyString with
  | Ret _ profile => Read (Some profile) "main" "a.c" []
  | Stop f _ => Stop f []
  end = Ret true [mkSample_ 1 "a.c" 36 0].
Proof. vm_compute. reflexivity. Qed.
