(* ===== verification/AddrSim.v ===== *)
(** * The simulation of instructions

    [InstructSimPass] of MaoInstructionSim.cc (added by mao-patch/patch): a compiler pass
    that finds the instruction of each sample, computes the address it accessed from the
    sampled registers, and walks over the neighbouring instructions of its basic block to
    add the accesses whose addresses the same registers still determine.

    The compiler framework is not part of the repository.  An instruction, an entry and a
    function are records of the answers its accessors give; a register is known by its
    name, and [None] is the null pointer. *)

From S2P Require Import Prelude.
From S2P Require Import Records.
From S2P Require Import Text.
From S2P Require Import Convert.
From S2P Require Import SampleReader.
From stdpp Require Import base gmap list sets strings.

Open Scope Z_scope.

(** ** Instructions *)

Abbreviation reg_entry := (option string).

Inductive opcode :=
  | OP_mov | OP_movq | OP_add | OP_sub | OP_lea | OP_cmp | OP_test | OP_push | OP_pop | OP_xor | OP_other.

(** [expr->X_op == O_constant] with its [X_add_number], or another expression. *)
Inductive displacement := NoDisp | Constant (n : Z) | Symbolic.

Inductive operand := RegOperand (r : string) | MemOperand (d : displacement) | ImmOperand.

Record InstructionEntry := mkInsn {
  op : opcode;
  operands : list operand;
  GetBaseRegister : reg_entry;
  GetIndexRegister : reg_entry;
  GetLog2ScaleFactor : nat;
  HasTarget : bool
}.

#[export] Instance opcode_eq_dec : EqDecision opcode.
Proof. solve_decision. Defined.

Definition IsOpMov (insn : InstructionEntry) : bool := bool_decide (op insn = OP_mov ∨ op insn = OP_movq).
Definition IsAdd (insn : InstructionEntry) : bool := bool_decide (op insn = OP_add).
Definition IsSub (insn : InstructionEntry) : bool := bool_decide (op insn = OP_sub).
Definition IsLea (insn : InstructionEntry) : bool := bool_decide (op insn = OP_lea).
Definition IsMemOperand (insn : InstructionEntry) (i : nat) : bool :=
  match operands insn !! i with Some (MemOperand _) => true | _ => false end.
Definition IsRegisterOperand (insn : InstructionEntry) (i : nat) : bool :=
  match operands insn !! i with Some (RegOperand _) => true | _ => false end.

(** The value of a displacement, [~0] when it is not a constant. *)
Definition GetSimpleDisp (insn : InstructionEntry) (op_index : nat) : Z :=
  match operands insn !! op_index with
  | Some (MemOperand (Constant n)) => n
  | Some (MemOperand Symbolic) => -1
  | _ => 0
  end.

Definition GetScaleValue {S} (insn : InstructionEntry) : M S Z :=
  if (GetLog2ScaleFactor insn =? 0)%nat then mret 1
  else arr_get [1; 2; 4; 8] (Z.of_nat (GetLog2ScaleFactor insn)).

(** ** State *)

Abbreviation RegMap := (gmap reg_entry Z).

(** The mapped raw log, the file of added records, and the registers that were overwritten
    between the sample and the instruction in hand: those with the value -1. *)
Record sim := mkSim {
  raw_record_ : list RacezRecord;
  new_records : list RacezRecord;
  backward_reg_map_ : RegMap;
  forward_reg_map_ : RegMap
}.

Definition set_raw (v : list RacezRecord) (s : sim) : sim :=
  mkSim v (new_records s) (backward_reg_map_ s) (forward_reg_map_ s).
Definition add_new (r : RacezRecord) (s : sim) : sim :=
  mkSim (raw_record_ s) (new_records s ++ [r]) (backward_reg_map_ s) (forward_reg_map_ s).
Definition set_backward (m : RegMap) (s : sim) : sim :=
  mkSim (raw_record_ s) (new_records s) m (forward_reg_map_ s).
Definition set_forward (m : RegMap) (s : sim) : sim :=
  mkSim (raw_record_ s) (new_records s) (backward_reg_map_ s) m.

(** [direction]: 0 backward, 1 forward, 2 for the sampled instruction itself. *)
Definition reg_map (direction : Z) (s : sim) : RegMap :=
  if direction =? 0 then backward_reg_map_ s else forward_reg_map_ s.
Definition set_reg_map (direction : Z) (m : RegMap) (s : sim) : sim :=
  if direction =? 0 then set_backward m s else set_forward m s.

(** [raw_record_[index]] *)
Definition raw_at (index : Z) : M sim RacezRecord :=
  s ← get; arr_get (raw_record_ s) index.

(** ** Registers *)

(** The pairs of names that [InvalidateRegister] treats as one register. *)
Definition aliases : list (string * string) :=
  [("eip", "rip"); ("eax", "rax"); ("ebx", "rbx"); ("ecx", "rcx"); ("edx", "rdx");
   ("esi", "rsi"); ("edi", "rdi"); ("ebp", "rbp"); ("esp", "rsp")].

Definition is_alias (r : reg_entry) (p : string * string) : Prop := r = Some p.1 ∨ r = Some p.2.

#[export] Instance is_alias_dec r p : Decision (is_alias r p).
Proof. unfold is_alias. apply _. Defined.

Definition InvalidateRegister (m : RegMap) (result : reg_entry) : RegMap :=
  match list_find (is_alias result) aliases with
  | Some (_, (e, r)) => <[Some r := -1]> (<[Some e := -1]> m)
  | None => <[result := -1]> m
  end.

(** The field of the sampled registers that holds a register. *)
Definition sample_fields : list (list string * (pebs_entry → Z)) :=
  [(["eip"; "rip"], ip); (["eax"; "rax"], eax); (["ebx"; "rbx"], ebx); (["ecx"; "rcx"], ecx);
   (["edx"; "rdx"], edx); (["esi"; "rsi"], esi); (["edi"; "rdi"], edi); (["ebp"; "rbp"], ebp);
   (["esp"; "rsp"], esp); (["r8"], r8); (["r9"], r9); (["r10"], r10); (["r11"], r11);
   (["r12"], r12); (["r13"], r13); (["r14"], r14); (["r15"], r15)].

Definition sample_field (reg : reg_entry) : option (pebs_entry → Z) :=
  match reg with
  | None => None
  | Some n => match list_find (λ p, n ∈ p.1) sample_fields with Some (_, (_, f)) => Some f | None => None end
  end.

(** -1 for an overwritten register, 0 for one that is not sampled.  The lookup with [[]]
    enters the register in the map. *)
Definition GetValueFromRegister (reg : reg_entry) (record_index direction : Z) : M sim Z :=
  polluted ← (if (direction =? 0) || (direction =? 1) then
                m ← gets (reg_map direction);
                let v := default 0 (m !! reg) in
                modify (set_reg_map direction (<[reg := v]> m)) ;; mret (v =? -1)
              else mret false);
  if (polluted : bool) then mret (-1) else
  match sample_field reg with
  | Some f => r ← raw_at record_index; mret (as_llong (f (mem_op_ (op_ r))))
  | None => mret 0
  end.

Definition ComputeMemory (insn : InstructionEntry) (record_index : Z) (op_index : nat) (direction : Z) : M sim Z :=
  let offset := GetSimpleDisp insn op_index in
  scale ← GetScaleValue insn;
  let base_reg := GetBaseRegister insn in
  let index_reg := GetIndexRegister insn in
  if bool_decide (base_reg = Some "rbp" ∨ base_reg = Some "rsp") then mret (-1) else
  index_value ← (match index_reg with
                 | Some _ => GetValueFromRegister index_reg record_index direction
                 | None => mret 0
                 end);
  base_value ← GetValueFromRegister base_reg record_index direction;
  mret (if negb (index_value =? -1) && negb (base_value =? -1) && negb (offset =? -1)
        then as_llong (offset + base_value + index_value * scale) else -1).

(** ** Functions *)

(** An entry of the assembly file: an instruction, a two-operand [.file] directive with its
    quoted name, a [.loc] directive with its first operand when that is a number, or
    anything else. *)
Inductive MaoEntry :=
  | Instruction (insn : InstructionEntry)
  | FileDirective (number : Z) (name : string)
  | LocDirective (file : option Z)
  | OtherEntry.

(** What the framework knows of a function: the entries of its section, the basic block of
    an instruction, the ends of a block, the sizes and offsets after relaxation, and where
    the function begins and ends.  Entries are numbered by their position. *)
Record Function_ := mkFun {
  fn_name : string;
  unit_entries : list MaoEntry;     (** the entries of all sections *)
  entries : list MaoEntry;
  FindBasicBlock : nat → option Z;
  first_entry : Z → nat;
  last_entry : Z → nat;
  sizes : nat → Z;
  offsets : nat → Z;
  EntryBegin : nat;
  EntryEnd : nat
}.

Definition instruction_at (f : Function_) (p : nat) : option InstructionEntry :=
  match entries f !! p with Some (Instruction i) => Some i | _ => None end.

(** The positions [NextInstruction] and [PrevInstruction] go through. *)
Definition next_instructions (f : Function_) (p : nat) : list nat :=
  filter (λ q, is_Some (instruction_at f q)) (seq (S p) (length (entries f) - S p)).
Definition prev_instructions (f : Function_) (p : nat) : list nat :=
  reverse (filter (λ q, is_Some (instruction_at f q)) (seq 0 p)).

(** ** One instruction *)

Definition InsnCanHandle (insn : InstructionEntry) : bool :=
  IsOpMov insn || IsAdd insn || IsSub insn || IsLea insn ||
  bool_decide (op insn = OP_cmp) || bool_decide (op insn = OP_test) || HasTarget insn.

Section pass.
(** The accessor for the register of an operand: what it answers for another kind of
    operand is open; [None] stands for an assertion of the framework that stops the pass.
    [write_ok]: whether a record could be written to the added file. *)
Context (GetRegisterOperand : InstructionEntry → nat → option reg_entry).
Context (write_ok : RacezRecord → bool).

(** The lines that fill [new_record] and write it. *)
Definition write_new_record (index ip_ is_write address : Z) : M sim unit :=
  r ← raw_at index;
  let n := lock_count_ (op_ r) in
  ls ← arr_copy n (lockset_ (op_ r)) (lockset_ zero_op);
  let new_record :=
    upd_op (λ o, set_lockset ls (set_lock_count n (set_memory_address (wrap64 address)
                  (set_sip (wrap64 ip_) (set_pip (wrap64 ip_) (set_is_write is_write o))))))
      (set_type MEMORY_OP (set_thread_id (thread_id_ r) (set_record_no (record_no_ r) zero_record))) in
  when (write_ok new_record) (modify (add_new new_record)).

Definition register_operand (insn : InstructionEntry) (i : nat) : M sim reg_entry :=
  match GetRegisterOperand insn i with Some r => mret r | None => fail AssertFailed end.

Definition sample_ip (index : Z) : M sim Z := r ← raw_at index; mret (ip (mem_op_ (op_ r))).

Definition pollute (direction : Z) (r : reg_entry) : M sim unit :=
  modify (λ s, set_reg_map direction (InvalidateRegister (reg_map direction s) r) s).

(** The record of an access whose address is known. *)
Definition new_access (index offset direction is_write address : Z) : M sim unit :=
  if address =? -1 then mret tt else
  sampled ← sample_ip index;
  write_new_record index (as_llong (if direction =? 1 then sampled + offset else sampled - offset)) is_write address.

Definition ComputeNewSampleWhole (insn : InstructionEntry) (index offset direction : Z) : M sim bool :=
  if negb (InsnCanHandle insn) then mret false else
  if IsOpMov insn || IsAdd insn || IsSub insn || IsLea insn then
    c_assert (length (operands insn) =? 2)%nat ;;
    (if IsMemOperand insn 0 then
       if direction =? 1 then
         address ← ComputeMemory insn index 0 direction;
         result ← register_operand insn 1;
         pollute direction result ;;
         new_access index offset direction 0 address
       else
         result ← register_operand insn 1;
         pollute direction result ;;
         address ← ComputeMemory insn index 0 direction;
         new_access index offset direction 0 address
     else if IsMemOperand insn 1 then
       address ← ComputeMemory insn index 1 direction;
       new_access index offset direction 1 address
     else
       c_assert (IsRegisterOperand insn 1) ;;
       result ← register_operand insn 1;
       pollute direction result) ;;
    mret true
  else mret true.

(** The address of the sampled instruction itself, for a plain move. *)
Definition UpdateMemory (insn : InstructionEntry) (index : Z) : M sim unit :=
  let update op_index is_write :=
    address ← ComputeMemory insn index op_index 2;
    r ← raw_at index;
    s ← get;
    let r' := upd_op (set_is_write is_write)
                (if address =? -1 then r else upd_op (set_memory_address (wrap64 address)) r) in
    modify (set_raw (<[Z.to_nat index := r']> (raw_record_ s))) in
  when (IsOpMov insn)
    (when (IsMemOperand insn 0) (update 0%nat 0) ;;
     when (IsMemOperand insn 1) (update 1%nat 1)).

(** ** A basic block *)

Context (f : Function_).

(** The two loops of [ExecuteSimWhole]: from the neighbour of the instruction at [p] on, as
    long as the block [bb] lasts; [stop] is the entry at its end. *)
Fixpoint sim_loop (p : nat) (bb : Z) (stop : nat) (index direction : Z) (qs : list nat) : M sim unit :=
  match qs with
  | [] => mret tt
  | q :: qs' =>
      if bool_decide (FindBasicBlock f q = Some bb) then
        match instruction_at f q with
        | None => mret tt
        | Some insn =>
            let offset := if direction =? 1 then offsets f q - offsets f p else offsets f p - offsets f q in
            can_execute ← ComputeNewSampleWhole insn index offset direction;
            if negb can_execute || (q =? stop)%nat then mret tt
            else sim_loop p bb stop index direction qs'
        end
      else mret tt
  end.

Definition ExecuteSimWhole (p : nat) (insn : InstructionEntry) (index : Z) : M sim unit :=
  modify (set_forward ∅) ;;
  match FindBasicBlock f p with
  | None => fail AssertFailed
  | Some bb =>
      if negb (InsnCanHandle insn) then mret tt else
      (if (p =? first_entry f bb)%nat then mret tt
       else sim_loop p bb (first_entry f bb) index 0 (prev_instructions f p)) ;;
      modify (set_backward ∅) ;;
      when (IsOpMov insn || IsAdd insn || IsSub insn || IsLea insn)
        (result ← register_operand insn 1; pollute 1 result) ;;
      (if (p =? last_entry f bb)%nat then mret tt
       else sim_loop p bb (last_entry f bb) index 1 (next_instructions f p)) ;;
      modify (set_forward ∅)
  end.

(** ** A function *)

(** The file names of the [.file] directives by number, relative ones taken from the
    working directory.  An empty name is refused by the string constructor. *)
Definition add_file (cwd : string) (table : list string) (number : Z) (name : string) : M sim (list string) :=
  if (String.length name =? 0)%nat then fail Undefined else
  let filename := cwd +:+ "/" +:+ String.substring 1 (String.length name - 2) name in
  if number =? 0 then mret (table ++ [filename])
  else if number <? 0 then fail (Exited 1)
  else
    let n := Z.to_nat number in
    let table := table ++ replicate (S n - length table) EmptyString in
    mret (<[n := filename]> table).

Fixpoint BuildFileTable (cwd : string) (table : list string) (es : list MaoEntry) : M sim (list string) :=
  match es with
  | [] => mret table
  | FileDirective number name :: es' =>
      table ← add_file cwd table number name; BuildFileTable cwd table es'
  | _ :: es' => BuildFileTable cwd table es'
  end.

Definition UpdateSourceFile (file_table : list string) (p : nat) (current : string) : M sim string :=
  e ← deref (entries f !! p);
  match e with
  | LocDirective None => fail AssertFailed
  | LocDirective (Some n) =>
      if n <? 0 then fail (Exited 1)
      else match file_table !! Z.to_nat n with Some file => mret file | None => fail (Exited 1) end
  | _ => mret current
  end.

(** [samples_.sort(RacezInstructionSampleLessThan)], which keeps the order of equal offsets. *)
Fixpoint insert_sample (x : RacezInstructionSample) (l : list RacezInstructionSample) : list RacezInstructionSample :=
  match l with
  | [] => [x]
  | y :: l' => if s_offset y <? s_offset x then y :: insert_sample x l' else x :: l
  end.
Definition sort_samples (l : list RacezInstructionSample) : list RacezInstructionSample :=
  foldr insert_sample [] l.

(** [offset], [entry_iter] and [current_source_file]. *)
Record cursor := mkCur { c_off : Z; c_iter : nat; c_file : string }.

(** One entry further; [None] is the early return when the source file changes. *)
Definition step_entry (file_table : list string) (file : string) (c : cursor) : M sim (option cursor) :=
  let p := S (c_iter c) in
  current ← UpdateSourceFile file_table p (c_file c);
  mret (if bool_decide (current = file) then Some (mkCur (c_off c + sizes f (c_iter c)) p current) else None).

(** [while (offset < sample->offset && entry_iter != EntryEnd)]; every round looks at the
    next entry, so there are fewer rounds than entries. *)
Fixpoint advance (fuel : nat) (file_table : list string) (sample : RacezInstructionSample) (c : cursor) : M sim (option cursor) :=
  match fuel with
  | O => fail OutOfFuel
  | S fuel' =>
      if (c_off c <? s_offset sample) && negb (c_iter c =? EntryEnd f)%nat then
        c ← step_entry file_table (s_file sample) c;
        match c with None => mret None | Some c => advance fuel' file_table sample c end
      else mret (Some c)
  end.

(** [while (entry_iter->Type() != INSTRUCTION) ++entry_iter] *)
Fixpoint skip_to_instruction (fuel : nat) (file : string) (c : cursor) : M sim (nat * InstructionEntry) :=
  match fuel with
  | O => fail OutOfFuel
  | S fuel' =>
      e ← deref (entries f !! c_iter c);
      match e with
      | Instruction insn => mret (c_iter c, insn)
      | _ => c_assert (bool_decide (c_file c = file)) ;;
             skip_to_instruction fuel' file (mkCur (c_off c) (S (c_iter c)) (c_file c))
      end
  end.

(** The samples with the offset of the instruction; yields the others.  The condition
    [offset == ( *sample)->offset && sample != samples_.end()] reads through the end of the
    list before it tests for it, which C++ leaves undefined: [end_offset] is what the read
    yields, [None] if it stops the program.  The value makes no difference, since the test
    for the end follows. *)
Context (end_offset : option Z).

Fixpoint same_offset (p : nat) (insn : InstructionEntry) (offset : Z) (ss : list RacezInstructionSample) :
    M sim (list RacezInstructionSample) :=
  match ss with
  | [] => match end_offset with Some _ => mret [] | None => fail Undefined end
  | sample :: ss' =>
      if offset =? s_offset sample then
        UpdateMemory insn (s_index sample) ;;
        ExecuteSimWhole p insn (s_index sample) ;;
        same_offset p insn offset ss'
      else mret ss
  end.

(** Enough rounds for any walk over the entries. *)
Definition entry_fuel : nat := S (S (length (entries f))).

Fixpoint for_samples (fuel : nat) (file_table : list string) (ss : list RacezInstructionSample) (c : cursor) : M sim bool :=
  match fuel, ss with
  | _, [] => mret true
  | O, _ => fail OutOfFuel
  | S fuel', sample :: ss' =>
      c ← advance entry_fuel file_table sample c;
      match c with
      | None => mret true
      | Some c =>
          pi ← skip_to_instruction entry_fuel (s_file sample) c;
          rest ← same_offset pi.1 pi.2 (c_off c) ss;
          let done := take (length ss - length rest) ss in
          c ← step_entry file_table (s_file (default sample (list.last done))) (mkCur (c_off c) pi.1 (c_file c));
          match c with
          | None => mret true
          | Some c => for_samples fuel' file_table (if decide (done = []) then ss' else rest) c
          end
      end
  end.

(** [profile] is the text of the symbolized samples. *)
Definition Go (cwd : string) (profile : option string) : M sim bool :=
  file_table ← BuildFileTable cwd [EmptyString] (unit_entries f);
  current ← arr_get file_table 1;
  match Read profile (fn_name f) current [] with
  | Stop fault _ => fail fault
  | Ret false _ => mret true
  | Ret true samples =>
      match sort_samples samples with
      | [] => mret true
      | ss =>
          file ← UpdateSourceFile file_table (EntryBegin f) current;
          for_samples (length ss) file_table ss (mkCur 0 (EntryBegin f) file)
      end
  end.
End pass.
