(* ===== verification/AddrSimSpec.v ===== *)
(** * What the simulation computes

    The reference definition of the sample extension of MaoInstructionSim.cc: an access is
    added when its address uses only registers that were not written between the sample
    and the instruction.  The pass implements it, and on a machine whose instructions
    write only their destination register the added addresses are the ones really
    accessed. *)

From S2P Require Import Prelude.
From S2P Require Import Records.
From S2P Require Import Text.
From S2P Require Import Convert.
From S2P Require Import SampleReader.
From S2P Require Import AddrSim.
From stdpp Require Import base gmap list sets strings.

Open Scope Z_scope.

(** ** Written registers *)

(** Two names of one register, as [InvalidateRegister] sees it. *)
Definition same_reg (d r : reg_entry) : Prop := d = r ∨ Exists (λ p, is_alias d p ∧ is_alias r p) aliases.

#[export] Instance same_reg_dec d r : Decision (same_reg d r).
Proof. unfold same_reg. apply _. Defined.

(** The register was written by one of the instructions with destinations [ds]. *)
Definition written (ds : list reg_entry) (r : reg_entry) : Prop := Exists (λ d, same_reg d r) ds.

#[export] Instance written_dec ds r : Decision (written ds r).
Proof. unfold written. apply _. Defined.

Lemma alias_unique d p q : p ∈ aliases → q ∈ aliases → is_alias d p → is_alias d q → p = q.
Proof.
  unfold aliases, is_alias. rewrite !elem_of_cons, !elem_of_nil. intros Hp Hq.
  destruct_or! Hp; try done; destruct_or! Hq; try done; subst; simpl; intuition congruence.
Qed.

Lemma invalidate_lookup m d r :
  InvalidateRegister m d !! r = if decide (same_reg d r) then Some (-1) else m !! r.
Proof.
  unfold InvalidateRegister. destruct (list_find (is_alias d) aliases) as [[i [e x]]|] eqn:E.
  - apply list_find_Some in E as (Hi%list_elem_of_lookup_2 & Hd & _).
    destruct (decide (same_reg d r)) as [Hs|Hs].
    + assert (Hr : is_alias r (e, x)).
      { destruct Hs as [->|[p [Hp [H1 H2]]]%Exists_exists]; [done|]. by rewrite <- (alias_unique d p (e, x)). }
      destruct Hr as [-> | ->]; cbn [fst snd]; [|by rewrite lookup_insert_eq].
      destruct (decide (x = e)) as [->|]; [by rewrite lookup_insert_eq|].
      rewrite lookup_insert_ne by congruence. by rewrite lookup_insert_eq.
    + rewrite !lookup_insert_ne; [done|..]; intros <-; apply Hs; right; apply Exists_exists;
        (exists (e, x); split; [done|]; split; [done|]); [by left|by right].
  - apply list_find_None in E. destruct (decide (same_reg d r)) as [[->|Hs]|Hs].
    + by rewrite lookup_insert_eq.
    + apply Exists_exists in Hs as (p & Hp & H1 & _). rewrite Forall_forall in E. by destruct (E p Hp).
    + rewrite lookup_insert_ne; [done|]. intros ->. apply Hs. by left.
Qed.

(** A map of the pass stands for a list of destinations. *)
Definition represents (m : RegMap) (ds : list reg_entry) : Prop :=
  ∀ r, m !! r = Some (-1) ↔ written ds r.

Lemma represents_nil : represents ∅ [].
Proof. intros r. rewrite lookup_empty. split; [done|by intros ?%Exists_nil]. Qed.

Lemma represents_cons m ds d : represents m ds → represents (InvalidateRegister m d) (d :: ds).
Proof.
  intros Hm r. rewrite invalidate_lookup. unfold written. rewrite Exists_cons.
  destruct (decide (same_reg d r)); [naive_solver|]. rewrite (Hm r). unfold written. naive_solver.
Qed.

Lemma represents_touch m ds r : represents m ds → represents (<[r := default 0 (m !! r)]> m) ds.
Proof.
  intros Hm q. destruct (decide (r = q)) as [->|Hne]; [|by rewrite lookup_insert_ne].
  rewrite lookup_insert_eq, <- (Hm q). destruct (m !! q); simpl; naive_solver.
Qed.

Lemma represents_polluted m ds r : represents m ds → (default 0 (m !! r) =? -1) = bool_decide (written ds r).
Proof.
  intros Hm. destruct (bool_decide_reflect (written ds r)) as [H|H].
  - apply Hm in H. by rewrite H.
  - apply Z.eqb_neq. intros E. apply H, Hm. destruct (m !! r); simpl in *; congruence.
Qed.

(** ** The reference definition *)

(** The instructions whose operands the pass looks at. *)
Definition is_arith (insn : InstructionEntry) : bool := IsOpMov insn || IsAdd insn || IsSub insn || IsLea insn.

Lemma arith_can_handle insn : is_arith insn = true → InsnCanHandle insn = true.
Proof. unfold is_arith, InsnCanHandle. intros ->. by rewrite !orb_true_l. Qed.

Definition scale_of (insn : InstructionEntry) : Z := 2 ^ Z.of_nat (GetLog2ScaleFactor insn).

Lemma GetScaleValue_ok {S} insn (s : S) :
  (GetLog2ScaleFactor insn ≤ 3)%nat → GetScaleValue insn s = Ret (scale_of insn) s.
Proof.
  intros Hs. unfold GetScaleValue, scale_of.
  destruct (GetLog2ScaleFactor insn) as [|[|[|[|n]]]]; try reflexivity. lia.
Qed.

(** The sampled value of a register. *)
Definition sampled (e : pebs_entry) (r : reg_entry) : Z :=
  match sample_field r with Some f => as_llong (f e) | None => 0 end.

(** The address of the operand when the registers of the sample determine it. *)
Definition known_address (e : pebs_entry) (ds : list reg_entry) (insn : InstructionEntry) (op_index : nat) : option Z :=
  let base := GetBaseRegister insn in
  let index := GetIndexRegister insn in
  let iv := match index with Some _ => sampled e index | None => 0 end in
  let a := as_llong (GetSimpleDisp insn op_index + sampled e base + iv * scale_of insn) in
  if bool_decide (base = Some "rbp" ∨ base = Some "rsp") then None
  else if bool_decide (written ds base) then None
  else if bool_decide (is_Some index ∧ written ds index) then None
  else if (sampled e base =? -1) || (iv =? -1) || (GetSimpleDisp insn op_index =? -1) || (a =? -1) then None
  else Some a.

(** What the pass adds for an access of the instruction [off] bytes away. *)
Definition added_record (r : RacezRecord) (ip_ is_write address : Z) : RacezRecord :=
  let n := lock_count_ (op_ r) in
  mkRecord (record_no_ r) (thread_id_ r) 1
    (mkOp (wrap64 address) (wrap64 ip_) (wrap64 ip_) is_write zero_pebs n
       (copy_prefix n (lockset_ (op_ r)) (replicate 10 0)))
    (replicate 10 0) 0.

Section reference.
Context (GetRegisterOperand : InstructionEntry → nat → option reg_entry).

(** What the accessor answers for the last operand, where it answers. *)
Definition last_operand (insn : InstructionEntry) : reg_entry := default None (GetRegisterOperand insn 1).

(** The instructions whose last operand a walk asks for: all but the stores. *)
Definition has_dest (insn : InstructionEntry) : bool :=
  is_arith insn && (IsMemOperand insn 0 || negb (IsMemOperand insn 1)).

(** The destination an instruction pollutes. *)
Definition dest (insn : InstructionEntry) : list reg_entry :=
  if has_dest insn then [last_operand insn] else [].

(** The access of one instruction, with the registers written before it (forward) or by it
    and after it (backward). *)
Definition extend1 (r : RacezRecord) (direction : Z) (ds : list reg_entry) (insn : InstructionEntry) (off : Z) : option RacezRecord :=
  let e := mem_op_ (op_ r) in
  let at_ := as_llong (if direction =? 1 then ip e + off else ip e - off) in
  let use := if direction =? 1 then ds else dest insn ++ ds in
  if negb (is_arith insn) then None
  else if IsMemOperand insn 0 then added_record r at_ 0 <$> known_address e use insn 0
  else if IsMemOperand insn 1 then added_record r at_ 1 <$> known_address e use insn 1
  else None.

(** The accesses of a sequence of instructions, one result per instruction. *)
Fixpoint extend (r : RacezRecord) (direction : Z) (ds : list reg_entry) (l : list (InstructionEntry * Z)) : list (option RacezRecord) :=
  match l with
  | [] => []
  | (insn, off) :: l' => extend1 r direction ds insn off :: extend r direction (dest insn ++ ds) l'
  end.

(** Instructions as the assembler has them, for which the accessor answers where a walk
    calls it. *)
Definition insn_ok (insn : InstructionEntry) : Prop :=
  (GetLog2ScaleFactor insn ≤ 3)%nat ∧
  (is_arith insn = true → length (operands insn) = 2%nat ∧
     (IsMemOperand insn 0 = false → IsMemOperand insn 1 = false → IsRegisterOperand insn 1 = true)) ∧
  (has_dest insn = true → is_Some (GetRegisterOperand insn 1)).

(** For the sampled instruction it is called whatever the last operand is. *)
Definition seed_ok (insn : InstructionEntry) : Prop :=
  InsnCanHandle insn = true ∧ (is_arith insn = true → is_Some (GetRegisterOperand insn 1)).
End reference.

(** ** The pass computes the reference *)

Definition add_opt (o : option RacezRecord) (s : sim) : sim :=
  match o with Some r => add_new r s | None => s end.

(** A walk in one of the two directions. *)
Definition walking (direction : Z) : Prop := direction = 0 ∨ direction = 1.

Lemma set_reg_map_same d s : set_reg_map d (reg_map d s) s = s.
Proof. unfold set_reg_map, reg_map, set_backward, set_forward. by destruct s, (d =? 0). Qed.
Lemma set_reg_map_twice d m1 m2 s : set_reg_map d m1 (set_reg_map d m2 s) = set_reg_map d m1 s.
Proof. unfold set_reg_map, set_backward, set_forward. by destruct (d =? 0). Qed.
Lemma reg_map_set d m s : reg_map d (set_reg_map d m s) = m.
Proof. unfold set_reg_map, reg_map. by destruct (d =? 0). Qed.
Lemma raw_set_reg_map d m s : raw_record_ (set_reg_map d m s) = raw_record_ s.
Proof. unfold set_reg_map. by destruct (d =? 0). Qed.
Lemma set_reg_map_add_opt d m o s : set_reg_map d m (add_opt o s) = add_opt o (set_reg_map d m s).
Proof. destruct o; [|done]. unfold set_reg_map. by destruct (d =? 0). Qed.
Lemma reg_map_add_opt d o s : reg_map d (add_opt o s) = reg_map d s.
Proof. by destruct o. Qed.
Lemma raw_add_opt o s : raw_record_ (add_opt o s) = raw_record_ s.
Proof. by destruct o. Qed.

(** A sample the pass can start from. *)
Record seed (s : sim) (index : Z) (r : RacezRecord) : Prop := {
  sd_index : 0 ≤ index;
  sd_raw : raw_record_ s !! Z.to_nat index = Some r;
  sd_count : lock_count_ (op_ r) ≤ 10;
  sd_locks : length (lockset_ (op_ r)) = 10%nat
}.

Lemma raw_at_ok s index r : seed s index r → raw_at index s = Ret r s.
Proof. intros [Hi Hr _ _]. unfold raw_at, get, mbind, M_bind. by rewrite (arr_get_Some _ _ r). Qed.

Lemma seed_raw s s' index r : raw_record_ s' = raw_record_ s → seed s index r → seed s' index r.
Proof. intros E [H1 H2 H3 H4]. split; [done|by rewrite E|done|done]. Qed.

Lemma GetValueFromRegister_ok reg index d s r ds :
  seed s index r → walking d → represents (reg_map d s) ds →
  ∃ m, GetValueFromRegister reg index d s =
         Ret (if bool_decide (written ds reg) then -1 else sampled (mem_op_ (op_ r)) reg) (set_reg_map d m s) ∧
       represents m ds.
Proof.
  intros Hs Hd Hm. exists (<[reg := default 0 (reg_map d s !! reg)]> (reg_map d s)).
  split; [|by apply represents_touch]. unfold GetValueFromRegister.
  replace ((d =? 0) || (d =? 1)) with true by (destruct Hd as [-> | ->]; done).
  erewrite bind_Ret by reflexivity. rewrite (represents_polluted _ _ _ Hm).
  case_bool_decide; [done|]. unfold sampled. destruct (sample_field reg) as [g|]; [|done].
  by rewrite (bind_Ret _ _ _ _ _ (raw_at_ok _ _ _ (seed_raw _ _ _ _ (raw_set_reg_map _ _ _) Hs))).
Qed.

Lemma ComputeMemory_ok insn index k d s r ds :
  seed s index r → walking d → represents (reg_map d s) ds → (GetLog2ScaleFactor insn ≤ 3)%nat →
  ∃ m, ComputeMemory insn index k d s =
         Ret (default (-1) (known_address (mem_op_ (op_ r)) ds insn k)) (set_reg_map d m s) ∧
       represents m ds.
Proof.
  intros Hs Hd Hm Hsc. unfold ComputeMemory. rewrite (bind_Ret _ _ _ _ _ (GetScaleValue_ok insn s Hsc)).
  unfold known_address. case_bool_decide as Hb.
  { exists (reg_map d s). by rewrite set_reg_map_same. }
  set (e := mem_op_ (op_ r)). set (ireg := GetIndexRegister insn).
  assert (Hi : ∃ m1, (match ireg with Some _ => GetValueFromRegister ireg index d | None => mret 0 end) s =
                  Ret (if bool_decide (is_Some ireg ∧ written ds ireg) then -1
                       else match ireg with Some _ => sampled e ireg | None => 0 end) (set_reg_map d m1 s) ∧
                represents m1 ds).
  { destruct ireg as [n|] eqn:En.
    - destruct (GetValueFromRegister_ok (Some n) index d s r ds Hs Hd Hm) as (m1 & E & H1). exists m1.
      rewrite E. split; [|done]. f_equal. by do 2 case_bool_decide; naive_solver.
    - exists (reg_map d s). rewrite set_reg_map_same, bool_decide_eq_false_2; [done|]. intros [[? ?] _]. done. }
  destruct Hi as (m1 & E1 & H1). rewrite (bind_Ret _ _ _ _ _ E1).
  destruct (GetValueFromRegister_ok (GetBaseRegister insn) index d (set_reg_map d m1 s) r ds) as (m2 & E2 & H2);
    [by eapply seed_raw, Hs; apply raw_set_reg_map|done|by rewrite reg_map_set|].
  rewrite (bind_Ret _ _ _ _ _ E2), set_reg_map_twice. exists m2. split; [|done]. unfold mret, M_ret. f_equal.
  fold e. destruct (bool_decide (written ds (GetBaseRegister insn))) eqn:Hw1; [by rewrite andb_false_r|].
  destruct (bool_decide (is_Some ireg ∧ written ds ireg)) eqn:Hw2; [done|].
  rewrite <- !negb_orb. set (iv := match ireg with Some _ => _ | None => 0 end).
  destruct (sampled e (GetBaseRegister insn) =? -1), (iv =? -1), (GetSimpleDisp insn k =? -1); try done. simpl.
  destruct (Z.eqb_spec (as_llong (GetSimpleDisp insn k + sampled e (GetBaseRegister insn) + iv * scale_of insn)) (-1)); done.
Qed.

Section pass.
Context (GetRegisterOperand : InstructionEntry → nat → option reg_entry).

Lemma new_access_ok index off d w a s r :
  seed s index r →
  new_access (λ _, true) index off d w (default (-1) a) s =
  Ret tt (add_opt (added_record r (as_llong (if d =? 1 then ip (mem_op_ (op_ r)) + off else ip (mem_op_ (op_ r)) - off)) w <$>
                   (x ← a; if x =? -1 then None else Some x)) s).
Proof.
  intros Hs. unfold new_access. destruct a as [a|]; simpl; [|done]. destruct (Z.eqb_spec a (-1)) as [->|Ha]; [done|].
  unfold sample_ip. pose proof (raw_at_ok _ _ _ Hs) as Hr.
  rewrite (bind_Ret _ _ _ (ip (mem_op_ (op_ r))) s); [|by rewrite (bind_Ret _ _ _ _ _ Hr)].
  unfold write_new_record. rewrite (bind_Ret _ _ _ _ _ Hr).
  rewrite (bind_Ret _ _ _ _ _ (arr_copy_ok (lock_count_ (op_ r)) (lockset_ (op_ r)) (lockset_ zero_op) s
             ltac:(rewrite (sd_locks _ _ _ Hs); apply Hs) ltac:(simpl; apply Hs))).
  done.
Qed.

Lemma known_address_ne e ds insn k a : known_address e ds insn k = Some a → (a =? -1) = false.
Proof.
  unfold known_address. repeat case_bool_decide; try done.
  destruct (_ || _ || _ || _) eqn:E; [done|]. intros [= <-]. by apply orb_false_iff in E as [_ ?].
Qed.

Lemma known_bind e ds insn k :
  (x ← known_address e ds insn k; if x =? -1 then None else Some x) = known_address e ds insn k.
Proof. destruct (known_address e ds insn k) as [a|] eqn:E; [|done]. simpl. by rewrite (known_address_ne _ _ _ _ _ E). Qed.

Lemma register_operand_ok insn (s : sim) :
  is_Some (GetRegisterOperand insn 1) →
  AddrSim.register_operand GetRegisterOperand insn 1 s = Ret (last_operand GetRegisterOperand insn) s.
Proof. intros [x Hx]. unfold AddrSim.register_operand, last_operand. by rewrite Hx. Qed.

Lemma pollute_ok d x s : pollute d x s = Ret tt (set_reg_map d (InvalidateRegister (reg_map d s) x) s).
Proof. done. Qed.

(** One access: compute the address, then write the record. *)
Lemma access_ok insn index off k d w s r ds :
  seed s index r → walking d → represents (reg_map d s) ds → (GetLog2ScaleFactor insn ≤ 3)%nat →
  ∃ m, (address ← ComputeMemory insn index k d; new_access (λ _, true) index off d w address) s =
         Ret tt (add_opt (added_record r (as_llong (if d =? 1 then ip (mem_op_ (op_ r)) + off else ip (mem_op_ (op_ r)) - off)) w <$>
                          known_address (mem_op_ (op_ r)) ds insn k) (set_reg_map d m s)) ∧
       represents m ds.
Proof.
  intros Hs Hd Hm Hsc. destruct (ComputeMemory_ok insn index k d s r ds Hs Hd Hm Hsc) as (m & E & H).
  exists m. rewrite (bind_Ret _ _ _ _ _ E), (new_access_ok _ _ _ _ _ _ r), known_bind; [done|].
  eapply seed_raw, Hs. apply raw_set_reg_map.
Qed.

Lemma ComputeNewSampleWhole_ok insn index off d s r ds :
  seed s index r → walking d → represents (reg_map d s) ds → insn_ok GetRegisterOperand insn → InsnCanHandle insn = true →
  ∃ m, ComputeNewSampleWhole GetRegisterOperand (λ _, true) insn index off d s =
         Ret true (add_opt (extend1 GetRegisterOperand r d ds insn off) (set_reg_map d m s)) ∧
       represents m (dest GetRegisterOperand insn ++ ds).
Proof.
  intros Hs Hd Hm (Hsc & Hops & Hans) Hcan. unfold ComputeNewSampleWhole, extend1, dest, has_dest in *. rewrite Hcan; simpl.
  fold (is_arith insn). destruct (is_arith insn) eqn:Har; simpl; [|exists (reg_map d s); by rewrite set_reg_map_same].
  destruct (Hops eq_refl) as [-> Hreg]. simpl. erewrite bind_Ret by done.
  pose proof (λ H s, register_operand_ok insn s (Hans H)) as Hro.
  destruct (IsMemOperand insn 0) eqn:H0; [|destruct (IsMemOperand insn 1) eqn:H1].
  - simpl. destruct Hd as [-> | ->]; [change (0 =? 1) with false|change (1 =? 1) with true]; cbv iota.
    + rewrite bind_assoc, (bind_Ret _ _ _ _ _ (Hro eq_refl _)). cbv beta.
      rewrite bind_assoc, (bind_Ret _ _ _ _ _ (pollute_ok _ _ _)). cbv beta.
      destruct (access_ok insn index off 0%nat 0 0 (set_reg_map 0 (InvalidateRegister (reg_map 0 s) (last_operand GetRegisterOperand insn)) s) r
                  (last_operand GetRegisterOperand insn :: ds)) as (m & E & H);
        [eapply seed_raw, Hs; apply raw_set_reg_map|by left|rewrite reg_map_set; by apply represents_cons|done|].
      rewrite (bind_Ret _ _ _ _ _ E). exists m. by rewrite set_reg_map_twice.
    + destruct (ComputeMemory_ok insn index 0%nat 1 s r ds Hs ltac:(by right) Hm Hsc) as (m & E & H).
      rewrite bind_assoc, (bind_Ret _ _ _ _ _ E). cbv beta.
      rewrite bind_assoc, (bind_Ret _ _ _ _ _ (Hro eq_refl _)). cbv beta.
      rewrite bind_assoc, (bind_Ret _ _ _ _ _ (pollute_ok _ _ _)). cbv beta.
      rewrite set_reg_map_twice, reg_map_set. set (m1 := InvalidateRegister m (last_operand GetRegisterOperand insn)).
      assert (Hs1 : seed (set_reg_map 1 m1 s) index r) by (eapply seed_raw, Hs; apply raw_set_reg_map).
      pose proof (new_access_ok index off 1 0 (known_address (mem_op_ (op_ r)) ds insn 0) _ r Hs1) as En.
      rewrite (bind_Ret _ _ _ _ _ En), known_bind. exists m1. split; [done|]. by apply represents_cons.
  - simpl. destruct (access_ok insn index off 1%nat d 1 s r ds Hs Hd Hm Hsc) as (m & E & H).
    rewrite (bind_Ret _ _ _ _ _ E). exists m. split; [|done]. by destruct Hd as [-> | ->].
  - simpl. rewrite (Hreg eq_refl eq_refl). erewrite bind_Ret; [|erewrite bind_Ret by done; rewrite (bind_Ret _ _ _ _ _ (Hro eq_refl _)); apply pollute_ok].
    eexists. split; [done|]. by apply represents_cons.
Qed.

(** The instructions a walk goes over, with their distances in bytes. *)
Fixpoint visited (f : Function_) (p : nat) (bb : Z) (stop : nat) (direction : Z) (qs : list nat) : list (InstructionEntry * Z) :=
  match qs with
  | [] => []
  | q :: qs' =>
      match instruction_at f q with
      | Some insn =>
          if bool_decide (FindBasicBlock f q = Some bb) && InsnCanHandle insn then
            (insn, if direction =? 1 then offsets f q - offsets f p else offsets f p - offsets f q) ::
            (if (q =? stop)%nat then [] else visited f p bb stop direction qs')
          else []
      | None => []
      end
  end.

Definition add_all (rs : list RacezRecord) (s : sim) : sim := foldl (λ s r, add_new r s) s rs.

Lemma add_all_spec rs s :
  add_all rs s = mkSim (raw_record_ s) (new_records s ++ rs) (backward_reg_map_ s) (forward_reg_map_ s).
Proof.
  revert s. induction rs as [|r rs IH]; intros s; simpl; [by rewrite app_nil_r; destruct s|].
  rewrite IH. simpl. by rewrite <- app_assoc.
Qed.

Lemma sim_loop_ok f p bb stop index d qs s r ds :
  seed s index r → walking d → represents (reg_map d s) ds →
  Forall (λ io, insn_ok GetRegisterOperand io.1) (visited f p bb stop d qs) →
  ∃ m, sim_loop GetRegisterOperand (λ _, true) f p bb stop index d qs s =
         Ret tt (add_all (omap id (extend GetRegisterOperand r d ds (visited f p bb stop d qs))) (set_reg_map d m s)).
Proof.
  intros Hs Hd. revert s ds Hs. induction qs as [|q qs IH]; intros s ds Hs Hm Hok; cbn [sim_loop visited].
  { exists (reg_map d s). by rewrite set_reg_map_same. }
  assert (Hnone : ∃ m, (mret tt : M sim unit) s = Ret tt (set_reg_map d m s)) by (exists (reg_map d s); by rewrite set_reg_map_same).
  cbn [visited] in Hok. destruct (instruction_at f q) as [insn|] eqn:Ei; [|case_bool_decide; exact Hnone].
  destruct (bool_decide (FindBasicBlock f q = Some bb)) eqn:Ebb; [|exact Hnone]. cbn [andb] in *.
  destruct (InsnCanHandle insn) eqn:Ecan.
  2: { unfold ComputeNewSampleWhole. rewrite Ecan. exact Hnone. }
  apply Forall_cons in Hok as [Hi Hok].
  set (off := if d =? 1 then _ else _).
  destruct (ComputeNewSampleWhole_ok insn index off d s r ds Hs Hd Hm Hi Ecan) as (m & E & H).
  rewrite (bind_Ret _ _ _ _ _ E). cbn [negb orb extend]. cbv beta.
  set (o := extend1 GetRegisterOperand r d ds insn off) in *.
  assert (Hadd : ∀ rs t, add_all (omap id (o :: rs)) t = add_all (omap id rs) (add_opt o t)) by (intros rs t; by destruct o).
  setoid_rewrite Hadd. destruct (q =? stop)%nat.
  - by exists m.
  - destruct (IH (add_opt o (set_reg_map d m s)) (dest GetRegisterOperand insn ++ ds)) as (m2 & E2); [| |done|].
    + eapply seed_raw, Hs. by rewrite raw_add_opt, raw_set_reg_map.
    + by rewrite reg_map_add_opt, reg_map_set.
    + exists m2. rewrite E2. by rewrite set_reg_map_add_opt, set_reg_map_twice.
Qed.

(** The two walks from the instruction at [p]. *)
Definition before (f : Function_) (p : nat) (bb : Z) : list (InstructionEntry * Z) :=
  if (p =? first_entry f bb)%nat then [] else visited f p bb (first_entry f bb) 0 (prev_instructions f p).
Definition after (f : Function_) (p : nat) (bb : Z) : list (InstructionEntry * Z) :=
  if (p =? last_entry f bb)%nat then [] else visited f p bb (last_entry f bb) 1 (next_instructions f p).

(** What the sampled instruction itself pollutes before the walk forward. *)
Definition seed_dest (insn : InstructionEntry) : list reg_entry :=
  if is_arith insn then [last_operand GetRegisterOperand insn] else [].

Lemma walk_ok f p bb stop index d qs s r ds :
  seed s index r → walking d → represents (reg_map d s) ds → ∀ b : bool,
  Forall (λ io, insn_ok GetRegisterOperand io.1) (if b then [] else visited f p bb stop d qs) →
  ∃ m, (if b then mret tt else sim_loop GetRegisterOperand (λ _, true) f p bb stop index d qs) s =
         Ret tt (add_all (omap id (extend GetRegisterOperand r d ds (if b then [] else visited f p bb stop d qs))) (set_reg_map d m s)).
Proof.
  intros Hs Hd Hm [] Hok; [exists (reg_map d s); by rewrite set_reg_map_same|]. by apply sim_loop_ok.
Qed.

Lemma ExecuteSimWhole_ok f p insn index s r bb :
  seed s index r → backward_reg_map_ s = ∅ → FindBasicBlock f p = Some bb → seed_ok GetRegisterOperand insn →
  Forall (λ io, insn_ok GetRegisterOperand io.1) (before f p bb) → Forall (λ io, insn_ok GetRegisterOperand io.1) (after f p bb) →
  ExecuteSimWhole GetRegisterOperand (λ _, true) f p insn index s =
  Ret tt (mkSim (raw_record_ s)
            (new_records s ++ omap id (extend GetRegisterOperand r 0 [] (before f p bb)) ++
                              omap id (extend GetRegisterOperand r 1 (seed_dest insn) (after f p bb)))
            ∅ ∅).
Proof.
  intros Hs Hb Hbb [Hcan Hans] Hbef Haft. unfold ExecuteSimWhole. erewrite bind_Ret by reflexivity. rewrite Hbb, Hcan.
  cbn [negb]. set (s1 := set_forward ∅ s).
  destruct (walk_ok f p bb (first_entry f bb) index 0 (prev_instructions f p) s1 r [] (seed_raw s s1 _ _ eq_refl Hs)
              ltac:(by left) ltac:(unfold reg_map; simpl; rewrite Hb; apply represents_nil) _ Hbef) as (m & E).
  rewrite (bind_Ret _ _ _ _ _ E). erewrite bind_Ret by reflexivity. cbv beta.
  fold (before f p bb). rewrite add_all_spec. simpl.
  set (bs := omap id (extend GetRegisterOperand r 0 [] (before f p bb))).
  set (s2 := mkSim (raw_record_ s) (new_records s ++ bs) ∅ ∅).
  change (set_backward ∅ _) with s2.
  assert (Hp : ∃ m2, when (is_arith insn) (result ← AddrSim.register_operand GetRegisterOperand insn 1; pollute 1 result) s2 = Ret tt (set_forward m2 s2) ∧
                     represents m2 (seed_dest insn)).
  { unfold seed_dest, when. destruct (is_arith insn).
    - rewrite (bind_Ret _ _ _ _ _ (register_operand_ok insn _ (Hans eq_refl))).
      exists (InvalidateRegister ∅ (last_operand GetRegisterOperand insn)). split; [done|]. apply represents_cons, represents_nil.
    - exists ∅. split; [done|apply represents_nil]. }
  destruct Hp as (m2 & Ep & Hm2). fold (is_arith insn). rewrite (bind_Ret _ _ _ _ _ Ep).
  destruct (walk_ok f p bb (last_entry f bb) index 1 (next_instructions f p) (set_forward m2 s2) r (seed_dest insn)
              (seed_raw s (set_forward m2 s2) _ _ eq_refl Hs) ltac:(by right) Hm2 _ Haft) as (m3 & E3).
  rewrite (bind_Ret _ _ _ _ _ E3). fold (after f p bb). rewrite add_all_spec. simpl.
  unfold modify, set_forward. simpl. by rewrite <- app_assoc.
Qed.
End pass.

(** ** The machine *)

(** The 64-bit registers, with the names of their parts. *)
Definition register_parts : list (string * list string) :=
  [("rax", ["rax"; "eax"; "ax"; "al"; "ah"]); ("rbx", ["rbx"; "ebx"; "bx"; "bl"; "bh"]);
   ("rcx", ["rcx"; "ecx"; "cx"; "cl"; "ch"]); ("rdx", ["rdx"; "edx"; "dx"; "dl"; "dh"]);
   ("rsi", ["rsi"; "esi"; "si"; "sil"]); ("rdi", ["rdi"; "edi"; "di"; "dil"]);
   ("rbp", ["rbp"; "ebp"; "bp"; "bpl"]); ("rsp", ["rsp"; "esp"; "sp"; "spl"]);
   ("r8", ["r8"; "r8d"; "r8w"; "r8b"]); ("r9", ["r9"; "r9d"; "r9w"; "r9b"]);
   ("r10", ["r10"; "r10d"; "r10w"; "r10b"]); ("r11", ["r11"; "r11d"; "r11w"; "r11b"]);
   ("r12", ["r12"; "r12d"; "r12w"; "r12b"]); ("r13", ["r13"; "r13d"; "r13w"; "r13b"]);
   ("r14", ["r14"; "r14d"; "r14w"; "r14b"]); ("r15", ["r15"; "r15d"; "r15w"; "r15b"])].

Definition whole_regs : list string := register_parts.*1.

(** Writing [d] changes the 64-bit register [n]. *)
Definition part_of (d n : string) : Prop := ∃ ps, (n, ps) ∈ register_parts ∧ d ∈ ps.

(** The register operand an instruction of the handled kinds writes: its last one. *)
Definition writes_reg (insn : InstructionEntry) (n : string) : Prop :=
  is_arith insn = true ∧ ∃ d, operands insn !! 1%nat = Some (RegOperand d) ∧ part_of d n.

(** What the processor's manual says of moves, additions, subtractions, address
    computations, comparisons and jumps: of the 64-bit registers they change only the one
    their destination is in.  A state gives the registers their values. *)
Class Machine := {
  exec : InstructionEntry → (string → Z) → (string → Z) → Prop;
  exec_frame insn ρ ρ' n : exec insn ρ ρ' → InsnCanHandle insn = true → n ∈ whole_regs →
    ¬ writes_reg insn n → ρ' n = ρ n
}.

(** The address an operand denotes in a state. *)
Definition effective_address (ρ : string → Z) (insn : InstructionEntry) (op_index : nat) : Z :=
  let value r := match r with Some n => ρ n | None => 0 end in
  as_llong (GetSimpleDisp insn op_index + value (GetBaseRegister insn) +
            value (GetIndexRegister insn) * scale_of insn).

(** The registers of the address are 64-bit ones. *)
Definition plain_reg (r : reg_entry) : Prop := match r with Some n => n ∈ whole_regs | None => True end.
Definition plain_address (insn : InstructionEntry) : Prop :=
  plain_reg (GetBaseRegister insn) ∧ plain_reg (GetIndexRegister insn).

(** The destination is a register name that [InvalidateRegister] recognises: all 64 bits, or
    the lower 32 of the eight old registers. *)
Definition plain_dest (insn : InstructionEntry) : Prop :=
  match operands insn !! 1%nat with
  | Some (RegOperand d) => Forall (λ p, d ∈ p.2 → same_reg (Some d) (Some p.1)) register_parts
  | _ => True
  end.

(** A state agrees with the sample on the registers that were not written. *)
Definition agrees (e : pebs_entry) (ds : list reg_entry) (ρ : string → Z) : Prop :=
  ∀ n, n ∈ whole_regs → ¬ written ds (Some n) → ρ n = sampled e (Some n).

Lemma known_address_real e ds ρ insn k a :
  agrees e ds ρ → plain_address insn → known_address e ds insn k = Some a → a = effective_address ρ insn k.
Proof.
  intros Hag [Hb Hi]. unfold known_address. case_bool_decide; [done|]. case_bool_decide as Hwb; [done|].
  case_bool_decide as Hwi; [done|]. destruct (_ || _ || _ || _); [done|]. intros [= <-].
  unfold effective_address. f_equal. f_equal; [f_equal|].
  - destruct (GetBaseRegister insn) as [n|]; [|done]. symmetry. by apply Hag.
  - destruct (GetIndexRegister insn) as [n|]; [|done]. f_equal. symmetry. apply Hag; [done|]. naive_solver.
Qed.

(** A record of the instruction [io] as executed in the state [σ]: the instruction accesses
    memory (an address computation does not), and the record has the right address, kind
    and place, and number, thread and locks of the sample. *)
Record real_access (r : RacezRecord) (direction : Z) (io : InstructionEntry * Z) (σ : string → Z) (x : RacezRecord) : Prop := {
  ra_access : ∃ k, IsMemOperand io.1 k = true ∧ IsLea io.1 = false ∧ is_write_ (op_ x) = Z.of_nat k ∧
                   memory_address_ (op_ x) = wrap64 (effective_address σ io.1 k);
  ra_ip : pip_ (op_ x) = wrap64 (if direction =? 1 then ip (mem_op_ (op_ r)) + io.2 else ip (mem_op_ (op_ r)) - io.2);
  ra_type : type_is MEMORY_OP x = true;
  ra_number : record_no_ x = record_no_ r;
  ra_thread : thread_id_ x = thread_id_ r;
  ra_locks : lock_count_ (op_ x) = lock_count_ (op_ r) ∧
             take (Z.to_nat (lock_count_ (op_ r))) (lockset_ (op_ x)) = take (Z.to_nat (lock_count_ (op_ r))) (lockset_ (op_ r))
}.

Lemma wrap64_as_llong z : wrap64 (as_llong z) = wrap64 z.
Proof.
  unfold wrap64, as_llong. rewrite Zminus_mod_idemp_l. f_equal. lia.
Qed.

(** The instructions the theorem is about. *)
Definition plain (GetRegisterOperand : InstructionEntry → nat → option reg_entry) (insn : InstructionEntry) : Prop :=
  insn_ok GetRegisterOperand insn ∧ plain_address insn ∧ plain_dest insn ∧ InsnCanHandle insn = true.

#[export] Instance plain_dec GetRegisterOperand insn : Decision (plain GetRegisterOperand insn).
Proof.
  unfold plain, insn_ok, plain_address, plain_reg, plain_dest. repeat apply and_dec; try apply _.
  - destruct (GetBaseRegister insn); apply _.
  - destruct (GetIndexRegister insn); apply _.
  - destruct (operands insn !! 1%nat) as [[| |]|]; apply _.
Defined.

Section machine.
Context `{Machine}.
Context (GetRegisterOperand : InstructionEntry → nat → option reg_entry).
Context (Hreg : ∀ insn i d, operands insn !! i = Some (RegOperand d) → GetRegisterOperand insn i = Some (Some d)).

Lemma written_dest insn n ds :
  plain_dest insn → writes_reg insn n → last_operand GetRegisterOperand insn ∈ ds → written ds (Some n).
Proof.
  intros Hd (_ & d & Ed & Hp) Hin. apply Exists_exists. exists (last_operand GetRegisterOperand insn). split; [done|].
  unfold last_operand. rewrite (Hreg _ _ _ Ed). simpl. unfold plain_dest in Hd. rewrite Ed in Hd.
  destruct Hp as (ps & Hps & Hin'). rewrite Forall_forall in Hd. by apply (Hd _ Hps).
Qed.

Lemma dest_in insn n : writes_reg insn n → last_operand GetRegisterOperand insn ∈ dest GetRegisterOperand insn.
Proof.
  intros (Ha & d & Ed & _). unfold dest, has_dest. rewrite Ha.
  replace (IsMemOperand insn 1) with false by (unfold IsMemOperand; by rewrite Ed).
  rewrite orb_true_r. simpl. set_solver.
Qed.

(** Executing an instruction keeps the registers outside its destination. *)
Lemma exec_agrees insn ρ ρ' n ds :
  plain GetRegisterOperand insn → exec insn ρ ρ' → n ∈ whole_regs → (∀ q, writes_reg insn q → last_operand GetRegisterOperand insn ∈ ds) →
  ¬ written ds (Some n) → ρ' n = ρ n.
Proof.
  intros (_ & _ & Hd & Hc) He Hn Hds Hw. eapply exec_frame; try done. intros Hwr. apply Hw.
  eapply written_dest; eauto.
Qed.

Lemma not_written_app ds1 ds2 r : ¬ written (ds1 ++ ds2) r → ¬ written ds1 r ∧ ¬ written ds2 r.
Proof. unfold written. rewrite Exists_app. tauto. Qed.

Lemma agrees_forward insn e ds ρ ρ' :
  plain GetRegisterOperand insn → exec insn ρ ρ' → agrees e ds ρ → agrees e (dest GetRegisterOperand insn ++ ds) ρ'.
Proof.
  intros Hp He Hag n Hn [Hw1 Hw2]%not_written_app. rewrite <- (Hag n Hn Hw2).
  eapply exec_agrees; eauto using dest_in.
Qed.

Lemma agrees_backward insn e ds ρ ρ' :
  plain GetRegisterOperand insn → exec insn ρ' ρ → agrees e ds ρ → agrees e (dest GetRegisterOperand insn ++ ds) ρ'.
Proof.
  intros Hp He Hag n Hn [Hw1 Hw2]%not_written_app. rewrite <- (Hag n Hn Hw2).
  symmetry. eapply exec_agrees; eauto using dest_in.
Qed.

Lemma extend1_real r d ds σ insn off x :
  agrees (mem_op_ (op_ r)) (if d =? 1 then ds else dest GetRegisterOperand insn ++ ds) σ → plain GetRegisterOperand insn →
  lock_count_ (op_ r) ≤ 10 → length (lockset_ (op_ r)) = 10%nat →
  IsLea insn = false → extend1 GetRegisterOperand r d ds insn off = Some x → real_access r d (insn, off) σ x.
Proof.
  intros Hag (_ & Hpa & _) Hn Hl Hlea. unfold extend1. set (use := if d =? 1 then _ else _) in *.
  destruct (negb (is_arith insn)); [done|].
  assert (Hadd : ∀ k a, IsMemOperand insn k = true → known_address (mem_op_ (op_ r)) use insn k = Some a →
            real_access r d (insn, off) σ
              (added_record r (as_llong (if d =? 1 then ip (mem_op_ (op_ r)) + off else ip (mem_op_ (op_ r)) - off)) (Z.of_nat k) a)).
  { intros k a Hk Ha. rewrite (known_address_real _ _ _ _ _ _ Hag Hpa Ha). split; simpl; try done.
    - by exists k.
    - by rewrite wrap64_as_llong.
    - split; [done|]. apply take_copy_prefix. lia. }
  destruct (IsMemOperand insn 0) eqn:H0; [|destruct (IsMemOperand insn 1) eqn:H1; [|done]];
    intros (a & Ha & ->)%fmap_Some; [by apply (Hadd 0%nat a)|by apply (Hadd 1%nat a)].
Qed.

(** Executions: the states before the instructions after the sample, and before the ones
    that led to it. *)
Fixpoint forward_run (ρ : string → Z) (l : list InstructionEntry) (σs : list (string → Z)) : Prop :=
  match l, σs with
  | [], [] => True
  | insn :: l', σ :: σs' => σ = ρ ∧ ∃ ρ', exec insn ρ ρ' ∧ forward_run ρ' l' σs'
  | _, _ => False
  end.

Fixpoint backward_run (ρ : string → Z) (l : list InstructionEntry) (σs : list (string → Z)) : Prop :=
  match l, σs with
  | [], [] => True
  | insn :: l', σ :: σs' => exec insn σ ρ ∧ backward_run σ l' σs'
  | _, _ => False
  end.

Lemma extend_forward_real r ds ρ l σs k io σ x :
  agrees (mem_op_ (op_ r)) ds ρ → Forall (λ io, plain GetRegisterOperand io.1) l → forward_run ρ l.*1 σs →
  lock_count_ (op_ r) ≤ 10 → length (lockset_ (op_ r)) = 10%nat →
  l !! k = Some io → σs !! k = Some σ → IsLea io.1 = false → extend GetRegisterOperand r 1 ds l !! k = Some (Some x) →
  real_access r 1 io σ x.
Proof.
  intros Hag Hl Hrun Hn Hlk. revert ds ρ σs k Hag Hrun. induction Hl as [|[insn off] l Hp _ IH]; intros ds ρ σs k Hag Hrun; [done|].
  destruct σs as [|σ0 σs]; [done|]. destruct Hrun as [-> (ρ' & He & Hrun)]. destruct k as [|k]; simpl.
  - intros [= <-] [= <-] Hlea [= Hx]. by apply (extend1_real r 1 ds ρ insn off x).
  - intros. eapply (IH _ ρ' σs k); try done. by apply (agrees_forward insn _ ds ρ).
Qed.

Lemma extend_backward_real r ds ρ l σs k io σ x :
  agrees (mem_op_ (op_ r)) ds ρ → Forall (λ io, plain GetRegisterOperand io.1) l → backward_run ρ l.*1 σs →
  lock_count_ (op_ r) ≤ 10 → length (lockset_ (op_ r)) = 10%nat →
  l !! k = Some io → σs !! k = Some σ → IsLea io.1 = false → extend GetRegisterOperand r 0 ds l !! k = Some (Some x) →
  real_access r 0 io σ x.
Proof.
  intros Hag Hl Hrun Hn Hlk. revert ds ρ σs k Hag Hrun. induction Hl as [|[insn off] l Hp _ IH]; intros ds ρ σs k Hag Hrun; [done|].
  destruct σs as [|σ0 σs]; [done|]. destruct Hrun as [He Hrun].
  pose proof (agrees_backward insn _ ds ρ σ0 Hp He Hag) as Hag'. destruct k as [|k]; simpl.
  - intros [= <-] [= <-] Hlea [= Hx]. by apply (extend1_real r 0 ds σ0 insn off x).
  - intros. by eapply (IH _ σ0 σs k).
Qed.
End machine.

(** ** The properties of a basic block *)

(** C16: the extension of a sample is the reference one.  For a sample on an instruction the
    pass handles, [ExecuteSimWhole] returns and adds exactly the records of the reference
    definition: walking back and forth to the ends of the basic block or to the first
    instruction that is not handled, an access is added if and only if its base is not a
    frame register, its displacement is a constant, and none of its registers was written
    in between; the sampled log stays as it is and no pollution is left behind. *)
Theorem simulation_computes_reference GetRegisterOperand f p insn index s r bb :
  seed s index r → backward_reg_map_ s = ∅ → FindBasicBlock f p = Some bb → seed_ok GetRegisterOperand insn →
  Forall (λ io, insn_ok GetRegisterOperand io.1) (before f p bb) → Forall (λ io, insn_ok GetRegisterOperand io.1) (after f p bb) →
  ExecuteSimWhole GetRegisterOperand (λ _, true) f p insn index s =
  Ret tt (mkSim (raw_record_ s)
            (new_records s ++ omap id (extend GetRegisterOperand r 0 [] (before f p bb)) ++
                              omap id (extend GetRegisterOperand r 1 (seed_dest GetRegisterOperand insn) (after f p bb)))
            ∅ ∅).
Proof. apply ExecuteSimWhole_ok. Qed.

(** C6: the added accesses really happened.  Take a machine whose instructions change only
    their destination register, a sample with the registers of the state before the
    sampled instruction, and an execution of its basic block through that state, and let
    the instructions be plain: addresses use only 64-bit general registers (not [rip], no
    narrower names), and a destination is a whole register or the lower half of one of the
    eight old registers, so that no register is written in part.  Then the pass returns,
    and every record it adds for an instruction other than [lea] carries the address that
    instruction accessed in that execution, whether it read or wrote, its place in the
    code, and the number, the thread and the locks of the sample.  A [lea] may stand in the
    block; the record the pass adds for one stands for no access, and nothing is said of
    it. *)
Theorem simulated_addresses_are_real (HM : Machine) GetRegisterOperand f p insn index s r bb ρ ρ1 σb σf :
  (∀ insn i d, operands insn !! i = Some (RegOperand d) → GetRegisterOperand insn i = Some (Some d)) →
  seed s index r → backward_reg_map_ s = ∅ → FindBasicBlock f p = Some bb → plain GetRegisterOperand insn → seed_ok GetRegisterOperand insn →
  Forall (λ io, plain GetRegisterOperand io.1) (before f p bb) → Forall (λ io, plain GetRegisterOperand io.1) (after f p bb) →
  (∀ n, n ∈ whole_regs → sampled (mem_op_ (op_ r)) (Some n) = ρ n) →
  exec insn ρ ρ1 → backward_run ρ (before f p bb).*1 σb → forward_run ρ1 (after f p bb).*1 σf →
  ∃ s' bs fs, ExecuteSimWhole GetRegisterOperand (λ _, true) f p insn index s = Ret tt s' ∧
    raw_record_ s' = raw_record_ s ∧ new_records s' = new_records s ++ omap id bs ++ omap id fs ∧
    length bs = length (before f p bb) ∧ length fs = length (after f p bb) ∧
    (∀ k io σ x, before f p bb !! k = Some io → IsLea io.1 = false → σb !! k = Some σ → bs !! k = Some (Some x) → real_access r 0 io σ x) ∧
    (∀ k io σ x, after f p bb !! k = Some io → IsLea io.1 = false → σf !! k = Some σ → fs !! k = Some (Some x) → real_access r 1 io σ x).
Proof.
  intros Hreg Hs Hb Hbb Hp Hseed Hbef Haft Hsm He Hrb Hrf.
  assert (Hok : ∀ l : list (InstructionEntry * Z), Forall (λ io, plain GetRegisterOperand io.1) l → Forall (λ io, insn_ok GetRegisterOperand io.1) l).
  { intros l Hl. eapply Forall_impl; [exact Hl|]. intros io Hio. apply Hio. }
  assert (Hlen : ∀ d ds l, length (extend GetRegisterOperand r d ds l) = length l).
  { intros d ds l. revert ds. induction l as [|[i o] l IH]; intros ds; simpl; [done|]. by rewrite IH. }
  set (bs := extend GetRegisterOperand r 0 [] (before f p bb)).
  set (fs := extend GetRegisterOperand r 1 (seed_dest GetRegisterOperand insn) (after f p bb)).
  exists (mkSim (raw_record_ s) (new_records s ++ omap id bs ++ omap id fs) ∅ ∅), bs, fs.
  split; [apply ExecuteSimWhole_ok; [done|done|done|done|by apply Hok|by apply Hok]|].
  do 2 (split; [done|]). do 2 (split; [apply Hlen|]). split.
  - intros k io σ x H1 H2 H3 H4.
    apply (extend_backward_real GetRegisterOperand Hreg r [] ρ (before f p bb) σb k io σ x); try done; [|by destruct Hs..].
    intros n Hn _. symmetry. by apply Hsm.
  - intros k io σ x H1 H2 H3 H4.
    apply (extend_forward_real GetRegisterOperand Hreg r (seed_dest GetRegisterOperand insn) ρ1 (after f p bb) σf k io σ x);
      try done; [|by destruct Hs..].
    intros n Hn Hw. rewrite Hsm by done. eapply (exec_agrees GetRegisterOperand Hreg insn); try done.
    intros q [Ha _]. unfold seed_dest. rewrite Ha. set_solver.
Qed.

(** ** A block, walked from its second instruction *)

Definition load (d : displacement) (base index : reg_entry) (sc : nat) (dst : string) : InstructionEntry :=
  mkInsn OP_mov [MemOperand d; RegOperand dst] base index sc false.
Definition store (src : string) (d : displacement) (base : reg_entry) : InstructionEntry :=
  mkInsn OP_mov [RegOperand src; MemOperand d] base None 0 false.
Definition set_reg (dst : string) : InstructionEntry :=
  mkInsn OP_mov [ImmOperand; RegOperand dst] None None 0 false.

(** The answer for an operand that is not a register. *)
Definition demo_register_operand (insn : InstructionEntry) (i : nat) : option reg_entry :=
  Some (match operands insn !! i with Some (RegOperand d) => Some d | _ => None end).

(** [entries] behind a label, all in one basic block, four bytes each. *)
Definition demo_block (is_ : list InstructionEntry) : Function_ :=
  mkFun "foo" [FileDirective 1 "'a.c'"] (OtherEntry :: (Instruction <$> is_))
    (λ p, if (p =? 0)%nat then None else Some 1) (λ _, 0%nat) (λ _, length is_)
    (λ p, if (p =? 0)%nat then 0 else 4) (λ p, 4 * (Z.of_nat p - 1)) 0 (S (length is_)).

Definition demo_seed : RacezRecord :=
  mkRecord 3 7 1 (mkOp 0 100 100 0 (mkPebs 0 100 4096 8192 3 0 0 2 0 0 0 0 0 0 0 0 0 0) 1 [55; 0; 0; 0; 0; 0; 0; 0; 0; 0])
    (replicate 10 0) 0.
Definition demo_sim : sim := mkSim [zero_record; demo_seed] [] ∅ ∅.

Definition demo_insns : list InstructionEntry :=
  [load (Constant 8) (Some "rbx") None 0 "rcx"; store "rdx" (Constant 16) (Some "rax");
   load NoDisp (Some "rax") (Some "rdi") 2 "rax"; store "rcx" NoDisp (Some "rax"); store "rcx" NoDisp (Some "rbx")].

Lemma demo_seed_ok : seed demo_sim 1 demo_seed.
Proof. by split. Qed.

Lemma simulation_computes_reference_witness :
  ∃ s', ExecuteSimWhole demo_register_operand (λ _, true) (demo_block demo_insns) 2 (store "rdx" (Constant 16) (Some "rax")) 1 demo_sim = Ret tt s' ∧
    (memory_address_ ∘ op_) <$> new_records s' = [8200; 4104; 8192].
Proof.
  eexists. split.
  - apply (simulation_computes_reference demo_register_operand (demo_block demo_insns) 2 (store "rdx" (Constant 16) (Some "rax")) 1 demo_sim demo_seed 1);
      [apply demo_seed_ok|reflexivity|reflexivity|split; [reflexivity|by eexists]|..]; apply (bool_decide_unpack _); vm_compute; reflexivity.
  - vm_compute. reflexivity.
Defined.

(** The least a machine has to do: keep what is not written. *)
#[export] Instance demo_machine : Machine.
Proof.
  refine {| exec := λ insn ρ ρ', ∀ n, n ∈ whole_regs → ¬ writes_reg insn n → ρ' n = ρ n |}. auto.
Defined.

Definition demo_state : string → Z := λ n, sampled (mem_op_ (op_ demo_seed)) (Some n).

(** The state after a load of 512 into a register. *)
Definition demo_loaded (dst : string) (ρ : string → Z) : string → Z := λ n, if decide (n = dst) then 512 else ρ n.

Lemma demo_load_exec d base index sc dst ρ :
  dst ∈ whole_regs → exec (load d base index sc dst) ρ (demo_loaded dst ρ).
Proof.
  intros Hd n Hn Hw. unfold demo_loaded. rewrite decide_False; [done|]. intros ->. apply Hw. split; [done|].
  exists dst. split; [done|]. unfold whole_regs in Hd. apply list_elem_of_fmap in Hd as ([x ps] & Hx & Hps). simpl in Hx. subst x.
  exists ps. split; [done|]. revert Hps. unfold register_parts. rewrite !elem_of_cons, elem_of_nil.
  intros Hps. destruct_or! Hps; try done; simplify_eq; set_solver.
Qed.

Lemma demo_store_exec src d base ρ : exec (store src d base) ρ ρ.
Proof. by intros n _ _. Qed.

Lemma simulated_addresses_are_real_witness :
  ∃ s' bs fs, ExecuteSimWhole demo_register_operand (λ _, true) (demo_block demo_insns) 2 (store "rdx" (Constant 16) (Some "rax")) 1 demo_sim = Ret tt s' ∧
    raw_record_ s' = raw_record_ demo_sim ∧ new_records s' = [] ++ omap id bs ++ omap id fs ∧
    length bs = 1%nat ∧ length fs = 3%nat ∧
    (∀ k io σ x, before (demo_block demo_insns) 2 1 !! k = Some io → IsLea io.1 = false → [demo_state] !! k = Some σ → bs !! k = Some (Some x) → real_access demo_seed 0 io σ x) ∧
    (∀ k io σ x, after (demo_block demo_insns) 2 1 !! k = Some io → IsLea io.1 = false →
       [demo_state; demo_loaded "rax" demo_state; demo_loaded "rax" demo_state] !! k = Some σ →
       fs !! k = Some (Some x) → real_access demo_seed 1 io σ x).
Proof.
  apply (simulated_addresses_are_real demo_machine demo_register_operand (demo_block demo_insns) 2
           (store "rdx" (Constant 16) (Some "rax")) 1 demo_sim demo_seed 1 demo_state demo_state [demo_state]
           [demo_state; demo_loaded "rax" demo_state; demo_loaded "rax" demo_state]).
  - intros insn i d E. unfold demo_register_operand. by rewrite E.
  - apply demo_seed_ok.
  - reflexivity.
  - reflexivity.
  - apply (bool_decide_unpack _); vm_compute; reflexivity.
  - split; [reflexivity|by eexists].
  - apply (bool_decide_unpack _); vm_compute; reflexivity.
  - apply (bool_decide_unpack _); vm_compute; reflexivity.
  - done.
  - apply demo_store_exec.
  - split; [|done]. intros n Hn _. done.
  - split; [done|]. exists (demo_loaded "rax" demo_state). split; [apply demo_load_exec; vm_compute; by left|].
    split; [done|]. exists (demo_loaded "rax" demo_state). split; [apply demo_store_exec|].
    split; [done|]. exists (demo_loaded "rax" demo_state). split; [apply demo_store_exec|done].
Defined.

(** ** Where the simulation is wrong *)

(** An address computation is taken for an access.  For an instruction [lea] whose
    operand is known, the pass adds a record that says the address was read, although the
    instruction accesses no memory. *)
Theorem lea_recorded_as_read GetRegisterOperand insn index off d s r ds a :
  op insn = OP_lea → IsMemOperand insn 0 = true → insn_ok GetRegisterOperand insn →
  seed s index r → walking d → represents (reg_map d s) ds →
  known_address (mem_op_ (op_ r)) (if d =? 1 then ds else dest GetRegisterOperand insn ++ ds) insn 0 = Some a →
  ∃ s' x, ComputeNewSampleWhole GetRegisterOperand (λ _, true) insn index off d s = Ret true s' ∧
    new_records s' = new_records s ++ [x] ∧ type_is MEMORY_OP x = true ∧
    memory_address_ (op_ x) = wrap64 a ∧ is_write_ (op_ x) = 0.
Proof.
  intros Hop H0 Hok Hs Hd Hm Ha.
  assert (Har : is_arith insn = true).
  { unfold is_arith. replace (IsLea insn) with true; [by rewrite orb_true_r|]. unfold IsLea. by rewrite Hop. }
  destruct (ComputeNewSampleWhole_ok GetRegisterOperand insn index off d s r ds Hs Hd Hm Hok (arith_can_handle _ Har)) as (m & E & _).
  unfold extend1 in E. rewrite Har, H0, Ha in E. simpl in E.
  eexists _, _. split; [exact E|]. split; [simpl; unfold set_reg_map; by destruct (d =? 0)|]. by repeat split.
Qed.

Lemma lea_recorded_as_read_witness :
  ∃ s' x, ComputeNewSampleWhole demo_register_operand (λ _, true)
            (mkInsn OP_lea [MemOperand (Constant 24); RegOperand "rsi"] (Some "rax") None 0 false) 1 4 1 demo_sim = Ret true s' ∧
    new_records s' = [] ++ [x] ∧ type_is MEMORY_OP x = true ∧ memory_address_ (op_ x) = wrap64 4120 ∧ is_write_ (op_ x) = 0.
Proof.
  apply (lea_recorded_as_read demo_register_operand _ 1 4 1 demo_sim demo_seed []);
    [reflexivity|reflexivity|apply (bool_decide_unpack _); vm_compute; reflexivity|apply demo_seed_ok|by right
    |apply represents_nil|vm_compute; reflexivity].
Defined.

(** C40: a write to a part of a register is not noticed.  When an instruction writes a part
    [d] of a register [n] whose name the pass does not pair with [n] (the 8- and 16-bit
    parts, and all parts of the registers from [r8] on), the walk goes on with the sampled
    value of [n], which the instruction may have changed. *)
Theorem partial_write_missed GetRegisterOperand d n insn index off s r :
  (∀ insn i d, operands insn !! i = Some (RegOperand d) → GetRegisterOperand insn i = Some (Some d)) →
  part_of d n → ¬ same_reg (Some d) (Some n) →
  is_arith insn = true → insn_ok GetRegisterOperand insn → IsMemOperand insn 0 = false → operands insn !! 1%nat = Some (RegOperand d) →
  seed s index r → represents (forward_reg_map_ s) [] →
  writes_reg insn n ∧
  ∃ s1 s2, ComputeNewSampleWhole GetRegisterOperand (λ _, true) insn index off 1 s = Ret true s1 ∧
    GetValueFromRegister (Some n) index 1 s1 = Ret (sampled (mem_op_ (op_ r)) (Some n)) s2.
Proof.
  intros Hreg Hpart Hns Har Hok H0 H1 Hs Hm. split; [by split; [|exists d]|].
  destruct (ComputeNewSampleWhole_ok GetRegisterOperand insn index off 1 s r [] Hs ltac:(by right) Hm Hok (arith_can_handle _ Har))
    as (m & E & Hm1).
  assert (Hmem : IsMemOperand insn 1 = false) by (unfold IsMemOperand; by rewrite H1).
  unfold dest, has_dest, last_operand in Hm1. rewrite Har, Hmem, orb_true_r, (Hreg _ _ _ H1) in Hm1. simpl in Hm1.
  unfold extend1 in E. rewrite Har, H0, Hmem in E. simpl in E.
  destruct (GetValueFromRegister_ok (Some n) index 1 (set_reg_map 1 m s) r [Some d]) as (m2 & E2 & _);
    [eapply seed_raw, Hs; apply raw_set_reg_map|by right|by rewrite reg_map_set|].
  rewrite bool_decide_eq_false_2 in E2; [eauto|]. unfold written. rewrite Exists_cons, Exists_nil. naive_solver.
Qed.

Lemma partial_write_missed_witness :
  writes_reg (set_reg "al") "rax" ∧
  ∃ s1 s2, ComputeNewSampleWhole demo_register_operand (λ _, true) (set_reg "al") 1 4 1 demo_sim = Ret true s1 ∧
    GetValueFromRegister (Some "rax") 1 1 s1 = Ret 4096 s2.
Proof.
  apply (partial_write_missed demo_register_operand "al" "rax" (set_reg "al") 1 4 demo_sim demo_seed).
  - intros insn i d E. unfold demo_register_operand. by rewrite E.
  - eexists. split; [by left|]. set_solver.
  - apply (bool_decide_unpack _); vm_compute; reflexivity.
  - reflexivity.
  - apply (bool_decide_unpack _); vm_compute; reflexivity.
  - reflexivity.
  - reflexivity.
  - apply demo_seed_ok.
  - apply represents_nil.
Defined.
