(* ===== verification/SimPipeline.v ===== *)
(** * From the simulation to the detector

    What [InstructSimPass::Go] does to the files whatever the function and the samples are:
    the raw log keeps its records with their numbers, threads and locks, and every added
    record is derived from one of them.  The detector's main loop on the two files then
    analyses them without a fault. *)

From S2P Require Import Prelude.
From S2P Require Import Records.
From S2P Require Import Text.
From S2P Require Import DetectCore.
From S2P Require Import Detect.
From S2P Require Import DetectSpec.
From S2P Require Import Convert.
From S2P Require Import ConvertSpec.
From S2P Require Import SampleReader.
From S2P Require Import AddrSim.
From S2P Require Import AddrSimSpec.
From stdpp Require Import base gmap list sets sorting strings.

Open Scope Z_scope.

(** ** What the pass may change *)

(** The same sample, possibly with its address and its kind filled in. *)
Record same_sample (a b : RacezRecord) : Prop := {
  ss_number : record_no_ b = record_no_ a;
  ss_thread : thread_id_ b = thread_id_ a;
  ss_type : type_ b = type_ a;
  ss_locks : lock_count_ (op_ b) = lock_count_ (op_ a) ∧ lockset_ (op_ b) = lockset_ (op_ a);
  ss_trace : stack_trace_ b = stack_trace_ a ∧ trace_depth_ b = trace_depth_ a;
  ss_write : is_write_ (op_ b) = is_write_ (op_ a) ∨ is_write_ (op_ b) = 0 ∨ is_write_ (op_ b) = 1;
  ss_other : type_is MEMORY_OP a = false → b = a
}.

#[export] Instance same_sample_preorder : PreOrder same_sample.
Proof.
  split; [intros a; split; auto|].
  intros a b c [] []. split; try congruence; [intuition congruence..|].
  intros Ha. assert (b = a) as -> by auto. auto.
Qed.

(** An added record and the sample it comes from. *)
Record derived (r x : RacezRecord) : Prop := {
  dv_number : record_no_ x = record_no_ r;
  dv_thread : thread_id_ x = thread_id_ r;
  dv_type : type_is MEMORY_OP x = true;
  dv_locks : locks x = locks r;
  dv_write : is_write_ (op_ x) = 0 ∨ is_write_ (op_ x) = 1;
  dv_printable : printable x
}.

Lemma derived_same a b x : same_sample a b → derived b x → derived a x.
Proof.
  intros [] []. split; try congruence; try done. rewrite dv_locks0. unfold locks, access_locks. intuition congruence.
Qed.

Record grows (s s' : sim) : Prop := {
  gr_raw : Forall2 same_sample (raw_record_ s) (raw_record_ s');
  gr_new : ∃ nw, new_records s' = new_records s ++ nw ∧ Forall (λ x, ∃ r, r ∈ raw_record_ s ∧ derived r x) nw
}.

#[export] Instance grows_preorder : PreOrder grows.
Proof.
  split; [intros s; split; [done|exists []; by rewrite app_nil_r]|].
  intros s1 s2 s3 [R1 (n1 & E1 & D1)] [R2 (n2 & E2 & D2)]. split; [by etrans|].
  exists (n1 ++ n2). rewrite E2, E1, <- app_assoc. split; [done|]. apply Forall_app. split; [done|].
  eapply Forall_impl; [exact D2|]. intros x (r & Hr & Hd). apply list_elem_of_lookup in Hr as [i Hi].
  destruct (Forall2_lookup_r _ _ _ _ _ R1 Hi) as (a & Ha & Hs). exists a. split; [by eapply list_elem_of_lookup_2|].
  by eapply derived_same.
Qed.

(** The sample at [index], if there is one, is an access. *)
Definition at_access (s : sim) (index : Z) : Prop :=
  ∀ r, raw_record_ s !! Z.to_nat index = Some r → type_is MEMORY_OP r = true.

Lemma at_access_grows s s' index : grows s s' → at_access s index → at_access s' index.
Proof.
  intros [R _] H r Hr. destruct (Forall2_lookup_r _ _ _ _ _ R Hr) as (a & Ha & Hs).
  specialize (H a Ha). revert H. unfold type_is. by rewrite (ss_type _ _ Hs).
Qed.

(** Code that, run on samples [is_] that are accesses, only does this. *)
Definition only_grows {A} (is_ : list Z) (m : M sim A) : Prop :=
  ∀ s a s', Forall (at_access s) is_ → m s = Ret a s' → grows s s'.

Section closure.
Context (is_ : list Z).

Lemma og_bind {A B} (m : M sim A) (k : A → M sim B) :
  only_grows is_ m → (∀ a, only_grows is_ (k a)) → only_grows is_ (m ≫= k).
Proof.
  intros Hm Hk s b s' Hi (a & s1 & E1 & E2)%bind_Ret_inv. pose proof (Hm _ _ _ Hi E1) as G.
  etrans; [exact G|]. eapply Hk; [|exact E2]. eapply Forall_impl; [exact Hi|]. intros i. by apply at_access_grows.
Qed.

Lemma og_ret {A} (a : A) : only_grows is_ (mret a).
Proof. intros s b s' _. by injection 1 as _ <-. Qed.
Lemma og_fail {A} f : only_grows is_ (fail (A := A) f).
Proof. by intros s b s' _. Qed.
Lemma og_gets {A} (g : sim → A) : only_grows is_ (gets g).
Proof. intros s b s' _. by injection 1 as _ <-. Qed.
Lemma og_get : only_grows is_ get.
Proof. intros s b s' _. by injection 1 as _ <-. Qed.
Lemma og_modify (g : sim → sim) :
  (∀ s, raw_record_ (g s) = raw_record_ s ∧ new_records (g s) = new_records s) → only_grows is_ (modify g).
Proof.
  intros Hg s b s' _. injection 1 as _ <-. destruct (Hg s) as [H1 H2]. split; [by rewrite H1|].
  exists []. by rewrite H2, app_nil_r.
Qed.
Lemma og_if {A} (b : bool) (m1 m2 : M sim A) : only_grows is_ m1 → only_grows is_ m2 → only_grows is_ (if b then m1 else m2).
Proof. by destruct b. Qed.
Lemma og_when b m : only_grows is_ m → only_grows is_ (when b m).
Proof. intros H. unfold when. apply og_if; [done|apply og_ret]. Qed.
Lemma og_assert b : only_grows is_ (c_assert b).
Proof. unfold c_assert. apply og_if; [apply og_ret|apply og_fail]. Qed.
Lemma og_deref {A} (p : option A) : only_grows is_ (deref p).
Proof. destruct p; [apply og_ret|apply og_fail]. Qed.
Lemma og_arr_get {A} (l : list A) i : only_grows is_ (arr_get l i).
Proof. unfold arr_get. apply og_if; [|apply og_fail]. destruct (l !! _); [apply og_ret|apply og_fail]. Qed.
Lemma og_arr_copy {A} n (l1 l2 : list A) : only_grows is_ (arr_copy n l1 l2).
Proof. unfold arr_copy. apply og_if; [apply og_ret|apply og_fail]. Qed.
End closure.

#[export] Hint Resolve og_bind og_ret og_fail og_gets og_get og_if og_when og_assert og_deref og_arr_get og_arr_copy : racez.

Lemma arr_get_inv {S A} (l : list A) i (s : S) a s' : arr_get l i s = Ret a s' → s' = s ∧ l !! Z.to_nat i = Some a ∧ 0 ≤ i.
Proof.
  unfold arr_get, in_range. case_bool_decide; [|done]. destruct (l !! Z.to_nat i) eqn:E; [|done].
  injection 1 as <- <-. split; [done|]. split; [done|lia].
Qed.

Lemma arr_copy_inv {S A} n (l1 l2 : list A) (s : S) a s' : arr_copy n l1 l2 s = Ret a s' →
  s' = s ∧ a = copy_prefix n l1 l2 ∧ n ≤ Z.of_nat (length l1) ∧ n ≤ Z.of_nat (length l2).
Proof. unfold arr_copy. case_bool_decide as H; [|done]. injection 1 as <- <-. tauto. Qed.

Lemma raw_at_inv index s r s' : raw_at index s = Ret r s' → s' = s ∧ raw_record_ s !! Z.to_nat index = Some r ∧ 0 ≤ index.
Proof. unfold raw_at, get, mbind, M_bind. apply arr_get_inv. Qed.

Section pass.
Context (GetRegisterOperand : InstructionEntry → nat → option reg_entry) (write_ok : RacezRecord → bool).
Context (is_ : list Z).

Lemma og_raw_at index : only_grows is_ (raw_at index).
Proof. unfold raw_at. auto with racez. Qed.
Hint Resolve og_raw_at : racez.

Lemma og_set_reg_map d m : only_grows is_ (modify (set_reg_map d m)).
Proof. apply og_modify. intros s. unfold set_reg_map. by destruct (d =? 0). Qed.
Hint Resolve og_set_reg_map : racez.

Lemma og_pollute d r : only_grows is_ (pollute d r).
Proof. apply og_modify. intros s. unfold set_reg_map. by destruct (d =? 0). Qed.
Hint Resolve og_pollute : racez.

Lemma og_get_value reg index d : only_grows is_ (GetValueFromRegister reg index d).
Proof.
  unfold GetValueFromRegister. apply og_bind; [auto with racez|]. intros [].
  - apply og_ret.
  - destruct (sample_field reg); auto with racez.
Qed.
Hint Resolve og_get_value : racez.

Lemma og_compute_memory insn index k d : only_grows is_ (ComputeMemory insn index k d).
Proof.
  unfold ComputeMemory, GetScaleValue. apply og_bind; [auto with racez|]. intros sc. apply og_if; [apply og_ret|].
  destruct (GetIndexRegister insn); auto 10 with racez.
Qed.
Hint Resolve og_compute_memory : racez.

Lemma og_write_new_record index at_ w a : w = 0 ∨ w = 1 → only_grows is_ (write_new_record write_ok index at_ w a).
Proof.
  intros Hw s u s' _. unfold write_new_record.
  intros (r & s1 & (-> & Hr & _)%raw_at_inv & (ls & s2 & (-> & -> & Hn1 & Hn2)%arr_copy_inv & E)%bind_Ret_inv)%bind_Ret_inv.
  simpl in Hn2. unfold when in E. destruct (write_ok _); [|by injection E as _ <-]. injection E as _ <-. split; [done|].
  eexists. split; [reflexivity|]. apply Forall_singleton. exists r. split; [by eapply list_elem_of_lookup_2|].
  split; try done; simpl.
  - unfold locks, access_locks. simpl. rewrite take_copy_prefix by done. done.
  - split; simpl; [|done]. rewrite length_copy_prefix; [done|done|simpl; lia].
Qed.

Lemma og_new_access index off d w a : w = 0 ∨ w = 1 → only_grows is_ (new_access write_ok index off d w a).
Proof.
  intros Hw. unfold new_access, sample_ip. apply og_if; [apply og_ret|]. apply og_bind; [auto with racez|].
  intros. by apply og_write_new_record.
Qed.
Hint Resolve og_new_access : racez.

Lemma og_register_operand insn i : only_grows is_ (register_operand GetRegisterOperand insn i).
Proof. unfold register_operand. destruct (GetRegisterOperand insn i); auto with racez. Qed.
Hint Resolve og_register_operand : racez.

Lemma og_compute_new insn index off d :
  only_grows is_ (ComputeNewSampleWhole GetRegisterOperand write_ok insn index off d).
Proof. unfold ComputeNewSampleWhole. auto 20 with racez. Qed.
Hint Resolve og_compute_new : racez.

Lemma og_execute f p insn index : only_grows is_ (ExecuteSimWhole GetRegisterOperand write_ok f p insn index).
Proof.
  assert (Hloop : ∀ q bb stop d qs, only_grows is_ (sim_loop GetRegisterOperand write_ok f q bb stop index d qs)).
  { intros q bb stop d qs. induction qs as [|x qs IH]; simpl; [apply og_ret|]. apply og_if; [|apply og_ret].
    destruct (instruction_at f x); auto 10 with racez. }
  assert (Hclear : ∀ m, only_grows is_ (modify (set_forward m)) ∧ only_grows is_ (modify (set_backward m))).
  { intros m. split; by apply og_modify. }
  unfold ExecuteSimWhole. apply og_bind; [apply Hclear|]. intros _. destruct (FindBasicBlock f p) as [bb|]; [|apply og_fail].
  apply og_if; [apply og_ret|]. apply og_bind; [auto with racez|]. intros _. apply og_bind; [apply Hclear|]. intros _.
  apply og_bind; [auto with racez|]. intros _. apply og_bind; [auto with racez|]. intros _. apply Hclear.
Qed.

(** The sampled record gets its address and kind, and stays the same sample. *)
Lemma og_update insn index : index ∈ is_ → only_grows is_ (UpdateMemory insn index).
Proof.
  intros Hin. unfold UpdateMemory. apply og_when.
  assert (Hu : ∀ k w, w = 0 ∨ w = 1 → only_grows is_
    (address ← ComputeMemory insn index k 2; r ← raw_at index; s ← get;
     modify (set_raw (<[Z.to_nat index := upd_op (set_is_write w) (if address =? -1 then r else upd_op (set_memory_address (wrap64 address)) r)]> (raw_record_ s))))).
  { intros k w Hw. apply og_bind; [apply og_compute_memory|]. intros address s u s' Hi.
    intros (r & s1 & (-> & Hr & _)%raw_at_inv & (s2 & s3 & Eg & Em)%bind_Ret_inv)%bind_Ret_inv.
    injection Eg as <- <-. injection Em as _ <-. split; [|exists []; by rewrite app_nil_r]. simpl.
    assert (Ht : type_is MEMORY_OP r = true) by (rewrite Forall_forall in Hi; by apply (Hi index)).
    rewrite <- (list_insert_id (raw_record_ s) (Z.to_nat index) r Hr) at 1. apply Forall2_insert; [done|].
    destruct (address =? -1); split; simpl; auto; congruence. }
  apply og_bind; [apply og_when|intros _; apply og_when]; apply Hu; auto.
Qed.
End pass.

(** ** A whole function *)

Lemma og_bind_res {A B} is_ (m : M sim A) (k : A → M sim B) :
  only_grows is_ m → (∀ s a s', m s = Ret a s' → only_grows is_ (k a)) → only_grows is_ (m ≫= k).
Proof.
  intros Hm Hk s b s' Hi (a & s1 & E1 & E2)%bind_Ret_inv. pose proof (Hm _ _ _ Hi E1) as G.
  etrans; [exact G|]. eapply Hk; [exact E1| |exact E2]. eapply Forall_impl; [exact Hi|]. intros i. by apply at_access_grows.
Qed.

Section function.
Context (GetRegisterOperand : InstructionEntry → nat → option reg_entry) (write_ok : RacezRecord → bool) (f : Function_)
        (end_offset : option Z).

Lemma same_offset_suffix p insn off ss s rest s' :
  same_offset GetRegisterOperand write_ok f end_offset p insn off ss s = Ret rest s' → rest `suffix_of` ss.
Proof.
  revert s. induction ss as [|x ss IH]; intros s; simpl; [destruct end_offset; [by injection 1 as <- _|done]|].
  destruct (off =? s_offset x); [|by injection 1 as <- _].
  intros (? & s1 & _ & (? & s2 & _ & E)%bind_Ret_inv)%bind_Ret_inv. by apply suffix_cons_r, (IH s2).
Qed.

Section samples.
Context (is_ : list Z).

Lemma og_source_file table p cur : only_grows is_ (UpdateSourceFile f table p cur).
Proof.
  unfold UpdateSourceFile. apply og_bind; [auto with racez|]. intros [| |[n|]|]; auto with racez.
  apply og_if; [auto with racez|]. destruct (table !! _); auto with racez.
Qed.
Hint Resolve og_source_file : racez.

Lemma og_advance fuel table x c : only_grows is_ (advance f fuel table x c).
Proof.
  revert c. induction fuel as [|fuel IH]; intros c; simpl; [auto with racez|]. apply og_if; [|auto with racez].
  unfold step_entry. apply og_bind; [auto with racez|]. intros [c'|]; auto with racez.
Qed.

Lemma og_skip fuel file c : only_grows is_ (skip_to_instruction f fuel file c).
Proof.
  revert c. induction fuel as [|fuel IH]; intros c; simpl; [auto with racez|].
  apply og_bind; [auto with racez|]. intros [| | |]; auto with racez.
Qed.

Lemma og_same_offset p insn off ss :
  (∀ x, x ∈ ss → s_index x ∈ is_) → only_grows is_ (same_offset GetRegisterOperand write_ok f end_offset p insn off ss).
Proof.
  induction ss as [|x ss IH]; intros Hin; simpl; [destruct end_offset; auto with racez|]. apply og_if; [|auto with racez].
  apply og_bind; [apply og_update, Hin; set_solver|]. intros _. apply og_bind; [apply og_execute|]. intros _.
  apply IH. set_solver.
Qed.

Lemma og_for_samples fuel table ss c :
  (∀ x, x ∈ ss → s_index x ∈ is_) → only_grows is_ (for_samples GetRegisterOperand write_ok f end_offset fuel table ss c).
Proof.
  revert ss c. induction fuel as [|fuel IH]; intros [|x ss] c Hin; cbn [for_samples]; [auto with racez..|].
  apply og_bind; [apply og_advance|]. intros [c1|]; [|auto with racez].
  apply og_bind; [apply og_skip|]. intros [p insn]. apply og_bind_res; [by apply og_same_offset|].
  intros s rest s' Hsuf%same_offset_suffix. cbv zeta. unfold step_entry.
  apply og_bind; [auto with racez|]. intros [c2|]; [|auto with racez]. apply IH.
  intros y Hy. apply Hin. destruct (decide _); [set_solver|]. destruct Hsuf as [l El]. rewrite El. set_solver.
Qed.
End samples.

Lemma insert_sample_perm x l : insert_sample x l ≡ₚ x :: l.
Proof.
  induction l as [|y l IH]; simpl; [done|]. destruct (s_offset y <? s_offset x); [|done].
  rewrite IH. by constructor.
Qed.

Lemma sort_samples_perm l : sort_samples l ≡ₚ l.
Proof. induction l as [|x l IH]; simpl; [done|]. by rewrite insert_sample_perm, IH. Qed.

(** The samples of the profile are accesses of the log. *)
Definition profile_ok (profile : option string) (s : sim) : Prop :=
  ∀ fn cur b ss, Read profile fn cur [] = Ret b ss → Forall (at_access s) (s_index <$> ss).

Lemma profile_ok_grows profile s s' : grows s s' → profile_ok profile s → profile_ok profile s'.
Proof.
  intros G H fn cur b ss E. eapply Forall_impl; [by eapply H|]. intros i. by apply at_access_grows.
Qed.

Lemma Go_grows cwd profile s b s' :
  profile_ok profile s → Go GetRegisterOperand write_ok f end_offset cwd profile s = Ret b s' → grows s s'.
Proof.
  intros Hp. unfold Go. intros (table & s1 & E1 & (cur & s2 & (-> & _ & _)%arr_get_inv & E)%bind_Ret_inv)%bind_Ret_inv.
  assert (Htable : ∀ t es, only_grows [] (BuildFileTable cwd t es)).
  { intros t es. revert t. induction es as [|e es IH]; intros t; simpl; [auto with racez|].
    destruct e; try apply IH. apply og_bind; [|intros; apply IH]. unfold add_file. auto 10 with racez. }
  pose proof (Htable _ _ _ _ _ (Forall_nil_2 _) E1) as G1. pose proof (profile_ok_grows _ _ _ G1 Hp) as Hp1.
  destruct (Read profile (fn_name f) cur []) as [[] ss|] eqn:Er; [|by injection E as _ <-|done].
  specialize (Hp1 _ _ _ _ Er). pose proof (sort_samples_perm ss) as Hperm.
  destruct (sort_samples ss) as [|x l] eqn:Es; [by injection E as _ <-|].
  etrans; [exact G1|]. rewrite <- Es in E.
  eapply (og_bind (s_index <$> ss) _ _ (og_source_file _ _ _ _)); [|exact Hp1|exact E].
  intros file. apply og_for_samples. intros y Hy. apply list_elem_of_fmap_2. by rewrite <- Hperm, <- Es.
Qed.
End function.

(** ** All the functions, then the detector *)

(** The pass runs on every function of the unit; the files are shared. *)
Definition run_pass (GetRegisterOperand : InstructionEntry → nat → option reg_entry) (write_ok : RacezRecord → bool)
    (end_offset : option Z) (cwd : string) (profile : option string) (fs : list Function_) : M sim unit :=
  for_each fs (λ f, Go GetRegisterOperand write_ok f end_offset cwd profile ;; mret tt).

Lemma run_pass_grows GetRegisterOperand write_ok end_offset cwd profile fs s s' :
  profile_ok profile s → run_pass GetRegisterOperand write_ok end_offset cwd profile fs s = Ret tt s' → grows s s'.
Proof.
  revert s. induction fs as [|f fs IH]; intros s Hp; [by injection 1 as <-|].
  unfold run_pass. cbn [for_each].
  intros ([] & s2 & (b & s1 & E & Er)%bind_Ret_inv & E2)%bind_Ret_inv. injection Er as <-.
  pose proof (Go_grows _ _ _ _ _ _ _ _ _ Hp E) as G. etrans; [exact G|]. apply IH; [|exact E2]. by eapply profile_ok_grows.
Qed.

Lemma same_sample_loggable a b : same_sample a b → loggable a → loggable b.
Proof.
  intros [? ? Ht [Hn Hl] [Hst Hd] Hw Ho] [Ha Hb]. split; unfold type_is in *; rewrite Ht; intros H.
  - destruct (Ha H) as [[Hf Hc] [Hp1 Hp2]]. split; split; rewrite ?Hn, ?Hl, ?Hst, ?Hd; try done.
    destruct Hw as [-> | Hw]; [done|]. by destruct Hw as [-> | ->]; auto.
  - assert (b = a) as ->; [|auto]. apply Ho. apply bool_decide_eq_true in H. by rewrite H.
Qed.

Lemma derived_loggable r x : derived r x → loggable x.
Proof.
  intros []. split; [intros _; split; [split; [done|apply dv_printable0]|done]|]. unfold type_is in *.
  intros H%bool_decide_eq_true. apply bool_decide_eq_true in dv_type0. by rewrite H in dv_type0.
Qed.

(** The record of the raw log a record handed to the detector stands for. *)
Definition stands_for (r x : RacezRecord) : Prop :=
  record_no_ x = record_no_ r ∧ thread_id_ x = thread_id_ r ∧ locks x = locks r.

Lemma same_sample_stands_for a b : same_sample a b → stands_for a b.
Proof. intros []. repeat split; try done. unfold locks, access_locks. intuition congruence. Qed.

Lemma same_sample_sorted l l' : Forall2 same_sample l l' → StronglySorted no_lt l → StronglySorted no_lt l'.
Proof.
  induction 1 as [|a b l l' Hab Hl IH]; [done|]. inversion_clear 1 as [|? ? Hs Ha]. constructor; [by apply IH|].
  clear IH Hs. induction Hl as [|c d l l' Hcd _ IH]; constructor; inversion_clear Ha as [|? ? Hac]; [|by apply IH].
  unfold no_lt in *. by rewrite (ss_number _ _ Hab), (ss_number _ _ Hcd).
Qed.

(** A record of either file stands for a record of the original log. *)
Lemma grows_origin s s' x :
  grows s s' → new_records s = [] → x ∈ raw_record_ s' ∨ x ∈ new_records s' →
  ∃ r, r ∈ raw_record_ s ∧ stands_for r x.
Proof.
  intros [R (nw & E & D)] Hnil [Hx|Hx].
  - apply list_elem_of_lookup in Hx as [i Hi]. destruct (Forall2_lookup_r _ _ _ _ _ R Hi) as (a & Ha & Hs).
    exists a. split; [by eapply list_elem_of_lookup_2|by apply same_sample_stands_for].
  - rewrite E, Hnil in Hx. rewrite Forall_forall in D. destruct (D x Hx) as (r & Hr & []). exists r. by repeat split.
Qed.

Lemma sorted_number_inj l a b :
  StronglySorted no_lt l → a ∈ l → b ∈ l → record_no_ a = record_no_ b → a = b.
Proof.
  induction 1 as [|x l Hl IH Hx]; [set_solver|]. rewrite Forall_forall in Hx. unfold no_lt in Hx.
  rewrite !elem_of_cons. intros [->|Ha] [->|Hb] E; [done|specialize (Hx b Hb); lia|specialize (Hx a Ha); lia|auto].
Qed.

(** What the detector is handed after the pass. *)
Lemma grows_detectable s s' :
  grows s s' → new_records s = [] → StronglySorted no_lt (raw_record_ s) → Forall loggable (raw_record_ s) →
  ∀ l, (∀ x, x ∈ l → x ∈ raw_record_ s' ∨ x ∈ new_records s') → Forall loggable l ∧ numbered (accesses l).
Proof.
  intros G Hnil Hs Hl l Hin. rewrite Forall_forall in Hl. split.
  - apply Forall_forall. intros x Hx. pose proof G as [R (nw & E & D)]. destruct (Hin x Hx) as [Hr|Hn].
    + apply list_elem_of_lookup in Hr as [i Hi]. destruct (Forall2_lookup_r _ _ _ _ _ R Hi) as (a & Ha & Has).
      eapply same_sample_loggable; [exact Has|]. apply Hl. by eapply list_elem_of_lookup_2.
    + rewrite E, Hnil in Hn. rewrite Forall_forall in D. destruct (D x Hn) as (r & _ & Hd). by eapply derived_loggable.
  - intros x y [_ Hx]%list_elem_of_filter [_ Hy]%list_elem_of_filter Exy.
    destruct (grows_origin s s' x G Hnil (Hin x Hx)) as (a & Ha & Ea & Ta & _).
    destruct (grows_origin s s' y G Hnil (Hin y Hy)) as (b & Hb & Eb & Tb & _).
    assert (a = b) as -> by (eapply sorted_number_inj; [exact Hs|done..|congruence]). congruence.
Qed.

(** *** A profile written by the symbolizer *)

Lemma wanted_index fn cur i ys x :
  x ∈ wanted fn cur i ys → ∃ k y, ys !! k = Some y ∧ y_place y ≠ None ∧ s_index x = i + Z.of_nat k.
Proof.
  revert i. induction ys as [|y ys IH]; intros i; simpl; [set_solver|]. rewrite elem_of_app. intros [Hx|Hx].
  - exists 0%nat, y. destruct (y_place y) as [[name off]|]; [|set_solver]. destruct (_ && _); [|set_solver].
    apply list_elem_of_singleton in Hx as ->. simpl. split; [done|]. split; [done|lia].
  - destruct (IH _ Hx) as (k & y' & Hk & Hp & E). exists (S k), y'. split; [done|]. split; [done|lia].
Qed.

(** The symbolizer gives a place to accesses only, so its file is a good profile. *)
Lemma symbolized_profile_ok ys s :
  Forall sym_ok ys → Z.of_nat (length ys) ≤ LLONG_MAX →
  Forall (short_line kBufferSizeIncrement) (final_lines 0 (position_text <$> ys) (place_text <$> ys)) →
  (∀ k y r, ys !! k = Some y → y_place y ≠ None → raw_record_ s !! k = Some r → type_is MEMORY_OP r = true) →
  profile_ok (Some (text (final_lines 0 (position_text <$> ys) (place_text <$> ys)))) s.
Proof.
  intros Hys Hlen Hshort Hraw fn cur b ss. unfold Read. rewrite chunks_text, read_log_lines by done.
  injection 1 as _ <-. apply Forall_forall. intros i (x & -> & Hx)%list_elem_of_fmap.
  destruct (wanted_index _ _ _ _ _ Hx) as (k & y & Hk & Hp & E). intros r Hr.
  apply (Hraw k y r Hk Hp). by rewrite E, Z.add_0_l, Nat2Z.id in Hr.
Qed.

(** ** The walk ends *)

Section rounds.
Context (GetRegisterOperand : InstructionEntry → nat → option reg_entry) (write_ok : RacezRecord → bool) (f : Function_)
        (end_offset : option Z).

Lemma advance_S fuel table x c :
  advance f (S fuel) table x c =
  if (c_off c <? s_offset x) && negb (c_iter c =? EntryEnd f)%nat then
    c' ← step_entry f table (s_file x) c; match c' with None => mret None | Some c' => advance f fuel table x c' end
  else mret (Some c).
Proof. done. Qed.

Lemma skip_S fuel file c :
  skip_to_instruction f (S fuel) file c =
  (e ← deref (entries f !! c_iter c);
   match e with
   | Instruction insn => mret (c_iter c, insn)
   | _ => c_assert (bool_decide (c_file c = file)) ;;
          skip_to_instruction f fuel file (mkCur (c_off c) (S (c_iter c)) (c_file c))
   end).
Proof. done. Qed.

Lemma step_entry_iter table file c s c' s' :
  step_entry f table file c s = Ret (Some c') s' → c_iter c' = S (c_iter c) ∧ (S (c_iter c) < length (entries f))%nat.
Proof.
  unfold step_entry, UpdateSourceFile. intros (cur & s1 & (e & s2 & Ed & _)%bind_Ret_inv & E)%bind_Ret_inv.
  injection E as E _. case_bool_decide; [|done]. injection E as <-. split; [done|].
  destruct (entries f !! S (c_iter c)) eqn:Ee; [|done]. by eapply lookup_lt_Some.
Qed.

Lemma advance_more fuel fuel' table x c s :
  (length (entries f) ≤ c_iter c + fuel)%nat → (length (entries f) ≤ c_iter c + fuel')%nat →
  advance f (S fuel) table x c s = advance f (S fuel') table x c s.
Proof.
  revert fuel' c s. induction fuel as [|fuel IH]; intros fuel' c s Hf Hf'; rewrite !advance_S; destruct (_ && _); try done;
    unfold mbind, M_bind; (destruct (step_entry f table (s_file x) c s) as [[c'|] s'|] eqn:E; [|done..]);
    apply step_entry_iter in E as [E El]; [lia|]. destruct fuel' as [|fuel']; [lia|]. apply IH; lia.
Qed.

Lemma skip_more fuel fuel' file c s :
  (length (entries f) ≤ c_iter c + fuel)%nat → (length (entries f) ≤ c_iter c + fuel')%nat →
  skip_to_instruction f (S fuel) file c s = skip_to_instruction f (S fuel') file c s.
Proof.
  revert fuel' c s. induction fuel as [|fuel IH]; intros fuel' c s Hf Hf'; rewrite !skip_S;
    (destruct (entries f !! c_iter c) as [e|] eqn:Ee; [|done]); apply lookup_lt_Some in Ee; [lia|].
  destruct fuel' as [|fuel']; [lia|]. unfold mbind, M_bind, c_assert, deref, mret, M_ret.
  destruct e; try done; (case_bool_decide; [|done]); apply IH; cbn [c_iter]; lia.
Qed.

Lemma for_samples_more n m table ss c s :
  (length ss ≤ n)%nat → (length ss ≤ m)%nat →
  for_samples GetRegisterOperand write_ok f end_offset n table ss c s = for_samples GetRegisterOperand write_ok f end_offset m table ss c s.
Proof.
  revert m ss c s. induction n as [|n IH]; intros m [|x ss] c s Hn Hm; simpl in Hn, Hm; try lia; destruct m as [|m]; try lia; try done.
  cbn [for_samples]. unfold mbind, M_bind.
  destruct (advance f _ table x c s) as [[c1|] s1|]; [|done..].
  destruct (skip_to_instruction f _ (s_file x) c1 s1) as [[p insn] s2|]; [|done].
  destruct (same_offset _ _ f _ _ _ _ _ s2) as [rest s3|] eqn:Es; [|done]. apply same_offset_suffix in Es as [l El].
  destruct (step_entry _ _ _ _ s3) as [[c2|] s4|]; [|done..]. rewrite El, length_app.
  replace (length l + length rest - length rest)%nat with (length l) by lia. rewrite take_app_length.
  apply (f_equal length) in El. rewrite length_app in El. simpl in El.
  apply IH; destruct (decide (l = [])) as [->|Hl]; try lia; destruct l; simpl in *; try done; lia.
Qed.
End rounds.

(** Reading the profile has no loop but the one over its lines. *)
Lemma Read_ends profile fn cur ss ss' : Read profile fn cur ss ≠ Stop OutOfFuel ss'.
Proof.
  destruct profile as [tx|]; [|done]. unfold Read. generalize (chunks kBufferSizeIncrement tx). intros ls. revert ss.
  assert (Hline : ∀ line ss, (∃ l, parse_sample_line (S := list RacezInstructionSample) fn cur line ss = Ret l ss) ∨
                            parse_sample_line fn cur line ss = Stop Undefined ss).
  { intros line v. unfold parse_sample_line. repeat match goal with |- context [match ?x with _ => _ end] => destruct x end; eauto. }
  induction ls as [|[line eof] ls IH]; intros ss; [done|]. simpl. destruct (_ && _); [done|].
  unfold mbind, M_bind. destruct (Hline line ss) as [[[] ->]| ->]; [done|apply IH|apply IH|done].
Qed.

(** ** No loop runs out of rounds *)

(** The rounds given to the loops of [m] are enough. *)
Definition ends {A} (m : M sim A) : Prop := ∀ s s', m s ≠ Stop OutOfFuel s'.

Lemma ends_bind {A B} (m : M sim A) (k : A → M sim B) : ends m → (∀ a, ends (k a)) → ends (m ≫= k).
Proof.
  intros Hm Hk s s'. unfold mbind, M_bind. destruct (m s) as [a s1|x s1] eqn:E; [apply Hk|].
  intros [= -> ->]. by apply (Hm s s').
Qed.
Lemma ends_ret {A} (a : A) : ends (mret a).
Proof. by intros s s'. Qed.
Lemma ends_fail {A} x : x ≠ OutOfFuel → ends (fail (A := A) x).
Proof. intros Hx s s'. unfold fail. congruence. Qed.
Lemma ends_gets {A} (g : sim → A) : ends (gets g).
Proof. by intros s s'. Qed.
Lemma ends_get : ends get.
Proof. by intros s s'. Qed.
Lemma ends_modify g : ends (modify g).
Proof. by intros s s'. Qed.
Lemma ends_if {A} (b : bool) (m1 m2 : M sim A) : ends m1 → ends m2 → ends (if b then m1 else m2).
Proof. by destruct b. Qed.
Lemma ends_option {A B} (o : option A) (m : A → M sim B) n : (∀ a, ends (m a)) → ends n → ends (match o with Some a => m a | None => n end).
Proof. by destruct o. Qed.

Create HintDb ends.
#[export] Hint Resolve ends_bind ends_ret ends_fail ends_gets ends_get ends_modify ends_if ends_option : ends.
#[export] Hint Extern 1 (_ ≠ OutOfFuel) => discriminate : ends.

Ltac ends := auto 30 with ends.

Lemma ends_when b m : ends m → ends (when b m).
Proof. unfold when. ends. Qed.
Lemma ends_assert b : ends (c_assert b).
Proof. unfold c_assert. ends. Qed.
Lemma ends_deref {A} (o : option A) : ends (deref o).
Proof. unfold deref. ends. Qed.
Lemma ends_arr_get {A} (l : list A) i : ends (arr_get l i).
Proof. unfold arr_get. ends. Qed.
Lemma ends_arr_copy {A} n (l1 l2 : list A) : ends (arr_copy n l1 l2).
Proof. unfold arr_copy. ends. Qed.
#[export] Hint Resolve ends_when ends_assert ends_deref ends_arr_get ends_arr_copy : ends.

Lemma ends_raw_at index : ends (raw_at index).
Proof. unfold raw_at. ends. Qed.
#[export] Hint Resolve ends_raw_at : ends.

Lemma ends_get_value reg index d : ends (GetValueFromRegister reg index d).
Proof. unfold GetValueFromRegister. apply ends_bind; [ends|]. intros []; ends. Qed.
#[export] Hint Resolve ends_get_value : ends.

Lemma ends_compute_memory insn index k d : ends (ComputeMemory insn index k d).
Proof. unfold ComputeMemory, GetScaleValue. ends. Qed.
#[export] Hint Resolve ends_compute_memory : ends.

Section ending.
Context (GetRegisterOperand : InstructionEntry → nat → option reg_entry) (write_ok : RacezRecord → bool) (f : Function_)
        (end_offset : option Z).

Lemma ends_new_access index off d w a : ends (new_access write_ok index off d w a).
Proof. unfold new_access, sample_ip, write_new_record. ends. Qed.
Hint Resolve ends_new_access : ends.

Lemma ends_register_operand insn i : ends (register_operand GetRegisterOperand insn i).
Proof. unfold register_operand. ends. Qed.
Hint Resolve ends_register_operand : ends.

Lemma ends_pollute d r : ends (pollute d r).
Proof. unfold pollute. ends. Qed.
Hint Resolve ends_pollute : ends.

Lemma ends_compute_new insn index off d : ends (ComputeNewSampleWhole GetRegisterOperand write_ok insn index off d).
Proof. unfold ComputeNewSampleWhole. ends. Qed.

Lemma ends_update insn index : ends (UpdateMemory insn index).
Proof. unfold UpdateMemory. ends. Qed.

Lemma ends_execute p insn index : ends (ExecuteSimWhole GetRegisterOperand write_ok f p insn index).
Proof.
  assert (Hloop : ∀ q bb stop d qs, ends (sim_loop GetRegisterOperand write_ok f q bb stop index d qs)).
  { intros q bb stop d qs. induction qs as [|x qs IH]; simpl; [ends|]. pose proof ends_compute_new. ends. }
  unfold ExecuteSimWhole. ends.
Qed.

Lemma ends_source_file table p cur : ends (UpdateSourceFile f table p cur).
Proof. unfold UpdateSourceFile. apply ends_bind; [ends|]. intros [| |[n|]|]; ends. Qed.

Lemma ends_step table file c : ends (step_entry f table file c).
Proof. pose proof ends_source_file. unfold step_entry. ends. Qed.

(** From any position of the cursor there are as many rounds as entries behind it. *)
Lemma ends_advance fuel table x c : (length (entries f) ≤ c_iter c + fuel)%nat → ends (advance f (S fuel) table x c).
Proof.
  revert c. induction fuel as [|fuel IH]; intros c Hf s s'; rewrite advance_S; destruct (_ && _); try done;
    unfold mbind, M_bind; (destruct (step_entry f table (s_file x) c s) as [[c'|] s1|y s1] eqn:E; [|done|]);
    try (intros [= -> ->]; by apply (ends_step table (s_file x) c s s'));
    apply step_entry_iter in E as [E El]; [lia|]. apply IH. lia.
Qed.

Lemma ends_skip fuel file c : (length (entries f) ≤ c_iter c + fuel)%nat → ends (skip_to_instruction f (S fuel) file c).
Proof.
  revert c. induction fuel as [|fuel IH]; intros c Hf s s'; rewrite skip_S;
    (destruct (entries f !! c_iter c) as [e|] eqn:Ee; [|done]); apply lookup_lt_Some in Ee; [lia|].
  unfold mbind, M_bind, c_assert, deref, mret, M_ret.
  destruct e; try done; (case_bool_decide; [|done]); apply IH; cbn [c_iter]; lia.
Qed.

Lemma ends_same_offset p insn off ss : ends (same_offset GetRegisterOperand write_ok f end_offset p insn off ss).
Proof.
  pose proof ends_update. pose proof ends_execute. induction ss as [|x ss IH]; simpl; [destruct end_offset|]; ends.
Qed.

Lemma ends_for_samples fuel table ss c :
  (length ss ≤ fuel)%nat → ends (for_samples GetRegisterOperand write_ok f end_offset fuel table ss c).
Proof.
  revert ss c. induction fuel as [|fuel IH]; intros [|x ss] c Hn s s'; simpl in Hn; try lia; try done.
  cbn [for_samples]. unfold mbind, M_bind.
  destruct (advance f _ table x c s) as [[c1|] s1|y s1] eqn:E1; [|done|intros [= -> ->]; revert E1; apply ends_advance; lia].
  destruct (skip_to_instruction f _ (s_file x) c1 s1) as [[p insn] s2|y s2] eqn:E2;
    [|intros [= -> ->]; revert E2; apply ends_skip; lia].
  destruct (same_offset _ _ f _ _ _ _ _ s2) as [rest s3|y s3] eqn:E3; [|intros [= -> ->]; revert E3; apply ends_same_offset].
  apply same_offset_suffix in E3 as [l El].
  destruct (step_entry _ _ _ _ s3) as [[c2|] s4|y s4] eqn:E4; [|done|intros [= -> ->]; revert E4; apply ends_step].
  apply (f_equal length) in El. rewrite length_app in El. simpl in El. apply IH. destruct (decide _) as [E|E]; [lia|].
  destruct l; simpl in *; [|lia]. destruct E. by replace (S (length ss) - length rest)%nat with 0%nat by lia.
Qed.
End ending.

Lemma ends_Go GetRegisterOperand write_ok f end_offset cwd profile : ends (Go GetRegisterOperand write_ok f end_offset cwd profile).
Proof.
  unfold Go. apply ends_bind; [|intros table; apply ends_bind; [auto with ends|intros cur]].
  - generalize [EmptyString]. induction (unit_entries f) as [|[] es IH]; intros t; simpl; try apply IH; [apply ends_ret|].
    apply ends_bind; [unfold add_file; ends|done].
  - destruct (Read profile (fn_name f) cur []) as [[] ss|y ss] eqn:E; [|auto with ends|].
    + destruct (sort_samples ss) as [|x l]; [auto with ends|]. apply ends_bind; [apply ends_source_file|].
      intros file. by apply ends_for_samples.
    + apply ends_fail. intros ->. revert E. apply Read_ends.
Qed.

(** C32: the loops of [Go] end.  A run never stops because a loop has had all the rounds the
    model gives it: not the walk to the entry of a sample, not the search for an
    instruction (from every position of the cursor, with as many rounds as there are
    entries and two), not the loop over the samples (with as many rounds as samples), and
    so not [Go] itself, whatever the function, the profile and the state are; and with
    more rounds the outcome of a loop is the same. *)
Theorem Go_rounds_suffice GetRegisterOperand write_ok f end_offset table s c :
  (∀ fuel x s', (entry_fuel f ≤ fuel)%nat →
     advance f fuel table x c s ≠ Stop OutOfFuel s' ∧ advance f fuel table x c s = advance f (entry_fuel f) table x c s) ∧
  (∀ fuel file s', (entry_fuel f ≤ fuel)%nat →
     skip_to_instruction f fuel file c s ≠ Stop OutOfFuel s' ∧
     skip_to_instruction f fuel file c s = skip_to_instruction f (entry_fuel f) file c s) ∧
  (∀ fuel ss s', (length ss ≤ fuel)%nat →
     for_samples GetRegisterOperand write_ok f end_offset fuel table ss c s ≠ Stop OutOfFuel s' ∧
     for_samples GetRegisterOperand write_ok f end_offset fuel table ss c s =
       for_samples GetRegisterOperand write_ok f end_offset (length ss) table ss c s) ∧
  (∀ cwd profile s', Go GetRegisterOperand write_ok f end_offset cwd profile s ≠ Stop OutOfFuel s').
Proof.
  unfold entry_fuel. split; [|split; [|split]].
  - intros [|fuel] x s' Hf; [lia|]. split; [apply ends_advance; lia|apply advance_more; lia].
  - intros [|fuel] file s' Hf; [lia|]. split; [apply ends_skip; lia|apply skip_more; lia].
  - intros fuel ss s' Hf. split; [by apply ends_for_samples|by apply for_samples_more].
  - intros cwd profile. apply ends_Go.
Qed.

Lemma Go_rounds_suffice_witness :
  skip_to_instruction (demo_block demo_insns) 100 "/a.c" (mkCur 0 0 "/a.c") demo_sim ≠ Stop OutOfFuel demo_sim ∧
  skip_to_instruction (demo_block demo_insns) 100 "/a.c" (mkCur 0 0 "/a.c") demo_sim =
  skip_to_instruction (demo_block demo_insns) (entry_fuel (demo_block demo_insns)) "/a.c" (mkCur 0 0 "/a.c") demo_sim.
Proof.
  apply (Go_rounds_suffice demo_register_operand (λ _, true) (demo_block demo_insns) (Some 0) [EmptyString; "/a.c"] demo_sim (mkCur 0 0 "/a.c")).
  apply Nat.leb_le. vm_compute. reflexivity.
Defined.
