(* ===== verification/SimGo.v ===== *)
(** * Which instruction a sample belongs to

    [InstructSimPass::Go] walks over the entries of a function and over the sorted samples
    at once, adding up sizes.  The reference is direct: a sample belongs to the
    instruction whose offset in the function is the sample's.  For a function whose code
    is in one source file and whose samples are at instructions, the walk handles every
    sample with its instruction. *)

From S2P Require Import Prelude.
From S2P Require Import Records.
From S2P Require Import Text.
From S2P Require Import SampleReader.
From S2P Require Import AddrSim.
From S2P Require Import AddrSimSpec.
From S2P Require Import SimPipeline.
From stdpp Require Import base list sets sorting strings.

Open Scope Z_scope.

(** ** The reference *)

(** The bytes from the start of the function to entry [p]. *)
Definition code_offset (f : Function_) (p : nat) : Z :=
  foldr (λ q acc, sizes f q + acc) 0 (seq (EntryBegin f) (p - EntryBegin f)).

(** The instruction at an offset. *)
Definition instruction_at_offset (f : Function_) (offset : Z) : option (nat * InstructionEntry) :=
  head (omap (λ p, insn ← instruction_at f p; if decide (code_offset f p = offset) then Some (p, insn) else None)
             (seq (EntryBegin f) (EntryEnd f - EntryBegin f))).

Section reference.
Context (GetRegisterOperand : InstructionEntry → nat → option reg_entry).
Context (write_ok : RacezRecord → bool).
Context (f : Function_).

(** The address of the sampled access, and the accesses around it. *)
Definition simulate_sample (p : nat) (insn : InstructionEntry) (x : RacezInstructionSample) : M sim unit :=
  UpdateMemory insn (s_index x) ;; ExecuteSimWhole GetRegisterOperand write_ok f p insn (s_index x).

Definition attribute (x : RacezInstructionSample) : M sim unit :=
  match instruction_at_offset f (s_offset x) with
  | Some (p, insn) => simulate_sample p insn x
  | None => mret tt
  end.
End reference.

(** The end of a walk over the samples [ss].  The loop over the samples of the last
    instruction reads an offset through the end of the list; where that read does not stop
    the program, it has no effect and success is reported. *)
Definition finish (end_offset : option Z) (ss : list RacezInstructionSample) : M sim bool :=
  match ss, end_offset with
  | [], _ | _, Some _ => mret true
  | _, None => fail Undefined
  end.

(** ** Functions in one file *)

(** Only instructions take room, every [.loc] names the same file, and the entry behind
    the function exists. *)
Record one_file (f : Function_) (file_table : list string) (file : string) : Prop := {
  of_insn : ∀ p insn, instruction_at f p = Some insn → 0 < sizes f p;
  of_other : ∀ p, instruction_at f p = None → sizes f p = 0;
  of_loc : ∀ p n, entries f !! p = Some (LocDirective n) →
             ∃ k, n = Some k ∧ 0 ≤ k ∧ file_table !! Z.to_nat k = Some file;
  of_end : (EntryBegin f ≤ EntryEnd f < length (entries f))%nat
}.

(** The sample is at an instruction of the function. *)
Definition on_instruction (f : Function_) (file : string) (x : RacezInstructionSample) : Prop :=
  s_file x = file ∧
  ∃ p insn, (EntryBegin f ≤ p < EntryEnd f)%nat ∧ instruction_at f p = Some insn ∧ s_offset x = code_offset f p.

Section walk.
Context (f : Function_) (file_table : list string) (file : string).
Context (Hf : one_file f file_table file).

Lemma sizes_nonneg p : 0 ≤ sizes f p.
Proof.
  destruct (instruction_at f p) eqn:E; [by apply Z.lt_le_incl, (of_insn _ _ _ Hf p _ E)|].
  by rewrite (of_other _ _ _ Hf p E).
Qed.

Lemma code_offset_S p : (EntryBegin f ≤ p)%nat → code_offset f (S p) = code_offset f p + sizes f p.
Proof.
  intros Hp. unfold code_offset. replace (S p - EntryBegin f)%nat with (S (p - EntryBegin f)) by lia.
  rewrite seq_S, foldr_app. replace (EntryBegin f + (p - EntryBegin f))%nat with p by lia. simpl.
  generalize (seq (EntryBegin f) (p - EntryBegin f)). intros l. induction l as [|q l IH]; simpl; lia.
Qed.

Lemma code_offset_mono p q : (EntryBegin f ≤ p ≤ q)%nat → code_offset f p ≤ code_offset f q.
Proof.
  intros [Hp Hq]. induction Hq as [|q Hq IH]; [done|].
  rewrite code_offset_S by lia. pose proof (sizes_nonneg q). lia.
Qed.

(** Two instructions have different offsets. *)
Lemma code_offset_insn p q insn : (EntryBegin f ≤ p < q)%nat → instruction_at f p = Some insn →
  code_offset f p < code_offset f q.
Proof.
  intros Hpq Hi. pose proof (of_insn _ _ _ Hf p insn Hi).
  pose proof (code_offset_mono (S p) q ltac:(lia)). rewrite code_offset_S in * by lia. lia.
Qed.

Lemma instruction_at_offset_spec p insn : (EntryBegin f ≤ p < EntryEnd f)%nat → instruction_at f p = Some insn →
  instruction_at_offset f (code_offset f p) = Some (p, insn).
Proof.
  intros Hp Hi. unfold instruction_at_offset.
  replace (EntryEnd f - EntryBegin f)%nat with ((p - EntryBegin f) + S (EntryEnd f - S p))%nat by lia.
  rewrite seq_app, omap_app.
  replace (omap _ (seq (EntryBegin f) (p - EntryBegin f))) with ([] : list (nat * InstructionEntry)).
  - replace (EntryBegin f + (p - EntryBegin f))%nat with p by lia. simpl. rewrite Hi. simpl.
    by rewrite decide_True.
  - symmetry. assert (∀ q, q ∈ seq (EntryBegin f) (p - EntryBegin f) → (EntryBegin f ≤ q < p)%nat) as Hq
      by (intros q ?%elem_of_seq; lia).
    induction (seq (EntryBegin f) (p - EntryBegin f)) as [|q l IH]; [done|]. simpl.
    destruct (instruction_at f q) as [i|] eqn:Ei; simpl.
    + rewrite decide_False; [apply IH; set_solver|].
      pose proof (code_offset_insn q p i (Hq q ltac:(set_solver)) Ei). lia.
    + apply IH. set_solver.
Qed.

Lemma UpdateSourceFile_same p s : (p < length (entries f))%nat → UpdateSourceFile f file_table p file s = Ret file s.
Proof.
  intros Hp. unfold UpdateSourceFile. destruct (lookup_lt_is_Some_2 _ _ Hp) as [e He]. rewrite He. run_m.
  destruct e as [| |n|]; try done. destruct (of_loc _ _ _ Hf p n He) as (k & -> & Hk & Ek).
  destruct (Z.ltb_spec k 0); [lia|]. by rewrite Ek.
Qed.

Lemma step_entry_same o p s : (S p < length (entries f))%nat →
  step_entry f file_table file (mkCur o p file) s = Ret (Some (mkCur (o + sizes f p) (S p) file)) s.
Proof. intros Hp. unfold step_entry. run_m. rewrite UpdateSourceFile_same by done. by rewrite bool_decide_eq_true_2. Qed.

(** The first loop stops at the offset of the sample. *)
Lemma advance_to n fuel x p q s :
  (q - p = n)%nat → (n < fuel)%nat → (EntryBegin f ≤ p ≤ q)%nat → (q < EntryEnd f)%nat →
  s_file x = file → s_offset x = code_offset f q →
  ∃ r, (p ≤ r ≤ q)%nat ∧ code_offset f r = code_offset f q ∧
    advance f fuel file_table x (mkCur (code_offset f p) p file) s = Ret (Some (mkCur (code_offset f r) r file)) s.
Proof.
  intros Hn Hfuel Hp Hq Hx Ho. revert p fuel Hn Hfuel Hp. pose proof (of_end _ _ _ Hf) as He.
  induction n as [|n IH]; intros p fuel Hn Hfuel Hp; (destruct fuel as [|fuel]; [lia|]); cbn [advance]; rewrite Ho; simpl.
  - assert (p = q) as -> by lia. rewrite Z.ltb_irrefl. by exists q.
  - destruct (Z.ltb_spec (code_offset f p) (code_offset f q)) as [Hlt|Hge]; cycle 1.
    { exists p. pose proof (code_offset_mono p q Hp). split; [lia|]. split; [lia|done]. }
    destruct (Nat.eqb_spec p (EntryEnd f)); [lia|]. simpl. run_m. rewrite Hx, step_entry_same by lia.
    rewrite <- code_offset_S by lia.
    destruct (IH (S p) fuel ltac:(lia) ltac:(lia) ltac:(lia)) as (r & Hr & Er & E). exists r. split; [lia|done].
Qed.

(** The second one finds the instruction there. *)
Lemma skip_to n fuel o p q insn s :
  (q - p = n)%nat → (n < fuel)%nat → (EntryBegin f ≤ p ≤ q)%nat → (q < EntryEnd f)%nat →
  instruction_at f q = Some insn → code_offset f p = code_offset f q →
  skip_to_instruction f fuel file (mkCur o p file) s = Ret (q, insn) s.
Proof.
  intros Hn Hfuel Hp Hq Hi Ho. revert p fuel Hn Hfuel Hp Ho. pose proof (of_end _ _ _ Hf) as He.
  induction n as [|n IH]; intros p fuel Hn Hfuel Hp Ho; (destruct fuel as [|fuel]; [lia|]); cbn [skip_to_instruction]; simpl.
  - assert (p = q) as -> by lia. unfold instruction_at in Hi. destruct (entries f !! q) as [[]|]; simplify_eq. done.
  - destruct (lookup_lt_is_Some_2 (entries f) p) as [e Hep]; [lia|]. rewrite Hep. run_m.
    assert (instruction_at f p = None) as Hnone.
    { destruct (instruction_at f p) as [i|] eqn:E; [|done]. pose proof (code_offset_insn p q i ltac:(lia) E). lia. }
    assert (code_offset f (S p) = code_offset f q) by (rewrite code_offset_S, (of_other _ _ _ Hf p Hnone) by lia; lia).
    unfold instruction_at in Hnone. rewrite Hep in Hnone.
    destruct e; [done|..]; rewrite bool_decide_eq_true_2 by done; run_m; apply IH; done || lia.
Qed.
End walk.

Section samples.
Context (GetRegisterOperand : InstructionEntry → nat → option reg_entry).
Context (write_ok : RacezRecord → bool).
Context (f : Function_) (end_offset : option Z) (file_table : list string) (file : string).
Context (Hf : one_file f file_table file).

Abbreviation simulate := (simulate_sample GetRegisterOperand write_ok f).

(** The samples of one instruction. *)
Lemma same_offset_spec p insn o same rest s :
  Forall (λ x, s_offset x = o) same → Forall (λ x, s_offset x ≠ o) rest →
  same_offset GetRegisterOperand write_ok f end_offset p insn o (same ++ rest) s =
  (for_each same (simulate p insn) ;;
   match rest, end_offset with [], None => fail Undefined | _, _ => mret rest end) s.
Proof.
  intros Hs Hr. revert s. induction Hs as [|x same Hx _ IH]; intros s; simpl.
  - destruct Hr as [|x rest Hx _]; [by destruct end_offset|]. cbn [same_offset]. by destruct (Z.eqb_spec o (s_offset x)).
  - rewrite Hx, Z.eqb_refl. unfold simulate_sample. run_m. destruct (UpdateMemory insn (s_index x) s) as [[] s1|]; [|done].
    destruct (ExecuteSimWhole _ _ _ _ _ _ s1) as [[] s2|]; [|done]. rewrite IH. run_m. done.
Qed.

(** Sorted samples, split at an offset. *)
Definition offset_le (x y : RacezInstructionSample) : Prop := s_offset x ≤ s_offset y.

Lemma split_offset o ss : StronglySorted offset_le ss → Forall (λ x, o ≤ s_offset x) ss →
  ∃ same rest, ss = same ++ rest ∧ Forall (λ x, s_offset x = o) same ∧ Forall (λ x, o < s_offset x) rest ∧
    StronglySorted offset_le rest.
Proof.
  induction 1 as [|x ss Hs IH Hx]; intros Ho; [exists [], []; by repeat constructor|]. apply Forall_cons in Ho as [Hox Ho].
  destruct (decide (s_offset x = o)) as [E|E].
  - destruct (IH Ho) as (same & rest & -> & H1 & H2 & H3). exists (x :: same), rest. auto.
  - exists [], (x :: ss). split; [done|]. split; [done|]. split; [|by constructor].
    constructor; [lia|]. eapply Forall_impl; [exact Hx|]. unfold offset_le. intros; lia.
Qed.

(** All samples, from a cursor that has not passed the next one. *)
Lemma for_samples_spec fuel p ss s :
  (length ss ≤ fuel)%nat → (EntryBegin f ≤ p)%nat → StronglySorted offset_le ss → Forall (on_instruction f file) ss →
  Forall (λ x, code_offset f p ≤ s_offset x) ss →
  for_samples GetRegisterOperand write_ok f end_offset fuel file_table ss (mkCur (code_offset f p) p file) s =
  (for_each ss (attribute GetRegisterOperand write_ok f) ;; finish end_offset ss) s.
Proof.
  revert p ss s. induction fuel as [|fuel IH]; intros p ss s Hfuel Hp Hsort Hon Hge;
    (destruct ss as [|x ss']; [done|]); [simpl in Hfuel; lia|].
  pose proof (of_end _ _ _ Hf) as He.
  destruct (Forall_cons_1 _ _ _ Hon) as [[Hx (q & insn & Hq & Hi & Ho)] _].
  assert (p ≤ q)%nat as Hpq.
  { apply Forall_cons in Hge as [Hge _]. destruct (decide (p ≤ q)%nat); [done|exfalso].
    pose proof (code_offset_insn f file_table file Hf q p insn ltac:(lia) Hi). lia. }
  cbn [for_samples]. unfold entry_fuel.
  destruct (advance_to f file_table file Hf (q - p) (S (S (length (entries f)))) x p q s) as (r & Hr & Er & E);
    [lia|lia|lia|lia|done|done|].
  rewrite (bind_Ret _ _ _ _ _ E), Hx.
  rewrite (bind_Ret _ _ _ _ _ (skip_to f file_table file Hf (q - r) (S (S (length (entries f)))) (code_offset f r) r q insn s ltac:(lia) ltac:(lia) ltac:(lia) ltac:(lia) Hi Er)).
  cbn [c_off c_file fst snd]. rewrite Er, <- Ho.
  destruct (split_offset (s_offset x) (x :: ss') Hsort) as (same & rest & Ess & Hsame & Hrest & Hsort').
  { constructor; [lia|]. apply StronglySorted_inv in Hsort as [_ Hall]. exact Hall. }
  destruct same as [|y same].
  { simpl in Ess. rewrite <- Ess in Hrest. apply Forall_cons in Hrest as [? _]. lia. }
  injection Ess as Ey Ess. subst y ss'. change (x :: same ++ rest) with ((x :: same) ++ rest) in *.
  apply Forall_app in Hon as [Hons Honr].
  rewrite (bind_eq _ _ _ _ (same_offset_spec q insn (s_offset x) (x :: same) rest s Hsame
             (Forall_impl _ _ _ Hrest (λ y H, not_eq_sym (Z.lt_neq _ _ H))))).
  rewrite (bind_eq (for_each ((x :: same) ++ rest) _) _ _ s (for_each_app (x :: same) rest _ s)), !bind_assoc.
  rewrite (bind_eq (for_each (x :: same) (attribute _ _ _)) (for_each (x :: same) (simulate q insn))); cycle 1.
  { apply for_each_ext. intros z t Hz. unfold attribute. rewrite (proj1 (Forall_forall _ _) Hsame z Hz), Ho.
    by rewrite (instruction_at_offset_spec f file_table file Hf q insn Hq Hi). }
  apply bind_ext. intros [] t.
  assert (Hend : (rest = [] ∧ end_offset = None) ∨
                 (match rest, end_offset with [], None => fail Undefined | _, _ => mret rest end : M sim _) = mret rest ∧
                 finish end_offset ((x :: same) ++ rest) = finish end_offset rest).
  { destruct rest, end_offset; auto. }
  destruct Hend as [[-> ->]|[-> ->]]; [done|]. rewrite (bind_Ret (mret rest) _ t rest t eq_refl). cbv zeta.
  replace (length ((x :: same) ++ rest) - length rest)%nat with (length (x :: same)) by (rewrite length_app; lia).
  rewrite take_app_length.
  assert (s_file (default x (list.last (x :: same))) = file) as Hfl.
  { destruct (list.last (x :: same)) as [z|] eqn:El; [|done]. apply last_Some_elem_of in El.
    by destruct (proj1 (Forall_forall _ _) Hons z El). }
  rewrite Hfl, (bind_Ret _ _ _ _ _ (step_entry_same f file_table file Hf (s_offset x) q t ltac:(lia))).
  rewrite decide_False by done.
  rewrite Ho, <- (code_offset_S f q) by lia.
  apply IH; [rewrite length_app in Hfuel; simpl in Hfuel; lia|lia|done|done|].
  apply Forall_forall. intros z Hz. destruct (proj1 (Forall_forall _ _) Honr z Hz) as [_ (q' & i' & Hq' & Hi' & Hz')].
  rewrite Hz'. apply (code_offset_mono f file_table file Hf).
  pose proof (proj1 (Forall_forall _ _) Hrest z Hz) as Hgt. simpl in Hgt. rewrite Hz', Ho in Hgt.
  destruct (decide (S q ≤ q')%nat); [lia|exfalso].
  pose proof (code_offset_mono f file_table file Hf q' q ltac:(lia)). lia.
Qed.

(** ** Sorting *)

Lemma insert_sample_sorted x l : StronglySorted offset_le l → StronglySorted offset_le (insert_sample x l).
Proof.
  induction 1 as [|y l Hs IH Hy]; simpl; [by repeat constructor|].
  destruct (Z.ltb_spec (s_offset y) (s_offset x)).
  - constructor; [done|]. rewrite insert_sample_perm. constructor; [unfold offset_le; lia|done].
  - constructor; [by constructor|]. constructor; [done|]. eapply Forall_impl; [exact Hy|].
    unfold offset_le. intros; lia.
Qed.

Lemma sort_samples_sorted l : StronglySorted offset_le (sort_samples l).
Proof. induction l as [|x l IH]; simpl; [constructor|]. by apply insert_sample_sorted. Qed.
End samples.

(** ** The property *)

(** What [Go] does with a function in one file whose samples are at instructions. *)
Lemma Go_spec (GetRegisterOperand : InstructionEntry → nat → option reg_entry) (write_ok : RacezRecord → bool)
    f end_offset cwd profile file_table file samples s :
  BuildFileTable cwd [EmptyString] (unit_entries f) s = Ret file_table s → file_table !! 1%nat = Some file →
  one_file f file_table file → Read profile (fn_name f) file [] = Ret true samples →
  Forall (on_instruction f file) samples →
  Go GetRegisterOperand write_ok f end_offset cwd profile s =
  (for_each (sort_samples samples) (attribute GetRegisterOperand write_ok f) ;; finish end_offset (sort_samples samples)) s.
Proof.
  intros Ht Hfile Hf Hread Hon.
  unfold Go. rewrite (bind_Ret _ _ _ _ _ Ht).
  rewrite (bind_Ret _ _ _ _ _ (arr_get_Some file_table 1 file s ltac:(lia) Hfile)), Hread.
  pose proof (sort_samples_sorted samples) as Hsort. rewrite <- (sort_samples_perm samples) in Hon.
  destruct (sort_samples samples) as [|x ss]; [done|]. pose proof (of_end _ _ _ Hf).
  rewrite (bind_Ret _ _ _ _ _ (UpdateSourceFile_same f file_table file Hf (EntryBegin f) s ltac:(lia))).
  assert (code_offset f (EntryBegin f) = 0) as E0 by (unfold code_offset; by rewrite Nat.sub_diag).
  rewrite <- E0. apply (for_samples_spec GetRegisterOperand write_ok f end_offset file_table file Hf); try done.
  eapply Forall_impl; [exact Hon|]. intros y [_ (p & insn & Hp & _ & ->)].
  apply (code_offset_mono f file_table file Hf). lia.
Qed.

(** C17: every sample is simulated at its instruction.  Take a function whose entries are
    all from the first source file, in which only instructions take room, and whose
    samples are at instructions of the function.  The walk of [Go] over entries and
    samples then does what the reference does: in the order of their offsets it computes,
    for every sample read, the address of the instruction at the sample's offset and
    simulates the instructions around it, once.  When there is a sample it then reads an
    offset through the end of the list of samples, which C++ leaves undefined: it reports
    success where that read yields some value, whichever it is, and stops there where the
    read stops the program. *)
Theorem Go_attributes_samples (GetRegisterOperand : InstructionEntry → nat → option reg_entry) (write_ok : RacezRecord → bool)
    f end_offset cwd profile file_table file samples s :
  BuildFileTable cwd [EmptyString] (unit_entries f) s = Ret file_table s → file_table !! 1%nat = Some file →
  one_file f file_table file → Read profile (fn_name f) file [] = Ret true samples →
  Forall (on_instruction f file) samples →
  sort_samples samples ≡ₚ samples ∧ StronglySorted offset_le (sort_samples samples) ∧
  Go GetRegisterOperand write_ok f end_offset cwd profile s =
  (for_each (sort_samples samples) (attribute GetRegisterOperand write_ok f) ;;
   (if decide (samples = []) then mret true else match end_offset with Some _ => mret true | None => fail Undefined end)) s.
Proof.
  intros Ht Hfile Hf Hread Hon. split; [apply sort_samples_perm|]. split; [apply sort_samples_sorted|].
  rewrite (Go_spec _ _ _ _ _ _ file_table file samples) by done. f_equal. unfold finish.
  pose proof (sort_samples_perm samples) as Hp. destruct (decide (samples = [])) as [->|Hne]; [done|].
  destruct (sort_samples samples); [|done]. by apply Permutation_nil in Hp.
Qed.

(** Three loads of four bytes behind a label, before the label of the next function. *)
Definition demo_go : Function_ :=
  mkFun "foo" [FileDirective 1 "'a.c'"]
    [OtherEntry; Instruction (load NoDisp (Some "rax") None 0 "rcx"); LocDirective (Some 1);
     Instruction (load NoDisp (Some "rbx") None 0 "rcx"); OtherEntry]
    (λ p, if (p =? 0)%nat then None else Some 1) (λ _, 0%nat) (λ _, 3%nat)
    (λ p, if (p =? 1)%nat then 4 else if (p =? 3)%nat then 4 else 0) (λ p, if (p <? 2)%nat then 0 else 4) 0 4.

(** Samples 1 at the second load and 1 again at the first. *)
Definition demo_profile : string :=
  "1" +:+ tb +:+ "/a.c:11" +:+ tb +:+ "foo" +:+ tb +:+ "4" +:+ nl +:+
  "1" +:+ tb +:+ "/a.c:10" +:+ tb +:+ "foo" +:+ tb +:+ "0" +:+ nl.

Lemma demo_go_one_file : one_file demo_go [EmptyString; "/a.c"] "/a.c".
Proof.
  split.
  - intros [|[|[|[|[|p]]]]] insn; simpl; try done; unfold instruction_at; simpl; by rewrite ?lookup_nil.
  - by intros [|[|[|[|[|p]]]]].
  - intros [|[|[|[|[|p]]]]] n; simpl; try done. intros [= <-]. by exists 1.
  - simpl. lia.
Qed.

Lemma demo_samples_on : Forall (on_instruction demo_go "/a.c") [mkSample_ 1 "/a.c" 4 0; mkSample_ 1 "/a.c" 0 0].
Proof.
  constructor; [|constructor; [|constructor]]; (split; [reflexivity|]).
  - eexists 3%nat, _. split; [simpl; lia|]. split; reflexivity.
  - eexists 1%nat, _. split; [simpl; lia|]. split; reflexivity.
Qed.

Lemma Go_attributes_samples_witness :
  Go demo_register_operand (λ _, true) demo_go (Some 0) EmptyString (Some demo_profile) demo_sim =
  (for_each [mkSample_ 1 "/a.c" 0 0; mkSample_ 1 "/a.c" 4 0] (attribute demo_register_operand (λ _, true) demo_go) ;;
   mret true) demo_sim ∧
  Go demo_register_operand (λ _, true) demo_go None EmptyString (Some demo_profile) demo_sim =
  (for_each [mkSample_ 1 "/a.c" 0 0; mkSample_ 1 "/a.c" 4 0] (attribute demo_register_operand (λ _, true) demo_go) ;;
   fail Undefined) demo_sim.
Proof.
  split.
  - apply (Go_attributes_samples demo_register_operand (λ _, true) demo_go (Some 0) EmptyString (Some demo_profile)
              [EmptyString; "/a.c"] "/a.c" [mkSample_ 1 "/a.c" 4 0; mkSample_ 1 "/a.c" 0 0] demo_sim);
      [reflexivity|reflexivity|apply demo_go_one_file|vm_compute; reflexivity|apply demo_samples_on].
  - apply (Go_attributes_samples demo_register_operand (λ _, true) demo_go None EmptyString (Some demo_profile)
              [EmptyString; "/a.c"] "/a.c" [mkSample_ 1 "/a.c" 4 0; mkSample_ 1 "/a.c" 0 0] demo_sim);
      [reflexivity|reflexivity|apply demo_go_one_file|vm_compute; reflexivity|apply demo_samples_on].
Defined.

(** A sample inside an instruction, which no instruction starts at: the walk goes past the
    following one, and for the sample there it searches an instruction behind the end of
    the function. *)
Example sample_inside_instruction_runs_off :
  ∃ s, Go demo_register_operand (λ _, true) demo_go (Some 0) EmptyString
    (Some ("1" +:+ tb +:+ "/a.c:10" +:+ tb +:+ "foo" +:+ tb +:+ "2" +:+ nl +:+
           "1" +:+ tb +:+ "/a.c:11" +:+ tb +:+ "foo" +:+ tb +:+ "4" +:+ nl)) demo_sim = Stop NullDeref s.
Proof. eexists. vm_compute. reflexivity. Qed.
