(* ===== verification/SimDetect.v ===== *)
(** * The simulated log in the detector

    The whole of the second stage: [InstructSimPass::Go] over the functions of a program,
    then the detector on the two files it leaves.  The pass returns on a program it can
    analyse, and whenever it returns, the detector's run on its files is the
    specification's. *)

From S2P Require Import Prelude.
From S2P Require Import Records.
From S2P Require Import Text.
From S2P Require Import DetectCore.
From S2P Require Import Detect.
From S2P Require Import DetectSpec.
From S2P Require Import Convert.
From S2P Require Import ConvertSpec.
From S2P Require Import SampleReader.
From S2P Require Import AddrSim.
From S2P Require Import AddrSimSpec.
From S2P Require Import SimPipeline.
From S2P Require Import SimGo.
From stdpp Require Import base gmap list sets sorting strings.

Open Scope Z_scope.

(** ** The pass returns *)

(** The records with the indices [is_] are in the log and their locks fit. *)
Definition ready (is_ : list Z) (s : sim) : Prop := ∀ i, i ∈ is_ → ∃ r, seed s i r.

Abbreviation returns is_ m := (⦃ ready is_ ⦄ m ⦃ λ _, ready is_ ⦄).

Section closure.
Context (is_ : list Z).

Lemma rt_bind {A B} (m : M sim A) (k : A → M sim B) : returns is_ m → (∀ a, returns is_ (k a)) → returns is_ (m ≫= k).
Proof. apply triple_bind. Qed.
Lemma rt_ret {A} (a : A) : returns is_ (mret a).
Proof. intros s Hs. by exists a, s. Qed.
Lemma rt_get : returns is_ get.
Proof. intros s Hs. by exists s, s. Qed.
Lemma rt_gets {A} (g : sim → A) : returns is_ (gets g).
Proof. intros s Hs. by eexists _, s. Qed.
Lemma rt_modify g : (∀ s, raw_record_ (g s) = raw_record_ s) → returns is_ (modify g).
Proof.
  intros Hg s Hs. exists tt, (g s). split; [done|]. intros i Hi. destruct (Hs i Hi) as [r Hr].
  exists r. eapply seed_raw; [apply Hg|done].
Qed.
Lemma rt_if {A} (b : bool) (m1 m2 : M sim A) : returns is_ m1 → returns is_ m2 → returns is_ (if b then m1 else m2).
Proof. by destruct b. Qed.
Lemma rt_when b m : returns is_ m → returns is_ (when b m).
Proof. intros. unfold when. apply rt_if; [done|apply rt_ret]. Qed.

Lemma rt_set_reg_map d m : returns is_ (modify (set_reg_map d m)).
Proof. apply rt_modify. intros s. apply raw_set_reg_map. Qed.
Lemma rt_pollute d r : returns is_ (pollute d r).
Proof. apply rt_modify. intros s. apply raw_set_reg_map. Qed.
End closure.

#[export] Hint Resolve rt_bind rt_ret rt_get rt_gets rt_if rt_when rt_set_reg_map rt_pollute : racez.

Section instruction.
Context (GetRegisterOperand : InstructionEntry → nat → option reg_entry) (write_ok : RacezRecord → bool).
Context (is_ : list Z) (index : Z) (Hin : index ∈ is_).

(** Reading the sampled record. *)
Lemma rt_raw_at {B} (k : RacezRecord → M sim B) :
  (∀ r, lock_count_ (op_ r) ≤ 10 → length (lockset_ (op_ r)) = 10%nat → returns is_ (k r)) → returns is_ (r ← raw_at index; k r).
Proof.
  intros Hk s Hs. destruct (Hs index Hin) as [r Hr]. rewrite (bind_Ret _ _ _ _ _ (raw_at_ok _ _ _ Hr)).
  by apply Hk; [apply Hr..|].
Qed.

Lemma rt_get_value reg d : returns is_ (GetValueFromRegister reg index d).
Proof.
  unfold GetValueFromRegister. apply rt_bind; [auto with racez|]. intros []; [apply rt_ret|].
  destruct (sample_field reg); [|apply rt_ret]. apply rt_raw_at. auto with racez.
Qed.
Hint Resolve rt_get_value : racez.

Lemma rt_compute_memory insn k d : (GetLog2ScaleFactor insn ≤ 3)%nat → returns is_ (ComputeMemory insn index k d).
Proof.
  intros Hsc. unfold ComputeMemory. apply rt_bind.
  - intros s Hs. eexists _, s. by rewrite GetScaleValue_ok.
  - intros sc. destruct (GetIndexRegister insn); auto 10 with racez.
Qed.

Lemma rt_new_access off d w a : returns is_ (new_access write_ok index off d w a).
Proof.
  unfold new_access, sample_ip. apply rt_if; [apply rt_ret|]. apply rt_bind; [apply rt_raw_at; auto with racez|].
  intros sip. unfold write_new_record. apply rt_raw_at. intros r Hn Hl s Hs.
  erewrite bind_Ret by (apply arr_copy_ok; simpl; lia).
  apply rt_when; [|done]. by apply rt_modify.
Qed.
Hint Resolve rt_new_access : racez.

Lemma rt_register_operand insn : is_Some (GetRegisterOperand insn 1) → returns is_ (register_operand GetRegisterOperand insn 1).
Proof. intros [x Hx]. unfold register_operand. rewrite Hx. apply rt_ret. Qed.

Lemma rt_compute_new insn off d : insn_ok GetRegisterOperand insn →
  returns is_ (ComputeNewSampleWhole GetRegisterOperand write_ok insn index off d).
Proof.
  intros (Hsc & Hops & Hans). unfold ComputeNewSampleWhole. apply rt_if; [apply rt_ret|]. fold (is_arith insn).
  destruct (is_arith insn) eqn:Ha; [|apply rt_ret]. destruct (Hops eq_refl) as [-> Hreg].
  pose proof (rt_compute_memory insn) as Hcm. unfold has_dest in Hans. rewrite Ha in Hans.
  apply rt_bind; [apply rt_ret|]. intros _. apply rt_bind; [|auto with racez].
  destruct (IsMemOperand insn 0) eqn:H0; [|destruct (IsMemOperand insn 1) eqn:H1].
  - pose proof (rt_register_operand insn (Hans eq_refl)). auto 10 with racez.
  - auto with racez.
  - rewrite (Hreg eq_refl eq_refl). pose proof (rt_register_operand insn (Hans eq_refl)).
    apply rt_bind; [apply rt_ret|]. auto with racez.
Qed.

(** The update keeps the locks of the sampled record. *)
Lemma rt_update insn : (GetLog2ScaleFactor insn ≤ 3)%nat → returns is_ (UpdateMemory insn index).
Proof.
  intros Hsc. unfold UpdateMemory. apply rt_when.
  assert (Hu : ∀ k w, returns is_
    (address ← ComputeMemory insn index k 2; r ← raw_at index; s ← get;
     modify (set_raw (<[Z.to_nat index := upd_op (set_is_write w) (if address =? -1 then r else upd_op (set_memory_address (wrap64 address)) r)]> (raw_record_ s))))).
  { intros k w. apply rt_bind; [by apply rt_compute_memory|]. intros address s Hs.
    destruct (Hs index Hin) as [r Hr]. rewrite (bind_Ret _ _ _ _ _ (raw_at_ok _ _ _ Hr)). eexists tt, _. split; [reflexivity|].
    set (r' := upd_op _ _). intros i Hi. destruct (Hs i Hi) as [q [Q1 Q2 Q3 Q4]]. destruct Hr as [R1 R2 R3 R4].
    destruct (decide (Z.to_nat i = Z.to_nat index)) as [E|E].
    - exists r'. split; [done| |by unfold r'; case_match|by unfold r'; case_match].
      simpl. rewrite E. apply list_lookup_insert_eq. by eapply lookup_lt_Some.
    - exists q. split; [done| |done|done]. simpl. by rewrite list_lookup_insert_ne. }
  apply rt_bind; [|intros _]; apply rt_when; apply Hu.
Qed.

Context (f : Function_).

(** The instructions of the function are ones the pass and the framework handle. *)
Definition insns_ok : Prop := ∀ p insn, instruction_at f p = Some insn →
  insn_ok GetRegisterOperand insn ∧ (is_arith insn = true → is_Some (GetRegisterOperand insn 1)) ∧ is_Some (FindBasicBlock f p).

Lemma rt_execute p insn : insns_ok → instruction_at f p = Some insn →
  returns is_ (ExecuteSimWhole GetRegisterOperand write_ok f p insn index).
Proof.
  intros Hok Hi. assert (Hloop : ∀ q bb stop d qs, returns is_ (sim_loop GetRegisterOperand write_ok f q bb stop index d qs)).
  { intros q bb stop d qs. induction qs as [|x qs IH]; simpl; [apply rt_ret|]. apply rt_if; [|apply rt_ret].
    destruct (instruction_at f x) as [i|] eqn:Ei; [|apply rt_ret]. destruct (Hok x i Ei) as [Hx _].
    apply rt_bind; [by apply rt_compute_new|]. auto with racez. }
  assert (Hclear : ∀ m, returns is_ (modify (set_forward m)) ∧ returns is_ (modify (set_backward m))).
  { intros m. split; by apply rt_modify. }
  destruct (Hok p insn Hi) as (_ & Hans & [bb Hbb]). unfold ExecuteSimWhole. rewrite Hbb.
  apply rt_bind; [apply Hclear|]. intros _. apply rt_if; [apply rt_ret|]. apply rt_bind; [auto with racez|].
  intros _. apply rt_bind; [apply Hclear|]. intros _. fold (is_arith insn). apply rt_bind.
  { unfold when. destruct (is_arith insn); [|apply rt_ret]. apply rt_bind; [by apply rt_register_operand, Hans|]. auto with racez. }
  intros _. apply rt_bind; [auto with racez|]. intros _. apply Hclear.
Qed.

Lemma rt_simulate p insn x : insns_ok → instruction_at f p = Some insn → s_index x = index →
  returns is_ (simulate_sample GetRegisterOperand write_ok f p insn x).
Proof.
  intros Hok Hi E. unfold simulate_sample. rewrite E. apply rt_bind; [apply rt_update|intros _; by apply rt_execute].
  by destruct (Hok p insn Hi) as [[Hsc _] _].
Qed.
End instruction.

(** A function the pass can analyse: its file table can be built, its code is in the first
    source file, the profile can be read for it, the samples it keeps are at instructions
    and index the log, and its instructions are ones that are handled. *)
Record analysable (GetRegisterOperand : InstructionEntry → nat → option reg_entry) (cwd : string) (profile : option string)
    (n : nat) (f : Function_) : Prop := {
  an_insns : insns_ok GetRegisterOperand f;
  an_samples : ∃ file_table file b samples,
    (∀ s, BuildFileTable cwd [EmptyString] (unit_entries f) s = Ret file_table s) ∧
    file_table !! 1%nat = Some file ∧ one_file f file_table file ∧
    Read profile (fn_name f) file [] = Ret b samples ∧
    Forall (on_instruction f file) samples ∧ Forall (λ x, 0 ≤ s_index x < Z.of_nat n) samples
}.

(** The arrays of the records have their sizes. *)
Definition sized (r : RacezRecord) : Prop := length (lockset_ (op_ r)) = 10%nat.

Section returns.
Context (GetRegisterOperand : InstructionEntry → nat → option reg_entry) (write_ok : RacezRecord → bool).
Context (end_offset : option Z) (Hend : is_Some end_offset) (cwd : string) (profile : option string).

Lemma Go_returns n f s :
  analysable GetRegisterOperand cwd profile n f → profile_ok profile s →
  length (raw_record_ s) = n → Forall loggable (raw_record_ s) → Forall sized (raw_record_ s) →
  ∃ b s', Go GetRegisterOperand write_ok f end_offset cwd profile s = Ret b s'.
Proof.
  intros [Hok (table & file & b & samples & Ht & Hfile & Hf & Hread & Hon & Hidx)] Hp Hn Hlog Hsz.
  destruct b; cycle 1.
  { eexists _, _. unfold Go. rewrite (bind_Ret _ _ _ _ _ (Ht s)).
    by rewrite (bind_Ret _ _ _ _ _ (arr_get_Some table 1 file s ltac:(lia) Hfile)), Hread. }
  rewrite (Go_spec _ _ _ _ _ _ table file samples) by done.
  assert (Hready : ready (s_index <$> samples) s).
  { specialize (Hp _ _ _ _ Hread). rewrite Forall_forall in Hp. rewrite Forall_forall in Hlog. rewrite Forall_forall in Hsz. intros i Hi. specialize (Hp i Hi).
    apply list_elem_of_fmap in Hi as (x & -> & Hx). rewrite Forall_forall in Hidx. specialize (Hidx x Hx).
    destruct (lookup_lt_is_Some_2 (raw_record_ s) (Z.to_nat (s_index x))) as [r Hr]; [lia|].
    pose proof (list_elem_of_lookup_2 _ _ _ Hr) as Hin. exists r. split; [lia|done| |by apply Hsz].
    destruct (lg_access _ (Hlog r Hin) (Hp r Hr)) as [[_ H] _]. rewrite (Hsz r Hin) in H. lia. }
  destruct (triple_for_each (ready (s_index <$> samples)) (sort_samples samples) (attribute GetRegisterOperand write_ok f)) with s
    as (u & s' & E & _); [|done|].
  - intros x Hx. rewrite (sort_samples_perm samples) in Hx.
    rewrite Forall_forall in Hon. destruct (Hon x Hx) as (_ & p & insn & Hpr & Hi & Ho).
    unfold attribute. rewrite Ho, (instruction_at_offset_spec f table file Hf p insn Hpr Hi).
    apply (rt_simulate GetRegisterOperand write_ok (s_index <$> samples) (s_index x)); try done. by apply list_elem_of_fmap_2.
  - destruct Hend as [e ->]. exists true, s'. rewrite (bind_Ret _ _ _ _ _ E). by destruct (sort_samples samples).
Qed.

Lemma same_sample_sized a b : same_sample a b → sized a → sized b.
Proof. intros [? ? ? [_ Hl] ? ? ?]. unfold sized. by rewrite Hl. Qed.

Lemma run_pass_returns fs s :
  Forall (analysable GetRegisterOperand cwd profile (length (raw_record_ s))) fs → profile_ok profile s →
  Forall loggable (raw_record_ s) → Forall sized (raw_record_ s) →
  ∃ s', run_pass GetRegisterOperand write_ok end_offset cwd profile fs s = Ret tt s'.
Proof.
  remember (length (raw_record_ s)) as n eqn:Hn. intros Hfs. revert s Hn.
  induction Hfs as [|f fs Hf _ IH]; intros s Hn Hp Hlog Hsz; [by eexists|].
  destruct (Go_returns n f s Hf Hp) as (b & s1 & E); [done..|].
  pose proof (Go_grows _ _ _ _ _ _ _ _ _ Hp E) as G. pose proof (gr_raw _ _ G) as R.
  destruct (IH s1) as (s2 & E2).
  - by rewrite Hn, (Forall2_length _ _ _ R).
  - by eapply profile_ok_grows.
  - eapply Forall2_Forall_r; [exact R|]. eapply Forall_impl; [exact Hlog|]. intros a Ha c Hc. by eapply same_sample_loggable.
  - eapply Forall2_Forall_r; [exact R|]. eapply Forall_impl; [exact Hsz|]. intros a Ha c Hc. by eapply same_sample_sized.
  - exists s2. unfold run_pass. cbn [for_each]. rewrite bind_assoc, (bind_Ret _ _ _ _ _ E). exact E2.
Qed.
End returns.

(** ** The detector on the files of the pass *)

(** What the detector analyses: the merged files, or the raw log alone when the file of
    added records is empty. *)
Definition analysed (raw news : list RacezRecord) : list RacezRecord :=
  match news with [] => raw | _ => merged raw (ordered news) end.

Lemma analysed_elem raw news x : x ∈ analysed raw news → x ∈ raw ∨ x ∈ news.
Proof.
  unfold analysed. destruct news as [|n ns]; [by left|]. intros [Hx|Hx]%merged_elem; [by left|right].
  by apply (ordered_sorted (n :: ns)).
Qed.

Lemma detect_files_analysed addr2line reuse raw news s :
  (raw = [] → news = []) →
  detect_files addr2line reuse raw (Some news) s = for_each (analysed raw news) (offline_detection addr2line reuse) s.
Proof.
  intros Hr. unfold detect_files, analysed. destruct raw as [|r raw]; [by rewrite Hr|].
  destruct news as [|n ns]; [done|]. apply merge_loop_merged.
Qed.

Lemma grows_detected s s' addr2line reuse :
  (∀ a, ∃ t, addr2line a = Some (t +:+ nl)) →
  grows s s' → new_records s = [] → StronglySorted no_lt (raw_record_ s) → Forall loggable (raw_record_ s) →
  ∃ st, detect_files addr2line reuse (raw_record_ s') (Some (new_records s')) detect_init = Ret tt st ∧
    abstracts (foldl (spec_step reuse) spec_init (analysed (raw_record_ s') (new_records s'))) st ∧
    ∀ a ws x, (a, ws) ∈ warned st → x ∈ ws → ∃ r, r ∈ raw_record_ s ∧ stands_for r x.
Proof.
  intros Hline G Hnil Hs Hl. set (l := analysed (raw_record_ s') (new_records s')).
  assert (Hin : ∀ x, x ∈ l → x ∈ raw_record_ s' ∨ x ∈ new_records s') by (intros x; apply analysed_elem).
  destruct (grows_detectable _ _ G Hnil Hs Hl l Hin) as [Hlog Hnum].
  destruct (detection_refines_from addr2line Hline reuse l [] spec_init detect_init) as (st & Ed & Hab & Hfl);
    eauto using abstracts_init, from_log_init.
  exists st. split; [|split; [done|]].
  - rewrite detect_files_analysed; [done|]. intros Er. destruct (new_records s') as [|n ns] eqn:En; [done|].
    destruct (grows_origin _ _ n G Hnil) as (a & Ha & _); [right; rewrite En; set_solver|].
    destruct G as [R _]. rewrite Er in R. apply Forall2_nil_inv_r in R. rewrite R in Ha. set_solver.
  - intros a ws x Hw Hx. destruct (warned_violation l _ st a ws Hab Hfl Hw) as (h & Hh & _ & Ht & _).
    apply (grows_origin _ _ x G Hnil). apply Hin. eapply elem_of_sublist; [|exact Hh]. by apply (tr_sub _ _ Ht).
Qed.

(** C7: the simulation and the detector fit together.  Let the log be well formed with
    increasing record numbers, and let the samples the profile gives be accesses of that
    log, as those of the symbolizer are.  The pass returns when every function of the
    program can be analysed ([analysable]: one source file, samples at instructions,
    instructions and operands the framework answers for) and the read through the end of
    its list of samples stops nothing.  Whenever it returns, on whatever functions: the
    detector's run on the modified log and the added records returns; its state is the
    specification's on the merged files, or on the modified log alone if nothing was added;
    and every access that a warning prints has the record number, the thread and the locks
    of a record of the log that was collected. *)
Theorem simulated_log_detected GetRegisterOperand write_ok end_offset cwd profile fs addr2line reuse raw :
  (∀ a, ∃ t, addr2line a = Some (t +:+ nl)) →
  StronglySorted no_lt raw → Forall loggable raw → profile_ok profile (mkSim raw [] ∅ ∅) →
  (is_Some end_offset → Forall sized raw → Forall (analysable GetRegisterOperand cwd profile (length raw)) fs →
   ∃ s', run_pass GetRegisterOperand write_ok end_offset cwd profile fs (mkSim raw [] ∅ ∅) = Ret tt s') ∧
  (∀ s', run_pass GetRegisterOperand write_ok end_offset cwd profile fs (mkSim raw [] ∅ ∅) = Ret tt s' →
   ∃ st, detect_files addr2line reuse (raw_record_ s') (Some (new_records s')) detect_init = Ret tt st ∧
     abstracts (foldl (spec_step reuse) spec_init (analysed (raw_record_ s') (new_records s'))) st ∧
     ∀ a ws x, (a, ws) ∈ warned st → x ∈ ws → ∃ r, r ∈ raw ∧ stands_for r x).
Proof.
  intros Hline Hs Hl Hp. split.
  - intros He Hsz Hfs. by apply run_pass_returns.
  - intros s' E. apply (grows_detected (mkSim raw [] ∅ ∅)); try done. by eapply run_pass_grows.
Qed.

(** The log, its profile and the program of a run: the second record was sampled at the
    second instruction of the function [foo]. *)
Definition pipeline_profile : list symbolized :=
  [mkSym "??" "0" None; mkSym "/a.c" "45" (Some ("foo", 4))].
Definition pipeline_text : string :=
  text (final_lines 0 (position_text <$> pipeline_profile) (place_text <$> pipeline_profile)).
Definition pipeline_function : Function_ :=
  mkFun "foo" [FileDirective 1 "'a.c'"] (OtherEntry :: (Instruction <$> demo_insns) ++ [OtherEntry])
    (λ p, if (p =? 0)%nat then None else Some 1) (λ _, 0%nat) (λ _, 5%nat)
    (λ p, if (p =? 0)%nat then 0 else if (p <? 6)%nat then 4 else 0) (λ p, 4 * (Z.of_nat p - 1)) 0 6.
Definition pipeline_raw : list RacezRecord := [zero_record; demo_seed].

Example pipeline_records :
  match run_pass demo_register_operand (λ _, true) (Some 0) "" (Some pipeline_text) [pipeline_function] (mkSim pipeline_raw [] ∅ ∅) with
  | Ret _ s => (memory_address_ ∘ op_ <$> raw_record_ s, memory_address_ ∘ op_ <$> new_records s)
  | Stop _ _ => ([], [])
  end = ([0; 4112], [8200; 4104; 8192]).
Proof. vm_compute. reflexivity. Qed.

Lemma pipeline_one_file : one_file pipeline_function [EmptyString; "/a.c"] "/a.c".
Proof.
  split.
  - intros [|[|[|[|[|[|[|p]]]]]]] insn; simpl; try done; unfold instruction_at; simpl; by rewrite ?lookup_nil.
  - by intros [|[|[|[|[|[|[|p]]]]]]].
  - intros [|[|[|[|[|[|[|p]]]]]]] n; simpl; try done; by rewrite ?lookup_nil.
  - simpl. lia.
Qed.

Lemma pipeline_analysable : analysable demo_register_operand "" (Some pipeline_text) (length pipeline_raw) pipeline_function.
Proof.
  split.
  - intros [|[|[|[|[|[|[|p]]]]]]] insn; unfold instruction_at; simpl; try done; intros [= <-];
      (split; [apply (bool_decide_unpack _); vm_compute; reflexivity|split; [by eexists|by eexists]]).
  - exists [EmptyString; "/a.c"], "/a.c", true, [mkSample_ 1 "/a.c" 4 0]. split; [done|]. split; [done|].
    split; [apply pipeline_one_file|]. split; [vm_compute; reflexivity|]. split; apply Forall_singleton.
    + split; [done|]. eexists 2%nat, _. split; [simpl; lia|]. by split.
    + simpl. lia.
Qed.

Lemma pipeline_profile_ok : profile_ok (Some pipeline_text) (mkSim pipeline_raw [] ∅ ∅).
Proof.
  apply symbolized_profile_ok.
  - repeat apply Forall_cons_2; try apply Forall_nil_2; repeat split; try reflexivity; vm_compute; discriminate.
  - vm_compute; discriminate.
  - simpl. repeat apply Forall_cons_2; try apply Forall_nil_2; (split; [reflexivity|by apply Nat.leb_le; vm_compute]).
  - intros [|[|k]] y r; simpl; intros; simplify_eq; reflexivity.
Qed.

Lemma pipeline_loggable : Forall loggable pipeline_raw.
Proof.
  repeat apply Forall_cons_2; [| |apply Forall_nil_2]; (split; [intros _|intros H; vm_compute in H; discriminate]);
    split; split; vm_compute; (left; reflexivity) || discriminate.
Qed.

Lemma simulated_log_detected_witness :
  ∃ s' st, run_pass demo_register_operand (λ _, true) (Some 0) "" (Some pipeline_text) [pipeline_function] (mkSim pipeline_raw [] ∅ ∅) = Ret tt s' ∧
    detect_files unknown_line true (raw_record_ s') (Some (new_records s')) detect_init = Ret tt st ∧
    abstracts (foldl (spec_step true) spec_init (analysed (raw_record_ s') (new_records s'))) st.
Proof.
  destruct (simulated_log_detected demo_register_operand (λ _, true) (Some 0) "" (Some pipeline_text) [pipeline_function]
              unknown_line true pipeline_raw) as [Hret Hdet].
  - apply unknown_line_ok.
  - repeat constructor.
  - apply pipeline_loggable.
  - apply pipeline_profile_ok.
  - destruct Hret as [s' E]; [by eexists|by repeat apply Forall_cons_2; try apply Forall_nil_2|apply Forall_singleton, pipeline_analysable|].
    destruct (Hdet s' E) as (st & Ed & Hab & _). exists s', st.
    split; [exact E|]. split; [exact Ed|exact Hab].
Defined.
