(* ===== verification/ExprSim.v ===== *)
(** * The simulation with expressions

    The part of [InstructSimPass] (mao-patch/patch) that nothing calls any more:
    [ExecuteSim] with [ComputeNewSample], [ComputeAddress] and [UpdateState].  It keeps a
    file of register values and a map from address expressions to values, starts from the
    address of one sampled access and prints the addresses it derives for the other
    instructions of the block.

    Register numbers, the size of the register table and the test for predicated
    instructions belong to the compiler framework and are parameters. *)

From S2P Require Import Prelude.
From S2P Require Import Records.
From S2P Require Import Text.
From S2P Require Import Convert.
From S2P Require Import AddrSim.
From stdpp Require Import base gmap list strings.

Open Scope Z_scope.

(** ** Expressions *)

Record ExpressionEntry := mkExpr {
  base_register_ : Z;
  index_register_ : Z;
  eoffset_ : Z;
  scale_ : Z;
  is_memory_ : bool;
  is_valid_ : bool
}.

(** The constructor.  Its initialiser [index_register_(index_register_)] reads the member
    it initialises, not the argument: [garbage] is what the memory holds. *)
Definition new_ExpressionEntry (garbage base_register index_register offset_a scale : Z) (is_memory_a is_valid : bool) :
    ExpressionEntry :=
  mkExpr base_register garbage offset_a scale is_memory_a is_valid.

(** [eqstr], the order of [ExpressionEntryMap]. *)
Definition eqstr (s1 s2 : ExpressionEntry) : bool :=
  if base_register_ s1 <? base_register_ s2 then true
  else if (base_register_ s1 =? base_register_ s2) && (index_register_ s1 <? index_register_ s2) then true
  else if (base_register_ s1 =? base_register_ s2) && (index_register_ s1 =? index_register_ s2) &&
          (eoffset_ s1 <? eoffset_ s2) then true
  else if (base_register_ s1 =? base_register_ s2) && (index_register_ s1 =? index_register_ s2) &&
          (eoffset_ s1 =? eoffset_ s2) && (scale_ s1 <? scale_ s2) then true
  else if (base_register_ s1 =? base_register_ s2) && (index_register_ s1 =? index_register_ s2) &&
          (eoffset_ s1 =? eoffset_ s2) && (scale_ s1 =? scale_ s2) && (negb (is_memory_ s1) && is_memory_ s2) then true
  else false.

(** [ExpressionEntryMap]: the keys, in the order of the map, with their values. *)
Abbreviation expr_map := (list (ExpressionEntry * Z)).

(** [std::map::insert]: the position of an equivalent key, or of the new one; and whether
    the key is new. *)
Fixpoint map_insert (k : ExpressionEntry) (v : Z) (m : expr_map) : expr_map * nat * bool :=
  match m with
  | [] => ([(k, v)], O, true)
  | (k', v') :: m' =>
      if eqstr k k' then ((k, v) :: m, O, true)
      else if eqstr k' k then let '(m'', i, b) := map_insert k v m' in ((k', v') :: m'', S i, b)
      else (m, O, false)
  end.

(** ** State *)

(** [printed]: the samples [PrintNewSample] shows when tracing is on; [allocs]: how many
    expressions were made so far. *)
Record esim := mkES {
  register_file_ : list Z;
  expr_map_ : expr_map;
  printed : list (InstructionEntry * Z);
  allocs : nat
}.

Definition set_registers (v : list Z) (s : esim) : esim := mkES v (expr_map_ s) (printed s) (allocs s).
Definition set_exprs (v : expr_map) (s : esim) : esim := mkES (register_file_ s) v (printed s) (allocs s).

Section pass.
Context (reg_num : string → Z).
Context (i386_regtab_size : nat).
Context (IsPredicated : InstructionEntry → bool).
Context (GetRegisterOperand : InstructionEntry → nat → option reg_entry).
Context (garbage : nat → Z).

Definition GetBaseRegisterNum (insn : InstructionEntry) : Z :=
  match GetBaseRegister insn with Some reg => reg_num reg | None => -1 end.
Definition GetIndexRegisterNum (insn : InstructionEntry) : Z :=
  match GetIndexRegister insn with Some reg => reg_num reg | None => -1 end.
(** An assertion of the accessor and the one for a null answer end the same way. *)
Definition GetRegisterOperandNum (insn : InstructionEntry) (op_index : nat) : M esim Z :=
  match GetRegisterOperand insn op_index with Some (Some reg) => mret (reg_num reg) | _ => fail AssertFailed end.

Definition get_register (n : Z) : M esim Z := s ← get; arr_get (register_file_ s) n.
Definition set_register (n v : Z) : M esim unit :=
  s ← get; l ← arr_set (register_file_ s) n v; modify (set_registers l).

Definition PrintNewSample (insn : InstructionEntry) (address : Z) : M esim unit :=
  modify (λ s, mkES (register_file_ s) (expr_map_ s) (printed s ++ [(insn, address)]) (allocs s)).

(** [new ExpressionEntry(...)] *)
Definition new_entry (base_num index_num offset scale : Z) (is_memory : bool) : M esim ExpressionEntry :=
  s ← get;
  modify (λ s, mkES (register_file_ s) (expr_map_ s) (printed s) (S (allocs s))) ;;
  mret (new_ExpressionEntry (garbage (allocs s)) base_num index_num offset scale is_memory true).

(** Yields the return value and [*address]. *)
Definition ComputeAddress (insn : InstructionEntry) (op_index : nat) : M esim (bool * Z) :=
  let offset := GetSimpleDisp insn op_index in
  let base_num := GetBaseRegisterNum insn in
  let index_num := GetIndexRegisterNum insn in
  scale ← GetScaleValue insn;
  expr_entry ← new_entry base_num index_num offset scale true;
  s ← get;
  let '(m, i, inserted) := map_insert expr_entry 0 (expr_map_ s) in
  if negb inserted then
    kv ← deref (m !! i);
    mret (negb (is_memory_ kv.1), kv.2)
  else
    modify (set_exprs (delete i m)) ;;
    if negb (offset =? -1) then
      base_value ← get_register base_num;
      index_value ← (if negb (index_num =? -1) then get_register index_num else mret 0);
      if negb (base_value =? -1) && negb (index_value =? -1) && negb (scale =? -1)
      then mret (true, as_llong (offset + base_value + index_value * scale))
      else mret (false, -1)
    else mret (false, -1).

Definition UpdateState (insn : InstructionEntry) (op_index : nat) (value : Z) (is_memory : bool) : M esim unit :=
  let offset := GetSimpleDisp insn op_index in
  let base_num := GetBaseRegisterNum insn in
  let index_num := GetIndexRegisterNum insn in
  scale ← GetScaleValue insn;
  expr_entry ← new_entry base_num index_num offset scale is_memory;
  s ← get;
  let '(m, i, inserted) := map_insert expr_entry 0 (expr_map_ s) in
  kv ← deref (m !! i);
  modify (set_exprs (<[i := (kv.1, value)]> m)) ;;
  when ((index_num =? -1) && negb (offset =? -1) && negb is_memory)
    (set_register base_num (as_llong (value - offset))).

(** The instructions other than moves, additions, subtractions and [lea]. *)
Definition other_instruction (insn : InstructionEntry) : M esim bool :=
  match length (operands insn) with
  | 0%nat => mret true
  | 1%nat =>
      if bool_decide (op insn = OP_push) then mret true
      else if bool_decide (op insn = OP_pop) then
        reg ← GetRegisterOperandNum insn 0; set_register reg (-1) ;; mret true
      else mret false
  | 2%nat =>
      if IsPredicated insn || bool_decide (op insn = OP_xor) then
        reg ← GetRegisterOperandNum insn 1; set_register reg (-1) ;; mret true
      else mret (bool_decide (op insn = OP_cmp ∨ op insn = OP_test))
  | _ => mret false
  end.

(** [ComputeAddress] and, if it succeeds, [PrintNewSample]; yields [address]. *)
Definition compute_and_print (insn : InstructionEntry) (op_index : nat) : M esim Z :=
  ra ← ComputeAddress insn op_index;
  when ra.1 (PrintNewSample insn ra.2) ;;
  mret ra.2.

(** [UpdateState] with the value of a register operand, if it is known. *)
Definition update_from_register (insn : InstructionEntry) (reg_index op_index : nat) : M esim unit :=
  reg ← GetRegisterOperandNum insn reg_index;
  value ← get_register reg;
  when (negb (value =? -1)) (UpdateState insn op_index value true).

(** [direction]: forward when true. *)
Definition ComputeNewSample (insn : InstructionEntry) (direction : bool) : M esim bool :=
  if negb (IsOpMov insn || IsAdd insn || IsSub insn || IsLea insn) then other_instruction insn else
  address ← (if IsOpMov insn || IsAdd insn || IsSub insn then
               c_assert (length (operands insn) =? 2)%nat ;;
               address ← (if IsMemOperand insn 0 && direction then compute_and_print insn 0 else mret (-1));
               if IsMemOperand insn 1 then compute_and_print insn 1 else mret address
             else mret (-1));
  if negb direction then
    if IsMemOperand insn 0 then update_from_register insn 1 0 ;; mret true
    else if IsMemOperand insn 1 then update_from_register insn 0 1 ;; mret true
    else mret false
  else
    if IsMemOperand insn 1 then update_from_register insn 0 0 ;; mret true
    else if IsMemOperand insn 0 then
      reg ← GetRegisterOperandNum insn 1;
      set_register reg address ;; mret true
    else mret false.

Context (f : Function_).

(** The loops over the instructions before and after the sampled one. *)
Fixpoint expr_loop (stop : nat) (direction : bool) (qs : list nat) : M esim unit :=
  match qs with
  | [] => mret tt
  | q :: qs' =>
      match instruction_at f q with
      | None => mret tt
      | Some insn =>
          can_execute ← ComputeNewSample insn direction;
          if negb can_execute || (q =? stop)%nat then mret tt else expr_loop stop direction qs'
      end
  end.

Definition ExecuteSim (p : nat) (insn : InstructionEntry) (value : Z) : M esim unit :=
  modify (set_registers (replicate i386_regtab_size (-1))) ;;
  modify (set_exprs []) ;;
  match FindBasicBlock f p with
  | None => fail AssertFailed
  | Some bb =>
      if negb (IsOpMov insn || IsAdd insn || IsSub insn || negb (length (operands insn) =? 2)%nat) then mret tt else
      if negb (IsMemOperand insn 1) && negb (IsMemOperand insn 0) then mret tt else
      when (IsMemOperand insn 0) (UpdateState insn 0 value false) ;;
      when (IsMemOperand insn 1) (UpdateState insn 1 value false) ;;
      (if (p =? first_entry f bb)%nat then mret tt else expr_loop (first_entry f bb) false (prev_instructions f p)) ;;
      (if (p =? last_entry f bb)%nat then mret tt else expr_loop (last_entry f bb) true (next_instructions f p))
  end.
End pass.

(** ** The map *)

(** Two keys that are not ordered agree in the five members the order looks at. *)
Lemma eqstr_equiv a b : eqstr a b = false → eqstr b a = false →
  base_register_ a = base_register_ b ∧ index_register_ a = index_register_ b ∧ eoffset_ a = eoffset_ b ∧
  scale_ a = scale_ b ∧ is_memory_ a = is_memory_ b.
Proof.
  unfold eqstr.
  destruct (Z.ltb_spec (base_register_ a) (base_register_ b)), (Z.ltb_spec (base_register_ b) (base_register_ a)); try done.
  assert (base_register_ a = base_register_ b) as -> by lia. rewrite Z.eqb_refl.
  destruct (Z.ltb_spec (index_register_ a) (index_register_ b)), (Z.ltb_spec (index_register_ b) (index_register_ a)); try done.
  assert (index_register_ a = index_register_ b) as -> by lia. rewrite Z.eqb_refl.
  destruct (Z.ltb_spec (eoffset_ a) (eoffset_ b)), (Z.ltb_spec (eoffset_ b) (eoffset_ a)); try done.
  assert (eoffset_ a = eoffset_ b) as -> by lia. rewrite Z.eqb_refl.
  destruct (Z.ltb_spec (scale_ a) (scale_ b)), (Z.ltb_spec (scale_ b) (scale_ a)); try done.
  assert (scale_ a = scale_ b) as -> by lia. rewrite Z.eqb_refl.
  destruct (is_memory_ a), (is_memory_ b); simpl; done.
Qed.

(** Equal in the members the order looks at. *)
Definition same_expression (k k' : ExpressionEntry) : Prop :=
  base_register_ k' = base_register_ k ∧ index_register_ k' = index_register_ k ∧ eoffset_ k' = eoffset_ k ∧
  scale_ k' = scale_ k ∧ is_memory_ k' = is_memory_ k.

(** A key that is new can be taken out again; one that is not has an equivalent one at the
    position. *)
Lemma map_insert_spec k v m m' i b : map_insert k v m = (m', i, b) →
  if b then delete i m' = m else m' = m ∧ ∃ k' v', m !! i = Some (k', v') ∧ same_expression k k'.
Proof.
  revert m' i b. induction m as [|[k' v'] m IH]; intros m' i b; simpl; [by intros [= <- <- <-]|].
  destruct (eqstr k k') eqn:E1; [by intros [= <- <- <-]|]. destruct (eqstr k' k) eqn:E2.
  - destruct (map_insert k v m) as [[m'' j] b'] eqn:E. intros [= <- <- <-].
    specialize (IH _ _ _ eq_refl). destruct b'; simpl; [by f_equal|]. destruct IH as [-> H]. by split.
  - intros [= <- <- <-]. split; [done|]. exists k', v'. split; [done|]. exact (eqstr_equiv _ _ E2 E1).
Qed.

(** ** What is reported *)

Section reported.
Context (reg_num : string → Z).
Context (garbage : nat → Z).

Abbreviation base insn := (GetBaseRegisterNum reg_num insn).
Abbreviation index insn := (GetIndexRegisterNum reg_num insn).

(** Nothing but the count of allocations. *)
Definition same_knowledge (s s' : esim) : Prop :=
  register_file_ s' = register_file_ s ∧ expr_map_ s' = expr_map_ s ∧ printed s' = printed s.

(** The value of a register the simulation knows. *)
Definition knows (s : esim) (n v : Z) : Prop := 0 ≤ n ∧ register_file_ s !! Z.to_nat n = Some v ∧ v ≠ -1.

Lemma GetScaleValue_pow {S} insn (s : S) :
  (GetLog2ScaleFactor insn < 4)%nat → GetScaleValue insn s = Ret (2 ^ Z.of_nat (GetLog2ScaleFactor insn)) s.
Proof. unfold GetScaleValue. destruct (GetLog2ScaleFactor insn) as [|[|[|[|]]]]; [done..|lia]. Qed.

(** The number of a register of the file. *)
Definition in_file (s : esim) (n : Z) : Prop := 0 ≤ n < Z.of_nat (length (register_file_ s)).

Lemma get_register_in_file n s t : in_file s n → register_file_ t = register_file_ s →
  ∃ v, get_register n t = Ret v t ∧ register_file_ s !! Z.to_nat n = Some v.
Proof.
  intros Hn E. destruct (lookup_lt_is_Some_2 (register_file_ s) (Z.to_nat n)) as [v Hv]; [unfold in_file in Hn; lia|].
  exists v. split; [|done]. unfold get_register. run_m. rewrite E. apply arr_get_Some; [apply Hn|done].
Qed.

(** The address as far as the registers give it. *)
Definition register_address (s : esim) (insn : InstructionEntry) (op_index : nat) (a : Z) : Prop :=
  GetSimpleDisp insn op_index ≠ -1 ∧
  ∃ bv iv, knows s (base insn) bv ∧ (index insn = -1 ∧ iv = 0 ∨ knows s (index insn) iv) ∧
           a = as_llong (GetSimpleDisp insn op_index + bv + iv * 2 ^ Z.of_nat (GetLog2ScaleFactor insn)).

(** The contents of the operand are in the map, as far as the index register is not looked at. *)
Definition contents_mapped (s : esim) (insn : InstructionEntry) (op_index : nat) : Prop :=
  ∃ k v, (k, v) ∈ expr_map_ s ∧ is_memory_ k = true ∧ base_register_ k = base insn ∧
         eoffset_ k = GetSimpleDisp insn op_index ∧ scale_ k = 2 ^ Z.of_nat (GetLog2ScaleFactor insn).

(** The end of [ComputeAddress], in a state with the registers of [s]. *)
Lemma from_registers insn op_index s t :
  in_file s (base insn) → index insn = -1 ∨ in_file s (index insn) → register_file_ t = register_file_ s →
  let scale := 2 ^ Z.of_nat (GetLog2ScaleFactor insn) in
  ∃ ok a, (if negb (GetSimpleDisp insn op_index =? -1) then
             base_value ← get_register (base insn);
             index_value ← (if negb (index insn =? -1) then get_register (index insn) else mret 0);
             if negb (base_value =? -1) && negb (index_value =? -1) && negb (scale =? -1)
             then mret (true, as_llong (GetSimpleDisp insn op_index + base_value + index_value * scale))
             else mret (false, -1)
           else mret (false, -1)) t = Ret (ok, a) t ∧
    (ok = true → register_address s insn op_index a) ∧ ∀ a', register_address s insn op_index a' → ok = true ∧ a = a'.
Proof.
  intros Hb Hi Et scale. assert (scale ≠ -1) as Hs by (unfold scale; pose proof (Z.pow_nonneg 2 (Z.of_nat (GetLog2ScaleFactor insn))); lia).
  destruct (Z.eqb_spec (GetSimpleDisp insn op_index) (-1)) as [Hd|Hd]; cbn [negb].
  { exists false, (-1). split; [done|]. split; [done|]. by intros a' []. }
  destruct (get_register_in_file _ s t Hb Et) as (bv & Eb & Lb). rewrite (bind_Ret _ _ _ _ _ Eb).
  assert (∃ iv, (if negb (index insn =? -1) then get_register (index insn) else mret 0) t = Ret iv t ∧
            (index insn = -1 ∧ iv = 0 ∨ 0 ≤ index insn ∧ register_file_ s !! Z.to_nat (index insn) = Some iv))
    as (iv & Ei & Li).
  { destruct (Z.eqb_spec (index insn) (-1)) as [|Hn]; simpl; [exists 0; auto|].
    destruct Hi as [|Hi]; [done|]. destruct (get_register_in_file _ s t Hi Et) as (iv & ? & ?).
    exists iv. destruct Hi. auto. }
  rewrite (bind_Ret _ _ _ _ _ Ei), (proj2 (Z.eqb_neq _ _) Hs), andb_true_r.
  destruct (Z.eqb_spec bv (-1)) as [|Hbv], (Z.eqb_spec iv (-1)) as [|Hiv]; cbn [negb andb];
    eexists _, _; (split; [reflexivity|]); (split; [try done|]);
    try (intros a' (_ & bv' & iv' & (_ & Lb' & ?) & Hx & _); destruct Hx as [[]|(_ & ? & ?)], Li as [[]|[]]; simplify_eq; lia).
  - intros _. split; [done|]. exists bv, iv. destruct Hb. unfold knows. split; [done|]. split; [|done].
    destruct Li as [|[]]; auto.
  - intros a' (_ & bv' & iv' & (_ & Lb' & _) & Hx & ->). rewrite Lb in Lb'. injection Lb' as <-. split; [done|].
    assert (iv' = iv) as ->; [|done].
    destruct Hx as [[? ->]|(? & Hx & _)], Li as [[? ->]|[? Ly]]; [done|lia|lia|congruence].
Qed.

Lemma ComputeAddress_spec insn op_index s :
  (GetLog2ScaleFactor insn < 4)%nat → in_file s (base insn) → index insn = -1 ∨ in_file s (index insn) →
  ∃ ok a s', ComputeAddress reg_num garbage insn op_index s = Ret (ok, a) s' ∧ same_knowledge s s' ∧
    (ok = true → register_address s insn op_index a) ∧
    (¬ contents_mapped s insn op_index → ∀ a', register_address s insn op_index a' → ok = true ∧ a = a').
Proof.
  intros Hs Hb Hi. unfold ComputeAddress. rewrite (bind_Ret _ _ _ _ _ (GetScaleValue_pow insn s Hs)).
  unfold new_entry. run_m. simpl.
  destruct (map_insert _ 0 (expr_map_ s)) as [[m i] b] eqn:Em. apply map_insert_spec in Em. destruct b; cbn [negb].
  - run_m. set (t := set_exprs (delete i m) _).
    destruct (from_registers insn op_index s t Hb Hi eq_refl) as (ok & a & E & H1 & H2).
    exists ok, a, t. split; [exact E|]. split; [by subst|]. split; [done|]. intros _. exact H2.
  - destruct Em as [-> (k & v & Hk & Eb & _ & Eo & Esc & Ekm)]. rewrite Hk. run_m. simpl in *. rewrite Ekm. simpl.
    eexists _, _, _. split; [reflexivity|]. split; [done|]. split; [done|]. intros Hn. exfalso. apply Hn.
    exists k, v. split; [by eapply list_elem_of_lookup_2|done].
Qed.
End reported.

(** ** The properties *)

(** C34: [ComputeAddress] of the expression simulation.  For an operand whose registers
    have a number in the register file it returns, with registers, expressions and printed
    samples as before.  It reports an address only if displacement, base and index are
    known to the simulation, and then it is their sum with the index scaled; and it
    reports that sum unless the map of expressions knows the contents of the operand.  The
    map never gives an address: the entries that hold addresses differ from the key looked
    up in [is_memory_]. *)
Theorem address_from_registers_only (reg_num : string → Z) (garbage : nat → Z) insn op_index s :
  (GetLog2ScaleFactor insn < 4)%nat → in_file s (GetBaseRegisterNum reg_num insn) →
  GetIndexRegisterNum reg_num insn = -1 ∨ in_file s (GetIndexRegisterNum reg_num insn) →
  ∃ ok a s', ComputeAddress reg_num garbage insn op_index s = Ret (ok, a) s' ∧ same_knowledge s s' ∧
    (ok = true → register_address reg_num s insn op_index a) ∧
    (¬ contents_mapped reg_num s insn op_index → ∀ a', register_address reg_num s insn op_index a' → ok = true ∧ a = a').
Proof. apply ComputeAddress_spec. Qed.

(** The instruction [mov disp(base), dst] or [mov src, disp(base)]. *)
Definition demo_load (disp : Z) (b dst : string) : InstructionEntry :=
  mkInsn OP_mov [MemOperand (Constant disp); RegOperand dst] (Some b) None 0 false.
Definition demo_store (src : string) (disp : Z) (b : string) : InstructionEntry :=
  mkInsn OP_mov [RegOperand src; MemOperand (Constant disp)] (Some b) None 0 false.
Definition demo_reg_num (r : string) : Z :=
  if String.eqb r "rax" then 0 else if String.eqb r "rbx" then 1 else if String.eqb r "rcx" then 2 else 3.
Definition demo_operand (insn : InstructionEntry) (i : nat) : option reg_entry :=
  match operands insn !! i with Some (RegOperand r) => Some (Some r) | _ => None end.

Lemma address_from_registers_only_witness :
  let s := mkES [4096; -1; -1; -1] [] [] 0 in
  ∃ ok a s', ComputeAddress demo_reg_num (λ _, 0) (demo_load 8 "rax" "rbx") 0 s = Ret (ok, a) s' ∧
    same_knowledge s s' ∧ ok = true ∧ a = 4104.
Proof.
  destruct (address_from_registers_only demo_reg_num (λ _, 0) (demo_load 8 "rax" "rbx") 0
              (mkES [4096; -1; -1; -1] [] [] 0)) as (ok & a & s' & E & Hs & _ & H);
    [simpl; lia|vm_compute; split; [intros [=]|reflexivity]|left; reflexivity|].
  exists ok, a, s'. split; [exact E|]. split; [exact Hs|]. apply H.
  - intros (k & v & Hk & _). inversion Hk.
  - split; [intros [=]|]. exists 4096, 0. split; [split; [vm_compute; intros [=]|split; [reflexivity|intros [=]]]|].
    split; [left; split; reflexivity|reflexivity].
Defined.

(** An operand without a base register: the register file is read at index -1. *)
Theorem absolute_address_overruns reg_num garbage insn op_index s n :
  GetBaseRegister insn = None → GetLog2ScaleFactor insn = 0%nat →
  operands insn !! op_index = Some (MemOperand (Constant n)) → n ≠ -1 → expr_map_ s = [] →
  ∃ s', ComputeAddress reg_num garbage insn op_index s = Stop OutOfBounds s'.
Proof.
  intros Hb Hs Ho Hn Hm. unfold ComputeAddress, GetScaleValue, new_entry, GetSimpleDisp, GetBaseRegisterNum.
  rewrite Hs, Ho, Hb. run_m. simpl. rewrite Hm. simpl. rewrite (proj2 (Z.eqb_neq _ _) Hn). simpl. by eexists.
Qed.

(** A function of one block, its instructions in order. *)
Definition demo_function (insns : list InstructionEntry) : Function_ :=
  mkFun "f" [] (Instruction <$> insns) (λ _, Some 0) (λ _, 0%nat) (λ _, (length insns - 1)%nat)
        (λ _, 4) (λ q, 4 * Z.of_nat q) 0 (length insns).

Definition demo_run (insns : list InstructionEntry) (p : nat) (insn : InstructionEntry) (value : Z) : out esim unit :=
  ExecuteSim demo_reg_num 4 (λ _, false) demo_operand (λ _, 0) (demo_function insns) p insn value (mkES [] [] [] 0).

Definition printed_of (x : out esim unit) : list Z := match x with Ret _ s => (printed s).*2 | Stop _ _ => [] end.

(** A load gives its register the address it loaded from: after [mov (%rax), %rbx] at
    address 4096, the store [mov %rcx, 8(%rbx)] is reported at 4104 whatever was loaded. *)
Example address_taken_for_contents :
  printed_of (demo_run [demo_load 0 "rax" "rdx"; demo_load 0 "rax" "rbx"; demo_store "rcx" 8 "rbx"]
                       0 (demo_load 0 "rax" "rdx") 4096) = [4096; 4104].
Proof. vm_compute. reflexivity. Qed.

(** Going back over a load does not forget the register it wrote: the store before
    [mov (%rbx), %rax] is reported with the later value of [rax]. *)
Example overwritten_base_kept :
  printed_of (demo_run [demo_store "rcx" 0 "rax"; demo_load 0 "rbx" "rax"; demo_load 0 "rax" "rdx"]
                       2 (demo_load 0 "rax" "rdx") 4096) = [4096].
Proof. vm_compute. reflexivity. Qed.
