(* ===== verification/Framework.v ===== *)
(** * The additions to the compiler framework

    What mao-patch/patch adds to the framework for the pass: the walk to the next and the
    previous instruction ([MaoEntry::NextInstruction], [PrevInstruction]) and the map from
    instructions to their basic blocks ([CFG::MapInsnBasicBlock], [FindBasicBlock] and the
    lines of the graph builder that fill it).  AddrSim.v uses the positions and the block
    of an instruction as given; here they are computed. *)

From S2P Require Import Prelude.
From S2P Require Import AddrSim.
From stdpp Require Import base gmap list strings.

Open Scope Z_scope.

Definition IsInstruction (e : MaoEntry) : bool := match e with Instruction _ => true | _ => false end.

(** The entries behind the current one, the first at position [p]. *)
Fixpoint first_instruction (p : nat) (next : list MaoEntry) : option nat :=
  match next with
  | [] => None
  | e :: next => if IsInstruction e then Some p else first_instruction (S p) next
  end.

Definition NextInstruction (f : Function_) (p : nat) : option nat :=
  first_instruction (S p) (drop (S p) (entries f)).

(** The walk backwards from position [p]. *)
Fixpoint PrevInstruction (f : Function_) (p : nat) : option nat :=
  match p with
  | O => None
  | S q => match entries f !! q with
           | Some e => if IsInstruction e then Some q else PrevInstruction f q
           | None => PrevInstruction f q
           end
  end.

(** ** Walking *)

Lemma is_instruction_at f p : is_Some (instruction_at f p) ↔ ∃ e, entries f !! p = Some e ∧ IsInstruction e = true.
Proof.
  unfold instruction_at. destruct (entries f !! p) as [[]|]; simpl; split; try (by intros []); try naive_solver.
Qed.

(** The positions the loops of the pass go through are those of repeated calls. *)
Lemma next_instructions_step f p :
  match NextInstruction f p with
  | None => next_instructions f p = []
  | Some q => (p < q)%nat ∧ next_instructions f p = q :: next_instructions f q
  end.
Proof.
  unfold NextInstruction, next_instructions.
  remember (length (entries f) - S p)%nat as n eqn:En. revert p En.
  induction n as [|n IH]; intros p En.
  { rewrite drop_ge by lia. done. }
  destruct (lookup_lt_is_Some_2 (entries f) (S p)) as [e He]; [lia|].
  rewrite (drop_S _ _ _ He). cbn [first_instruction seq]. rewrite filter_cons.
  destruct (IsInstruction e) eqn:Ei.
  - rewrite decide_True by (apply is_instruction_at; eauto). split; [lia|].
    by replace (length (entries f) - S (S p))%nat with n by lia.
  - rewrite decide_False by (rewrite is_instruction_at; intros (e' & ? & ?); congruence).
    specialize (IH (S p) ltac:(lia)). destruct (first_instruction (S (S p)) _); [|done]. destruct IH. split; [lia|done].
Qed.

Lemma prev_instructions_step f p : (p ≤ length (entries f))%nat →
  match PrevInstruction f p with
  | None => prev_instructions f p = []
  | Some q => (q < p)%nat ∧ prev_instructions f p = q :: prev_instructions f q
  end.
Proof.
  unfold prev_instructions. induction p as [|p IH]; intros Hp; [done|]. cbn [PrevInstruction].
  rewrite seq_S, filter_app, reverse_app. cbn [Nat.add]. rewrite filter_cons, filter_nil.
  destruct (lookup_lt_is_Some_2 (entries f) p) as [e He]; [lia|]. rewrite He.
  destruct (IsInstruction e) eqn:Ei.
  - rewrite decide_True by (apply is_instruction_at; eauto). split; [lia|done].
  - rewrite decide_False by (rewrite is_instruction_at; intros (e' & ? & ?); congruence). simpl.
    specialize (IH ltac:(lia)). destruct (PrevInstruction f p); [|done]. destruct IH. split; [lia|done].
Qed.

(** Calling until there is no further instruction. *)
Fixpoint follow (step : nat → option nat) (fuel p : nat) : list nat :=
  match fuel with
  | O => []
  | S fuel => match step p with None => [] | Some q => q :: follow step fuel q end
  end.

(** ** Instructions and blocks *)

(** [insn_basic_block_map_], with the positions of the instructions as keys. *)
Abbreviation InsnToBBMap := (gmap nat Z).

Definition MapInsnBasicBlock (insn_entry : nat) (bb : Z) : M InsnToBBMap unit :=
  m ← get;
  c_assert (match m !! insn_entry with None => true | Some _ => false end) ;;
  modify (insert insn_entry bb).

Definition FindBasicBlock_insn (m : InsnToBBMap) (insn_entry : nat) : option Z := m !! insn_entry.

(** The lines added to the loop of the graph builder over the entries of a section;
    [current] is the block the builder is in at an entry. *)
Fixpoint map_instructions (current : nat → Z) (p : nat) (es : list MaoEntry) : M InsnToBBMap unit :=
  match es with
  | [] => mret tt
  | e :: es => when (IsInstruction e) (MapInsnBasicBlock p (current p)) ;; map_instructions current (S p) es
  end.

Lemma map_instructions_spec current p es m :
  (∀ q, (p ≤ q)%nat → m !! q = None) →
  ∃ m', map_instructions current p es m = Ret tt m' ∧
    ∀ q, m' !! q = if decide (p ≤ q)%nat
                   then (match es !! (q - p)%nat with Some (Instruction _) => Some (current q) | _ => None end)
                   else m !! q.
Proof.
  revert p m. induction es as [|e es IH]; intros p m Hm; cbn [map_instructions].
  { exists m. split; [done|]. intros q. case_decide; [by apply Hm|done]. }
  set (m1 := if IsInstruction e then <[p := current p]> m else m).
  assert (when (IsInstruction e) (MapInsnBasicBlock p (current p)) m = Ret tt m1) as E1.
  { unfold m1. destruct (IsInstruction e); [|done]. simpl. unfold MapInsnBasicBlock. run_m. by rewrite Hm. }
  rewrite (bind_Ret _ _ _ _ _ E1).
  destruct (IH (S p) m1) as (m' & E2 & Hm').
  { intros q Hq. unfold m1. destruct (IsInstruction e); [rewrite lookup_insert_ne by lia|]; apply Hm; lia. }
  exists m'. split; [done|]. intros q. rewrite Hm'. destruct (decide (q = p)) as [->|Hne].
  - rewrite decide_False, decide_True, Nat.sub_diag by lia. simpl. unfold m1.
    destruct e; simpl; [apply lookup_insert_eq|..]; by apply Hm.
  - destruct (decide (S p ≤ q)%nat).
    + rewrite decide_True by lia. replace (q - p)%nat with (S (q - S p)) by lia. done.
    + rewrite decide_False by lia. unfold m1. destruct (IsInstruction e); [by rewrite lookup_insert_ne|done].
Qed.

Lemma follow_next f n p : (length (entries f) ≤ n + S p)%nat → follow (NextInstruction f) n p = next_instructions f p.
Proof.
  revert p. induction n as [|n IH]; intros p Hn; simpl.
  { unfold next_instructions. by replace (length (entries f) - S p)%nat with 0%nat by lia. }
  pose proof (next_instructions_step f p) as H. destruct (NextInstruction f p) as [q|]; [|done].
  destruct H as [Hq ->]. f_equal. apply IH. lia.
Qed.

Lemma follow_prev f n p : (p ≤ n)%nat → (p ≤ length (entries f))%nat →
  follow (PrevInstruction f) n p = prev_instructions f p.
Proof.
  revert p. induction n as [|n IH]; intros p Hn Hp; simpl.
  { by assert (p = 0%nat) as -> by lia. }
  pose proof (prev_instructions_step f p Hp) as H. destruct (PrevInstruction f p) as [q|]; [|done].
  destruct H as [Hq ->]. f_equal. apply IH; lia.
Qed.

(** ** The property *)

(** C33: what the pass takes from the framework.  The positions its two loops go through
    are those that repeated calls of [NextInstruction] and [PrevInstruction] give, every
    instruction after (before) the first one exactly once and in order, ending with a null
    pointer; and the map filled while the graph is built, which runs without failing its
    assertion, finds for every instruction the block the builder was in at it and nothing
    for other entries. *)
Theorem framework_walks_and_blocks (f : Function_) (current : nat → Z) p :
  (p ≤ length (entries f))%nat →
  follow (NextInstruction f) (length (entries f)) p = next_instructions f p ∧
  follow (PrevInstruction f) (length (entries f)) p = prev_instructions f p ∧
  (∀ q, q ∈ next_instructions f p ++ prev_instructions f p ↔ is_Some (instruction_at f q) ∧ q ≠ p) ∧
  ∃ m, map_instructions current 0 (entries f) ∅ = Ret tt m ∧
    ∀ q, FindBasicBlock_insn m q = if decide (is_Some (instruction_at f q)) then Some (current q) else None.
Proof.
  intros Hp. split; [apply follow_next; lia|]. split; [by apply follow_prev|]. split.
  - intros q. unfold next_instructions, prev_instructions.
    rewrite elem_of_app, elem_of_reverse, !list_elem_of_filter, !elem_of_seq.
    assert (is_Some (instruction_at f q) → (q < length (entries f))%nat).
    { rewrite is_instruction_at. intros (e & He & _). by eapply lookup_lt_Some. }
    split; [intros [[? ?]|[? ?]]; split; try done; lia|]. intros [Hi Hne].
    specialize (H Hi). destruct (decide (q < p)%nat); [right|left]; split; try done; lia.
  - destruct (map_instructions_spec current 0 (entries f) ∅) as (m & E & Hm); [intros; apply lookup_empty|].
    exists m. split; [done|]. intros q. unfold FindBasicBlock_insn. rewrite Hm, decide_True, Nat.sub_0_r by lia.
    unfold instruction_at. destruct (entries f !! q) as [[]|]; [by rewrite decide_True by eauto|..];
      by rewrite decide_False by (intros [? Hx]; discriminate Hx).
Qed.

(** A label, an instruction, a directive, an instruction. *)
Definition demo_fun : Function_ :=
  let i := Instruction (mkInsn OP_mov [] None None 0 false) in
  mkFun "f" [] [OtherEntry; i; LocDirective (Some 1); i] (λ _, Some 0) (λ _, 0%nat) (λ _, 3%nat)
        (λ _, 4) (λ q, 4 * Z.of_nat q) 0 4.

Lemma framework_walks_and_blocks_witness :
  (0 ≤ length (entries demo_fun))%nat ∧
  follow (NextInstruction demo_fun) 4 0 = [1%nat; 3%nat] ∧
  ∃ m, map_instructions (λ _, 7) 0 (entries demo_fun) ∅ = Ret tt m ∧
    ∀ q, FindBasicBlock_insn m q = if decide (is_Some (instruction_at demo_fun q)) then Some 7 else None.
Proof.
  destruct (framework_walks_and_blocks demo_fun (λ _, 7) 0) as (H1 & _ & _ & H2); [simpl; lia|].
  split; [simpl; lia|]. split; [exact H1|exact H2].
Defined.
