(* ===== verification/Layout.v ===== *)
(** * The bytes of a log record

    The log file is binary: [StopBuffer] writes the memory of the records, and every tool
    reads it into a [struct Record] of its own, since racez_bufferdata.h, tools/detect.cc,
    tools/convert.cc, tools/read.cc and mao-patch/patch each declare the structure.  This
    file has the five declarations as C types, the layout the x86-64 ABI gives a C type,
    loads and stores of members in a string of bytes, and the assignments of [WriteRecord]
    on bytes.  LayoutSpec.v has the record of Records.v that a string of bytes stands for. *)

From S2P Require Import Prelude.
From S2P Require Import Records.
From S2P Require Import Buffer.
From stdpp Require Import base numbers list strings.
From coqutil Require Import Byte Word.LittleEndianList.

Open Scope Z_scope.

Abbreviation bytes := (list byte).

(** ** C types

    [CEntry] is [pfm_pebs_core_smpl_entry_t], which the perfmon headers declare. *)

#[warnings="-register-all"]
Inductive ctype :=
  | CInt
  | CEnum (enumerators : list (string * Z))
  | CPtr
  | CEntry
  | CArray (t : ctype) (n : nat)
  | CStruct (fields : list (string * ctype))
  | CUnion (fields : list (string * ctype)).

(** One step from an object into a part of it. *)
Inductive accessor := Fld (f : string) | Idx (i : nat).

(** What the headers say of the entry: its size, its alignment, and the registers its
    bytes hold. *)
Class PebsEntry := {
  entry_size : nat;
  entry_align : nat;
  entry_load : bytes → pebs_entry;
  entry_align_pow : entry_align ∈ [1; 2; 4; 8]%nat;
  entry_size_small : Z.of_nat entry_size < 32768
}.

(** The next multiple of the alignment [a]. *)
Definition align_up (n a : nat) : nat := ((n + (a - 1)) / a * a)%nat.
Arguments align_up : simpl never.

Section layout.
Context `{HE : PebsEntry}.

Fixpoint alignof (t : ctype) : nat :=
  match t with
  | CInt | CEnum _ => 4
  | CPtr => 8
  | CEntry => entry_align
  | CArray t _ => alignof t
  | CStruct fs | CUnion fs =>
      (fix go fs := match fs with [] => 1 | (_, t) :: fs => Nat.max (alignof t) (go fs) end) fs
  end%nat.

Fixpoint sizeof (t : ctype) : nat :=
  match t with
  | CInt | CEnum _ => 4
  | CPtr => 8
  | CEntry => entry_size
  | CArray t n => n * sizeof t
  | CStruct fs =>
      align_up
        ((fix go pos fs := match fs with
                           | [] => pos
                           | (_, t) :: fs => go (align_up pos (alignof t) + sizeof t) fs
                           end) 0 fs) (alignof (CStruct fs))
  | CUnion fs =>
      align_up ((fix go fs := match fs with [] => 0 | (_, t) :: fs => Nat.max (sizeof t) (go fs) end) fs)
               (alignof (CUnion fs))
  end%nat.

(** The offset and the type of a member of a structure whose first [pos] bytes are taken. *)
Fixpoint struct_field (pos : nat) (fs : list (string * ctype)) (f : string) : option (nat * ctype) :=
  match fs with
  | [] => None
  | (g, t) :: fs =>
      if String.eqb f g then Some (align_up pos (alignof t), t)
      else struct_field (align_up pos (alignof t) + sizeof t) fs f
  end.

Fixpoint union_field (fs : list (string * ctype)) (f : string) : option ctype :=
  match fs with
  | [] => None
  | (g, t) :: fs => if String.eqb f g then Some t else union_field fs f
  end.

(** Where the object [p] is inside an object of type [t]. *)
Fixpoint locate (t : ctype) (p : list accessor) : option (nat * ctype) :=
  match p with
  | [] => Some (0%nat, t)
  | a :: p =>
      '(o, t') ← (match t, a with
                  | CStruct fs, Fld f => struct_field 0 fs f
                  | CUnion fs, Fld f => t ← union_field fs f; Some (0%nat, t)
                  | CArray t n, Idx i => if (i <? n)%nat then Some (i * sizeof t, t)%nat else None
                  | _, _ => None
                  end);
      '(o', t'') ← locate t' p;
      Some (o + o', t'')%nat
  end.

(** ** Memory *)

Definition get_bytes (o n : nat) (b : bytes) : bytes := take n (drop o b).
Definition put_bytes (o : nat) (v b : bytes) : bytes := take o b ++ v ++ drop (o + length v) b.

(** The value the bytes of a scalar hold; pointers and enumerations are unsigned. *)
Definition scalar_value (t : ctype) (b : bytes) : option Z :=
  match t with
  | CInt => Some (wrap32 (le_combine b))
  | CEnum _ | CPtr => Some (le_combine b)
  | _ => None
  end.

Definition load (D : ctype) (p : list accessor) (b : bytes) : option Z :=
  '(o, t) ← locate D p;
  if (o + sizeof t <=? length b)%nat then scalar_value t (get_bytes o (sizeof t) b) else None.

Definition store (D : ctype) (p : list accessor) (v : Z) (b : bytes) : option bytes :=
  '(o, t) ← locate D p;
  if (o + sizeof t <=? length b)%nat then Some (put_bytes o (le_split (sizeof t) v) b) else None.

(** [dst.p = src.p] for a structure [p] *)
Definition assign (D : ctype) (p : list accessor) (src dst : bytes) : option bytes :=
  '(o, t) ← locate D p;
  if ((o + sizeof t <=? length src) && (o + sizeof t <=? length dst))%nat%bool
  then Some (put_bytes o (get_bytes o (sizeof t) src) dst) else None.

Definition load_entry (D : ctype) (p : list accessor) (b : bytes) : option pebs_entry :=
  '(o, t) ← locate D p;
  match t with
  | CEntry => if (o + sizeof t <=? length b)%nat then Some (entry_load (get_bytes o (sizeof t) b)) else None
  | _ => None
  end.

(** ** Reading a record with a declaration [D]

    [e] is the name the declaration has for the entry. *)

Definition load_array (D : ctype) (p : list accessor) (n : nat) (b : bytes) : option (list Z) :=
  mapM (λ i, load D (p ++ [Idx i]) b) (seq 0 n).

Definition access (f : string) : list accessor := [Fld "op_"; Fld "memory_access_"; Fld f].
Definition alloc (f : string) : list accessor := [Fld "op_"; Fld "mem_alloc_op_"; Fld f].

Definition read_op (D : ctype) (e : string) (b : bytes) : option op_union :=
  ma ← load D (access "memory_address_") b;
  pip ← load D (access "pip_") b;
  sip ← load D (access "sip_") b;
  wr ← load D (access "is_write_") b;
  en ← load_entry D (access e) b;
  n ← load D (access "lock_count_") b;
  ls ← load_array D (access "lockset_") 10 b;
  Some (mkOp ma pip sip wr en n ls).

Definition read_record (D : ctype) (e : string) (b : bytes) : option RacezRecord :=
  no ← load D [Fld "record_no_"] b;
  tid ← load D [Fld "thread_id_"] b;
  ty ← load D [Fld "type_"] b;
  o ← read_op D e b;
  st ← load_array D [Fld "stack_trace_"] 10 b;
  d ← load D [Fld "trace_depth_"] b;
  Some (mkRecord no tid ty o st d).
End layout.

(** ** The declarations *)

(** racez_bufferdata.h *)
Definition RecordType_bufferdata : ctype :=
  CEnum [("MEMORY_OP", 1); ("SYNC_LOCK", 2); ("SYNC_UNLOCK", 3); ("SYNC_SIGNAL", 4);
         ("SYNC_WAIT", 5); ("MEMORY_ALLOC", 6)].

Definition Record_bufferdata : ctype :=
  CStruct [("record_no_", CInt); ("thread_id_", CInt); ("type_", RecordType_bufferdata);
           ("op_", CUnion [
              ("memory_access_", CStruct [
                 ("memory_address_", CPtr); ("pip_", CPtr); ("sip_", CPtr); ("is_write_", CInt);
                 ("mem_op_", CEntry); ("lock_count_", CInt); ("lockset_", CArray CPtr 10)]);
              ("lock_op_", CStruct [("lock_address_", CPtr)]);
              ("signal_op_", CStruct [("signal_address_", CPtr)]);
              ("wait_op_", CStruct [("wait_address1_", CPtr); ("wait_address2_", CPtr)]);
              ("mem_alloc_op_", CStruct [("start_address_", CPtr); ("size_", CInt); ("is_alloc_", CInt)])]);
           ("stack_trace_", CArray CPtr 10); ("trace_depth_", CInt)].

(** tools/convert.cc *)
Definition RecordType_convert : ctype :=
  CEnum [("MEMORY_OP", 1); ("SYNC_LOCK", 2); ("SYNC_UNLOCK", 3); ("SYNC_SIGNAL", 4);
         ("SYNC_WAIT", 5); ("MEMORY_ALLOC", 6)].

Definition Record_convert : ctype :=
  CStruct [("record_no_", CInt); ("thread_id_", CInt); ("type_", RecordType_convert);
           ("op_", CUnion [
              ("memory_access_", CStruct [
                 ("memory_address_", CPtr); ("pip_", CPtr); ("sip_", CPtr); ("is_write_", CInt);
                 ("mem_op_", CEntry); ("lock_count_", CInt); ("lockset_", CArray CPtr 10)]);
              ("lock_op_", CStruct [("lock_address_", CPtr)]);
              ("signal_op_", CStruct [("signal_address_", CPtr)]);
              ("wait_op_", CStruct [("wait_address1_", CPtr); ("wait_address2_", CPtr)]);
              ("mem_alloc_op_", CStruct [("start_address_", CPtr); ("size_", CInt); ("is_alloc_", CInt)])]);
           ("stack_trace_", CArray CPtr 10); ("trace_depth_", CInt)].

(** tools/detect.cc *)
Definition RecordType_detect : ctype :=
  CEnum [("MEMORY_OP", 1); ("SYNC_LOCK", 2); ("SYNC_UNLOCK", 3); ("SYNC_SIGNAL", 4);
         ("SYNC_WAIT", 5); ("MEMORY_ALLOC", 6)].

Definition Record_detect : ctype :=
  CStruct [("record_no_", CInt); ("thread_id_", CInt); ("type_", RecordType_detect);
           ("op_", CUnion [
              ("memory_access_", CStruct [
                 ("memory_address_", CPtr); ("pip_", CPtr); ("sip_", CPtr); ("is_write_", CInt);
                 ("mem_op_", CEntry); ("lock_count_", CInt); ("lockset_", CArray CPtr 10)]);
              ("lock_op_", CStruct [("lock_address_", CPtr)]);
              ("signal_op_", CStruct [("signal_address_", CPtr)]);
              ("wait_op_", CStruct [("wait_address1_", CPtr); ("wait_address2_", CPtr)]);
              ("mem_alloc_op_", CStruct [("start_address_", CPtr); ("size_", CInt); ("is_alloc_", CInt)])]);
           ("stack_trace_", CArray CPtr 10); ("trace_depth_", CInt)].

(** tools/read.cc *)
Definition RecordType_read : ctype :=
  CEnum [("MEMORY_OP", 1); ("SYNC_LOCK", 2); ("SYNC_UNLOCK", 3); ("SYNC_SIGNAL", 4);
         ("SYNC_WAIT", 5); ("MEMORY_ALLOC", 6)].

Definition Record_read : ctype :=
  CStruct [("record_no_", CInt); ("thread_id_", CInt); ("type_", RecordType_read);
           ("op_", CUnion [
              ("memory_access_", CStruct [
                 ("memory_address_", CPtr); ("pip_", CPtr); ("sip_", CPtr); ("is_write_", CInt);
                 ("mem_op_", CEntry); ("lock_count_", CInt); ("lockset_", CArray CPtr 10)]);
              ("lock_op_", CStruct [("lock_address_", CPtr)]);
              ("signal_op_", CStruct [("signal_address_", CPtr)]);
              ("wait_op_", CStruct [("wait_address1_", CPtr); ("wait_address2_", CPtr)]);
              ("mem_alloc_op_", CStruct [("start_address_", CPtr); ("size_", CInt); ("is_alloc_", CInt)])]);
           ("stack_trace_", CArray CPtr 10); ("trace_depth_", CInt)].

(** mao-patch/patch, where the entry is called [memory_op_] *)
Definition RecordType_mao : ctype :=
  CEnum [("MEMORY_OP", 1); ("SYNC_LOCK", 2); ("SYNC_UNLOCK", 3); ("SYNC_SIGNAL", 4);
         ("SYNC_WAIT", 5); ("MEMORY_ALLOC", 6)].

Definition Record_mao : ctype :=
  CStruct [("record_no_", CInt); ("thread_id_", CInt); ("type_", RecordType_mao);
           ("op_", CUnion [
              ("memory_access_", CStruct [
                 ("memory_address_", CPtr); ("pip_", CPtr); ("sip_", CPtr); ("is_write_", CInt);
                 ("memory_op_", CEntry); ("lock_count_", CInt); ("lockset_", CArray CPtr 10)]);
              ("lock_op_", CStruct [("lock_address_", CPtr)]);
              ("signal_op_", CStruct [("signal_address_", CPtr)]);
              ("wait_op_", CStruct [("wait_address1_", CPtr); ("wait_address2_", CPtr)]);
              ("mem_alloc_op_", CStruct [("start_address_", CPtr); ("size_", CInt); ("is_alloc_", CInt)])]);
           ("stack_trace_", CArray CPtr 10); ("trace_depth_", CInt)].

(** A declaration with its name for the entry. *)
Definition declarations : list (ctype * string) :=
  [(Record_bufferdata, "mem_op_"); (Record_convert, "mem_op_"); (Record_detect, "mem_op_");
   (Record_read, "mem_op_"); (Record_mao, "memory_op_")].

(** ** [WriteRecord] on bytes *)

Section write.
Context `{HE : PebsEntry}.

(** [cur->p = rec->p] for a scalar [p] *)
Definition assign_scalar (p : list accessor) (rec cur : bytes) : option bytes :=
  v ← load Record_bufferdata p rec; store Record_bufferdata p v cur.

(** The body of a loop [cur->p[i] = rec->p[i]] for the indices [ix]. *)
Fixpoint assign_elements (p : list accessor) (ix : list nat) (rec cur : bytes) : option bytes :=
  match ix with
  | [] => Some cur
  | i :: ix => cur ← assign_scalar (p ++ [Idx i]) rec cur; assign_elements p ix rec cur
  end.

(** The branches of [WriteRecord] on the type of the entry. *)
Definition fill_op_bytes (rec cur : bytes) : option bytes :=
  ty ← load Record_bufferdata [Fld "type_"] cur;
  if ty =? RecordType_val MEMORY_OP then
    cur ← assign_scalar (access "memory_address_") rec cur;
    cur ← assign Record_bufferdata (access "mem_op_") rec cur;
    cur ← assign_scalar (access "pip_") rec cur;
    cur ← assign_scalar (access "sip_") rec cur;
    cur ← assign_scalar (access "is_write_") rec cur;
    cur ← assign_scalar (access "lock_count_") rec cur;
    n ← load Record_bufferdata (access "lock_count_") rec;
    assign_elements (access "lockset_") (seq 0 (Z.to_nat n)) rec cur
  else if ty =? RecordType_val MEMORY_ALLOC then
    cur ← assign_scalar (alloc "start_address_") rec cur;
    cur ← assign_scalar (alloc "size_") rec cur;
    assign_scalar (alloc "is_alloc_") rec cur
  else Some cur.

(** The copy of the stack trace. *)
Definition fill_trace_bytes (rec cur : bytes) : option bytes :=
  cur ← assign_scalar [Fld "trace_depth_"] rec cur;
  d ← load Record_bufferdata [Fld "trace_depth_"] cur;
  assign_elements [Fld "stack_trace_"] (seq 0 (Z.to_nat d)) rec cur.

(** [WriteRecord] after the check of [record_no]: [cur] are the bytes of
    [*current_entry], [rec] those of [*record]. *)
Definition fill_bytes (record_no : Z) (rec cur : bytes) : option bytes :=
  cur ← store Record_bufferdata [Fld "record_no_"] record_no cur;
  cur ← assign_scalar [Fld "thread_id_"] rec cur;
  cur ← assign_scalar [Fld "type_"] rec cur;
  cur ← fill_op_bytes rec cur;
  fill_trace_bytes rec cur.

(** [while (fread(record, sizeof(struct Record), 1, fp) == 1)]: the bytes of the complete
    records of a file. *)
Fixpoint fread_all (fuel : nat) (D : ctype) (file : bytes) : list bytes :=
  match fuel with
  | O => []
  | S fuel =>
      if (length file <? sizeof D)%nat then []
      else take (sizeof D) file :: fread_all fuel D (drop (sizeof D) file)
  end.

(** The records a tool with the declaration [d] reads from a log file. *)
Definition read_log (d : ctype * string) (file : bytes) : option (list RacezRecord) :=
  mapM (read_record d.1 d.2) (fread_all (S (length file)) d.1 file).
End write.

(** ** The offsets *)

Section offsets.
Context `{HE : PebsEntry}.

(** Offsets in [memory_access_], from its start. *)
Definition entry_rel : nat := align_up 28 entry_align.
Definition count_rel : nat := align_up (entry_rel + entry_size) 4.
Definition lockset_rel : nat := align_up (count_rel + 4) 8.

(** Offsets in the record. *)
Definition entry_off : nat := 16 + entry_rel.
Definition count_off : nat := 16 + count_rel.
Definition lockset_off : nat := 16 + lockset_rel.
Definition trace_off : nat := lockset_off + 80.
Definition depth_off : nat := trace_off + 80.
Definition record_size : nat := depth_off + 8.

Lemma align_up_range n a : (0 < a)%nat → (n ≤ align_up n a < n + a)%nat.
Proof.
  unfold align_up. intros Ha. pose proof (Nat.div_mod_eq (n + (a - 1)) a).
  pose proof (Nat.mod_upper_bound (n + (a - 1)) a ltac:(lia)). lia.
Qed.

Lemma align_cases : (entry_align = 1 ∨ entry_align = 2 ∨ entry_align = 4 ∨ entry_align = 8)%nat.
Proof. pose proof entry_align_pow as H. rewrite !elem_of_cons, elem_of_nil in H. tauto. Qed.

Lemma offsets_ordered :
  (44 ≤ entry_off ∧ entry_off + entry_size ≤ count_off ∧ count_off + 4 ≤ lockset_off ∧
   record_size ≤ entry_size + 300)%nat.
Proof.
  unfold record_size, depth_off, trace_off, entry_off, count_off, lockset_off.
  pose proof align_cases as Ha. assert (0 < entry_align ≤ 8)%nat by lia.
  pose proof (align_up_range 28 entry_align ltac:(lia)) as He. fold entry_rel in He.
  pose proof (align_up_range (entry_rel + entry_size) 4 ltac:(lia)) as Hc. fold count_rel in Hc.
  pose proof (align_up_range (count_rel + 4) 8 ltac:(lia)) as Hl. fold lockset_rel in Hl. lia.
Qed.

Lemma align_up_multiple n a q : (0 < a)%nat → (n = q * a)%nat → align_up n a = n.
Proof.
  unfold align_up. intros Ha ->. rewrite Nat.div_add_l, (Nat.div_small (a - 1)) by lia. lia.
Qed.

Lemma max_entry_align : (entry_align `max` 8 = 8)%nat.
Proof. pose proof align_cases. lia. Qed.

(** The lockset ends at a multiple of eight, and so does everything after it. *)
Lemma after_lockset :
  align_up (16 + align_up (align_up (lockset_rel + 80) 8 `max` 16) 8) 8 = trace_off ∧
  align_up (trace_off + 80) 4 = depth_off ∧ align_up (depth_off + 4) 8 = record_size.
Proof.
  assert (∃ q, lockset_rel = q * 8)%nat as [q E] by (eexists; reflexivity).
  unfold record_size, depth_off, trace_off, lockset_off. rewrite E.
  rewrite (align_up_multiple (q * 8 + 80) 8 (q + 10)) by lia. rewrite Nat.max_l by lia.
  rewrite (align_up_multiple (q * 8 + 80) 8 (q + 10)) by lia.
  rewrite (align_up_multiple (16 + (q * 8 + 80)) 8 (q + 12)) by lia.
  rewrite (align_up_multiple (16 + q * 8 + 80 + 80) 4 (2 * q + 44)) by lia. split; [lia|split; [done|]].
  replace (16 + q * 8 + 80 + 80 + 4)%nat with ((q + 22) * 8 + 4)%nat by lia.
  unfold align_up. replace ((q + 22) * 8 + 4 + (8 - 1))%nat with ((q + 23) * 8 + 3)%nat by lia.
  rewrite Nat.div_add_l by lia. simpl. lia.
Qed.

(** Evaluates the offset of a member. *)
Local Ltac offsets :=
  simpl; rewrite ?max_entry_align; fold entry_rel count_rel lockset_rel; cbn [Nat.max];
  change (align_up 12 8) with 16%nat; rewrite ?Nat.add_0_r;
  destruct after_lockset as (E1 & E2 & E3); rewrite ?E1, ?E2, ?E3; reflexivity.

Lemma sizeof_Record_bufferdata : sizeof Record_bufferdata = record_size.
Proof. offsets. Qed.

Lemma locate_record_no : locate Record_bufferdata [Fld "record_no_"] = Some (0%nat, CInt).
Proof. offsets. Qed.
Lemma locate_thread_id : locate Record_bufferdata [Fld "thread_id_"] = Some (4%nat, CInt).
Proof. offsets. Qed.
Lemma locate_type : locate Record_bufferdata [Fld "type_"] = Some (8%nat, RecordType_bufferdata).
Proof. offsets. Qed.
Lemma locate_memory_address : locate Record_bufferdata (access "memory_address_") = Some (16%nat, CPtr).
Proof. offsets. Qed.
Lemma locate_pip : locate Record_bufferdata (access "pip_") = Some (24%nat, CPtr).
Proof. offsets. Qed.
Lemma locate_sip : locate Record_bufferdata (access "sip_") = Some (32%nat, CPtr).
Proof. offsets. Qed.
Lemma locate_is_write : locate Record_bufferdata (access "is_write_") = Some (40%nat, CInt).
Proof. offsets. Qed.
Lemma locate_mem_op : locate Record_bufferdata (access "mem_op_") = Some (entry_off, CEntry).
Proof. offsets. Qed.
Lemma locate_lock_count : locate Record_bufferdata (access "lock_count_") = Some (count_off, CInt).
Proof. offsets. Qed.
Lemma locate_trace_depth : locate Record_bufferdata [Fld "trace_depth_"] = Some (depth_off, CInt).
Proof. offsets. Qed.

(** The smaller members of the union. *)
Lemma locate_start_address : locate Record_bufferdata (alloc "start_address_") = Some (16%nat, CPtr).
Proof. offsets. Qed.
Lemma locate_size : locate Record_bufferdata (alloc "size_") = Some (24%nat, CInt).
Proof. offsets. Qed.
Lemma locate_is_alloc : locate Record_bufferdata (alloc "is_alloc_") = Some (28%nat, CInt).
Proof. offsets. Qed.
Lemma locate_lock_address :
  locate Record_bufferdata [Fld "op_"; Fld "lock_op_"; Fld "lock_address_"] = Some (16%nat, CPtr).
Proof. offsets. Qed.
Lemma locate_signal_address :
  locate Record_bufferdata [Fld "op_"; Fld "signal_op_"; Fld "signal_address_"] = Some (16%nat, CPtr).
Proof. offsets. Qed.
Lemma locate_wait_address1 :
  locate Record_bufferdata [Fld "op_"; Fld "wait_op_"; Fld "wait_address1_"] = Some (16%nat, CPtr).
Proof. offsets. Qed.
Lemma locate_wait_address2 :
  locate Record_bufferdata [Fld "op_"; Fld "wait_op_"; Fld "wait_address2_"] = Some (24%nat, CPtr).
Proof. offsets. Qed.

(** An element inside the array, and one behind it. *)
Lemma locate_app t p q o t' : locate t p = Some (o, t') →
  locate t (p ++ q) = '(o', t'') ← locate t' q; Some ((o + o')%nat, t'').
Proof.
  revert t o. induction p as [|a p IH]; intros t o; simpl.
  { intros [= <- <-]. by destruct (locate t q) as [[]|]. }
  destruct (match t with CArray _ _ => _ | _ => _ end) as [[o1 t1]|]; simpl; [|done].
  destruct (locate t1 p) as [[o2 t2]|] eqn:E; simpl; [|done]. intros [= <- <-].
  rewrite (IH _ _ E). destruct (locate t2 q) as [[]|]; simpl; [|done]. by rewrite Nat.add_assoc.
Qed.

Lemma locate_lockset : locate Record_bufferdata (access "lockset_") = Some (lockset_off, CArray CPtr 10).
Proof. offsets. Qed.
Lemma locate_stack_trace : locate Record_bufferdata [Fld "stack_trace_"] = Some (trace_off, CArray CPtr 10).
Proof. offsets. Qed.

Lemma locate_lock i : locate Record_bufferdata (access "lockset_" ++ [Idx i]) =
  if (i <? 10)%nat then Some ((lockset_off + 8 * i)%nat, CPtr) else None.
Proof.
  rewrite (locate_app _ _ _ _ _ locate_lockset). cbn -[Nat.ltb Nat.mul].
  destruct (i <? 10)%nat; simpl; [|done]. do 2 f_equal. lia.
Qed.
Lemma locate_frame i : locate Record_bufferdata ([Fld "stack_trace_"] ++ [Idx i]) =
  if (i <? 10)%nat then Some ((trace_off + 8 * i)%nat, CPtr) else None.
Proof.
  rewrite (locate_app _ _ _ _ _ locate_stack_trace). cbn -[Nat.ltb Nat.mul].
  destruct (i <? 10)%nat; simpl; [|done]. do 2 f_equal. lia.
Qed.
End offsets.
