(* ===== verification/LayoutSpec.v ===== *)
(** * What the bytes of a record mean

    [view] reads the record of Records.v out of the bytes of a [struct Record].  The
    smaller members of the union are the views of Records.v; every tool's declaration
    reads the same record; the assignments of [WriteRecord] on bytes have the effect they
    have on records; a log file read with any of the declarations gives the records
    written to it. *)

From S2P Require Import Prelude.
From S2P Require Import Records.
From S2P Require Import Buffer.
From S2P Require Import Layout.
From stdpp Require Import base numbers list sets strings.
From coqutil Require Import Byte Word.LittleEndianList.

Open Scope Z_scope.

(** ** Reading and writing ranges of bytes *)

Lemma length_get_bytes o n b : (o + n ≤ length b)%nat → length (get_bytes o n b) = n.
Proof. intros. unfold get_bytes. rewrite length_take, length_drop. lia. Qed.

Lemma length_put_bytes o v b : (o + length v ≤ length b)%nat → length (put_bytes o v b) = length b.
Proof. intros. unfold put_bytes. rewrite !length_app, length_take, length_drop. lia. Qed.

Lemma get_put_same o v b : (o + length v ≤ length b)%nat → get_bytes o (length v) (put_bytes o v b) = v.
Proof.
  intros. unfold get_bytes, put_bytes. rewrite drop_app_length' by (rewrite length_take; lia).
  by rewrite take_app_length.
Qed.

Lemma get_put_other o v o' n b :
  (o + length v ≤ length b)%nat → (o' + n ≤ o ∨ o + length v ≤ o')%nat →
  get_bytes o' n (put_bytes o v b) = get_bytes o' n b.
Proof.
  intros Hl [H|H]; unfold get_bytes, put_bytes.
  - rewrite !take_drop_commute, take_app_le by (rewrite length_take; lia).
    by rewrite take_take, Nat.min_l by lia.
  - rewrite app_assoc, drop_app_ge by (rewrite length_app, length_take; lia).
    rewrite length_app, length_take, drop_drop, Nat.min_l by lia. do 2 f_equal. lia.
Qed.

Lemma get_bytes_split o m n b : get_bytes o (m + n) b = get_bytes o m b ++ get_bytes (o + m) n b.
Proof. unfold get_bytes. rewrite <- drop_drop, <- take_take_drop. done. Qed.

(** ** The record in the bytes *)

Section view.
Context `{HE : PebsEntry}.

Definition word_at (o : nat) (b : bytes) : Z := le_combine (get_bytes o 8 b).
Definition uint_at (o : nat) (b : bytes) : Z := le_combine (get_bytes o 4 b).
Definition int_at (o : nat) (b : bytes) : Z := wrap32 (uint_at o b).
Definition words_at (o n : nat) (b : bytes) : list Z := (λ i, word_at (o + 8 * i) b) <$> seq 0 n.

Definition view_op (b : bytes) : op_union :=
  mkOp (word_at 16 b) (word_at 24 b) (word_at 32 b) (int_at 40 b)
       (entry_load (get_bytes entry_off entry_size b)) (int_at count_off b) (words_at lockset_off 10 b).

Definition view (b : bytes) : RacezRecord :=
  mkRecord (int_at 0 b) (int_at 4 b) (uint_at 8 b) (view_op b) (words_at trace_off 10 b) (int_at depth_off b).

(** ** Halves of words *)

Lemma uint_range o b : 0 ≤ uint_at o b < 2 ^ 32.
Proof.
  unfold uint_at. pose proof (le_combine_bound (get_bytes o 4 b)) as [H1 H2]. split; [done|].
  eapply Z.lt_le_trans; [exact H2|]. apply Z.pow_le_mono_r; [lia|].
  unfold get_bytes. rewrite length_take. lia.
Qed.

Lemma word_range o b : is_word (word_at o b).
Proof.
  unfold is_word, word_at. pose proof (le_combine_bound (get_bytes o 8 b)) as [H1 H2]. split; [done|].
  eapply Z.lt_le_trans; [exact H2|]. apply Z.pow_le_mono_r; [lia|].
  unfold get_bytes. rewrite length_take. lia.
Qed.

Lemma low_half o b : uint_at o b = word_at o b mod 2 ^ 32.
Proof.
  unfold uint_at, word_at. rewrite <- (le_combine_firstn 4). f_equal.
  unfold get_bytes. by rewrite take_take.
Qed.

Lemma high_half o b : (o + 8 ≤ length b)%nat → uint_at (o + 4) b = word_at o b / 2 ^ 32.
Proof.
  intros Hl. unfold word_at. rewrite (get_bytes_split o 4 4), le_combine_app, length_get_bytes by lia.
  change (Z.of_nat 4 * 8) with 32. rewrite <- Z.shiftr_div_pow2, Z.shiftr_lor by lia.
  rewrite (Z.shiftr_div_pow2 (le_combine _) 32) by lia.
  rewrite (Z.div_small _ (2 ^ 32)) by apply (uint_range o b).
  rewrite Z.shiftr_shiftl_l, Z.sub_diag, Z.shiftl_0_r by lia. done.
Qed.

Lemma word_halves o b : (o + 8 ≤ length b)%nat → word_at o b = uint_at (o + 4) b * 2 ^ 32 + uint_at o b.
Proof. intros. rewrite high_half, low_half by done. rewrite Z.mul_comm. by apply Z.div_mod. Qed.

Lemma view_wf b : record_wf (view b).
Proof. split; [split|]; simpl; try apply word_range; done. Qed.

(** ** What a store changes *)

Lemma uint_at_put_same o v b :
  (o + 4 ≤ length b)%nat → uint_at o (put_bytes o (le_split 4 v) b) = v mod 2 ^ 32.
Proof.
  intros. pose proof (length_le_split 4 v) as E. unfold uint_at.
  rewrite <- E at 1. rewrite get_put_same by lia. apply (le_combine_split 4).
Qed.
Lemma int_at_put_same o v b :
  (o + 4 ≤ length b)%nat → int_at o (put_bytes o (le_split 4 v) b) = wrap32 v.
Proof. intros. unfold int_at. rewrite uint_at_put_same by done. apply wrap32_mod. Qed.
Lemma word_at_put_same o v b :
  (o + 8 ≤ length b)%nat → word_at o (put_bytes o (le_split 8 v) b) = wrap64 v.
Proof.
  intros. pose proof (length_le_split 8 v) as E. unfold word_at.
  rewrite <- E at 1. rewrite get_put_same by lia. apply (le_combine_split 8).
Qed.

Lemma uint_at_put_other o v o' b : (o + length v ≤ length b)%nat → (o' + 4 ≤ o ∨ o + length v ≤ o')%nat →
  uint_at o' (put_bytes o v b) = uint_at o' b.
Proof. intros. unfold uint_at. by rewrite get_put_other. Qed.
Lemma int_at_put_other o v o' b : (o + length v ≤ length b)%nat → (o' + 4 ≤ o ∨ o + length v ≤ o')%nat →
  int_at o' (put_bytes o v b) = int_at o' b.
Proof. intros. unfold int_at. by rewrite uint_at_put_other. Qed.
Lemma word_at_put_other o v o' b : (o + length v ≤ length b)%nat → (o' + 8 ≤ o ∨ o + length v ≤ o')%nat →
  word_at o' (put_bytes o v b) = word_at o' b.
Proof. intros. unfold word_at. by rewrite get_put_other. Qed.
Lemma words_at_put_other o v o' n b :
  (o + length v ≤ length b)%nat → (o' + 8 * n ≤ o ∨ o + length v ≤ o')%nat →
  words_at o' n (put_bytes o v b) = words_at o' n b.
Proof.
  intros Hl Ho. unfold words_at. apply list_fmap_ext. intros i j Hj. apply lookup_seq in Hj as [-> ?].
  apply word_at_put_other; lia.
Qed.
Lemma words_at_put_same o n i v b :
  (o + 8 * n ≤ length b)%nat → (i < n)%nat →
  words_at o n (put_bytes (o + 8 * i) (le_split 8 v) b) = <[i := wrap64 v]> (words_at o n b).
Proof.
  intros Hl Hi. pose proof (length_le_split 8 v) as E. unfold words_at. apply list_eq. intros j.
  destruct (decide (j = i)) as [->|Hj].
  - rewrite list_lookup_insert_eq by (rewrite length_fmap, length_seq; lia).
    rewrite list_lookup_fmap, lookup_seq_lt by lia. simpl. by rewrite word_at_put_same by lia.
  - rewrite list_lookup_insert_ne by done. rewrite !list_lookup_fmap.
    destruct (seq 0 n !! j) as [k|] eqn:Ek; [|done]. apply lookup_seq in Ek as [-> ?]. simpl.
    by rewrite word_at_put_other by lia.
Qed.
End view.

(** ** Loads and stores of members *)

Section members.
Context `{HE : PebsEntry}.

Lemma load_at D p o t b :
  locate D p = Some (o, t) → (o + sizeof t ≤ length b)%nat →
  load D p b = scalar_value t (get_bytes o (sizeof t) b).
Proof. intros E H. unfold load. rewrite E. simpl. by rewrite (proj2 (Nat.leb_le _ _) H). Qed.

Lemma store_at D p o t v b :
  locate D p = Some (o, t) → (o + sizeof t ≤ length b)%nat →
  store D p v b = Some (put_bytes o (le_split (sizeof t) v) b).
Proof. intros E H. unfold store. rewrite E. simpl. by rewrite (proj2 (Nat.leb_le _ _) H). Qed.

(** The bytes of a record after a computation that yields bytes. *)
Definition yields (m : option bytes) (r : RacezRecord) : Prop :=
  ∃ b, m = Some b ∧ length b = record_size ∧ view b = r.

Lemma yields_bind m k r r' :
  yields m r → (∀ b, length b = record_size → view b = r → yields (k b) r') → yields (m ≫= k) r'.
Proof. intros (b & -> & Hl & Hv) Hk. by apply Hk. Qed.

(** Solves a bound on offsets, with the order of the offsets in the context. *)
Local Ltac bound :=
  pose proof offsets_ordered; unfold record_size, depth_off, trace_off in *; cbn [sizeof RecordType_bufferdata]; rewrite ?length_le_split; lia.

(** A store at a known offset: the field at that offset is new, the others are kept. *)
Local Ltac stored L :=
  rewrite (store_at _ _ _ _ _ _ L) by bound; eexists; split_and!; [done|rewrite length_put_bytes by bound; done|];
  cbn [sizeof RecordType_bufferdata]; unfold view, view_op;
  rewrite ?int_at_put_same, ?word_at_put_same, ?uint_at_put_same, ?words_at_put_same by bound;
  rewrite ?int_at_put_other, ?word_at_put_other, ?uint_at_put_other, ?words_at_put_other, ?get_put_other by bound;
  done.

Context (v : Z) (b : bytes) (Hl : length b = record_size).

Lemma store_record_no :
  yields (store Record_bufferdata [Fld "record_no_"] v b) (set_record_no (wrap32 v) (view b)).
Proof. stored locate_record_no. Qed.
Lemma store_thread_id :
  yields (store Record_bufferdata [Fld "thread_id_"] v b) (set_thread_id (wrap32 v) (view b)).
Proof. stored locate_thread_id. Qed.
Lemma store_memory_address :
  yields (store Record_bufferdata (access "memory_address_") v b) (upd_op (set_memory_address (wrap64 v)) (view b)).
Proof. stored locate_memory_address. Qed.
Lemma store_pip : yields (store Record_bufferdata (access "pip_") v b) (upd_op (set_pip (wrap64 v)) (view b)).
Proof. stored locate_pip. Qed.
Lemma store_sip : yields (store Record_bufferdata (access "sip_") v b) (upd_op (set_sip (wrap64 v)) (view b)).
Proof. stored locate_sip. Qed.
Lemma store_is_write :
  yields (store Record_bufferdata (access "is_write_") v b) (upd_op (set_is_write (wrap32 v)) (view b)).
Proof. stored locate_is_write. Qed.
Lemma store_lock_count :
  yields (store Record_bufferdata (access "lock_count_") v b) (upd_op (set_lock_count (wrap32 v)) (view b)).
Proof. stored locate_lock_count. Qed.
Lemma store_trace_depth :
  yields (store Record_bufferdata [Fld "trace_depth_"] v b) (set_trace (stack_trace_ (view b)) (wrap32 v) (view b)).
Proof. stored locate_trace_depth. Qed.
Lemma store_type :
  yields (store Record_bufferdata [Fld "type_"] v b)
         (mkRecord (record_no_ (view b)) (thread_id_ (view b)) (v mod 2 ^ 32) (op_ (view b))
                   (stack_trace_ (view b)) (trace_depth_ (view b))).
Proof. stored locate_type. Qed.
Lemma store_lock i : (i < 10)%nat →
  yields (store Record_bufferdata (access "lockset_" ++ [Idx i]) v b)
         (upd_op (λ o, set_lockset (<[i := wrap64 v]> (lockset_ o)) o) (view b)).
Proof.
  intros Hi. pose proof (locate_lock i) as L. rewrite (proj2 (Nat.ltb_lt _ _) Hi) in L. stored L.
Qed.
Lemma store_frame i : (i < 10)%nat →
  yields (store Record_bufferdata ([Fld "stack_trace_"] ++ [Idx i]) v b)
         (set_trace (<[i := wrap64 v]> (stack_trace_ (view b))) (trace_depth_ (view b)) (view b)).
Proof.
  intros Hi. pose proof (locate_frame i) as L. rewrite (proj2 (Nat.ltb_lt _ _) Hi) in L. stored L.
Qed.

(** The two integers of [mem_alloc_op_] are the halves of [pip_]. *)
Local Ltac half_stored L :=
  rewrite (store_at _ _ _ _ _ _ L) by bound; eexists; split_and!; [done|rewrite length_put_bytes by bound; done|];
  cbn [sizeof]; unfold view, view_op;
  rewrite (word_halves 24) by (rewrite length_put_bytes by bound; bound); cbn [Nat.add];
  rewrite ?uint_at_put_same by bound;
  rewrite ?int_at_put_other, ?word_at_put_other, ?uint_at_put_other, ?words_at_put_other, ?get_put_other by bound;
  unfold upd_op, set_alloc_size, set_alloc_flag; simpl; rewrite <- ?(high_half 24), <- ?(low_half 24) by bound;
  done.

Lemma store_size : yields (store Record_bufferdata (alloc "size_") v b) (upd_op (set_alloc_size v) (view b)).
Proof. half_stored locate_size. Qed.
Lemma store_is_alloc : yields (store Record_bufferdata (alloc "is_alloc_") v b) (upd_op (set_alloc_flag v) (view b)).
Proof. half_stored locate_is_alloc. Qed.

Lemma assign_entry rec : length rec = record_size →
  yields (assign Record_bufferdata (access "mem_op_") rec b) (upd_op (set_mem_op (mem_op_ (op_ (view rec)))) (view b)).
Proof.
  intros Hr. pose proof offsets_ordered as Ho. unfold assign. rewrite locate_mem_op.
  unfold record_size, depth_off, trace_off in *. cbn [mbind option_bind sizeof].
  rewrite !(proj2 (Nat.leb_le _ _)) by lia. cbn [andb].
  assert (length (get_bytes entry_off entry_size rec) = entry_size) as El by (apply length_get_bytes; lia).
  eexists; split_and!; [done|rewrite length_put_bytes by lia; done|]. unfold view, view_op.
  rewrite ?int_at_put_other, ?word_at_put_other, ?uint_at_put_other, ?words_at_put_other
    by (unfold depth_off, trace_off in *; lia).
  replace (get_bytes entry_off entry_size (put_bytes entry_off (get_bytes entry_off entry_size rec) b))
    with (get_bytes entry_off entry_size rec); [done|].
  rewrite <- El at 2. by rewrite get_put_same by lia.
Qed.
End members.

Section loads.
Context `{HE : PebsEntry}.
Context (b : bytes) (Hl : length b = record_size).

(** A load at a known offset. *)
Local Ltac loaded L :=
  rewrite (load_at _ _ _ _ _ L)
    by (pose proof offsets_ordered; unfold record_size, depth_off, trace_off in *;
        cbn [sizeof RecordType_bufferdata]; lia); done.

Lemma load_record_no : load Record_bufferdata [Fld "record_no_"] b = Some (record_no_ (view b)).
Proof. loaded locate_record_no. Qed.
Lemma load_thread_id : load Record_bufferdata [Fld "thread_id_"] b = Some (thread_id_ (view b)).
Proof. loaded locate_thread_id. Qed.
Lemma load_type : load Record_bufferdata [Fld "type_"] b = Some (type_ (view b)).
Proof. loaded locate_type. Qed.
Lemma load_memory_address :
  load Record_bufferdata (access "memory_address_") b = Some (memory_address_ (op_ (view b))).
Proof. loaded locate_memory_address. Qed.
Lemma load_pip : load Record_bufferdata (access "pip_") b = Some (pip_ (op_ (view b))).
Proof. loaded locate_pip. Qed.
Lemma load_sip : load Record_bufferdata (access "sip_") b = Some (sip_ (op_ (view b))).
Proof. loaded locate_sip. Qed.
Lemma load_is_write : load Record_bufferdata (access "is_write_") b = Some (is_write_ (op_ (view b))).
Proof. loaded locate_is_write. Qed.
Lemma load_lock_count : load Record_bufferdata (access "lock_count_") b = Some (lock_count_ (op_ (view b))).
Proof. loaded locate_lock_count. Qed.
Lemma load_trace_depth : load Record_bufferdata [Fld "trace_depth_"] b = Some (trace_depth_ (view b)).
Proof. loaded locate_trace_depth. Qed.
Lemma load_mem_op : load_entry Record_bufferdata (access "mem_op_") b = Some (mem_op_ (op_ (view b))).
Proof.
  unfold load_entry. rewrite locate_mem_op. cbn [mbind option_bind sizeof].
  pose proof offsets_ordered. unfold record_size, depth_off, trace_off in *.
  by rewrite (proj2 (Nat.leb_le _ _)) by lia.
Qed.

Lemma nth_words_at o n i : (i < n)%nat → nth_word (words_at o n b) i = word_at (o + 8 * i) b.
Proof. intros. unfold nth_word, words_at. by rewrite list_lookup_fmap, lookup_seq_lt by done. Qed.

Lemma load_lock i : load Record_bufferdata (access "lockset_" ++ [Idx i]) b =
  if (i <? 10)%nat then Some (nth_word (lockset_ (op_ (view b))) i) else None.
Proof.
  pose proof (locate_lock i) as L. destruct (Nat.ltb_spec i 10).
  - simpl. rewrite nth_words_at by done. loaded L.
  - unfold load. by rewrite L.
Qed.
Lemma load_frame i : load Record_bufferdata ([Fld "stack_trace_"] ++ [Idx i]) b =
  if (i <? 10)%nat then Some (nth_word (stack_trace_ (view b)) i) else None.
Proof.
  pose proof (locate_frame i) as L. destruct (Nat.ltb_spec i 10).
  - simpl. rewrite nth_words_at by done. loaded L.
  - unfold load. by rewrite L.
Qed.

(** The members of the union that overlay [memory_access_]. *)
Lemma load_start_address : load Record_bufferdata (alloc "start_address_") b = Some (start_address_ (op_ (view b))).
Proof. loaded locate_start_address. Qed.
Lemma load_size : load Record_bufferdata (alloc "size_") b = Some (size_ (op_ (view b))).
Proof. unfold size_. simpl. rewrite <- wrap32_mod, <- low_half. loaded locate_size. Qed.
Lemma load_is_alloc : load Record_bufferdata (alloc "is_alloc_") b = Some (is_alloc_ (op_ (view b))).
Proof.
  unfold is_alloc_. simpl. rewrite <- high_half; [loaded locate_is_alloc|].
  pose proof offsets_ordered. unfold record_size, depth_off, trace_off in *. lia.
Qed.
End loads.

(** ** [WriteRecord] on bytes *)

Section write.
Context `{HE : PebsEntry}.

Lemma int_at_id o b : wrap32 (int_at o b) = int_at o b.
Proof. apply wrap32_id, wrap32_range. Qed.
Lemma word_at_id o b : wrap64 (word_at o b) = word_at o b.
Proof. apply wrap64_id, word_range. Qed.

Section assignments.
Context (rec : bytes) (Hr : length rec = record_size) (b : bytes) (Hl : length b = record_size).
Abbreviation r := (view rec).

(** [b->p = rec->p], from the load and the store. *)
Local Ltac assigned L S :=
  unfold assign_scalar; rewrite (L rec Hr); cbn [mbind option_bind]; eapply S; exact Hl.

Lemma assign_thread_id : yields (assign_scalar [Fld "thread_id_"] rec b) (set_thread_id (thread_id_ r) (view b)).
Proof. rewrite <- (int_at_id 4 rec : wrap32 (thread_id_ r) = thread_id_ r). assigned load_thread_id store_thread_id. Qed.
Lemma assign_type : yields (assign_scalar [Fld "type_"] rec b)
  (mkRecord (record_no_ (view b)) (thread_id_ (view b)) (type_ r) (op_ (view b))
            (stack_trace_ (view b)) (trace_depth_ (view b))).
Proof. rewrite <- (Z.mod_small (type_ r) (2 ^ 32)) by apply uint_range. assigned load_type store_type. Qed.
Lemma assign_memory_address :
  yields (assign_scalar (access "memory_address_") rec b) (upd_op (set_memory_address (memory_address_ (op_ r))) (view b)).
Proof. rewrite <- (word_at_id 16 rec : wrap64 (memory_address_ (op_ r)) = memory_address_ (op_ r)). assigned load_memory_address store_memory_address. Qed.
Lemma assign_pip : yields (assign_scalar (access "pip_") rec b) (upd_op (set_pip (pip_ (op_ r))) (view b)).
Proof. rewrite <- (word_at_id 24 rec : wrap64 (pip_ (op_ r)) = pip_ (op_ r)). assigned load_pip store_pip. Qed.
Lemma assign_sip : yields (assign_scalar (access "sip_") rec b) (upd_op (set_sip (sip_ (op_ r))) (view b)).
Proof. rewrite <- (word_at_id 32 rec : wrap64 (sip_ (op_ r)) = sip_ (op_ r)). assigned load_sip store_sip. Qed.
Lemma assign_is_write :
  yields (assign_scalar (access "is_write_") rec b) (upd_op (set_is_write (is_write_ (op_ r))) (view b)).
Proof. rewrite <- (int_at_id 40 rec : wrap32 (is_write_ (op_ r)) = is_write_ (op_ r)). assigned load_is_write store_is_write. Qed.
Lemma assign_lock_count :
  yields (assign_scalar (access "lock_count_") rec b) (upd_op (set_lock_count (lock_count_ (op_ r))) (view b)).
Proof. rewrite <- (int_at_id count_off rec : wrap32 (lock_count_ (op_ r)) = lock_count_ (op_ r)). assigned load_lock_count store_lock_count. Qed.
Lemma assign_trace_depth :
  yields (assign_scalar [Fld "trace_depth_"] rec b) (set_trace (stack_trace_ (view b)) (trace_depth_ r) (view b)).
Proof. rewrite <- (int_at_id depth_off rec : wrap32 (trace_depth_ r) = trace_depth_ r). assigned load_trace_depth store_trace_depth. Qed.
Lemma assign_start_address :
  yields (assign_scalar (alloc "start_address_") rec b) (upd_op (set_memory_address (start_address_ (op_ r))) (view b)).
Proof.
  rewrite <- (word_at_id 16 rec : wrap64 (start_address_ (op_ r)) = start_address_ (op_ r)). unfold assign_scalar. rewrite (load_start_address rec Hr).
  cbn [mbind option_bind]. unfold store. rewrite locate_start_address, <- locate_memory_address.
  by apply store_memory_address.
Qed.
Lemma assign_size : yields (assign_scalar (alloc "size_") rec b) (upd_op (set_alloc_size (size_ (op_ r))) (view b)).
Proof. assigned load_size store_size. Qed.
Lemma assign_is_alloc :
  yields (assign_scalar (alloc "is_alloc_") rec b) (upd_op (set_alloc_flag (is_alloc_ (op_ r))) (view b)).
Proof. assigned load_is_alloc store_is_alloc. Qed.

Lemma assign_lock i : (i < 10)%nat → yields (assign_scalar (access "lockset_" ++ [Idx i]) rec b) (copy_lock r i (view b)).
Proof.
  intros Hi. unfold assign_scalar. rewrite (load_lock rec Hr), (proj2 (Nat.ltb_lt _ _) Hi).
  cbn [mbind option_bind]. unfold copy_lock.
  pose proof (store_lock (nth_word (lockset_ (op_ r)) i) b Hl i Hi) as S.
  simpl in S |- *. rewrite nth_words_at in S |- * by done. by rewrite word_at_id in S.
Qed.
Lemma assign_frame i : (i < 10)%nat → yields (assign_scalar ([Fld "stack_trace_"] ++ [Idx i]) rec b) (copy_frame r i (view b)).
Proof.
  intros Hi. unfold assign_scalar. rewrite (load_frame rec Hr), (proj2 (Nat.ltb_lt _ _) Hi).
  cbn [mbind option_bind]. unfold copy_frame.
  pose proof (store_frame (nth_word (stack_trace_ r) i) b Hl i Hi) as S.
  simpl in S |- *. rewrite nth_words_at in S |- * by done. by rewrite word_at_id in S.
Qed.
End assignments.

(** The copy loops: within the array they copy element by element, behind it they leave
    the array. *)
Lemma assign_elements_spec (p : list accessor) (step : RacezRecord → nat → RacezRecord → RacezRecord) rec ix b :
  (∀ i b, length b = record_size → (i < 10)%nat → yields (assign_scalar (p ++ [Idx i]) rec b) (step (view rec) i (view b))) →
  length b = record_size → Forall (λ i, (i < 10)%nat) ix →
  yields (assign_elements p ix rec b) (apply_stores (view b) (step (view rec) <$> ix)).
Proof.
  intros Hstep Hl Hix. revert b Hl. induction Hix as [|i ix Hi _ IH]; intros b Hl; simpl.
  { by exists b. }
  eapply yields_bind; [by apply Hstep|]. intros c Hc Hv. rewrite <- Hv. by apply IH.
Qed.

Lemma assign_elements_out (p : list accessor) rec ix b :
  (∀ b, assign_scalar (p ++ [Idx 10]) rec b = None) → 10%nat ∈ ix → assign_elements p ix rec b = None.
Proof.
  intros H10 Hin. revert b. induction ix as [|i ix IH]; intros b; [by apply elem_of_nil in Hin|].
  apply elem_of_cons in Hin as [<-|Hin]; simpl; [by rewrite H10|].
  destruct (assign_scalar _ rec b) as [c|]; [|done]. by apply IH.
Qed.

Lemma seq_in_array n : n ≤ 10 → Forall (λ i, (i < 10)%nat) (seq 0 (Z.to_nat n)).
Proof. intros. apply Forall_seq. lia. Qed.

Section fill.
Context (rec : bytes) (Hr : length rec = record_size).
Abbreviation r := (view rec).

Lemma assign_locks n b : length b = record_size → n ≤ 10 →
  yields (assign_elements (access "lockset_") (seq 0 (Z.to_nat n)) rec b)
         (apply_stores (view b) (copy_lock r <$> seq 0 (Z.to_nat n))).
Proof. intros. apply assign_elements_spec; [|done|by apply seq_in_array]. intros. by apply assign_lock. Qed.
Lemma assign_frames n b : length b = record_size → n ≤ 10 →
  yields (assign_elements [Fld "stack_trace_"] (seq 0 (Z.to_nat n)) rec b)
         (apply_stores (view b) (copy_frame r <$> seq 0 (Z.to_nat n))).
Proof. intros. apply assign_elements_spec; [|done|by apply seq_in_array]. intros. by apply assign_frame. Qed.

Lemma assign_locks_out n b : 10 < n → assign_elements (access "lockset_") (seq 0 (Z.to_nat n)) rec b = None.
Proof.
  intros. apply assign_elements_out; [|apply elem_of_seq; lia].
  intros c. unfold assign_scalar. by rewrite (load_lock rec Hr).
Qed.
Lemma assign_frames_out n b : 10 < n → assign_elements [Fld "stack_trace_"] (seq 0 (Z.to_nat n)) rec b = None.
Proof.
  intros. apply assign_elements_out; [|apply elem_of_seq; lia].
  intros c. unfold assign_scalar. by rewrite (load_frame rec Hr).
Qed.

Lemma type_test t : (type_ r =? RecordType_val t) = type_is t r.
Proof. unfold type_is. by destruct (Z.eqb_spec (type_ r) (RecordType_val t)); [rewrite bool_decide_true|rewrite bool_decide_false]. Qed.

(** One assignment, then the rest. *)
Local Ltac step L := eapply yields_bind; [by apply L|]; let V := fresh in intros ? ? V; rewrite <- V; clear V.

Lemma fill_op_bytes_spec b : length b = record_size → type_ (view b) = type_ r →
  (type_is MEMORY_OP r = true → lock_count_ (op_ r) ≤ 10) →
  yields (fill_op_bytes rec b) (apply_stores (view b) (op_stores r)).
Proof.
  intros Hl Ht Hc. unfold fill_op_bytes, op_stores. rewrite (load_type b Hl), Ht. cbn [mbind option_bind].
  rewrite !type_test. destruct (type_is MEMORY_OP r).
  - rewrite apply_stores_app. unfold apply_stores at 2. cbn [foldl].
    step assign_memory_address. step assign_entry. step assign_pip. step assign_sip. step assign_is_write.
    step assign_lock_count. rewrite (load_lock_count rec Hr). cbn [mbind option_bind]. apply assign_locks; auto.
  - destruct (type_is MEMORY_ALLOC r); [|by exists b]. unfold apply_stores. cbn [foldl].
    step assign_start_address. step assign_size. by apply assign_is_alloc.
Qed.

Lemma fill_trace_bytes_spec b : length b = record_size → trace_depth_ r ≤ 10 →
  yields (fill_trace_bytes rec b)
         (apply_stores (view b) ([ (λ e, set_trace (stack_trace_ e) (trace_depth_ r) e) ] ++
                                 (copy_frame r <$> seq 0 (Z.to_nat (trace_depth_ r))))).
Proof.
  intros Hl Hd. unfold fill_trace_bytes. rewrite apply_stores_app. unfold apply_stores at 2. cbn [foldl].
  eapply yields_bind; [by apply assign_trace_depth|]. intros c Hc V. rewrite (load_trace_depth c Hc).
  cbn [mbind option_bind]. rewrite <- V. replace (trace_depth_ (view c)) with (trace_depth_ r) by (by rewrite V).
  by apply assign_frames.
Qed.

Lemma type_after_op b : type_ (apply_stores (view b) (op_stores r)) = type_ (view b).
Proof. unfold op_stores. destruct (type_is _ _); [rewrite apply_stores_app, apply_copy_lock|destruct (type_is _ _)]; done. Qed.

Lemma fill_bytes_spec no b : length b = record_size → copies_overrun r = false →
  yields (fill_bytes no rec b) (apply_stores (view b) (fill_stores (wrap32 no) r)).
Proof.
  intros Hl [Hc Hd]%copies_overrun_false. unfold fill_bytes, fill_stores.
  rewrite apply_stores_app. unfold apply_stores at 2. cbn [foldl].
  step store_record_no. step assign_thread_id.
  eapply yields_bind; [by apply assign_type|]. intros c Hlc V. rewrite apply_stores_app.
  eapply yields_bind; [apply fill_op_bytes_spec; [done|by rewrite V|done]|]. intros d Hld Vd.
  rewrite <- V, <- Vd. by apply fill_trace_bytes_spec.
Qed.

(** One assignment, of which only the length of the result matters. *)
Local Ltac skip L :=
  let E := fresh in edestruct L as (? & E & ? & _); [eassumption..|]; rewrite E; clear E; cbn [mbind option_bind].

(** A copy loop that leaves its array makes the whole undefined. *)
Lemma fill_bytes_overrun no b : length b = record_size → copies_overrun r = true → fill_bytes no rec b = None.
Proof.
  intros Hl Ho. unfold fill_bytes.
  destruct (store_record_no no b Hl) as (b1 & -> & Hl1 & _). cbn [mbind option_bind].
  destruct (assign_thread_id rec Hr b1 Hl1) as (b2 & -> & Hl2 & _). cbn [mbind option_bind].
  destruct (assign_type rec Hr b2 Hl2) as (b3 & -> & Hl3 & V3). cbn [mbind option_bind].
  assert (type_ (view b3) = type_ r) as Ht by (by rewrite V3).
  destruct (fill_op_bytes rec b3) as [b4|] eqn:E4; [|done]. simpl.
  destruct (decide (type_is MEMORY_OP r = true ∧ 10 < lock_count_ (op_ r))) as [[Hm Hc]|Hok].
  - exfalso. revert E4. unfold fill_op_bytes. rewrite (load_type b3 Hl3), Ht. cbn [mbind option_bind].
    rewrite type_test, Hm.
    skip (assign_memory_address rec Hr). skip (λ c Hc, assign_entry c Hc rec Hr). skip (assign_pip rec Hr). skip (assign_sip rec Hr). skip (assign_is_write rec Hr).
    skip (assign_lock_count rec Hr).
    rewrite (load_lock_count rec Hr). cbn [mbind option_bind]. by rewrite assign_locks_out.
  - destruct (fill_op_bytes_spec b3 Hl3 Ht) as (b4' & E4' & Hl4 & _); [intros; apply Z.le_ngt; naive_solver|].
    simplify_eq. unfold fill_trace_bytes.
    destruct (assign_trace_depth rec Hr b4 Hl4) as (b5 & -> & Hl5 & V5). cbn [mbind option_bind].
    rewrite (load_trace_depth b5 Hl5). cbn [mbind option_bind]. apply assign_frames_out.
    rewrite V5; simpl. unfold copies_overrun in Ho. destruct (type_is MEMORY_OP r); simpl in Ho.
    + apply orb_true_iff in Ho as [?%Z.ltb_lt|?%Z.ltb_lt]; [naive_solver|done].
    + by apply Z.ltb_lt in Ho.
Qed.
End fill.
End write.

(** ** Reading a file *)

Section files.
Context `{HE : PebsEntry}.

Lemma fread_all_concat D bs tail fuel :
  (0 < sizeof D)%nat → Forall (λ b, length b = sizeof D) bs → (length tail < sizeof D)%nat →
  (length bs < fuel)%nat → fread_all fuel D (concat bs ++ tail) = bs.
Proof.
  intros Hpos Hbs Ht. revert fuel. induction Hbs as [|b bs Hb _ IH]; intros fuel Hf;
    (destruct fuel as [|fuel]; [simpl in Hf; lia|]); simpl.
  - by rewrite (proj2 (Nat.ltb_lt _ _) Ht).
  - rewrite !length_app, Hb. rewrite (proj2 (Nat.ltb_ge _ _)) by lia.
    rewrite <- app_assoc, take_app_length', drop_app_length' by done. f_equal. apply IH. simpl in Hf. lia.
Qed.

Lemma record_size_pos : (0 < record_size)%nat.
Proof. unfold record_size, depth_off, trace_off. lia. Qed.

Lemma load_array_view (p : list accessor) ws b :
  length ws = 10%nat →
  (∀ i, load Record_bufferdata (p ++ [Idx i]) b = if (i <? 10)%nat then Some (nth_word ws i) else None) →
  load_array Record_bufferdata p 10 b = Some ws.
Proof.
  intros Hw E. unfold load_array. apply mapM_Some. apply Forall2_same_length_lookup.
  split; [done|]. intros i x y Hx Hy. apply lookup_seq in Hx as [-> Hi].
  cbn [Nat.add]. rewrite E, (proj2 (Nat.ltb_lt _ _) Hi). unfold nth_word. by rewrite Hy.
Qed.

Lemma load_lockset b : length b = record_size →
  load_array Record_bufferdata (access "lockset_") 10 b = Some (lockset_ (op_ (view b))).
Proof. intros Hl. apply load_array_view; [done|exact (load_lock b Hl)]. Qed.
Lemma load_stack_trace b : length b = record_size →
  load_array Record_bufferdata [Fld "stack_trace_"] 10 b = Some (stack_trace_ (view b)).
Proof. intros Hl. apply load_array_view; [done|exact (load_frame b Hl)]. Qed.

Lemma read_record_view b : length b = record_size → read_record Record_bufferdata "mem_op_" b = Some (view b).
Proof.
  intros Hl. unfold read_record, read_op.
  by rewrite load_record_no, load_thread_id, load_type, load_memory_address, load_pip, load_sip, load_is_write,
    load_mem_op, load_lock_count, load_trace_depth, load_lockset, load_stack_trace by done.
Qed.

(** All five declarations lay the record out in the same way. *)
Lemma declaration_layout d b : d ∈ declarations →
  sizeof d.1 = record_size ∧ read_record d.1 d.2 b = read_record Record_bufferdata "mem_op_" b ∧
  ∀ u m, u ∈ ["lock_op_"; "signal_op_"; "wait_op_"; "mem_alloc_op_"] →
    load d.1 [Fld "op_"; Fld u; Fld m] b = load Record_bufferdata [Fld "op_"; Fld u; Fld m] b.
Proof.
  unfold declarations. rewrite !elem_of_cons, elem_of_nil, <- sizeof_Record_bufferdata.
  intros [->|[->|[->|[->|[->|[]]]]]]; (split; [reflexivity|split; [reflexivity|]]); try reflexivity.
  intros u m. rewrite !elem_of_cons, elem_of_nil. by intros [->|[->|[->|[->|[]]]]].
Qed.

Lemma read_log_concat d bs tail :
  d ∈ declarations → Forall (λ b, length b = record_size) bs → (length tail < record_size)%nat →
  read_log d (concat bs ++ tail) = Some (view <$> bs).
Proof.
  intros Hd Hbs Ht. destruct (declaration_layout d [] Hd) as (Es & _). pose proof record_size_pos.
  unfold read_log. rewrite fread_all_concat; rewrite ?Es; try done.
  - apply mapM_Some. apply Forall2_fmap_r, Forall_Forall2_diag. eapply Forall_impl; [exact Hbs|].
    intros b Hb. destruct (declaration_layout d b Hd) as (_ & -> & _). by apply read_record_view.
  - assert (length (concat bs) = length bs * record_size)%nat as E.
    { clear -Hbs. induction Hbs as [|b bs Hb _ IH]; [done|]. cbn [concat length]. rewrite length_app, Hb, IH. lia. }
    rewrite length_app, E. nia.
Qed.
End files.

(** ** The properties *)

(** A concrete entry: the eighteen registers as 64-bit words in declaration order. *)
Definition demo_entry : PebsEntry.
Proof.
  refine {| entry_size := 144; entry_align := 8;
            entry_load := λ b, let w i := le_combine (get_bytes (8 * i) 8 b) in
              mkPebs (w 0%nat) (w 1%nat) (w 2%nat) (w 3%nat) (w 4%nat) (w 5%nat) (w 6%nat) (w 7%nat) (w 8%nat)
                     (w 9%nat) (w 10%nat) (w 11%nat) (w 12%nat) (w 13%nat) (w 14%nat) (w 15%nat) (w 16%nat) (w 17%nat) |};
    [set_solver|lia].
Defined.

(** C18: one layout for all programs.  The five declarations of [struct Record] (the
    library's, the three tools' and the compiler pass's) give the same size, read the same
    record from the same bytes, and through the smaller members of the union read what the
    model says of them: the operand of lock, signal and wait records is the word of
    [memory_address_] (and [pip_]), and the size and the flag of an allocation are the two
    halves of the word of [pip_]. *)
Theorem declarations_agree (HE : PebsEntry) d b :
  d ∈ declarations → length b = sizeof d.1 →
  let o := op_ (view b) in
  sizeof d.1 = sizeof Record_bufferdata ∧
  read_record d.1 d.2 b = Some (view b) ∧ record_wf (view b) ∧
  load d.1 [Fld "op_"; Fld "lock_op_"; Fld "lock_address_"] b = Some (lock_address_ o) ∧
  load d.1 [Fld "op_"; Fld "signal_op_"; Fld "signal_address_"] b = Some (signal_address_ o) ∧
  load d.1 [Fld "op_"; Fld "wait_op_"; Fld "wait_address1_"] b = Some (wait_address1_ o) ∧
  load d.1 [Fld "op_"; Fld "wait_op_"; Fld "wait_address2_"] b = Some (wait_address2_ o) ∧
  load d.1 (alloc "start_address_") b = Some (start_address_ o) ∧
  load d.1 (alloc "size_") b = Some (size_ o) ∧
  load d.1 (alloc "is_alloc_") b = Some (is_alloc_ o).
Proof.
  intros Hd Hl. destruct (declaration_layout d b Hd) as (Es & Er & El). rewrite Es in Hl.
  unfold alloc. rewrite Es, sizeof_Record_bufferdata, Er, !El by (rewrite !elem_of_cons; tauto).
  split; [done|]. split; [by apply read_record_view|]. split; [apply view_wf|].
  assert (16 + 16 ≤ length b)%nat by (unfold record_size, depth_off, trace_off, lockset_off in Hl; lia).
  rewrite (load_at _ _ _ _ _ locate_lock_address), (load_at _ _ _ _ _ locate_signal_address),
    (load_at _ _ _ _ _ locate_wait_address1), (load_at _ _ _ _ _ locate_wait_address2) by (cbn [sizeof]; lia).
  do 4 (split; [done|]).
  split; [by apply load_start_address|]. split; [by apply load_size|by apply load_is_alloc].
Qed.

Lemma declarations_agree_witness :
  let b := replicate 368 Byte.x07 in
  read_record (HE := demo_entry) Record_mao "memory_op_" b = Some (view (HE := demo_entry) b) ∧
  load (HE := demo_entry) Record_mao (alloc "size_") b = Some (size_ (op_ (view (HE := demo_entry) b))).
Proof.
  destruct (declarations_agree demo_entry (Record_mao, "memory_op_") (replicate 368 Byte.x07))
    as (_ & H1 & _ & _ & _ & _ & _ & _ & H2 & _); [unfold declarations; set_solver|vm_compute; reflexivity|].
  split; [exact H1|exact H2].
Defined.
