(* ===== verification/ByteBuffer.v ===== *)
(** * The event buffer in memory

    racez_bufferdata.cc once more, with the block of records as the bytes it is: the
    operations of Buffer.v on a memory of bytes and files of bytes, and the proof that
    Buffer.v describes them.  [related] connects the two states; [simulates] says that two
    runs end alike in related states, whether they return or fault. *)

From S2P Require Import Prelude.
From S2P Require Import Records.
From S2P Require Import Buffer.
From S2P Require Import Layout.
From S2P Require Import LayoutSpec.
From stdpp Require Import base gmap list strings.
From coqutil Require Import Byte.

Open Scope Z_scope.

(** ** Memory *)

Definition memory := Z → byte.

Definition mem_range (m : memory) (a : Z) (n : nat) : bytes := (λ i : nat, m (a + Z.of_nat i)) <$> seq 0 n.

Definition mem_update (m : memory) (a : Z) (bs : bytes) : memory :=
  λ x, if a <=? x then default (m x) (bs !! Z.to_nat (x - a)) else m x.

(** ** State *)

(** [struct BufferData], with the memory that [start_] points into. *)
Record ByteBuffer := mkBB {
  bb_global : Z;
  bb_start : Z;
  bb_fd : Z;
  bb_mem : memory
}.

Record byte_state := mkBY {
  byte_buffer : option ByteBuffer;
  byte_files : gmap Z bytes
}.

Definition set_byte_buffer (b : option ByteBuffer) (s : byte_state) : byte_state := mkBY b (byte_files s).

Definition the_byte_buffer : M byte_state ByteBuffer := p ← gets byte_buffer; deref p.

(** ** The operations *)

Section ops.
Context `{HE : PebsEntry}.

(** [sizeof(struct Record)] *)
Abbreviation size := (Z.of_nat (sizeof Record_bufferdata)).

(** The bytes of the record at [a]; the block has room for [BUFFERSIZE] records. *)
Definition load_record (b : ByteBuffer) (a : Z) : M byte_state bytes :=
  if bool_decide (bb_start b ≤ a ∧ a + size ≤ bb_start b + BUFFERSIZE * size)
  then mret (mem_range (bb_mem b) a (sizeof Record_bufferdata)) else fail OutOfBounds.

Definition byte_WriteRecord (racez_write_record : Z) (record : bytes) : M byte_state unit :=
  if racez_write_record =? 0 then mret tt else
  b ← the_byte_buffer;
  let current_entry := wrap64 (bb_global b + size) in
  let b := mkBB current_entry (bb_start b) (bb_fd b) (bb_mem b) in
  modify (set_byte_buffer (Some b)) ;;
  let record_no := wrap32 ((current_entry - bb_start b) `quot` size) in
  if BUFFERSIZE <? record_no then mret tt else
  old ← load_record b current_entry;
  match fill_bytes record_no record old with
  | None => fail OutOfBounds
  | Some new =>
      modify (set_byte_buffer (Some (mkBB (bb_global b) (bb_start b) (bb_fd b)
                                          (mem_update (bb_mem b) current_entry new))))
  end.

(** [write]: [n] is how many of the bytes the kernel takes, [None] when the call fails.
    Taking fewer than asked for is no failure, and the code does not write the rest. *)
Definition byte_write (n : option nat) (fd : Z) (bs : bytes) : M byte_state unit :=
  modify (λ s, match n with
               | Some n => mkBY (byte_buffer s) (<[fd := default [] (byte_files s !! fd) ++ take n bs]> (byte_files s))
               | None => s
               end).

(** A kernel that takes a record whole or not at all. *)
Definition whole_or_none (wr : Z → bool) (count : Z) : option nat :=
  if wr count then Some (sizeof Record_bufferdata) else None.

Fixpoint byte_write_loop (fuel : nat) (wr : Z → option nat) (fd entry count : Z) : M byte_state Z :=
  match fuel with
  | O => fail OutOfFuel
  | S fuel' =>
      b ← the_byte_buffer;
      if entry <=? bb_global b then
        bs ← load_record b entry;
        byte_write (wr count) fd bs ;;
        byte_write_loop fuel' wr fd (entry + size) (count + 1)
      else mret count
  end.

Definition byte_loop_fuel (b : ByteBuffer) : nat := Z.to_nat ((bb_global b - bb_start b) `quot` size + 2).

Definition byte_StopBuffer (wr : Z → option nat) : M byte_state Z :=
  b ← the_byte_buffer;
  count ← byte_write_loop (byte_loop_fuel b) wr (bb_fd b) (bb_start b) 0;
  modify (set_byte_buffer None) ;;
  mret count.

Definition byte_FlushBuffer (wr : Z → option nat) : M byte_state unit :=
  b ← the_byte_buffer;
  byte_write_loop (byte_loop_fuel b) wr (bb_fd b) (bb_start b) 0 ;;
  mret tt.

Definition byte_InitBuffer (hdr : bool) (mem : option (Z * memory)) (fd : Z) : M byte_state Z :=
  p ← gets byte_buffer;
  c_assert (match p with None => true | Some _ => false end) ;;
  if negb hdr then fail (Exited 1) else
  match mem with
  | None => fail (Exited 1)
  | Some (addr, m) =>
      modify (set_byte_buffer (Some (mkBB addr addr 0 m))) ;;
      if fd <? 0 then mret 0 else
      modify (λ s, mkBY (Some (mkBB addr addr fd m)) (<[fd := []]> (byte_files s))) ;;
      mret 1
  end.
End ops.

(** ** The two states *)

Section simulation.
Context `{HE : PebsEntry}.

(** The descriptors of log files: what other files hold does not matter. *)
Context (logs : Z → Prop).

(** The platform of Buffer.v that the declaration makes. *)
Definition record_platform : Platform.
Proof.
  refine {| sizeof_Record := Z.of_nat (sizeof Record_bufferdata) |}.
  rewrite sizeof_Record_bufferdata. pose proof offsets_ordered. pose proof record_size_pos.
  pose proof entry_size_small. lia.
Defined.
#[local] Existing Instance record_platform.
#[local] Arguments sizeof_Record : simpl never.
#[local] Arguments sizeof : simpl never.

(** Entry [i] of the block. *)
Definition entry_bytes (b : ByteBuffer) (i : Z) : bytes :=
  mem_range (bb_mem b) (bb_start b + i * sizeof_Record) record_size.

Record buffer_rel (k : Z) (b : ByteBuffer) (b' : BufferData) : Prop := {
  br_at : buffer_at k b';
  br_global : bb_global b = global_ b';
  br_start : bb_start b = start_ b';
  br_fd : bb_fd b = fd_ b';
  br_entries : ∀ i, 0 ≤ i < BUFFERSIZE → blk_at (start_block b') i = view (entry_bytes b i)
}.

(** A file of bytes holds records. *)
Definition file_rel (f : bytes) (rs : list RacezRecord) : Prop :=
  ∃ bs, f = concat bs ∧ Forall (λ b, length b = record_size) bs ∧ view <$> bs = rs.

(** [k] entries are reserved in both states. *)
Definition related (k : Z) (s : byte_state) (s' : buf_state) : Prop :=
  option_Forall2 (buffer_rel k) (byte_buffer s) (global_buffer s') ∧
  ∀ fd, logs fd → option_Forall2 file_rel (byte_files s !! fd) (files s' !! fd).

Definition simulates {A} (R : byte_state → buf_state → Prop) (x : out byte_state A) (y : out buf_state A) : Prop :=
  match x, y with
  | Ret a s, Ret a' s' => a = a' ∧ R s s'
  | Stop f s, Stop f' s' => f = f' ∧ R s s'
  | _, _ => False
  end.

Lemma simulates_mono {A} (R R' : byte_state → buf_state → Prop) (x : out byte_state A) (y : out buf_state A) :
  simulates R x y → (∀ s s', R s s' → R' s s') → simulates R' x y.
Proof. unfold simulates. destruct x, y; naive_solver. Qed.

(** ** Ranges of memory *)

Lemma length_mem_range m a n : length (mem_range m a n) = n.
Proof. unfold mem_range. by rewrite length_fmap, length_seq. Qed.

Lemma mem_range_update_same m a bs : mem_range (mem_update m a bs) a (length bs) = bs.
Proof.
  apply list_eq_same_length with (length bs); [done|apply length_mem_range|].
  intros i x y Hi Hx Hy. unfold mem_range, mem_update in Hx. rewrite list_lookup_fmap, lookup_seq_lt in Hx by done.
  simpl in Hx. rewrite (proj2 (Z.leb_le _ _)) in Hx by lia.
  replace (Z.to_nat (a + Z.of_nat i - a)) with i in Hx by lia. rewrite Hy in Hx. by simplify_eq/=.
Qed.

Lemma mem_range_update_other m a bs a' n :
  a' + Z.of_nat n ≤ a ∨ a + Z.of_nat (length bs) ≤ a' →
  mem_range (mem_update m a bs) a' n = mem_range m a' n.
Proof.
  intros H. unfold mem_range. apply list_fmap_ext. intros i j Hj. apply lookup_seq in Hj as [-> Hj].
  unfold mem_update. destruct (Z.leb_spec a (a' + Z.of_nat (0 + i))); [|done].
  by rewrite lookup_ge_None_2 by lia.
Qed.

Lemma length_entry_bytes b i : length (entry_bytes b i) = record_size.
Proof. apply length_mem_range. Qed.

Lemma size_eq : sizeof_Record = Z.of_nat record_size.
Proof. change (Z.of_nat (sizeof Record_bufferdata) = Z.of_nat record_size). by rewrite sizeof_Record_bufferdata. Qed.

(** Entry [i] of a buffer lies in the block exactly for the indices below [BUFFERSIZE]. *)
Lemma load_entry_at b i s :
  load_record b (bb_start b + i * sizeof_Record) s =
  if bool_decide (0 ≤ i < BUFFERSIZE) then Ret (entry_bytes b i) s else Stop OutOfBounds s.
Proof.
  pose proof sizeof_Record_range as Hs. unfold load_record. change (Z.of_nat (sizeof Record_bufferdata)) with sizeof_Record.
  destruct (decide (0 ≤ i < BUFFERSIZE)) as [Hi|Hi].
  - rewrite !bool_decide_eq_true_2 by nia. unfold entry_bytes. by rewrite sizeof_Record_bufferdata.
  - rewrite !bool_decide_eq_false_2 by nia. done.
Qed.

(** ** The steps *)

Lemma related_some k s s' b : related k s s' → byte_buffer s = Some b →
  ∃ b', global_buffer s' = Some b' ∧ buffer_rel k b b'.
Proof. intros [Hb _] E. rewrite E in Hb. inversion Hb; subst. eauto. Qed.

Lemma related_none k s s' : related k s s' → byte_buffer s = None → global_buffer s' = None.
Proof. intros [Hb _] E. rewrite E in Hb. by inversion Hb. Qed.

Lemma related_set k s s' j b b' : related k s s' → buffer_rel j b b' →
  related j (set_byte_buffer (Some b) s) (set_buffer (Some b') s').
Proof. intros [_ Hf] Hb. split; [by constructor|done]. Qed.

(** The pointer after one more reservation. *)
Definition byte_next (b : ByteBuffer) : ByteBuffer :=
  mkBB (bb_global b + sizeof_Record) (bb_start b) (bb_fd b) (bb_mem b).

Lemma buffer_rel_next k b b' : buffer_rel k b b' → buffer_rel (k + 1) (byte_next b) (next_buffer b').
Proof.
  intros [[Ha1 Ha2 Ha3 Ha4] Hg Hs Hf He]. split; try done.
  - split; simpl; try done; lia.
  - simpl. by rewrite Hg.
Qed.

(** Filling entry [k + 1] in both. *)
Lemma buffer_rel_store k b b' no rec new :
  buffer_rel (k + 1) (byte_next b) (next_buffer b') → 0 ≤ k + 1 < BUFFERSIZE →
  length new = record_size → view new = apply_stores (blk_at (start_block b') (k + 1)) (fill_stores (k + 1) rec) →
  no = k + 1 →
  buffer_rel (k + 1)
    (mkBB (bb_global (byte_next b)) (bb_start b) (bb_fd b) (mem_update (bb_mem b) (bb_start b + no * sizeof_Record) new))
    (store_next k rec b').
Proof.
  intros [[] Hg Hs Hf He] Hk Hl Hv ->. split; try done. intros i Hi.
  rewrite blk_at_store_next. unfold entry_bytes. cbn [bb_mem bb_start]. destruct (decide (i = k + 1)) as [->|Hne].
  - rewrite <- Hv, <- Hl. by rewrite mem_range_update_same.
  - rewrite mem_range_update_other by (rewrite Hl, <- size_eq; nia). apply (He i Hi).
Qed.

Lemma related_none_any k j s s' : related k s s' → byte_buffer s = None → related j s s'.
Proof. intros Hr E. pose proof (related_none _ _ _ Hr E) as E'. destruct Hr as [_ Hf]. split; [|done]. rewrite E, E'. constructor. Qed.

(** The atomic add and the record number. *)
Lemma byte_reserve flag k b b' rec s :
  flag ≠ 0 → byte_buffer s = Some b → buffer_rel k b b' → k + 1 < 2 ^ 31 →
  byte_WriteRecord flag rec s =
    (if BUFFERSIZE <? k + 1 then mret tt else
     old ← load_record (byte_next b) (bb_start b + (k + 1) * sizeof_Record);
     match fill_bytes (k + 1) rec old with
     | None => fail OutOfBounds
     | Some new => modify (set_byte_buffer (Some (mkBB (bb_global (byte_next b)) (bb_start b) (bb_fd b)
                     (mem_update (bb_mem b) (bb_start b + (k + 1) * sizeof_Record) new))))
     end) (set_byte_buffer (Some (byte_next b)) s).
Proof.
  intros Hf Eb [[Ha1 Ha2 Ha3 Ha4] Hg Hs _ _] Hk. pose proof sizeof_Record_range.
  unfold byte_WriteRecord, the_byte_buffer. rewrite (proj2 (Z.eqb_neq _ _) Hf). run_m. rewrite Eb. simpl.
  change (Z.of_nat (sizeof Record_bufferdata)) with sizeof_Record.
  assert (bb_global b + sizeof_Record = bb_start b + (k + 1) * sizeof_Record) as E by lia.
  assert (0 ≤ (k + 1) * sizeof_Record < 2 ^ 31 * 65536) by nia.
  rewrite wrap64_id by (unfold is_word; lia).
  replace (bb_global b + sizeof_Record - bb_start b) with ((k + 1) * sizeof_Record) by lia.
  rewrite Z.quot_mul, wrap32_id by (unfold is_int, INT_MIN, INT_MAX; lia). unfold byte_next. simpl. by rewrite E.
Qed.

Lemma byte_WriteRecord_sim flag k rec s s' :
  related k s s' → k + 1 < 2 ^ 31 → length rec = record_size →
  simulates (related (if flag =? 0 then k else k + 1)) (byte_WriteRecord flag rec s) (WriteRecord flag (view rec) s').
Proof.
  intros Hr Hk Hl. destruct (Z.eqb_spec flag 0) as [->|Hf]; [by split|].
  destruct (byte_buffer s) as [b|] eqn:Eb; cycle 1.
  { pose proof (related_none _ _ _ Hr Eb) as Eb'.
    unfold byte_WriteRecord, WriteRecord, atomic_increment_no_barrier, the_byte_buffer, the_buffer.
    rewrite (proj2 (Z.eqb_neq _ _) Hf). run_m. rewrite Eb, Eb'. simpl. split; [done|]. by eapply related_none_any. }
  destruct (related_some _ _ _ _ Hr Eb) as (b' & Eb' & Hb). pose proof (br_at _ _ _ Hb) as Hat.
  rewrite (WriteRecord_step flag k b') by done. rewrite (byte_reserve flag k b b') by done.
  pose proof (buffer_rel_next _ _ _ Hb) as Hn. pose proof (related_set _ _ _ _ _ _ Hr Hn) as Hrn.
  destruct (Z.ltb_spec BUFFERSIZE (k + 1)) as [|Hle]; [by split|].
  run_m. rewrite (load_entry_at (byte_next b) (k + 1)).
  pose proof (at_count _ _ Hat). destruct (Z.eqb_spec (k + 1) BUFFERSIZE) as [E|E].
  { rewrite bool_decide_eq_false_2 by lia. rewrite orb_true_r. by split. }
  rewrite bool_decide_eq_true_2 by lia. rewrite orb_false_r.
  pose proof (length_entry_bytes (byte_next b) (k + 1)) as Hle'.
  destruct (copies_overrun (view rec)) eqn:Ec; [rewrite (fill_bytes_overrun rec) by done; by split|].
  destruct (fill_bytes_spec rec Hl (k + 1) _ Hle' Ec) as (new & -> & Hln & Hv).
  rewrite wrap32_id in Hv by (unfold is_int, INT_MIN, INT_MAX; lia).
  rewrite <- (br_entries _ _ _ Hn) in Hv by lia. split; [done|].
  apply (related_set (k + 1) (set_byte_buffer (Some (byte_next b)) s) (set_buffer (Some (next_buffer b')) s') (k + 1)); [done|].
  apply buffer_rel_store; try done. lia.
Qed.

Lemma simulates_bind {A B} (R R' : byte_state → buf_state → Prop) (m : M byte_state A) (m' : M buf_state A)
    (k : A → M byte_state B) (k' : A → M buf_state B) s s' :
  simulates R (m s) (m' s') → (∀ s s', R s s' → R' s s') →
  (∀ a s s', R s s' → simulates R' (k a s) (k' a s')) → simulates R' ((m ≫= k) s) ((m' ≫= k') s').
Proof.
  intros Hm HR Hk. unfold mbind, M_bind, simulates in *.
  destruct (m s), (m' s'); try done; destruct Hm as [-> Hm]; [by apply Hk|split; auto].
Qed.

Lemma file_rel_snoc f rs b : file_rel f rs → length b = record_size → file_rel (f ++ b) (rs ++ [view b]).
Proof.
  intros (bs & -> & Hbs & <-) Hl. exists (bs ++ [b]). rewrite concat_app, fmap_app. simpl. rewrite app_nil_r.
  split; [done|]. split; [by apply Forall_app_2; [|constructor]|done].
Qed.

Lemma related_append k s s' fd b :
  related k s s' → length b = record_size →
  related k (mkBY (byte_buffer s) (<[fd := default [] (byte_files s !! fd) ++ b]> (byte_files s)))
            (mkBS (global_buffer s') (<[fd := default [] (files s' !! fd) ++ [view b]]> (files s'))).
Proof.
  intros [Hb Hf] Hl. split; [done|]. intros fd' Hlog. simpl. destruct (decide (fd' = fd)) as [->|Hne].
  - rewrite !lookup_insert_eq. constructor. apply file_rel_snoc; [|done].
    destruct (Hf fd Hlog); simpl; [done|]. by exists [].
  - rewrite !lookup_insert_ne by done. by apply Hf.
Qed.

(** The loop of [StopBuffer] and [FlushBuffer], from entry [j] on. *)
Lemma byte_write_loop_sim wr fd k b fuel j count s s' :
  byte_buffer s = Some b → related k s s' →
  simulates (related k) (byte_write_loop fuel (whole_or_none wr) fd (bb_start b + j * sizeof_Record) count s)
                        (write_loop fuel wr fd (bb_start b + j * sizeof_Record) count s').
Proof.
  revert j count s s'. induction fuel as [|fuel IH]; intros j count s s' Eb Hr; [by split|].
  destruct (related_some _ _ _ _ Hr Eb) as (b' & Eb' & Hb).
  cbn [byte_write_loop write_loop]. unfold the_byte_buffer, the_buffer. run_m. rewrite Eb, Eb'. run_m.
  rewrite (br_global _ _ _ Hb). destruct (Z.leb_spec (bb_start b + j * sizeof_Record) (global_ b')); [|by split].
  run_m. rewrite load_entry_at. rewrite (br_start _ _ _ Hb), entry_index_at, <- (br_start _ _ _ Hb).
  unfold blk_load. rewrite (at_len _ _ (br_at _ _ _ Hb)).
  destruct (decide (0 ≤ j < BUFFERSIZE)) as [Hj|Hj];
    [rewrite !bool_decide_eq_true_2 by done|rewrite !bool_decide_eq_false_2 by done; by split].
  run_m. change (Z.of_nat (sizeof Record_bufferdata)) with sizeof_Record.
  replace (bb_start b + j * sizeof_Record + sizeof_Record) with (bb_start b + (j + 1) * sizeof_Record) by lia.
  rewrite (br_entries _ _ _ Hb) by done. unfold byte_write, whole_or_none. destruct (wr count); [|by apply IH].
  apply IH; [done|]. rewrite take_ge by (rewrite length_entry_bytes, sizeof_Record_bufferdata; done).
  apply related_append; [done|apply length_entry_bytes].
Qed.

Lemma byte_loop_fuel_eq k b b' : buffer_rel k b b' → byte_loop_fuel b = loop_fuel b'.
Proof. intros [_ Hg Hs _ _]. unfold byte_loop_fuel, loop_fuel, entry_index. by rewrite Hg, Hs. Qed.

(** All rounds of the loop, behind the reading of [global_buffer]. *)
Lemma byte_all_entries_sim {A} wr k s s' (h : Z → M byte_state A) (h' : Z → M buf_state A) :
  related k s s' → (∀ n s s', related k s s' → simulates (related k) (h n s) (h' n s')) →
  simulates (related k)
    ((b ← the_byte_buffer; byte_write_loop (byte_loop_fuel b) (whole_or_none wr) (bb_fd b) (bb_start b) 0 ≫= h) s)
    ((b ← the_buffer; write_loop (loop_fuel b) wr (fd_ b) (start_ b) 0 ≫= h') s').
Proof.
  intros Hr Hh. unfold the_byte_buffer, the_buffer. run_m.
  destruct (byte_buffer s) as [b|] eqn:Eb; [|by rewrite (related_none _ _ _ Hr Eb)].
  destruct (related_some _ _ _ _ Hr Eb) as (b' & Eb' & Hb). rewrite Eb'. run_m.
  rewrite (byte_loop_fuel_eq _ _ _ Hb), <- (br_start _ _ _ Hb), <- (br_fd _ _ _ Hb).
  apply (simulates_bind (related k)); [|done|done].
  rewrite <- (Z.add_0_r (bb_start b)). by apply (byte_write_loop_sim wr _ k b (loop_fuel b') 0).
Qed.

Lemma byte_StopBuffer_sim wr k s s' :
  related k s s' → simulates (related k) (byte_StopBuffer (whole_or_none wr) s) (StopBuffer wr s').
Proof.
  intros Hr. apply (byte_all_entries_sim wr k s s' (λ n, modify (set_byte_buffer None) ;; mret n)
                      (λ n, modify (set_buffer None) ;; mret n)); [done|].
  intros n t t' [_ Hf]. split; [done|]. split; [constructor|done].
Qed.

Lemma byte_FlushBuffer_sim wr k s s' :
  related k s s' → simulates (related k) (byte_FlushBuffer (whole_or_none wr) s) (FlushBuffer wr s').
Proof. intros Hr. by apply (byte_all_entries_sim wr k s s' (λ _, mret tt) (λ _, mret tt)). Qed.

(** The records in a block of memory that nothing was stored to. *)
Definition memory_records (addr : Z) (m : memory) (i : Z) : RacezRecord :=
  view (mem_range m (addr + i * sizeof_Record) record_size).

Lemma buffer_rel_fresh addr m fd : 0 ≤ addr < 2 ^ 47 →
  buffer_rel 0 (mkBB addr addr fd m) (fresh_buffer addr (memory_records addr m) fd).
Proof. intros Ha. split; try done. by apply fresh_buffer_at. Qed.

Lemma byte_InitBuffer_sim hdr mem fd k s s' :
  related k s s' → (∀ addr m, mem = Some (addr, m) → 0 ≤ addr < 2 ^ 47) →
  simulates (λ s s', ∃ j, (j = k ∨ j = 0) ∧ related j s s')
    (byte_InitBuffer hdr mem fd s) (InitBuffer hdr ((λ p, (p.1, memory_records p.1 p.2)) <$> mem) fd s').
Proof.
  intros Hr Ha. unfold byte_InitBuffer, InitBuffer. run_m.
  destruct (byte_buffer s) as [b|] eqn:Eb.
  { destruct (related_some _ _ _ _ Hr Eb) as (b' & Eb' & Hb). rewrite Eb'. split; [done|]. eauto. }
  rewrite (related_none _ _ _ Hr Eb). run_m. destruct hdr; [|split; [done|eauto]]. simpl.
  destruct mem as [[addr m]|]; [|split; [done|eauto]]. run_m. specialize (Ha addr m eq_refl).
  destruct (fd <? 0).
  - split; [done|]. exists 0. split; [auto|]. apply (related_set k); [done|]. by apply buffer_rel_fresh.
  - split; [done|]. exists 0. split; [auto|]. split; [constructor; by apply buffer_rel_fresh|].
    intros fd' Hlog. simpl. destruct (decide (fd' = fd)) as [->|Hne].
    + rewrite !lookup_insert_eq. constructor. by exists [].
    + rewrite !lookup_insert_ne by done. by apply Hr.
Qed.

Lemma byte_WriteRecords_sim flag recs k s s' :
  flag ≠ 0 → related k s s' → k + Z.of_nat (length recs) < 2 ^ 31 → Forall (λ r, length r = record_size) recs →
  ∀ s1', for_each (view <$> recs) (WriteRecord flag) s' = Ret tt s1' →
  ∃ s1, for_each recs (byte_WriteRecord flag) s = Ret tt s1 ∧ related (k + Z.of_nat (length recs)) s1 s1'.
Proof.
  intros Hf Hr Hk Hl. revert k s s' Hr Hk. induction Hl as [|r recs Hlr _ IH]; intros k s s' Hr Hk s1' E.
  { injection E as <-. exists s. split; [done|]. by rewrite Z.add_0_r. }
  simpl in *. apply bind_Ret_inv in E as ([] & t' & E1 & E2).
  pose proof (byte_WriteRecord_sim flag k r s s' Hr ltac:(lia) Hlr) as H. rewrite E1 in H.
  destruct (byte_WriteRecord flag r s) as [[] t|] eqn:Et; [|done]. destruct H as [_ Ht].
  rewrite (proj2 (Z.eqb_neq _ _) Hf) in Ht.
  destruct (IH _ _ _ Ht ltac:(lia) _ E2) as (s1 & E1' & H1). exists s1. rewrite (bind_Ret _ _ _ _ _ Et).
  split; [done|]. by replace (k + Z.of_nat (S (length recs))) with (k + 1 + Z.of_nat (length recs)) by lia.
Qed.
End simulation.

(** ** The properties *)

(** C13: Buffer.v describes the code on memory.  From related states (the same pointers,
    every entry of the block and every log file the records its bytes stand for), each
    operation on bytes and its counterpart on records end alike: both return the same
    value, or both stop with the same fault, in related states again.  In particular the
    copy loops of [WriteRecord] leave their arrays, and its entry the block, exactly where
    Buffer.v says so.  The kernel takes each record that is written to the file whole or
    not at all. *)
Theorem byte_buffer_refines (HE : PebsEntry) (logs : Z → Prop) k s s' :
  related logs k s s' → 0 ≤ k → k + 1 < 2 ^ 31 →
  let R := λ s s', ∃ j, 0 ≤ j ≤ k + 1 ∧ related logs j s s' in
  (∀ flag rec, length rec = sizeof Record_bufferdata →
     simulates R (byte_WriteRecord flag rec s) (WriteRecord (HP := record_platform) flag (view rec) s')) ∧
  (∀ wr, simulates R (byte_StopBuffer (whole_or_none wr) s) (StopBuffer (HP := record_platform) wr s')) ∧
  (∀ wr, simulates R (byte_FlushBuffer (whole_or_none wr) s) (FlushBuffer (HP := record_platform) wr s')) ∧
  (∀ hdr mem fd, (∀ addr m, mem = Some (addr, m) → 0 ≤ addr < 2 ^ 47) →
     simulates R (byte_InitBuffer hdr mem fd s)
                 (InitBuffer hdr ((λ p, (p.1, memory_records p.1 p.2)) <$> mem) fd s')).
Proof.
  intros Hr Hk Hk1 R. rewrite sizeof_Record_bufferdata.
  assert (∀ j t t', 0 ≤ j ≤ k + 1 → related logs j t t' → R t t') as HR by (intros j; exists j; auto).
  split_and!.
  - intros flag rec Hl. eapply simulates_mono; [by apply byte_WriteRecord_sim|]. intros t t'. apply HR.
    destruct (flag =? 0); lia.
  - intros wr. eapply simulates_mono; [by apply byte_StopBuffer_sim|]. intros t t'. apply HR. lia.
  - intros wr. eapply simulates_mono; [by apply byte_FlushBuffer_sim|]. intros t t'. apply HR. lia.
  - intros hdr mem fd Ha. eapply simulates_mono; [by apply byte_InitBuffer_sim|]. intros t t' (j & Hj & H).
    apply (HR j); [lia|done].
Qed.

(** A state after [InitBuffer] on zeroed memory, and its counterpart. *)
Definition demo_bytes : byte_state := mkBY (Some (mkBB 4096 4096 3 (λ _, Byte.x00))) ∅.
Definition demo_records : buf_state :=
  mkBS (Some (fresh_buffer 4096 (memory_records (HE := demo_entry) 4096 (λ _, Byte.x00)) 3)) ∅.

(** The bytes of a memory access by thread 0, without locks. *)
Definition demo_rec : bytes := replicate 8 Byte.x00 ++ [Byte.x01] ++ replicate 359 Byte.x00.

Lemma demo_related : related (HE := demo_entry) (λ _, True) 0 demo_bytes demo_records.
Proof.
  split; [constructor; apply buffer_rel_fresh; lia|]. intros fd _. unfold demo_bytes, demo_records.
  cbn [byte_files files]. rewrite !lookup_empty. constructor.
Qed.

Lemma byte_buffer_refines_witness :
  simulates (λ s s', ∃ j, 0 ≤ j ≤ 0 + 1 ∧ related (HE := demo_entry) (λ _, True) j s s')
    (byte_WriteRecord (HE := demo_entry) 1 demo_rec demo_bytes)
    (WriteRecord (HP := record_platform (HE := demo_entry)) 1 (view (HE := demo_entry) demo_rec) demo_records).
Proof.
  destruct (byte_buffer_refines demo_entry (λ _, True) 0 demo_bytes demo_records demo_related) as (H & _); [lia|lia|].
  apply H. vm_compute. reflexivity.
Defined.

(** C12: the log in the file is the log the tools read.  A session on memory (a successful
    [InitBuffer] on a block of any contents, fewer than [BUFFERSIZE] calls of
    [WriteRecord] whose counts fit their arrays, [StopBuffer] with every record taken
    whole by the kernel) returns; and whatever
    incomplete record follows in the file, every program that declares [struct Record]
    reads from it one record per call behind the never-filled first entry, in call order,
    with the number of the call and the thread, type, operands, lockset prefix and stack
    prefix that were in memory. *)
Theorem byte_session_read_back (HE : PebsEntry) flag addr m fd recs s tail :
  flag ≠ 0 → 0 ≤ addr < 2 ^ 47 → 0 ≤ fd → byte_buffer s = None → byte_files s !! fd = None →
  Forall (λ r, length r = sizeof Record_bufferdata) recs → Forall (λ r, copies_overrun (view r) = false) recs →
  Z.of_nat (length recs) < BUFFERSIZE → (length tail < sizeof Record_bufferdata)%nat →
  ∃ s' file,
    (byte_InitBuffer true (Some (addr, m)) fd ;; for_each recs (byte_WriteRecord flag) ;;
     byte_StopBuffer (whole_or_none (λ _, true))) s = Ret (Z.of_nat (length recs) + 1) s' ∧
    byte_files s' !! fd = Some file ∧
    ∀ d, d ∈ declarations → ∃ first log, read_log d (file ++ tail) = Some (first :: log) ∧
      length log = length recs ∧
      ∀ i r, recs !! i = Some r → ∃ e, log !! i = Some e ∧ record_no_ e = Z.of_nat i + 1 ∧ same_event (view r) e.
Proof.
  intros Hflag Haddr Hfd Hb Hff Hl Hok Hfit Ht. rewrite sizeof_Record_bufferdata in *.
  set (s0 := mkBY (Some (mkBB addr addr fd m)) (<[fd := []]> (byte_files s))).
  set (s0' := mkBS (Some (fresh_buffer addr (memory_records addr m) fd)) {[fd := []]}).
  assert (related (λ x, x = fd) 0 s0 s0') as H0.
  { split; [constructor; by apply buffer_rel_fresh|]. intros ? ->. simpl.
    rewrite lookup_insert_eq, lookup_singleton_eq. constructor. by exists []. }
  destruct (write_then_stop (HP := record_platform) flag addr (memory_records addr m) fd (view <$> recs) s0')
    as (s1' & s2' & log & E1 & E2 & _ & _ & Ef & Elen & Elog); try done.
  { apply lookup_singleton_eq. }
  { intros i. apply view_wf. }
  { apply Forall_fmap, Forall_true. intros r. apply view_wf. }
  { by apply Forall_fmap. }
  { by rewrite length_fmap. }
  rewrite length_fmap in *.
  destruct (byte_WriteRecords_sim _ flag recs 0 s0 s0' Hflag H0 ltac:(unfold BUFFERSIZE in *; lia) Hl _ E1) as (s1 & E1' & H1).
  pose proof (byte_StopBuffer_sim _ (λ _, true) _ _ _ H1) as H2. rewrite E2 in H2.
  destruct (byte_StopBuffer (whole_or_none (λ _, true)) s1) as [n s2|] eqn:E3; [|done]. destruct H2 as [-> [_ H2]].
  specialize (H2 fd eq_refl). rewrite Ef in H2. inversion H2 as [f rs Hrel Ef2|]; subst.
  exists s2, f. split; [|split; [done|]].
  - unfold byte_InitBuffer. run_m. rewrite Hb. run_m. rewrite (proj2 (Z.ltb_ge _ _)) by done. run_m.
    fold s0. rewrite E1'. run_m. by rewrite E3.
  - intros d Hd. destruct Hrel as (bs & -> & Hbs & Ebs). eexists _, log.
    split; [rewrite read_log_concat by done; by rewrite Ebs|]. split; [done|].
    intros i r Hi. apply (Elog i). by rewrite list_lookup_fmap, Hi.
Qed.

Lemma byte_session_read_back_witness :
  ∃ s' file,
    (byte_InitBuffer true (Some (4096, λ _, Byte.x05)) 3 ;;
     for_each [demo_rec; demo_rec] (byte_WriteRecord (HE := demo_entry) 1) ;;
     byte_StopBuffer (HE := demo_entry) (whole_or_none (HE := demo_entry) (λ _, true))) (mkBY None ∅) = Ret 3 s' ∧
    byte_files s' !! 3 = Some file ∧
    ∀ d, d ∈ declarations → ∃ first log, read_log (HE := demo_entry) d (file ++ [Byte.x00]) = Some (first :: log) ∧
      length log = 2%nat ∧
      ∀ i r, [demo_rec; demo_rec] !! i = Some r →
        ∃ e, log !! i = Some e ∧ record_no_ e = Z.of_nat i + 1 ∧ same_event (view (HE := demo_entry) r) e.
Proof.
  apply (byte_session_read_back demo_entry 1 4096 (λ _, Byte.x05) 3 [demo_rec; demo_rec] (mkBY None ∅) [Byte.x00]);
    [lia|lia|lia|reflexivity|apply lookup_empty| | |vm_compute; reflexivity|apply Nat.ltb_lt; vm_compute; reflexivity].
  - repeat constructor; vm_compute; reflexivity.
  - repeat constructor; vm_compute; reflexivity.
Defined.

(** What a partial [write] does to the log: the rest of the record is dropped, its size is
    not tested, and the next record follows at once, so every later record is read from a
    shifted position. *)
Definition short_first (count : Z) : option nat := if count =? 0 then Some 100%nat else Some (Z.to_nat 368).

Example partial_write_shifts_log :
  match (byte_InitBuffer true (Some (4096, λ _, Byte.x05)) 3 ;;
         for_each [demo_rec; demo_rec] (byte_WriteRecord (HE := demo_entry) 1) ;;
         byte_StopBuffer (HE := demo_entry) short_first) (mkBY None ∅) with
  | Ret n s => (n, length (default [] (byte_files s !! 3)),
                fmap (M := option) (fmap (M := list) record_no_) (read_log (HE := demo_entry) (Record_detect, "mem_op_") (default [] (byte_files s !! 3))))
  | Stop _ _ => (0, 0%nat, None)
  end = (3, 836%nat, Some [84215045; 84215045]).
Proof. vm_compute. reflexivity. Qed.
