(* ===== verification/RawReader.v ===== *)
(** * The reader object of the symbolizer

    [RacezRawReader] of tools/convert.cc as the object it is: with the two [FILE*] members,
    the line buffer, the open files and the heap around them.  Convert.v has what the two
    methods compute; here they run on streams, and the theorems say that they compute that
    and what they leave open or allocated. *)

From S2P Require Import Prelude.
From S2P Require Import Records.
From S2P Require Import Text.
From S2P Require Import Buffer.
From S2P Require Import Layout.
From S2P Require Import LayoutSpec.
From S2P Require Import Convert.
From S2P Require Import ConvertSpec.
From stdpp Require Import base gmap list sets strings.
From coqutil Require Import Byte.

Open Scope Z_scope.

(** ** State *)

(** The members; a [FILE*] is the number of a stream, a [char*] that of a block, and
    [None] is [NULL].  [raw_buffer_] is never used. *)
Record RacezRawReader := mkReader {
  raw_file_ : option Z;
  sym_file_ : option Z;
  raw_buffer_ : option Z;
  sym_buffer_ : option Z;
  buffer_size_ : Z
}.

(** The constructor. *)
Definition new_RacezRawReader : RacezRawReader := mkReader None None None None 0.

(** An open stream: what is left of the file, and the flag of [feof].  [blocks] are the
    allocated blocks with the text in them. *)
Record conv := mkConv {
  reader : RacezRawReader;
  texts : gmap Z (string * bool);
  raws : gmap Z (bytes * bool);
  blocks : gmap Z string;
  functions : list RacezFunctionEntry;
  ip_txt : string
}.

Definition set_reader (f : RacezRawReader → RacezRawReader) (s : conv) : conv :=
  mkConv (f (reader s)) (texts s) (raws s) (blocks s) (functions s) (ip_txt s).
Definition set_texts (v : gmap Z (string * bool)) (s : conv) : conv :=
  mkConv (reader s) v (raws s) (blocks s) (functions s) (ip_txt s).
Definition set_raws (v : gmap Z (bytes * bool)) (s : conv) : conv :=
  mkConv (reader s) (texts s) v (blocks s) (functions s) (ip_txt s).
Definition set_blocks (v : gmap Z string) (s : conv) : conv :=
  mkConv (reader s) (texts s) (raws s) v (functions s) (ip_txt s).
Definition set_functions (v : list RacezFunctionEntry) (s : conv) : conv :=
  mkConv (reader s) (texts s) (raws s) (blocks s) v (ip_txt s).
Definition set_ip_txt (v : string) (s : conv) : conv :=
  mkConv (reader s) (texts s) (raws s) (blocks s) (functions s) v.

Definition set_raw_file (v : option Z) (r : RacezRawReader) : RacezRawReader :=
  mkReader v (sym_file_ r) (raw_buffer_ r) (sym_buffer_ r) (buffer_size_ r).
Definition set_sym_file (v : option Z) (r : RacezRawReader) : RacezRawReader :=
  mkReader (raw_file_ r) v (raw_buffer_ r) (sym_buffer_ r) (buffer_size_ r).
Definition set_sym_buffer (v : option Z) (r : RacezRawReader) : RacezRawReader :=
  mkReader (raw_file_ r) (sym_file_ r) (raw_buffer_ r) v (buffer_size_ r).
Definition set_buffer_size (v : Z) (r : RacezRawReader) : RacezRawReader :=
  mkReader (raw_file_ r) (sym_file_ r) (raw_buffer_ r) (sym_buffer_ r) v.

(** ** The C library *)

(** [fclose] of a stream that is not open is undefined, and so is [free] of a block that
    is not allocated. *)
Definition fclose_text (f : Z) : M conv unit :=
  s ← get; match texts s !! f with Some _ => modify (set_texts (delete f (texts s))) | None => fail Undefined end.
Definition fclose_raw (f : Z) : M conv unit :=
  s ← get; match raws s !! f with Some _ => modify (set_raws (delete f (raws s))) | None => fail Undefined end.
Definition free_block (a : Z) : M conv unit :=
  s ← get; match blocks s !! a with Some _ => modify (set_blocks (delete a (blocks s))) | None => fail Undefined end.

(** ** The methods *)

Definition ReadSymLine : M conv bool :=
  s ← get;
  f ← deref (sym_file_ (reader s));
  match texts s !! f, sym_buffer_ (reader s) with
  | Some (rest, eof), Some ptr =>
      if (eof : bool) then mret false else
      match blocks s !! ptr with
      | None => fail Undefined
      | Some _ =>
          match fgets (Z.to_nat (buffer_size_ (reader s))) rest with
          | None => modify (set_texts (<[f := (rest, true)]> (texts s))) ;; mret false
          | Some (line, rest', eof') =>
              modify (set_texts (<[f := (rest', eof')]> (texts s))) ;;
              modify (λ s, set_blocks (<[ptr := line]> (blocks s)) s) ;;
              c_assert (ends_nl line || eof') ;;
              mret true
          end
      end
  | _, _ => fail Undefined
  end.

Definition CleanUp : M conv unit :=
  s ← get;
  (match sym_file_ (reader s) with
   | Some f => fclose_text f ;; modify (set_reader (set_sym_file None))
   | None => mret tt
   end) ;;
  s ← get;
  match sym_buffer_ (reader s) with
  | Some a => free_block a ;; modify (set_reader (set_buffer_size 0))
  | None => mret tt
  end.

(** [sym_buffer_] as a string *)
Definition sym_line : M conv string :=
  s ← get; a ← deref (sym_buffer_ (reader s)); match blocks s !! a with Some l => mret l | None => fail Undefined end.

(** [while (ReadSymLine())], with the two ways out of [ReadSymFile] behind it. *)
Fixpoint sym_lines (fuel : nat) (first_occ : Z) : M conv bool :=
  match fuel with
  | O => fail OutOfFuel
  | S fuel =>
      more ← ReadSymLine;
      if negb more then CleanUp ;; mret true else
      line ← sym_line;
      if negb (strstr ".symtab" line) && (first_occ =? 0) then sym_lines fuel first_occ
      else if first_occ + 1 <=? 2 then sym_lines fuel (first_occ + 1)
      else
        e ← parse_sym_line line;
        match e with
        | None => CleanUp ;; mret false
        | Some e => modify (λ s, set_functions (functions s ++ [e]) s) ;; sym_lines fuel (first_occ + 1)
        end
  end.

(** [file]: what [fopen] returns and the text of the file; [mem]: what [malloc] returns. *)
Definition reader_ReadSymFile (file : option (Z * string)) (mem : option Z) : M conv bool :=
  s ← get;
  c_assert (match sym_file_ (reader s) with None => true | Some _ => false end) ;;
  match file with
  | None => CleanUp ;; mret false
  | Some (f, text) =>
      modify (λ s, set_texts (<[f := (text, false)]> (texts s)) (set_reader (set_sym_file (Some f)) s)) ;;
      modify (set_reader (set_buffer_size (Z.of_nat SIZE))) ;;
      modify (λ s, set_blocks (match mem with Some a => <[a := EmptyString]> (blocks s) | None => blocks s end)
                     (set_reader (set_sym_buffer mem) s)) ;;
      sym_lines (S (S (String.length text))) 0
  end.

Section raw.
Context `{HE : PebsEntry}.

(** [while(!feof(raw_file_))]; the contents of the block [record] points to are those of the
    last read. *)
Fixpoint raw_records (fuel : nat) : M conv bool :=
  match fuel with
  | O => fail OutOfFuel
  | S fuel =>
      s ← get;
      f ← deref (raw_file_ (reader s));
      match raws s !! f with
      | None => fail Undefined
      | Some (rest, eof) =>
          if (eof : bool) then mret true else
          if (length rest <? sizeof Record_convert)%nat then
            modify (set_raws (<[f := ([], true)]> (raws s))) ;;
            fclose_raw f ;;
            mret true
          else
            modify (set_raws (<[f := (drop (sizeof Record_convert) rest, false)]> (raws s))) ;;
            record ← deref (read_record Record_convert "mem_op_" (take (sizeof Record_convert) rest));
            zoom ip_txt set_ip_txt (WriteRawRecord record) ;;
            raw_records fuel
      end
  end.

Definition reader_ReadRawFile (file : option (Z * bytes)) (mem : option Z) : M conv bool :=
  s ← get;
  c_assert (match raw_file_ (reader s) with None => true | Some _ => false end) ;;
  match file with
  | None => mret false
  | Some (f, raw) =>
      modify (λ s, set_raws (<[f := (raw, false)]> (raws s)) (set_reader (set_raw_file (Some f)) s)) ;;
      a ← deref mem;
      modify (λ s, set_blocks (<[a := EmptyString]> (blocks s)) s) ;;
      raw_records (S (length raw))
  end.
End raw.

(** ** The symbol file *)

Lemma fgets_aux_eof n s l r : fgets_aux n s = (l, r, true) → r = EmptyString.
Proof.
  revert s l. induction n as [|n IH]; intros [|c s] l; simpl; try congruence.
  destruct (decide (c = newline)); [congruence|]. destruct (fgets_aux n s) as [[l' r'] e'] eqn:E.
  intros [= <- -> ->]. by eapply IH.
Qed.

Lemma fgets_progress size s l r e : (2 ≤ size)%nat → fgets size s = Some (l, r, e) →
  (String.length r < String.length s)%nat ∧ (e = true → r = EmptyString).
Proof.
  intros Hs. unfold fgets. destruct (fgets_aux (size - 1) s) as [[l' r'] e'] eqn:E.
  destruct (decide (l' = EmptyString)) as [|Hl]; [done|]. intros [= -> -> ->].
  destruct (fgets_aux_parts _ _ _ _ _ E) as [-> _]. split.
  - rewrite str_length_app. destruct l; [done|]. simpl. lia.
  - intros ->. by eapply fgets_aux_eof.
Qed.

(** [ReadSymFile] is reading from [f] into the block [a]. *)
Record reading (f a : Z) (text : string) (eof : bool) (s : conv) : Prop := {
  rg_file : sym_file_ (reader s) = Some f;
  rg_stream : texts s !! f = Some (text, eof);
  rg_buffer : sym_buffer_ (reader s) = Some a;
  rg_block : is_Some (blocks s !! a);
  rg_size : buffer_size_ (reader s) = Z.of_nat SIZE
}.

(** The file is closed, the buffer is freed, [sym_buffer_] still points to it. *)
Definition released (f a : Z) (v : list RacezFunctionEntry) (s : conv) : conv :=
  mkConv (mkReader (raw_file_ (reader s)) None (raw_buffer_ (reader s)) (Some a) 0)
         (delete f (texts s)) (raws s) (delete a (blocks s)) v (ip_txt s).

Lemma CleanUp_releases f a text eof s :
  reading f a text eof s → CleanUp s = Ret tt (released f a (functions s) s).
Proof.
  intros [Hf Hs Hb [line Hl] _]. unfold CleanUp, fclose_text, free_block. run_m. rewrite Hf. run_m. rewrite Hs. run_m.
  simpl. rewrite Hb. run_m. simpl. rewrite Hl. run_m. unfold released, set_reader, set_sym_file, set_buffer_size. simpl. by rewrite Hb.
Qed.

(** One call of [ReadSymLine], and the line it leaves in the buffer. *)
Definition next_line (f a : Z) (line rest : string) (eof : bool) (s : conv) : conv :=
  set_blocks (<[a := line]> (blocks s)) (set_texts (<[f := (rest, eof)]> (texts s)) s).

Lemma reading_next f a text eof line rest eof' s :
  reading f a text eof s → reading f a rest eof' (next_line f a line rest eof' s).
Proof. intros []. split; simpl; try done; [apply lookup_insert_eq|rewrite lookup_insert_eq; eauto]. Qed.

Lemma released_next f a v line rest eof s : released f a v (next_line f a line rest eof s) = released f a v s.
Proof. unfold released, next_line; simpl. by rewrite !delete_insert_eq. Qed.

Lemma ReadSymLine_spec f a text eof s : reading f a text eof s →
  ReadSymLine s =
    if eof then Ret false s else
    match fgets SIZE text with
    | None => Ret false (set_texts (<[f := (text, true)]> (texts s)) s)
    | Some (line, rest, eof') =>
        if ends_nl line || eof' then Ret true (next_line f a line rest eof' s)
        else Stop AssertFailed (next_line f a line rest eof' s)
    end.
Proof.
  intros [Hf Hs Hb [old Hl] Hz]. unfold ReadSymLine. run_m. rewrite Hf. run_m. rewrite Hs, Hb.
  destruct eof; [done|]. rewrite Hl, Hz, Nat2Z.id. destruct (fgets SIZE text) as [[[line rest] eof']|]; [|done].
  run_m. by destruct (ends_nl line || eof').
Qed.

Lemma sym_line_next f a text eof line rest eof' s : reading f a text eof s →
  sym_line (next_line f a line rest eof' s) = Ret line (next_line f a line rest eof' s).
Proof.
  intros []. unfold sym_line. run_m. simpl. rewrite rg_buffer0. run_m. simpl. by rewrite lookup_insert_eq.
Qed.

(** [parse_sym_line] does not use the state. *)
Definition in_state {S T A} (x : out S A) (t : T) : out T A :=
  match x with Ret a _ => Ret a t | Stop f _ => Stop f t end.

Lemma skip_fields_in_state {S T} n ptr (s : S) (t : T) : skip_fields n ptr t = in_state (skip_fields n ptr s) t.
Proof.
  revert ptr. induction n as [|n IH]; intros ptr; simpl; [done|].
  destruct (strchr space (skip_blanks ptr)) as [[]|]; [apply IH|done].
Qed.

Lemma parse_sym_line_state {S T} line (s : S) (t : T) : parse_sym_line line t = in_state (parse_sym_line line s) t.
Proof.
  unfold parse_sym_line. destruct (strchr space (skip_blanks line)) as [[? ptr]|]; [|done].
  destruct (strchr space ptr) as [[tok ptr']|]; [|done].
  destruct (strchr space (skip_blanks ptr')) as [[tok' ptr'']|]; [|done]. unfold mbind, M_bind.
  rewrite (skip_fields_in_state 4 ptr'' s t). destruct (skip_fields 4 ptr'' s) as [p ?|]; [|done]. simpl.
  by destruct (strchr newline p) as [[]|].
Qed.

(** The loop computes what [sym_loop] computes from the lines, and releases what it
    holds. *)
Lemma sym_lines_spec f a n first_occ text eof s fuel :
  (String.length text < n)%nat → (n < fuel)%nat → (eof = true → text = EmptyString) → reading f a text eof s →
  match sym_loop first_occ (chunks_aux n SIZE text) (functions s) with
  | Ret ok v => sym_lines fuel first_occ s = Ret ok (released f a v s)
  | Stop flt _ => ∃ s', sym_lines fuel first_occ s = Stop flt s'
  end.
Proof.
  revert first_occ text eof s fuel. induction n as [|n IH]; intros first_occ text eof s fuel Hn Hfuel He Hr; [lia|].
  destruct fuel as [|fuel]; [lia|]. cbn [sym_lines]. run_m. rewrite (ReadSymLine_spec _ _ _ _ _ Hr).
  assert (2 ≤ SIZE)%nat as Hsize by (apply Nat.leb_le; vm_compute; reflexivity).
  cbn [chunks_aux]. destruct eof.
  { rewrite (He eq_refl), fgets_empty. cbn. run_m. by rewrite (CleanUp_releases _ _ _ _ _ Hr). }
  destruct (fgets SIZE text) as [[[line rest] eof']|] eqn:Ef; cycle 1.
  { cbn. run_m. rewrite (CleanUp_releases f a text true); [|destruct Hr; split; simpl; try done; apply lookup_insert_eq].
    f_equal. unfold released; simpl. by rewrite delete_insert_eq. }
  destruct (fgets_progress _ _ _ _ _ Hsize Ef) as [Hlen Heof]. cbn [sym_loop]. run_m. unfold c_assert.
  destruct (ends_nl line || eof') eqn:Ea; [|by eexists]. run_m.
  rewrite (sym_line_next f a text false line rest eof' s Hr).
  assert (∀ fo v0, match sym_loop fo (chunks_aux n SIZE rest) v0 with
                   | Ret ok v => sym_lines fuel fo (set_functions v0 (next_line f a line rest eof' s)) =
                                 Ret ok (released f a v s)
                   | Stop flt _ => ∃ s', sym_lines fuel fo (set_functions v0 (next_line f a line rest eof' s)) = Stop flt s'
                   end) as IH'.
  { intros fo v0. pose proof (reading_next f a text false line rest eof' s Hr) as Hr'.
    pose proof (IH fo rest eof' (set_functions v0 (next_line f a line rest eof' s)) fuel ltac:(lia) ltac:(lia) Heof) as H.
    simpl in H. destruct (sym_loop fo _ v0); [rewrite H by (by destruct Hr')|apply H; by destruct Hr'].
    f_equal. unfold released; simpl. by rewrite !delete_insert_eq. }
  pose proof (IH' first_occ (functions s)) as IH1. pose proof (IH' (first_occ + 1) (functions s)) as IH2.
  change (set_functions (functions s) (next_line f a line rest eof' s)) with (next_line f a line rest eof' s) in IH1, IH2.
  destruct (negb (strstr ".symtab" line) && (first_occ =? 0)); [exact IH1|].
  destruct (first_occ + 1 <=? 2); [exact IH2|]. run_m.
  rewrite (parse_sym_line_state line tt (functions s)), (parse_sym_line_state line tt (next_line f a line rest eof' s)).
  destruct (parse_sym_line line tt) as [[e|] []|flt []]; cbn [in_state]; [|run_m|by eexists].
  - run_m. apply IH'.
  - rewrite (CleanUp_releases f a rest eof') by (by eapply reading_next).
    by rewrite released_next.
Qed.

(** ** The raw file *)

Section raw_spec.
Context `{HE : PebsEntry}.
#[local] Arguments sizeof : simpl never.
#[local] Arguments read_record : simpl never.

Lemma raw_records_spec n f raw s :
  (length raw < n)%nat → raw_file_ (reader s) = Some f → raws s !! f = Some (raw, false) →
  ∃ rs, mapM (read_record Record_convert "mem_op_") (fread_all n Record_convert raw) = Some rs ∧
  match for_each rs WriteRawRecord (ip_txt s) with
  | Ret _ out => raw_records n s = Ret true (set_ip_txt out (set_raws (delete f (raws s)) s))
  | Stop _ _ => False
  end.
Proof.
  revert raw s. induction n as [|n IH]; intros raw s Hn Hf Hs; [lia|]. cbn [raw_records fread_all].
  run_m. rewrite Hf. run_m. rewrite Hs. destruct (declaration_layout (Record_convert, "mem_op_") [] ltac:(set_solver)) as (Es & _).
  simpl fst in Es. rewrite Es. pose proof record_size_pos. destruct (Nat.ltb_spec (length raw) record_size).
  - exists []. split; [done|]. simpl. unfold fclose_raw. run_m. simpl. rewrite lookup_insert_eq. run_m.
    f_equal. unfold set_raws, set_ip_txt; simpl. by rewrite delete_insert_eq.
  - set (rec := take record_size raw). assert (length rec = record_size) by (unfold rec; rewrite length_take; lia).
    assert (read_record Record_convert "mem_op_" rec = Some (view rec)) as Er.
    { destruct (declaration_layout (Record_convert, "mem_op_") rec ltac:(set_solver)) as (_ & E & _).
      etrans; [exact E|]. by apply read_record_view. }
    rewrite Er. simpl.
    destruct (IH (drop record_size raw)
                 (set_ip_txt (ip_txt s +:+ (if type_is MEMORY_OP (view rec) then fmt_0x08 (pip_ (op_ (view rec))) +:+ nl
                                            else "invalid" +:+ nl))
                    (set_raws (<[f := (drop record_size raw, false)]> (raws s)) s))) as (rs & Ers & Hrs);
      [rewrite length_drop; lia|done|apply lookup_insert_eq|].
    exists (view rec :: rs). split; [simpl; by rewrite ?Er; simpl; rewrite Ers|]. cbn [for_each]. run_m. simpl in Hrs.
    destruct (for_each rs WriteRawRecord _) as [[] out|]; [|done]. rewrite Hrs. f_equal.
    unfold set_raws, set_ip_txt; simpl. by rewrite delete_insert_eq.
Qed.
End raw_spec.

#[local] Arguments sym_lines : simpl never.
#[local] Arguments raw_records : simpl never.
#[local] Arguments sizeof : simpl never.

(** What [ReadSymFile] leaves when it returns: the file closed, the buffer freed, and
    [sym_buffer_] pointing to where it was. *)
Definition finished (a : Z) (v : list RacezFunctionEntry) (s : conv) : conv :=
  mkConv (mkReader (raw_file_ (reader s)) None (raw_buffer_ (reader s)) (Some a) 0)
         (texts s) (raws s) (blocks s) v (ip_txt s).

Lemma reader_ReadSymFile_spec f a text s :
  sym_file_ (reader s) = None → texts s !! f = None → blocks s !! a = None →
  match ReadSymFile (Some text) (functions s) with
  | Ret ok v => reader_ReadSymFile (Some (f, text)) (Some a) s = Ret ok (finished a v s)
  | Stop flt _ => ∃ s', reader_ReadSymFile (Some (f, text)) (Some a) s = Stop flt s'
  end.
Proof.
  intros Hf Ht Hb. unfold reader_ReadSymFile. run_m. rewrite Hf. run_m.
  match goal with |- context [sym_lines _ _ ?x] => set (s1 := x) end.
  assert (reading f a text false s1) as Hr.
  { split; simpl; try done; [apply lookup_insert_eq|rewrite lookup_insert_eq; eauto]. }
  pose proof (sym_lines_spec f a (S (String.length text)) 0 text false s1 (S (S (String.length text)))
                ltac:(lia) ltac:(lia) ltac:(done) Hr) as H.
  change (functions s1) with (functions s) in H. simpl ReadSymFile. unfold chunks.
  destruct (sym_loop 0 _ (functions s)) as [ok v|]; [|done].
  rewrite H. unfold released, finished. simpl. by rewrite !delete_insert_id.
Qed.

(** ** The properties *)

(** C25: [ReadSymFile] on streams.  With a reader that has no symbol file open, a file that
    can be opened and a buffer that can be allocated, the method computes what
    Convert.v says of the text (the same result and the same functions, or the same
    failed assertion or undefined parse), and whenever it returns, with either result, it
    has closed the file and freed the buffer and nothing else. *)
Theorem symbol_file_released f a text s :
  sym_file_ (reader s) = None → texts s !! f = None → blocks s !! a = None →
  match ReadSymFile (Some text) (functions s) with
  | Ret ok v => ∃ s', reader_ReadSymFile (Some (f, text)) (Some a) s = Ret ok s' ∧
      functions s' = v ∧ texts s' = texts s ∧ blocks s' = blocks s ∧ raws s' = raws s ∧ ip_txt s' = ip_txt s ∧
      sym_file_ (reader s') = None ∧ raw_file_ (reader s') = raw_file_ (reader s)
  | Stop flt _ => ∃ s', reader_ReadSymFile (Some (f, text)) (Some a) s = Stop flt s'
  end.
Proof.
  intros Hf Ht Hb. pose proof (reader_ReadSymFile_spec f a text s Hf Ht Hb) as H.
  destruct (ReadSymFile (Some text) (functions s)) as [ok v|]; [|done]. by exists (finished a v s).
Qed.

Definition demo_conv : conv := mkConv new_RacezRawReader ∅ ∅ ∅ [] EmptyString.

Lemma symbol_file_released_witness :
  ∃ s', reader_ReadSymFile (Some (3, "Symbol table" +:+ nl)) (Some 4096) demo_conv = Ret true s' ∧ texts s' = ∅.
Proof.
  pose proof (symbol_file_released 3 4096 ("Symbol table" +:+ nl) demo_conv eq_refl eq_refl eq_refl) as H.
  assert (ReadSymFile (Some ("Symbol table" +:+ nl)) (functions demo_conv) = Ret true []) as E by (vm_compute; reflexivity).
  rewrite E in H. destruct H as (s' & H & _ & Ht & _). exists s'. split; [exact H|exact Ht].
Defined.

(** C26: [ReadRawFile] on bytes.  Of a log file of complete records and an incomplete rest,
    the method writes for every record what Convert.v says of the record its bytes stand
    for, and closes the file; the block it reads the records into stays allocated, and
    [raw_file_] still points to the closed stream, so that a second call stops at the
    assertion. *)
Theorem raw_file_converted (HE : PebsEntry) f a bs tail s :
  raw_file_ (reader s) = None → raws s !! f = None →
  Forall (λ b, length b = sizeof Record_convert) bs → (length tail < sizeof Record_convert)%nat →
  ∃ s' out, reader_ReadRawFile (Some (f, concat bs ++ tail)) (Some a) s = Ret true s' ∧
    ReadRawFile (Some (view <$> bs)) (ip_txt s) = Ret true out ∧ ip_txt s' = out ∧
    raws s' = raws s ∧ blocks s' = <[a := EmptyString]> (blocks s) ∧ texts s' = texts s ∧
    ∀ file mem, ∃ s'', reader_ReadRawFile file mem s' = Stop AssertFailed s''.
Proof.
  intros Hf Hr Hbs Ht. set (raw := concat bs ++ tail). unfold reader_ReadRawFile. run_m. rewrite Hf. run_m.
  match goal with |- context [raw_records _ ?x] => set (s1 := x) end.
  destruct (raw_records_spec (S (length raw)) f raw s1 ltac:(lia) eq_refl (lookup_insert_eq _ _ _)) as (rs & Ers & H).
  destruct (declaration_layout (Record_convert, "mem_op_") [] ltac:(set_solver)) as (Es & _). simpl fst in Es.
  assert (rs = view <$> bs) as ->.
  { pose proof (read_log_concat (Record_convert, "mem_op_") bs tail ltac:(set_solver)) as E.
    rewrite <- Es in E. specialize (E Hbs Ht). unfold read_log in E. simpl fst in E. simpl snd in E.
    fold raw in E. congruence. }
  change (ip_txt s1) with (ip_txt s) in H.
  destruct (for_each (view <$> bs) WriteRawRecord (ip_txt s)) as [[] out|] eqn:E; [|done].
  eexists _, out. split; [exact H|]. split; [done|]. simpl. rewrite delete_insert_id by done.
  do 4 (split; [done|]). intros file mem. unfold reader_ReadRawFile. run_m. by eexists.
Qed.

Lemma raw_file_converted_witness :
  ∃ s' out, reader_ReadRawFile (HE := demo_entry) (Some (3, concat [replicate 368 Byte.x00] ++ [Byte.x01])) (Some 4096) demo_conv = Ret true s' ∧
    ip_txt s' = out ∧ raws s' = ∅.
Proof.
  destruct (raw_file_converted demo_entry 3 4096 [replicate 368 Byte.x00] [Byte.x01] demo_conv)
    as (s' & out & H1 & _ & H2 & H3 & _);
    [reflexivity|reflexivity|repeat constructor; vm_compute; reflexivity|apply Nat.ltb_lt; vm_compute; reflexivity|].
  exists s', out. split; [exact H1|]. split; [exact H2|exact H3].
Defined.

(** A reader that is used again after its symbol file was read, when the file can no longer
    be opened: [sym_buffer_] was freed but not reset, and [CleanUp] frees it a second
    time. *)
Theorem reused_reader_frees_twice f a text ok s s' mem :
  sym_file_ (reader s) = None → texts s !! f = None → blocks s !! a = None →
  reader_ReadSymFile (Some (f, text)) (Some a) s = Ret ok s' →
  ∃ s'', reader_ReadSymFile None mem s' = Stop Undefined s''.
Proof.
  intros Hf Ht Hb E. pose proof (reader_ReadSymFile_spec f a text s Hf Ht Hb) as H.
  destruct (ReadSymFile (Some text) (functions s)) as [ok' v|]; [|destruct H; congruence].
  rewrite H in E. injection E as _ <-. unfold reader_ReadSymFile, CleanUp, free_block. run_m. simpl.
  rewrite Hb. by eexists.
Qed.
