(* ===== verification/Reader.v ===== *)
(** * The log printer

    tools/read.cc, which prints a binary log as text, and the two printing functions of
    tools/detect.cc.  The functions that print a record work on the text of the standard
    output; the main program also on the bytes of the file. *)

From S2P Require Import Prelude.
From S2P Require Import Records.
From S2P Require Import Text.
From S2P Require Import Convert.
From S2P Require Import ConvertSpec.
From S2P Require Import SampleReader.
From S2P Require Import Layout.
From S2P Require Import LayoutSpec.
From Stdlib Require Import Ascii.
From stdpp Require Import base list sets strings pretty.
From coqutil Require Import Byte.

Open Scope Z_scope.

Definition printf (t : string) : M string unit := modify (λ out, out +:+ t).

(** The first [n] words of an array, each printed with [f]; past the ten elements the
    loop reads out of bounds. *)
Definition print_words (n : Z) (l : list Z) (f : Z → string) : M string unit :=
  if bool_decide (n ≤ Z.of_nat (length l))
  then for_each (take (Z.to_nat n) l) (λ w, printf (f w))
  else for_each l (λ w, printf (f w)) ;; fail OutOfBounds.

Definition record_head (r : RacezRecord) : string :=
  "record no: " +:+ fmt_d (record_no_ r) +:+ ", thread_id = " +:+ fmt_d (thread_id_ r) +:+ " ".

(** The registers, with the separators of the format string. *)
Definition registers (e : pebs_entry) (sep1 sep2 : string) : string :=
  "ip:" +:+ fmt_0x08 (ip e) +:+ ", eax:" +:+ fmt_0x08 (eax e) +:+ ", ebx:" +:+ fmt_0x08 (ebx e) +:+
  ", ecx:" +:+ fmt_0x08 (ecx e) +:+ ", edx:" +:+ fmt_0x08 (edx e) +:+ ", esi:" +:+ fmt_0x08 (esi e) +:+
  ", edi:" +:+ fmt_0x08 (edi e) +:+ ", ebp:" +:+ fmt_0x08 (ebp e) +:+ ",  esp:" +:+ fmt_0x08 (esp e) +:+
  ", r8:" +:+ fmt_0x08 (r8 e) +:+ ", r9:" +:+ fmt_0x08 (r9 e) +:+ ", r10:" +:+ fmt_0x08 (r10 e) +:+ sep1 +:+
  ", r11:" +:+ fmt_0x08 (r11 e) +:+ ", r12:" +:+ fmt_0x08 (r12 e) +:+ ", r13:" +:+ fmt_0x08 (r13 e) +:+
  ", r14:" +:+ fmt_0x08 (r14 e) +:+ ", r15:" +:+ fmt_0x08 (r15 e) +:+ sep2.

Definition unsupported : string := "we did not support other type yet" +:+ nl.

Module Read.

Definition print_memory_op (r : RacezRecord) : M string unit :=
  let o := op_ r in
  printf (record_head r) ;;
  printf "MEMORY_OP " ;;
  printf ("ip:" +:+ fmt_0x08 (pip_ o) +:+ " ") ;;
  printf ("sip:" +:+ fmt_0x08 (sip_ o) +:+ " ") ;;
  printf ("m_addr:" +:+ fmt_0x08 (memory_address_ o) +:+ " ") ;;
  printf (if negb (is_write_ o =? 0) then "WRITE " else "READ ") ;;
  when (negb (ip (mem_op_ o) =? 0)) (printf (registers (mem_op_ o) EmptyString " ")) ;;
  printf "{ " ;;
  print_words (lock_count_ o) (lockset_ o) (λ w, fmt_0x08 w +:+ " ") ;;
  printf "} " ;;
  print_words (trace_depth_ r) (stack_trace_ r) (λ w, fmt_0x08 w +:+ "->") ;;
  printf nl.

(** [size_] is handed to ["%d"] as an [unsigned long long]; on x86-64 the low 32 bits of the
    register are printed, which are those of [size_]. *)
Definition print_record (r : RacezRecord) : M string unit :=
  let o := op_ r in
  if type_is MEMORY_OP r then print_memory_op r
  else if type_is MEMORY_ALLOC r then
    printf (record_head r) ;;
    printf (if negb (is_alloc_ o =? 0) then "MEMORY_ALLOC " else "MEMORY_FREE ") ;;
    printf ("start_address:" +:+ fmt_0x08 (start_address_ o) +:+ " ") ;;
    printf ("size:" +:+ fmt_d (size_ o) +:+ nl) ;;
    printf nl
  else printf unsupported.

(** The program's state: the text on the standard output, and the open file with what is
    left of it and the flag of [feof].  The block the records are read into is overwritten
    by every read that succeeds, and not looked at after one that fails. *)
Record rd := mkRd {
  stdout : string;
  stream : option (bytes * bool)
}.

Definition set_stdout (v : string) (s : rd) : rd := mkRd v (stream s).
Definition set_stream (v : option (bytes * bool)) (s : rd) : rd := mkRd (stdout s) v.

Definition say (t : string) : M rd unit := zoom stdout set_stdout (printf t).

Definition fclose : M rd unit :=
  s ← get; match stream s with Some _ => modify (set_stream None) | None => fail Undefined end.

Definition feof : M rd bool :=
  s ← get; match stream s with Some (_, eof) => mret eof | None => fail Undefined end.

Section main.
Context `{HE : PebsEntry}.

(** [fread(record, sizeof(struct Record), 1, fp)]: the bytes of a record, or [None] when
    fewer are left, in which case the stream is at its end. *)
Definition fread : M rd (option bytes) :=
  s ← get;
  match stream s with
  | None => fail Undefined
  | Some (rest, _) =>
      if (length rest <? sizeof Record_read)%nat
      then modify (set_stream (Some ([], true))) ;; mret None
      else modify (set_stream (Some (drop (sizeof Record_read) rest, false))) ;;
           mret (Some (take (sizeof Record_read) rest))
  end.

(** [while(!feof(fp))] and what follows it; [count++] past the largest [int] is
    undefined. *)
Fixpoint read_loop (fuel : nat) (count : Z) : M rd Z :=
  match fuel with
  | O => fail OutOfFuel
  | S fuel =>
      eof ← feof;
      if (eof : bool) then fclose ;; mret 0 else
      if count =? INT_MAX then fail Undefined else
      let count := count + 1 in
      result ← fread;
      say ("count = " +:+ fmt_d count +:+ nl) ;;
      match result with
      | None => say ("read error" +:+ nl) ;; fclose ;; fail (Exited 0)
      | Some b =>
          record ← deref (read_record Record_read "mem_op_" b);
          zoom stdout set_stdout (print_record record) ;;
          read_loop fuel count
      end
  end.

(** [file]: the bytes of [argv[1]], [None] when it cannot be opened; [mem]: whether
    [malloc] finds memory ([memset] writes to what it returns). *)
Definition read_main (argc : Z) (file : option bytes) (mem : bool) : M rd Z :=
  say ("argc = " +:+ fmt_d argc +:+ nl) ;;
  if argc <? 2 then say ("you must specify a input file" +:+ nl) ;; fail (Exited 0) else
  match file with
  | None => say ("open error" +:+ nl) ;; fail (Exited 0)
  | Some raw =>
      modify (set_stream (Some (raw, false))) ;;
      (if mem then mret tt else fail NullDeref) ;;
      say ("size is " +:+ fmt_d (wrap32 (Z.of_nat (sizeof Record_read))) +:+ nl) ;;
      read_loop (S (length raw)) 0
  end.
End main.
End Read.

(** The printing functions of the detector. *)
Module DetectPrint.

Definition print_simple_record (r : RacezRecord) : M string unit :=
  let o := op_ r in
  if type_is MEMORY_OP r then
    printf (record_head r) ;;
    printf "MEMORY_OP " ;;
    printf ("m_addr:" +:+ fmt_0x08 (memory_address_ o)) ;;
    printf "{ " ;;
    print_words (lock_count_ o) (lockset_ o) (λ w, fmt_0x08 w +:+ " ") ;;
    printf ("}" +:+ nl)
  else printf unsupported.

Definition detect_print_record (r : RacezRecord) : M string unit :=
  let o := op_ r in
  if type_is MEMORY_OP r then
    printf (record_head r) ;;
    printf "MEMORY_OP " ;;
    printf ("m_addr:" +:+ fmt_0x08 (memory_address_ o) +:+ "," +:+ registers (mem_op_ o) nl " ") ;;
    printf "{ " ;;
    print_words (lock_count_ o) (lockset_ o) (λ w, fmt_0x08 w +:+ " ") ;;
    printf ("}" +:+ nl)
  else printf unsupported.
End DetectPrint.

(** ** Facts *)

(** The text of a list of words. *)
Fixpoint words_text (l : list Z) (f : Z → string) : string :=
  match l with [] => EmptyString | w :: l' => f w +:+ words_text l' f end.

Lemma print_words_ok n l f out :
  n ≤ Z.of_nat (length l) →
  print_words n l f out = Ret tt (out +:+ words_text (take (Z.to_nat n) l) f).
Proof.
  intros Hn. unfold print_words. rewrite bool_decide_eq_true_2 by done.
  generalize (take (Z.to_nat n) l) as ws. intros ws. revert out.
  induction ws as [|w ws IH]; intros out; simpl; [by rewrite app_nil_r_str|].
  erewrite bind_Ret by reflexivity. rewrite IH. by rewrite app_assoc_str.
Qed.

(** The array counts of a record are within its arrays. *)
Definition counts_ok (r : RacezRecord) : Prop :=
  type_is MEMORY_OP r = true →
  lock_count_ (op_ r) ≤ Z.of_nat (length (lockset_ (op_ r))) ∧ trace_depth_ r ≤ Z.of_nat (length (stack_trace_ r)).

(** The line [print_record] writes. *)
Definition record_text (r : RacezRecord) : string :=
  let o := op_ r in
  if type_is MEMORY_OP r then
    record_head r +:+ "MEMORY_OP " +:+ "ip:" +:+ fmt_0x08 (pip_ o) +:+ " sip:" +:+ fmt_0x08 (sip_ o) +:+
    " m_addr:" +:+ fmt_0x08 (memory_address_ o) +:+ " " +:+ (if is_write_ o =? 0 then "READ " else "WRITE ") +:+
    (if ip (mem_op_ o) =? 0 then EmptyString else registers (mem_op_ o) EmptyString " ") +:+ "{ " +:+
    words_text (take (Z.to_nat (lock_count_ o)) (lockset_ o)) (λ w, fmt_0x08 w +:+ " ") +:+ "} " +:+
    words_text (take (Z.to_nat (trace_depth_ r)) (stack_trace_ r)) (λ w, fmt_0x08 w +:+ "->") +:+ nl
  else if type_is MEMORY_ALLOC r then
    record_head r +:+ (if is_alloc_ o =? 0 then "MEMORY_FREE " else "MEMORY_ALLOC ") +:+
    "start_address:" +:+ fmt_0x08 (start_address_ o) +:+ " size:" +:+ fmt_d (size_ o) +:+ nl +:+ nl
  else unsupported.

Lemma printf_says t out : printf t out = Ret tt (out +:+ t).
Proof. done. Qed.

Lemma print_record_ok r out : counts_ok r → Read.print_record r out = Ret tt (out +:+ record_text r).
Proof.
  intros Hc. unfold Read.print_record, record_text. destruct (type_is MEMORY_OP r) eqn:Em.
  - destruct (Hc Em) as [Hl Ht]. unfold Read.print_memory_op.
    do 6 rewrite (bind_Ret _ _ _ _ _ (printf_says _ _)). unfold when.
    destruct (ip (mem_op_ (op_ r)) =? 0); simpl; (erewrite bind_Ret by reflexivity);
      rewrite (bind_Ret _ _ _ _ _ (printf_says _ _)), (bind_Ret _ _ _ _ _ (print_words_ok _ _ _ _ Hl)),
        (bind_Ret _ _ _ _ _ (printf_says _ _)), (bind_Ret _ _ _ _ _ (print_words_ok _ _ _ _ Ht)), printf_says;
      f_equal; rewrite !app_assoc_str; by destruct (is_write_ (op_ r) =? 0).
  - destruct (type_is MEMORY_ALLOC r); [|done].
    do 4 rewrite (bind_Ret _ _ _ _ _ (printf_says _ _)). rewrite printf_says. f_equal.
    rewrite !app_assoc_str. by destruct (is_alloc_ (op_ r) =? 0).
Qed.

(** What the tool prints for a log, from the [count]-th read on. *)
Fixpoint log_text (count : Z) (rs : list RacezRecord) : string :=
  "count = " +:+ fmt_d (count + 1) +:+ nl +:+
  match rs with
  | [] => "read error" +:+ nl
  | r :: rs' => record_text r +:+ log_text (count + 1) rs'
  end.

Section loop.
Context `{HE : PebsEntry}.
#[local] Arguments sizeof : simpl never.
#[local] Arguments read_record : simpl never.

Lemma say_says t s : Read.say t s = Ret tt (Read.mkRd (Read.stdout s +:+ t) (Read.stream s)).
Proof. done. Qed.

Lemma zoom_print r s : counts_ok r →
  zoom Read.stdout Read.set_stdout (Read.print_record r) s =
  Ret tt (Read.mkRd (Read.stdout s +:+ record_text r) (Read.stream s)).
Proof. intros Hr. unfold zoom. by rewrite print_record_ok. Qed.

(** Every round but the last uses up the bytes of a record. *)
Lemma read_loop_ok n count raw out :
  (length raw < n)%nat →
  ∃ rs, mapM (read_record Record_read "mem_op_") (fread_all n Record_read raw) = Some rs ∧
    (Forall counts_ok rs → count + Z.of_nat (length rs) < INT_MAX →
     Read.read_loop n count (Read.mkRd out (Some (raw, false))) =
     Stop (Exited 0) (Read.mkRd (out +:+ log_text count rs) None)).
Proof.
  revert count raw out. induction n as [|n IH]; intros count raw out Hn; [lia|]. cbn [fread_all].
  destruct (declaration_layout (Record_read, "mem_op_") (take record_size raw) ltac:(set_solver)) as (Es & El & _).
  simpl fst in Es, El. simpl snd in El. rewrite Es. pose proof record_size_pos as Hpos.
  destruct (Nat.ltb_spec (length raw) record_size) as [Hlt|Hge].
  - exists []. split; [done|]. intros _ Hc. cbn [Read.read_loop length] in *.
    erewrite bind_Ret by reflexivity. rewrite (proj2 (Z.eqb_neq count INT_MAX)) by lia.
    unfold Read.fread. rewrite Es. run_m. rewrite (proj2 (Nat.ltb_lt _ _) Hlt). run_m.
    rewrite !app_assoc_str. done.
  - assert (length (take record_size raw) = record_size) as Hb by (rewrite length_take; lia).
    pose proof (eq_trans El (read_record_view _ Hb)) as Er. clear El.
    set (count' := count + 1).
    destruct (IH count' (drop record_size raw)
                (out +:+ ("count = " +:+ fmt_d count' +:+ nl) +:+ record_text (view (take record_size raw))))
      as (rs & Ers & Hrs); [rewrite length_drop; lia|].
    exists (view (take record_size raw) :: rs). split; [simpl; by rewrite Er; simpl; rewrite Ers|].
    intros [Hr Hrs']%Forall_cons Hc. cbn [Read.read_loop length log_text] in *.
    erewrite bind_Ret by reflexivity. rewrite (proj2 (Z.eqb_neq count INT_MAX)) by lia.
    unfold Read.fread. rewrite Es. erewrite bind_Ret; cycle 1.
    { run_m. rewrite (proj2 (Nat.ltb_ge _ _) Hge). reflexivity. }
    rewrite (bind_Ret _ _ _ _ _ (say_says _ _)), Er. cbn [deref]. erewrite bind_Ret by reflexivity.
    rewrite (bind_Ret _ _ _ _ _ (zoom_print _ _ Hr)). cbn [Read.stdout Read.stream Read.set_stream].
    rewrite !app_assoc_str in *. unfold count' in *. rewrite Hrs by (done || lia). done.
Qed.
End loop.

(** ** The text determines what is shown *)

(** What a line shows of a record; a word is shown as the 64 bits it has. *)
Inductive shown :=
  | ShownAccess (no tid pip sip addr : Z) (write : bool) (regs : option (list Z)) (locks frames : list Z)
  | ShownBlock (no tid : Z) (allocated : bool) (start size : Z)
  | ShownOther.

Definition register_list (e : pebs_entry) : list Z :=
  [ip e; eax e; ebx e; ecx e; edx e; esi e; edi e; ebp e; esp e; r8 e; r9 e; r10 e; r11 e; r12 e; r13 e; r14 e; r15 e].

Definition show (r : RacezRecord) : shown :=
  let o := op_ r in
  if type_is MEMORY_OP r then
    ShownAccess (record_no_ r) (thread_id_ r) (wrap64 (pip_ o)) (wrap64 (sip_ o)) (wrap64 (memory_address_ o))
      (negb (is_write_ o =? 0))
      (if ip (mem_op_ o) =? 0 then None else Some (wrap64 <$> register_list (mem_op_ o)))
      (wrap64 <$> take (Z.to_nat (lock_count_ o)) (lockset_ o))
      (wrap64 <$> take (Z.to_nat (trace_depth_ r)) (stack_trace_ r))
  else if type_is MEMORY_ALLOC r then
    ShownBlock (record_no_ r) (thread_id_ r) (negb (is_alloc_ o =? 0)) (wrap64 (start_address_ o)) (size_ o)
  else ShownOther.

#[local] Arguments fmt_0x08 : simpl never.
#[local] Arguments fmt_d : simpl never.

Lemma lit_cancel (l s t : string) : l +:+ s = l +:+ t → s = t.
Proof. induction l as [|c l IH]; [done|]. rewrite !str_cons_app. intros [= H]. by apply IH. Qed.

(** A text up to its first [c]. *)
Lemma lacks_sep c (p q s t : string) :
  lacks c p → lacks c q → p +:+ String c s = q +:+ String c t → p = q ∧ s = t.
Proof.
  intros Hp Hq E. pose proof (strchr_app c p s Hp) as Ep. rewrite E, strchr_app in Ep by done. by simplify_eq.
Qed.

Lemma fmt_0x08_wrap z : fmt_0x08 (wrap64 z) = fmt_0x08 z.
Proof. unfold fmt_0x08, fmt_x. by rewrite (wrap64_id (wrap64 z)) by apply wrap64_range. Qed.

Lemma fmt_0x08_inj a b : fmt_0x08 a = fmt_0x08 b → wrap64 a = wrap64 b.
Proof.
  rewrite <- (fmt_0x08_wrap a), <- (fmt_0x08_wrap b). unfold fmt_0x08. intros E%lit_cancel.
  rewrite <- (hex_value_fmt (wrap64 a)), <- (hex_value_fmt (wrap64 b)) by apply wrap64_range. by rewrite E.
Qed.

Lemma fmt_d_lacks_all c z : digit_value c = None → lacks c "-" → lacks c (fmt_d z).
Proof.
  intros Hc Hm. destruct (decide (0 ≤ z)); [by apply fmt_d_lacks|]. destruct z as [|q|q]; [lia..|].
  change (fmt_d (Zneg q)) with ("-" +:+ fmt_d (Zpos q)). apply lacks_app. split; [done|]. by apply fmt_d_lacks.
Qed.

(** The first character of a separator, which the printed number lacks. *)
Definition stops (extra l : string) : bool :=
  match l with
  | String c _ => bool_decide (digit_value c = None) && bool_decide (strchr c extra = None)
  | EmptyString => false
  end.

Lemma word_sep a b l s t : stops "0x" l = true →
  fmt_0x08 a +:+ l +:+ s = fmt_0x08 b +:+ l +:+ t → wrap64 a = wrap64 b ∧ s = t.
Proof.
  destruct l as [|c l]; [done|]. intros [Hc%bool_decide_eq_true_1 Hx%bool_decide_eq_true_1]%andb_true_iff.
  rewrite !str_cons_app. intros [E1 E2]%lacks_sep; [|by apply fmt_0x08_lacks..].
  split; [by apply fmt_0x08_inj|by apply lit_cancel in E2].
Qed.

Lemma num_sep a b l s t : stops "-" l = true →
  fmt_d a +:+ l +:+ s = fmt_d b +:+ l +:+ t → a = b ∧ s = t.
Proof.
  destruct l as [|c l]; [done|]. intros [Hc%bool_decide_eq_true_1 Hx%bool_decide_eq_true_1]%andb_true_iff.
  rewrite !str_cons_app. intros [E1 E2]%lacks_sep; [|by apply fmt_d_lacks_all..].
  split; [by apply (inj (pretty (A := Z)))|by apply lit_cancel in E2].
Qed.

(** Words with a separator after each, up to a text that does not start like a word. *)
Lemma words_sep sep e l1 l2 s t :
  stops "0x" sep = true → starts_with "0" e = false → e ≠ EmptyString →
  words_text l1 (λ w, fmt_0x08 w +:+ sep) +:+ e +:+ s = words_text l2 (λ w, fmt_0x08 w +:+ sep) +:+ e +:+ t →
  wrap64 <$> l1 = wrap64 <$> l2 ∧ s = t.
Proof.
  intros Hsep He Hne. destruct e as [|c e]; [done|].
  assert (∀ w x y, String c e +:+ x ≠ fmt_0x08 w +:+ y) as Hd.
  { intros w x y. change (fmt_0x08 w +:+ y) with (String "0"%char (("x" +:+ zeros (8 - String.length (fmt_x w)) +:+ fmt_x w) +:+ y)).
    intros [= -> _]. discriminate He. }
  revert l2. induction l1 as [|a l1 IH]; intros [|b l2]; cbn [words_text]; rewrite ?app_assoc_str.
  - intros E. by apply (lit_cancel (String c e)) in E.
  - by intros H%Hd.
  - by intros H%eq_sym%Hd.
  - intros [Ew E]%word_sep; [|done]. rewrite <- !app_assoc_str in E. rewrite !app_assoc_str in E.
    destruct (IH l2 E) as [El ->]. split; [|done]. cbn [fmap list_fmap]. by f_equal.
Qed.

(** Takes equal texts apart, number by number and literal by literal. *)
Ltac peel H :=
  repeat first
    [ apply word_sep in H as [? H]; [|reflexivity]
    | apply num_sep in H as [? H]; [|reflexivity]
    | apply lit_cancel in H ].

Lemma registers_sep e1 e2 s t :
  registers e1 EmptyString " " +:+ s = registers e2 EmptyString " " +:+ t →
  wrap64 <$> register_list e1 = wrap64 <$> register_list e2 ∧ s = t.
Proof.
  unfold registers. rewrite !app_assoc_str. intros H.
  repeat match type of H with context [EmptyString +:+ ?x] => change (EmptyString +:+ x) with x in H end.
  peel H. unfold register_list. cbn [fmap list_fmap]. split; congruence.
Qed.

Lemma access_sep r1 r2 s t :
  type_is MEMORY_OP r1 = true → type_is MEMORY_OP r2 = true →
  record_text r1 +:+ s = record_text r2 +:+ t → show r1 = show r2 ∧ s = t.
Proof.
  intros T1 T2. unfold record_text, show, record_head. rewrite T1, T2. rewrite !app_assoc_str. intros H.
  peel H. destruct (is_write_ (op_ r1) =? 0), (is_write_ (op_ r2) =? 0); try discriminate H; peel H;
    destruct (ip (mem_op_ (op_ r1)) =? 0), (ip (mem_op_ (op_ r2)) =? 0); try discriminate H;
    try (apply registers_sep in H as [? H]); peel H;
    (apply words_sep in H as [? H]; [|done..]); (apply words_sep in H as [? H]; [|done..]);
    (split; [congruence|done]).
Qed.

Lemma block_sep r1 r2 s t :
  type_is MEMORY_OP r1 = false → type_is MEMORY_OP r2 = false →
  type_is MEMORY_ALLOC r1 = true → type_is MEMORY_ALLOC r2 = true →
  record_text r1 +:+ s = record_text r2 +:+ t → show r1 = show r2 ∧ s = t.
Proof.
  intros T1 T2 A1 A2. unfold record_text, show, record_head. rewrite T1, T2, A1, A2, !app_assoc_str. intros H.
  peel H. destruct (is_alloc_ (op_ r1) =? 0), (is_alloc_ (op_ r2) =? 0); try discriminate H; peel H;
    (split; [congruence|done]).
Qed.

(** The text of a record ends by itself, and shows the record. *)
Lemma record_text_sep r1 r2 s t :
  record_text r1 +:+ s = record_text r2 +:+ t → show r1 = show r2 ∧ s = t.
Proof.
  intros H. destruct (type_is MEMORY_OP r1) eqn:T1, (type_is MEMORY_OP r2) eqn:T2; [by apply access_sep| | |
    destruct (type_is MEMORY_ALLOC r1) eqn:A1, (type_is MEMORY_ALLOC r2) eqn:A2; [by apply block_sep| | |]];
    revert H; unfold record_text, show, record_head; rewrite ?T1, ?T2, ?A1, ?A2; rewrite ?app_assoc_str; intros H.
  - destruct (type_is MEMORY_ALLOC r2); [|discriminate H]. rewrite !app_assoc_str in H. peel H.
    by destruct (is_alloc_ (op_ r2) =? 0).
  - destruct (type_is MEMORY_ALLOC r1); [|discriminate H]. rewrite !app_assoc_str in H. peel H.
    by destruct (is_alloc_ (op_ r1) =? 0).
  - discriminate H.
  - discriminate H.
  - by apply lit_cancel in H.
Qed.

Lemma words_text_fmap sep l :
  words_text l (λ w, fmt_0x08 w +:+ sep) = words_text (wrap64 <$> l) (λ w, fmt_0x08 w +:+ sep).
Proof. induction l as [|w l IH]; [done|]. cbn. by rewrite fmt_0x08_wrap, IH. Qed.

(** The text is a function of what is shown. *)
Definition shown_text (x : shown) : string :=
  match x with
  | ShownAccess no tid pip sip addr write regs locks frames =>
      "record no: " +:+ fmt_d no +:+ ", thread_id = " +:+ fmt_d tid +:+ " " +:+ "MEMORY_OP " +:+ "ip:" +:+ fmt_0x08 pip +:+
      " sip:" +:+ fmt_0x08 sip +:+ " m_addr:" +:+ fmt_0x08 addr +:+ " " +:+ (if write then "WRITE " else "READ ") +:+
      match regs with
      | Some [ip; eax; ebx; ecx; edx; esi; edi; ebp; esp; r8; r9; r10; r11; r12; r13; r14; r15] =>
          registers (mkPebs 0 ip eax ebx ecx edx esi edi ebp esp r8 r9 r10 r11 r12 r13 r14 r15) EmptyString " "
      | _ => EmptyString
      end +:+ "{ " +:+ words_text locks (λ w, fmt_0x08 w +:+ " ") +:+ "} " +:+
      words_text frames (λ w, fmt_0x08 w +:+ "->") +:+ nl
  | ShownBlock no tid allocated start size =>
      "record no: " +:+ fmt_d no +:+ ", thread_id = " +:+ fmt_d tid +:+ " " +:+
      (if allocated then "MEMORY_ALLOC " else "MEMORY_FREE ") +:+
      "start_address:" +:+ fmt_0x08 start +:+ " size:" +:+ fmt_d size +:+ nl +:+ nl
  | ShownOther => unsupported
  end.

Lemma record_text_shown r : record_text r = shown_text (show r).
Proof.
  unfold record_text, show, record_head. destruct (type_is MEMORY_OP r).
  - cbn [shown_text]. rewrite !app_assoc_str, <- !words_text_fmap, !fmt_0x08_wrap.
    destruct (is_write_ (op_ r) =? 0), (ip (mem_op_ (op_ r)) =? 0); cbn [negb register_list fmap list_fmap]; try done;
      unfold registers; cbn; by rewrite !fmt_0x08_wrap.
  - destruct (type_is MEMORY_ALLOC r); [|done]. cbn [shown_text]. rewrite !app_assoc_str, !fmt_0x08_wrap.
    by destruct (is_alloc_ (op_ r) =? 0).
Qed.

Lemma log_text_shown count rs1 rs2 : log_text count rs1 = log_text count rs2 ↔ show <$> rs1 = show <$> rs2.
Proof.
  split.
  - revert count rs2. induction rs1 as [|r1 rs1 IH]; intros count [|r2 rs2]; cbn [log_text]; intros H; do 3 apply lit_cancel in H.
    + done.
    + unfold record_text in H. destruct (type_is MEMORY_OP r2); [discriminate H|].
      destruct (type_is MEMORY_ALLOC r2); discriminate H.
    + unfold record_text in H. destruct (type_is MEMORY_OP r1); [discriminate H|].
      destruct (type_is MEMORY_ALLOC r1); discriminate H.
    + apply record_text_sep in H as [E H]. cbn [fmap list_fmap]. f_equal; [done|]. by eapply IH.
  - revert count rs2. induction rs1 as [|r1 rs1 IH]; intros count [|r2 rs2]; try done.
    cbn [fmap list_fmap log_text]. intros [= E H]. rewrite !record_text_shown, E. by rewrite (IH _ _ H).
Qed.

(** A run of the printer on the file [raw], which holds the records [rs]. *)
Lemma read_main_prints `{HE : PebsEntry} raw rs :
  read_log (Record_read, "mem_op_") raw = Some rs → Forall counts_ok rs → Z.of_nat (length rs) < INT_MAX →
  Read.read_main 2 (Some raw) true (Read.mkRd EmptyString None) =
  Stop (Exited 0)
    (Read.mkRd ("argc = 2" +:+ nl +:+ "size is " +:+ fmt_d (wrap32 (Z.of_nat (sizeof Record_read))) +:+ nl +:+ log_text 0 rs) None).
Proof.
  intros Hrs Hc Hn. unfold Read.read_main. rewrite (bind_Ret _ _ _ _ _ (say_says _ _)).
  change (2 <? 2) with false. cbv iota. erewrite bind_Ret by reflexivity. erewrite bind_Ret by reflexivity.
  rewrite (bind_Ret _ _ _ _ _ (say_says _ _)). cbn [Read.stdout Read.stream Read.set_stream].
  match goal with |- Read.read_loop _ _ {| Read.stdout := ?out |} = _ =>
    destruct (read_loop_ok (S (length raw)) 0 raw out ltac:(lia)) as (rs' & E & ->) end.
  - unfold read_log in Hrs. simpl fst in Hrs. simpl snd in Hrs. simplify_eq. f_equal. f_equal. by rewrite !app_assoc_str.
  - unfold read_log in Hrs. simpl fst in Hrs. simpl snd in Hrs. by simplify_eq.
  - unfold read_log in Hrs. simpl fst in Hrs. simpl snd in Hrs. simplify_eq. lia.
Qed.

(** ** The property *)

(** C35: the printer loses nothing it shows.  Run on a log file whose records keep their
    counts within the two arrays of ten words, the program prints every record in the
    order of the file and then leaves through the branch for a failed read, with the file
    closed, and never through the [return 0] behind the loop: [feof] is set only by the
    read that fails.  Two such files are printed alike exactly when they have the same
    number of records and show the same in each place: the numbers, the instruction
    addresses, the address and the kind of an access, the registers when there are any,
    the locks and the frames up to their counts; the flag, the start and the size of a
    block; and nothing of any other record.  (Fewer than 2^31 - 1 records, memory for the
    record.) *)
Theorem printed_logs_distinguished (HE : PebsEntry) raw1 raw2 rs1 rs2 :
  read_log (Record_read, "mem_op_") raw1 = Some rs1 → read_log (Record_read, "mem_op_") raw2 = Some rs2 →
  Forall counts_ok rs1 → Forall counts_ok rs2 →
  Z.of_nat (length rs1) < INT_MAX → Z.of_nat (length rs2) < INT_MAX →
  ∃ text1 text2,
    Read.read_main 2 (Some raw1) true (Read.mkRd EmptyString None) = Stop (Exited 0) (Read.mkRd text1 None) ∧
    Read.read_main 2 (Some raw2) true (Read.mkRd EmptyString None) = Stop (Exited 0) (Read.mkRd text2 None) ∧
    (text1 = text2 ↔ show <$> rs1 = show <$> rs2).
Proof.
  intros E1 E2 C1 C2 N1 N2. eexists _, _. split; [by apply read_main_prints|]. split; [by apply read_main_prints|].
  rewrite <- (log_text_shown 0). split; [|by intros ->]. intros H. by do 5 apply lit_cancel in H.
Qed.

(** A log of one access: the lock 0x40 held, one frame, and the other nine words of each
    array not shown; and the same access in a log with an incomplete record behind it. *)
Definition demo_log (hidden : byte) (tail : bytes) : bytes :=
  let word (b : byte) := b :: replicate 7 Byte.x00 in
  let int (b : byte) := b :: replicate 3 Byte.x00 in
  int Byte.x05 ++ int Byte.x02 ++ int Byte.x01 ++ int Byte.x00 ++
  word Byte.x10 ++ word Byte.x20 ++ word Byte.x24 ++ int Byte.x01 ++ int hidden ++
  concat (replicate 18 (word Byte.x03)) ++ int Byte.x01 ++ int hidden ++
  word Byte.x40 ++ concat (replicate 9 (word hidden)) ++
  word Byte.x20 ++ concat (replicate 9 (word hidden)) ++ int Byte.x01 ++ int hidden ++ tail.

Definition demo_records : list RacezRecord :=
  default [] (read_log (HE := demo_entry) (Record_read, "mem_op_") (demo_log Byte.x00 [])).

Lemma printed_logs_distinguished_witness :
  ∃ text,
    Read.read_main (HE := demo_entry) 2 (Some (demo_log Byte.x00 [])) true (Read.mkRd EmptyString None) =
      Stop (Exited 0) (Read.mkRd text None) ∧
    Read.read_main (HE := demo_entry) 2 (Some (demo_log Byte.x07 [Byte.x01; Byte.x02])) true (Read.mkRd EmptyString None) =
      Stop (Exited 0) (Read.mkRd text None) ∧
    show <$> demo_records =
      [ShownAccess 5 2 32 36 16 true (Some (replicate 17 3)) [64] [32]].
Proof.
  set (rs2 := default [] (read_log (HE := demo_entry) (Record_read, "mem_op_") (demo_log Byte.x07 [Byte.x01; Byte.x02]))).
  destruct (printed_logs_distinguished demo_entry (demo_log Byte.x00 []) (demo_log Byte.x07 [Byte.x01; Byte.x02]) demo_records rs2)
    as (text1 & text2 & E1 & E2 & H);
    [vm_compute; reflexivity|vm_compute; reflexivity|..].
  1-2: repeat constructor; intros; apply Z.leb_le; vm_compute; reflexivity.
  1-2: apply Z.ltb_lt; vm_compute; reflexivity.
  exists text1. split; [exact E1|]. split; [|vm_compute; reflexivity].
  rewrite E2. f_equal. f_equal. symmetry. apply H. vm_compute. reflexivity.
Defined.
